(** * ArchGuard: the analysis pipeline, embedded and verified

    A shallow embedding of the Go packages [index], [cache], [llm],
    [analysis] and [cli] of ArchGuard, followed by the theorems that settle
    the specification's claims about them.

    Conventions of the embedding.
    - A Go [string] is a Rocq [string] (a sequence of bytes); [len] and
      slicing count bytes.
    - A Go [int] is a [Z] kept in the signed 64-bit range by [wrap_int].
    - [float32] and [float64] are IEEE 754 binary32 and binary64 values of
      [spec_float], computed with the operations of [SpecFloat].
    - A Go [(value, error)] pair is a [result]; a nil error is [None].
    - Functions of Go's standard library and of third-party modules that the
      code calls (encoding/json, path/filepath, regexp, fmt verbs for floats,
      sort.Slice, tiktoken) are fields of type classes, with the laws their
      documentation states; the operating system (files, clock, standard
      output) and the LLM provider are explicit state in a [World]. *)

From Stdlib Require Import ZArith List String Ascii Bool Lia Permutation Sorted.
From Stdlib Require Import SpecFloat DecimalString.
From stdpp Require Import gmap strings.

Import ListNotations.

#[local] Open Scope string_scope.
#[local] Open Scope list_scope.
#[local] Open Scope Z_scope.

(* ===================================================================== *)
(** * Go values                                                            *)
(* ===================================================================== *)

(** Go's [error]: its message. *)
Definition error := string.

(** A [(value, error)] return pair. *)
Inductive result (A : Type) : Type :=
  | Ok (a : A)
  | Err (e : error).
Arguments Ok {A} a.
Arguments Err {A} e.

(** A computation that can hit a run-time panic (slice bounds out of range). *)
Inductive outcome (A : Type) : Type :=
  | Returns (a : A)
  | Panics (msg : string).
Arguments Returns {A} a.
Arguments Panics {A} msg.

Definition outcome_bind {A B} (o : outcome A) (k : A -> outcome B) : outcome B :=
  match o with
  | Returns a => k a
  | Panics m => Panics m
  end.

Notation "'let!' x ':=' o 'in' k" := (outcome_bind o (fun x => k))
  (at level 10, x pattern, o at level 100, k at level 200).

(** Signed 64-bit wrap-around of Go's [int] on the supported platforms. *)
Definition wrap_int (z : Z) : Z := (z + 2 ^ 63) mod 2 ^ 64 - 2 ^ 63.

Definition int_add (a b : Z) : Z := wrap_int (a + b).
Definition int_mul (a b : Z) : Z := wrap_int (a * b).

Definition len (s : string) : Z := Z.of_nat (String.length s).

(** [s[:n]] for [0 <= n <= len s]; the callers check the bounds. *)
Definition slice_to (s : string) (n : Z) : string := substring 0 (Z.to_nat n) s.

(** [s[:n]] with Go's bounds check. *)
Definition slice_to_checked (s : string) (n : Z) : outcome string :=
  if (n <? 0) || (len s <? n) then Panics "slice bounds out of range"
  else Returns (slice_to s n).

Definition nl : string := String (ascii_of_nat 10) EmptyString.
Definition dq : string := String (ascii_of_nat 34) EmptyString.

(** [%d]. *)
Definition fmt_d (z : Z) : string := NilZero.string_of_int (Z.to_int z).

(* ===================================================================== *)
(** * Package strings                                                      *)
(* ===================================================================== *)

Definition strings_HasPrefix (s pre : string) : bool := String.prefix pre s.

Fixpoint Index_from (s substr : string) (i : Z) : Z :=
  if String.prefix substr s then i
  else match s with
       | EmptyString => -1
       | String _ s' => Index_from s' substr (i + 1)
       end.

(** [strings.Index]: byte offset of the first occurrence, or -1. *)
Definition strings_Index (s substr : string) : Z := Index_from s substr 0.

Fixpoint LastIndex_from (s substr : string) (i : Z) : Z :=
  match s with
  | EmptyString => if String.prefix substr EmptyString then i else -1
  | String _ s' =>
      let r := LastIndex_from s' substr (i + 1) in
      if r =? -1 then (if String.prefix substr s then i else -1) else r
  end.

(** [strings.LastIndex]: byte offset of the last occurrence, or -1. *)
Definition strings_LastIndex (s substr : string) : Z := LastIndex_from s substr 0.

Definition strings_Contains (s substr : string) : bool :=
  0 <=? strings_Index s substr.

Fixpoint drop_str (n : nat) (s : string) : string :=
  match n, s with
  | O, _ => s
  | S k, String _ s' => drop_str k s'
  | S _, EmptyString => EmptyString
  end.

Definition strings_HasSuffix (s suf : string) : bool :=
  (String.length suf <=? String.length s)%nat
  && String.eqb (drop_str (String.length s - String.length suf) s) suf.

Definition strings_TrimSuffix (s suf : string) : string :=
  if strings_HasSuffix s suf
  then substring 0 (String.length s - String.length suf) s
  else s.

(** [strings.ReplaceAll] for a non-empty [old]: left to right, without
    overlap. *)
Fixpoint ReplaceAll_fuel (fuel : nat) (s old new : string) : string :=
  match fuel with
  | O => s
  | S k =>
      if String.prefix old s
      then new +:+ ReplaceAll_fuel k (drop_str (String.length old) s) old new
      else match s with
           | EmptyString => EmptyString
           | String c s' => String c (ReplaceAll_fuel k s' old new)
           end
  end.

Definition strings_ReplaceAll (s old new : string) : string :=
  ReplaceAll_fuel (S (String.length s)) s old new.

(** Number of non-overlapping occurrences of a non-empty separator;
    [len(strings.Split(s, sep))] is one more. *)
Fixpoint count_sep (fuel : nat) (s sep : string) : Z :=
  match fuel with
  | O => 0
  | S k =>
      match s with
      | EmptyString => 0
      | String _ s' =>
          if String.prefix sep s
          then 1 + count_sep k (drop_str (String.length sep) s) sep
          else count_sep k s' sep
      end
  end.

Definition len_strings_Split (s sep : string) : Z :=
  1 + count_sep (String.length s) s sep.

(** The UTF-8 encodings of the code points of [unicode.IsSpace]. *)
Definition bytes (l : list nat) : string :=
  string_of_list_ascii (map ascii_of_nat l).

Definition space_runes : list string :=
  map bytes
    ([[9%nat]; [10%nat]; [11%nat]; [12%nat]; [13%nat]; [32%nat];
      [194; 133]%nat; [194; 160]%nat; [225; 154; 128]%nat;
      [226; 128; 168]%nat; [226; 128; 169]%nat; [226; 128; 175]%nat;
      [226; 129; 159]%nat; [227; 128; 128]%nat]
     ++ map (fun k => [226; 128; 128 + k]%nat) (seq 0 11)).

Definition leading_space (s : string) : option string :=
  List.find (fun r => String.prefix r s) space_runes.

Definition trailing_space (s : string) : option string :=
  List.find (fun r => strings_HasSuffix s r) space_runes.

Fixpoint TrimLeft_fuel (fuel : nat) (s : string) : string :=
  match fuel with
  | O => s
  | S k => match leading_space s with
           | Some r => TrimLeft_fuel k (drop_str (String.length r) s)
           | None => s
           end
  end.

Fixpoint TrimRight_fuel (fuel : nat) (s : string) : string :=
  match fuel with
  | O => s
  | S k => match trailing_space s with
           | Some r =>
               TrimRight_fuel k (substring 0 (String.length s - String.length r) s)
           | None => s
           end
  end.

(** [strings.TrimSpace]. *)
Definition strings_TrimSpace (s : string) : string :=
  let s1 := TrimLeft_fuel (String.length s) s in
  TrimRight_fuel (String.length s1) s1.

Example Index_ex : strings_Index "chicken" "ken" = 4. Proof. reflexivity. Qed.
Example Index_absent : strings_Index "chicken" "dmr" = -1. Proof. reflexivity. Qed.
Example LastIndex_ex : strings_LastIndex "go gopher" "go" = 3. Proof. reflexivity. Qed.
Example LastIndex_absent : strings_LastIndex "go gopher" "rodent" = -1.
Proof. reflexivity. Qed.
Example TrimSpace_ex :
  strings_TrimSpace (" " +:+ nl +:+ "Hello, Gophers " +:+ nl) = "Hello, Gophers".
Proof. reflexivity. Qed.
Example ReplaceAll_ex : strings_ReplaceAll "oink oink oink" "oink" "moo" = "moo moo moo".
Proof. reflexivity. Qed.
Example fmt_d_ex : fmt_d 42 = "42" /\ fmt_d (-7) = "-7" /\ fmt_d 0 = "0".
Proof. repeat split. Qed.

(* ===================================================================== *)
(** * Floating point                                                       *)
(* ===================================================================== *)

(** IEEE 754 binary32 and binary64 values; the rounding of every operation
    is the one of [SpecFloat] (to nearest, ties to even). *)
Definition float32 := spec_float.
Definition float64 := spec_float.

Module F32.
Definition prec : Z := 24.
Definition emax : Z := 128.
Definition mul : float32 -> float32 -> float32 := SFmul prec emax.
Definition valid (x : float32) : bool := valid_binary prec emax x.
  (** [m * 2^e], rounded to binary32. *)
Definition of_Z2 (m e : Z) : float32 := binary_normalize prec emax m e false.
End F32.

Module F64.
Definition prec : Z := 53.
Definition emax : Z := 1024.
Definition zero : float64 := S754_zero false.
Definition add : float64 -> float64 -> float64 := SFadd prec emax.
Definition sub : float64 -> float64 -> float64 := SFsub prec emax.
Definition mul : float64 -> float64 -> float64 := SFmul prec emax.
Definition div : float64 -> float64 -> float64 := SFdiv prec emax.
Definition sqrt : float64 -> float64 := SFsqrt prec emax.
Definition abs : float64 -> float64 := SFabs.
  (** Go's [==], [<], [<=] on floats: false as soon as one side is NaN. *)
Definition eqb : float64 -> float64 -> bool := SFeqb.
Definition ltb : float64 -> float64 -> bool := SFltb.
Definition leb : float64 -> float64 -> bool := SFleb.
Definition valid (x : float64) : bool := valid_binary prec emax x.
Definition of_Z2 (m e : Z) : float64 := binary_normalize prec emax m e false.
Definition one : float64 := of_Z2 1 0.
Definition is_nan (x : float64) : bool :=
    match x with S754_nan => true | _ => false end.
  (** The conversion [float64(x)] of a [float32]: exact. *)
Definition of_float32 (x : float32) : float64 :=
    match x with
    | S754_finite s m e => binary_round prec emax s m e
    | _ => x
    end.
End F64.

(* ===================================================================== *)
(** * Package llm: the verdict                                             *)
(* ===================================================================== *)

Module llm_types.
Record AnalysisResult := {
    Violation : bool;
    Reasoning : string;
    QuotedCode : string
  }.
  (** The zero value of [var res AnalysisResult]. *)
Definition zero : AnalysisResult :=
    {| Violation := false; Reasoning := ""; QuotedCode := "" |}.
End llm_types.

(* ===================================================================== *)
(** * sort.Slice                                                           *)
(* ===================================================================== *)

(** [sort.Slice]: sorts in place with the given [less]. Its documentation
    promises a sorted permutation and expressly no stability ("equal
    elements may be reversed from their original order"). *)
Definition strict_weak_order_on {A} (less : A -> A -> bool) (l : list A) : Prop :=
  (forall x, In x l -> less x x = false)
  /\ (forall x y z, In x l -> In y l -> In z l ->
        less x y = true -> less y z = true -> less x z = true)
  /\ (forall x y z, In x l -> In y l -> In z l ->
        less x y = false -> less y x = false ->
        less y z = false -> less z y = false ->
        less x z = false /\ less z x = false).

Class SliceSorter := {
  sort_Slice : forall {A : Type}, (A -> A -> bool) -> list A -> list A;
  sort_Slice_Permutation :
    forall (A : Type) (less : A -> A -> bool) (l : list A),
      Permutation l (sort_Slice less l);
  sort_Slice_sorted :
    forall (A : Type) (less : A -> A -> bool) (l : list A),
      strict_weak_order_on less l ->
      StronglySorted (fun x y => less y x = false) (sort_Slice less l)
}.


(* ===================================================================== *)
(** * crypto/sha256 and encoding/hex                                       *)
(* ===================================================================== *)

(** SHA-256 as FIPS 180-4 defines it, on 32-bit words held in [Z]. The
    round constants and the initial state are computed from the primes, as
    the standard derives them, instead of being tabulated. *)
Module sha256.

Definition w32 (z : Z) : Z := z mod 2 ^ 32.
Definition add32 (a b : Z) : Z := w32 (a + b).
Definition rotr (n x : Z) : Z :=
    Z.lor (Z.shiftr x n) (w32 (Z.shiftl x (32 - n))).
Definition not32 (x : Z) : Z := 2 ^ 32 - 1 - x.

Definition is_prime (n : nat) : bool :=
    (1 <? n)%nat && forallb (fun d => negb (n mod d =? 0)%nat) (seq 2 (n - 2)).

Definition primes64 : list Z :=
    map Z.of_nat (firstn 64 (filter is_prime (seq 2 320))).

  (** Integer cube root, bit by bit from bit [b - 1] down. *)
Fixpoint icbrt_bits (b : nat) (n r : Z) : Z :=
    match b with
    | O => r
    | S k =>
        let c := r + 2 ^ Z.of_nat k in
        icbrt_bits k n (if c * c * c <=? n then c else r)
    end.

Definition frac_sqrt32 (p : Z) : Z := w32 (Z.sqrt (p * 2 ^ 64)).
Definition frac_cbrt32 (p : Z) : Z := w32 (icbrt_bits 40 (p * 2 ^ 96) 0).

Definition K : list Z := Eval vm_compute in map frac_cbrt32 primes64.
Definition H0 : list Z := Eval vm_compute in map frac_sqrt32 (firstn 8 primes64).

Definition Ch (x y z : Z) : Z := Z.lxor (Z.land x y) (Z.land (not32 x) z).
Definition Maj (x y z : Z) : Z :=
    Z.lxor (Z.lxor (Z.land x y) (Z.land x z)) (Z.land y z).
Definition Sigma0 (x : Z) : Z := Z.lxor (Z.lxor (rotr 2 x) (rotr 13 x)) (rotr 22 x).
Definition Sigma1 (x : Z) : Z := Z.lxor (Z.lxor (rotr 6 x) (rotr 11 x)) (rotr 25 x).
Definition sigma0 (x : Z) : Z := Z.lxor (Z.lxor (rotr 7 x) (rotr 18 x)) (Z.shiftr x 3).
Definition sigma1 (x : Z) : Z := Z.lxor (Z.lxor (rotr 17 x) (rotr 19 x)) (Z.shiftr x 10).

  (** Padding: 0x80, zeros up to 56 mod 64, the bit length on 8 bytes. *)
Definition be_bytes (n : nat) (z : Z) : list Z :=
    map (fun i => Z.shiftr z (8 * Z.of_nat (n - 1 - i)) mod 256) (seq 0 n).

Definition pad (msg : list Z) : list Z :=
    let l := Z.of_nat (length msg) in
    let k := (55 - l) mod 64 in
    msg ++ [128] ++ repeat 0 (Z.to_nat k) ++ be_bytes 8 (8 * l).

Fixpoint words_of_bytes (fuel : nat) (bs : list Z) : list Z :=
    match fuel, bs with
    | S k, b0 :: b1 :: b2 :: b3 :: rest =>
        (b0 * 2 ^ 24 + b1 * 2 ^ 16 + b2 * 2 ^ 8 + b3) :: words_of_bytes k rest
    | _, _ => []
    end.

  (** The message schedule, most recent word first. *)
Fixpoint schedule (n : nat) (rev_w : list Z) : list Z :=
    match n with
    | O => rev_w
    | S k =>
        let w := add32 (add32 (sigma1 (nth 1 rev_w 0)) (nth 6 rev_w 0))
                       (add32 (sigma0 (nth 14 rev_w 0)) (nth 15 rev_w 0)) in
        schedule k (w :: rev_w)
    end.

Definition state := (Z * Z * Z * Z * Z * Z * Z * Z)%type.

Definition round (st : state) (kw : Z * Z) : state :=
    let '(a, b, c, d, e, f, g, h) := st in
    let t1 := add32 (add32 (add32 h (Sigma1 e)) (Ch e f g)) (add32 (fst kw) (snd kw)) in
    let t2 := add32 (Sigma0 a) (Maj a b c) in
    (add32 t1 t2, a, b, c, add32 d t1, e, f, g).

Definition compress (st : state) (block : list Z) : state :=
    let w := rev (schedule 48 (rev (words_of_bytes 16 block))) in
    let '(a, b, c, d, e, f, g, h) := fold_left round (combine K w) st in
    let '(a0, b0, c0, d0, e0, f0, g0, h0) := st in
    (add32 a0 a, add32 b0 b, add32 c0 c, add32 d0 d,
     add32 e0 e, add32 f0 f, add32 g0 g, add32 h0 h).

Fixpoint blocks (fuel : nat) (bs : list Z) (st : state) : state :=
    match fuel, bs with
    | S k, _ :: _ => blocks k (skipn 64 bs) (compress st (firstn 64 bs))
    | _, _ => st
    end.

Definition init : state :=
    match H0 with
    | [a; b; c; d; e; f; g; h] => (a, b, c, d, e, f, g, h)
    | _ => (0, 0, 0, 0, 0, 0, 0, 0)
    end.

Definition bytes_of_string (s : string) : list Z :=
    map (fun c => Z.of_nat (nat_of_ascii c)) (list_ascii_of_string s).

Definition string_of_bytes (bs : list Z) : string :=
    string_of_list_ascii (map (fun b => ascii_of_nat (Z.to_nat b)) bs).

  (** [h := sha256.New(); h.Write(msg); h.Sum(nil)]. *)
Definition Sum (msg : string) : string :=
    let bs := pad (bytes_of_string msg) in
    let '(a, b, c, d, e, f, g, h) := blocks (length bs) bs init in
    string_of_bytes (flat_map (be_bytes 4) [a; b; c; d; e; f; g; h]).

End sha256.

Definition hex_digit (n : nat) : ascii :=
  nth n (list_ascii_of_string "0123456789abcdef") "0"%char.

Definition hex_byte (c : ascii) : string :=
  let n := nat_of_ascii c in
  String (hex_digit (n / 16)) (String (hex_digit (n mod 16)) EmptyString).

(** [hex.EncodeToString]. *)
Fixpoint hex_EncodeToString (s : string) : string :=
  match s with
  | EmptyString => EmptyString
  | String c s' => hex_byte c +:+ hex_EncodeToString s'
  end.

Example sha256_abc :
  hex_EncodeToString (sha256.Sum "abc")
  = "ba7816bf8f01cfea414140de5dae2223b00361a396177a9cb410ff61f20015ad".
Proof. vm_compute. reflexivity. Qed.

Example sha256_empty :
  hex_EncodeToString (sha256.Sum "")
  = "e3b0c44298fc1c149afbf4c8996fb92427ae41e4649b934ca495991b7852b855".
Proof. vm_compute. reflexivity. Qed.

Example sha256_two_blocks :
  hex_EncodeToString
    (sha256.Sum "abcdbcdecdefdefgefghfghighijhijkijkljklmklmnlmnomnopnopq")
  = "248d6a61d20638b8e5c026930c3e6039a33ce45964ff2167f6ecedd419db06c1".
Proof. vm_compute. reflexivity. Qed.

(* ===================================================================== *)
(** * The operating system: files                                          *)
(* ===================================================================== *)

(** The file system the process sees: regular files by path, the paths whose
    reads are refused and the paths whose writes (or creation) are refused.
    A refused write may have gone some way: for such a path [torn] gives
    the number of bytes that reach the file before the write fails; a
    refused path without an entry cannot even be opened for writing. *)
Record FS := {
  files : gmap string string;
  unreadable : gset string;
  unwritable : gset string;
  torn : gmap string nat
}.

Definition empty_FS : FS :=
  {| files := ∅; unreadable := ∅; unwritable := ∅; torn := ∅ |}.

Inductive os_result : Type :=
  | OsOk (data : string)
  | OsNotExist (e : error)      (* an error for which [os.IsNotExist] holds *)
  | OsError (e : error).

(** [os.Stat(path)] followed by [os.IsNotExist(err)]. *)
Definition os_Stat_IsNotExist (fs : FS) (path : string) : bool :=
  match files fs !! path with
  | None => true
  | Some _ => false
  end.

Definition os_ReadFile (fs : FS) (path : string) : os_result :=
  match files fs !! path with
  | None => OsNotExist ("open " +:+ path +:+ ": no such file or directory")
  | Some data =>
      if decide (path ∈ unreadable fs)
      then OsError ("open " +:+ path +:+ ": permission denied")
      else OsOk data
  end.

(** [os.WriteFile]: the file is opened (created, truncated), written and
    closed. When it cannot be opened nothing changes; when the write fails
    the file is left with the bytes that were written before. *)
Definition os_WriteFile (fs : FS) (path data : string) : option error * FS :=
  if decide (path ∈ unwritable fs)
  then
    match torn fs !! path with
    | None => (Some ("open " +:+ path +:+ ": permission denied"), fs)
    | Some n =>
        (Some ("write " +:+ path +:+ ": no space left on device"),
         {| files := <[path := substring 0 n data]> (files fs);
            unreadable := unreadable fs;
            unwritable := unwritable fs; torn := torn fs |})
    end
  else (None, {| files := <[path := data]> (files fs);
                 unreadable := unreadable fs;
                 unwritable := unwritable fs; torn := torn fs |}).

Definition os_MkdirAll (fs : FS) (path : string) : option error :=
  if decide (path ∈ unwritable fs)
  then Some ("mkdir " +:+ path +:+ ": permission denied")
  else None.

(* ===================================================================== *)
(** * Libraries the code calls                                             *)
(* ===================================================================== *)

(** encoding/json at the two types the code decodes. [json.Unmarshal(data,
    &v)] writes into an existing [v] and may fail half way, so it takes the
    value it fills. *)
Class encoding_json := {
  json_Marshal_AnalysisResult : llm_types.AnalysisResult -> result string;
  json_Unmarshal_AnalysisResult :
    string -> llm_types.AnalysisResult -> llm_types.AnalysisResult * option error
}.

(** path/filepath and regexp. Every caller drops the error of [Match] and
    [MatchString], so only the boolean is kept. *)
Record WalkVisit := {
  visit_path : string;
  visit_name : string;        (* [info.Name()] *)
  visit_IsDir : bool;
  visit_err : option error
}.

Class path_lib := {
  filepath_Match : string -> string -> bool;
  filepath_Join : list string -> string;
  regexp_MatchString : string -> string -> bool;
  (** The calls [filepath.Walk] makes to its callback, in order, as long as
      the callback returns nil. *)
  filepath_Walk : FS -> string -> list WalkVisit
}.

(** The verbs of fmt that print a float ([%.2f]) and a quoted string ([%q]). *)
Class fmt_lib := {
  fmt_f2 : float64 -> string;
  fmt_q : string -> string
}.

(** github.com/pkoukk/tiktoken-go. *)
Class tiktoken_lib := {
  Tiktoken : Type;
  tiktoken_EncodingForModel : string -> result Tiktoken;
  tiktoken_GetEncoding : string -> result Tiktoken;
  tkm_Encode : Tiktoken -> string -> list Z;
  tkm_Decode : Tiktoken -> list Z -> string
}.

(** [context.Context]: the instant (on the clock of the [World]) at which
    [Done()] is closed, if ever, and what [Err()] then says. *)
Record Context := {
  done_at : option Z;
  done_err : error
}.

Definition context_Background : Context :=
  {| done_at := None; done_err := "" |}.

(** The [llm.Provider] interface. A provider has state of its own (a remote
    service, a counter in a test double), so each call returns the next
    state. *)
Class Provider (P : Type) := {
  CreateEmbedding : P -> Context -> string -> result (list float32) * P;
  Chat : P -> Context -> string -> string -> result string * P
}.

(** What a run does to the outside, recorded for the statements about
    calls that are or are not made. *)
Inductive Event : Type :=
  | EvCreateEmbedding (text : string)
  | EvSearch (topK : Z)
  | EvAnalyzeDrift (adrContent filename : string)
  | EvChat (systemPrompt userPrompt : string)
  | EvSleep (d : Z).

Record World (P : Type) := {
  provider : P;
  fs : FS;
  clock : Z;             (* nanoseconds *)
  stdout : string;
  trace : list Event     (* oldest first *)
}.
Arguments provider {P} w.
Arguments fs {P} w.
Arguments clock {P} w.
Arguments stdout {P} w.
Arguments trace {P} w.

Section WorldOps.
  Context {P : Type}.

Definition emit (ev : Event) (w : World P) : World P :=
    {| provider := provider w; fs := fs w; clock := clock w;
       stdout := stdout w; trace := trace w ++ [ev] |}.

  (** [fmt.Print]. *)
Definition print (s : string) (w : World P) : World P :=
    {| provider := provider w; fs := fs w; clock := clock w;
       stdout := stdout w +:+ s; trace := trace w |}.

Definition set_provider (p : P) (w : World P) : World P :=
    {| provider := p; fs := fs w; clock := clock w;
       stdout := stdout w; trace := trace w |}.

Definition set_fs (f : FS) (w : World P) : World P :=
    {| provider := provider w; fs := f; clock := clock w;
       stdout := stdout w; trace := trace w |}.

Definition set_clock (t : Z) (w : World P) : World P :=
    {| provider := provider w; fs := fs w; clock := t;
       stdout := stdout w; trace := trace w |}.
End WorldOps.

(* ===================================================================== *)
(** * Package index                                                        *)
(* ===================================================================== *)

Module index.


Record ADR := {
    ID : string;
    Title : string;
    Status : string;
    Scope : string;
    Content : string;
    Embedding : list float32;
    RelPath : string
  }.

Record Store := {
    ADRs : list ADR;
    Hash : string;
    ModelName : string;
    Dim : Z
  }.

Definition NewStore : Store :=
    {| ADRs := []; Hash := ""; ModelName := ""; Dim := 0 |}.

  (** [SearchResult]; [ADRptr] is the record [&s.ADRs[i]] points to (the
      store is not written while it is searched). *)
Record SearchResult := {
    ADRptr : ADR;
    Score : float64
  }.

  (** [json.Unmarshal(data, s)] into a [*Store]. *)
Class json_Store := {
    json_Unmarshal_Store : string -> Store -> Store * option error
  }.

  (** The accumulation loop of [cosineSimilarity], entered with equal
      lengths: [(dotProduct, normA, normB)]. *)
Fixpoint cosine_loop (a b : list float32) (acc : float64 * float64 * float64)
    : float64 * float64 * float64 :=
    match a, b with
    | x :: a', y :: b' =>
        let '(dotProduct, normA, normB) := acc in
        cosine_loop a' b'
          (F64.add dotProduct (F64.of_float32 (F32.mul x y)),
           F64.add normA (F64.of_float32 (F32.mul x x)),
           F64.add normB (F64.of_float32 (F32.mul y y)))
    | _, _ => acc
    end.

Definition cosineSimilarity (a b : list float32) : float64 :=
    if negb (length a =? length b)%nat then F64.zero
    else
      let '(dotProduct, normA, normB) :=
        cosine_loop a b (F64.zero, F64.zero, F64.zero) in
      if F64.eqb normA F64.zero || F64.eqb normB F64.zero then F64.zero
      else F64.div dotProduct (F64.mul (F64.sqrt normA) (F64.sqrt normB)).

  (** The first loop of [Search]: the hits at or above the threshold, in
      index order. *)
Fixpoint collect (queryEmbedding : list float32) (threshold : float64)
      (adrs : list ADR) : list SearchResult :=
    match adrs with
    | [] => []
    | adr :: rest =>
        let score := cosineSimilarity queryEmbedding (Embedding adr) in
        if F64.leb threshold score
        then {| ADRptr := adr; Score := score |} :: collect queryEmbedding threshold rest
        else collect queryEmbedding threshold rest
    end.

  (** The [less] of the call to [sort.Slice]. *)
Definition by_score_desc (x y : SearchResult) : bool :=
    F64.ltb (Score y) (Score x).

Definition Search `{SliceSorter} (s : Store) (queryEmbedding : list float32)
      (threshold : float64) (topK : Z) : outcome (list SearchResult) :=
    let results := collect queryEmbedding threshold (ADRs s) in
    let results := sort_Slice by_score_desc results in
    if Z.of_nat (length results) >? topK
    then (if topK <? 0 then Panics "slice bounds out of range"
          else Returns (firstn (Z.to_nat topK) results))
    else Returns results.

  (** ** store.go *)

  Section WithLibs.
    Context `{json_Store} `{path_lib} `{fmt_lib}.

    (** The callback of the walk of [CalculateHash], over the visits; the
        bytes written to the hasher so far are threaded through. *)
Fixpoint CalculateHash_walk (fs : FS) (visits : list WalkVisit)
        (written : string) : string * option error :=
      match visits with
      | [] => (written, None)
      | v :: rest =>
          match visit_err v with
          | Some err => (written, Some err)
          | None =>
              if negb (visit_IsDir v) && strings_HasSuffix (visit_name v) ".md"
              then
                let written := written +:+ visit_name v in
                let written :=
                  match os_ReadFile fs (visit_path v) with
                  | OsOk content => written +:+ content
                  | _ => written
                  end in
                CalculateHash_walk fs rest written
              else CalculateHash_walk fs rest written
          end
      end.

Definition CalculateHash (fs : FS) (dirPath modelName : string)
      : string * option error :=
      let '(written, err) :=
        CalculateHash_walk fs (filepath_Walk fs dirPath) modelName in
      (hex_EncodeToString (sha256.Sum written), err).

Definition mismatch_reasons (s : Store) (modelName : string) (dim : Z)
        (currentHash : string) : list string :=
      (if negb (String.eqb (ModelName s) modelName)
       then ["Model mismatch (Saved: " +:+ fmt_q (ModelName s) +:+ ", Config: "
               +:+ fmt_q modelName +:+ ")"]
       else [])
      ++ (if negb (Dim s =? dim)
          then ["Dimension mismatch (Saved: " +:+ fmt_d (Dim s) +:+ ", Config: "
                  +:+ fmt_d dim +:+ ")"]
          else [])
      ++ (if negb (String.eqb (Hash s) currentHash)
          then ["Hash mismatch" +:+ nl +:+ "    Saved:   " +:+ Hash s +:+ nl
                  +:+ "    Current: " +:+ currentHash]
          else []).

    (** [Load]: the error and the store as [json.Unmarshal] left it. *)
Definition Load (s : Store) (fs : FS) (path modelName : string) (dim : Z)
        (currentHash : string) : option error * Store :=
      match os_ReadFile fs path with
      | OsNotExist _ => (None, s)
      | OsError err => (Some err, s)
      | OsOk data =>
          match json_Unmarshal_Store data s with
          | (s, Some err) => (Some err, s)
          | (s, None) =>
              if negb (String.eqb (ModelName s) modelName)
                 || negb (Dim s =? dim)
                 || negb (String.eqb (Hash s) currentHash)
              then
                (Some ("index metadata mismatch:" +:+ nl +:+ "  "
                       +:+ String.concat (nl +:+ "  ")
                             (mismatch_reasons s modelName dim currentHash)), s)
              else (None, s)
          end
      end.
  End WithLibs.
End index.

(* ===================================================================== *)
(** * Package cache                                                        *)
(* ===================================================================== *)

Module cache.
  Import llm_types.

Record Cache := { Dir : string }.

  Section WithLibs.
    Context `{encoding_json} `{path_lib}.

Definition NewCache (fs : FS) (projectRoot : string) : result Cache :=
      let cacheDir := filepath_Join [projectRoot; ".archguard"; "cache"] in
      match os_MkdirAll fs cacheDir with
      | Some err => Err ("failed to create cache dir: " +:+ err)
      | None => Ok {| Dir := cacheDir |}
      end.

    (** [Get]: the verdict (nil when absent), [found], and the error. *)
Definition Get (c : Cache) (fs : FS) (key : string)
      : option AnalysisResult * bool * option error :=
      let path := filepath_Join [Dir c; key +:+ ".json"] in
      if os_Stat_IsNotExist fs path then (None, false, None)
      else
        match os_ReadFile fs path with
        | OsNotExist err | OsError err => (None, false, Some err)
        | OsOk data =>
            match json_Unmarshal_AnalysisResult data zero with
            | (_, Some err) => (None, false, Some err)
            | (res, None) => (Some res, true, None)
            end
        end.

Definition Put (c : Cache) (fs : FS) (key : string) (res : AnalysisResult)
      : option error * FS :=
      let path := filepath_Join [Dir c; key +:+ ".json"] in
      match json_Marshal_AnalysisResult res with
      | Err err => (Some err, fs)
      | Ok data => os_WriteFile fs path data
      end.
  End WithLibs.

  (** The bytes written to the hash, in order. *)
Definition key_material
      (modelName adrContent fileContent systemPrompt userPromptTemplate : string)
    : string :=
    modelName +:+ "||" +:+ adrContent +:+ "||" +:+ fileContent +:+ "||"
      +:+ systemPrompt +:+ "||" +:+ userPromptTemplate.

Definition ComputeAnalysisKey
      (modelName adrContent fileContent systemPrompt userPromptTemplate : string)
    : string :=
    hex_EncodeToString
      (sha256.Sum (key_material modelName adrContent fileContent
                                systemPrompt userPromptTemplate)).
End cache.

(* ===================================================================== *)
(** * Package llm                                                          *)
(* ===================================================================== *)

Module llm.
  Export llm_types.

Definition join_lines (ls : list string) : string :=
    String.concat nl ls.

Definition DefaultSystemPrompt : string :=
    join_lines
      ["You are a literal-minded Architectural Compliance Auditor.";
       "Your ONLY task is to identify direct contradictions between the provided Code and the mandatory 'Decision' section of the ADR.";
       "";
       "CRITICAL GUIDELINES:";
       "1. COMPLIANCE IS NOT A VIOLATION: If the code follows the rule (e.g. ADR says "
         +:+ dq +:+ "Use Go" +:+ dq +:+ " and code is Go), it is NOT a violation.";
       "2. NO INFERENCE: Do not assume " +:+ dq +:+ "intent." +:+ dq
         +:+ " If the ADR says " +:+ dq +:+ "Use Go" +:+ dq
         +:+ " and the code is Go, it is a PASS.";
       "3. NO STYLE NITS: Do not flag unidiomatic code unless the ADR explicitly forbids it.";
       "4. FALSE BY DEFAULT: If you cannot find a clear, literal contradiction, "
         +:+ dq +:+ "violation" +:+ dq +:+ " MUST be false."].

  (** [ChatPrompt] has three [%s]; these are the four pieces around them. *)
Definition ChatPrompt_0 : string :=
    join_lines ["### INPUT DATA"; "File Path: "].
Definition ChatPrompt_1 : string :=
    join_lines [""; ""; "<adr_content>"; ""].
Definition ChatPrompt_2 : string :=
    join_lines [""; "</adr_content>"; ""; "<code_context>"; ""].
Definition ChatPrompt_3 : string :=
    join_lines
      [""; "</code_context>"; "";
       "### TASK";
       "Does the code_context literally violate the 'Decision' section of the ADR?";
       "";
       "### LOGICAL STEPS:";
       "1. Identify the literal requirement in the ADR.";
       "2. Identify the actual implementation in the code_context.";
       "3. If they match or don't explicitly contradict, violation is false.";
       "";
       "### OUTPUT FORMAT (JSON ONLY)";
       "{";
       "  " +:+ dq +:+ "violation" +:+ dq +:+ ": bool,";
       "  " +:+ dq +:+ "reasoning" +:+ dq +:+ ": " +:+ dq
         +:+ "Single sentence explaining the contradiction." +:+ dq +:+ ",";
       "  " +:+ dq +:+ "quoted_code" +:+ dq +:+ ": " +:+ dq
         +:+ "The snippet breaking the rule." +:+ dq;
       "}"].

Definition ChatPrompt : string :=
    ChatPrompt_0 +:+ "%s" +:+ ChatPrompt_1 +:+ "%s" +:+ ChatPrompt_2 +:+ "%s"
      +:+ ChatPrompt_3.

  (** [fmt.Sprintf(ChatPrompt, a, b, c)]. *)
Definition Sprintf_ChatPrompt (a b c : string) : string :=
    ChatPrompt_0 +:+ a +:+ ChatPrompt_1 +:+ b +:+ ChatPrompt_2 +:+ c
      +:+ ChatPrompt_3.

Definition EscapePromptDelimiter (input : string) : string :=
    let s := strings_ReplaceAll input "</adr_content>" "[ADR_END]" in
    let s := strings_ReplaceAll s "</code_context>" "[CODE_END]" in
    strings_ReplaceAll s "```" "'''".

Definition GetAnalyzeDriftPrompt (adrContent codeContext filename : string)
    : string :=
    let safeADR := EscapePromptDelimiter adrContent in
    let safeCode := EscapePromptDelimiter codeContext in
    Sprintf_ChatPrompt filename safeADR safeCode.

Definition CleanJSON (input : string) : string :=
    let input := strings_TrimSpace input in
    let start := strings_Index input "{" in
    let end_ := strings_LastIndex input "}" in
    if negb (start =? -1) && negb (end_ =? -1) && (end_ >? start)
    then substring (Z.to_nat start) (Z.to_nat (end_ + 1 - start)) input
    else input.

Definition maxRetries : Z := 3.
Definition Second : Z := 1000000000.

  (** [%w] of an error that may be nil. *)
Definition fmt_w (e : option error) : string :=
    match e with
    | Some m => m
    | None => "%!w(<nil>)"
    end.

  Section WithProvider.
    Context {P : Type} `{Provider P} `{encoding_json}.

    (** The [select] between [ctx.Done()] and [time.After(backoff)], entered
        at [clock w]. The context wins when it is done no later than the
        instant the timer fires; otherwise the wait lasts [backoff]. *)
Definition select_backoff (ctx : Context) (backoff : Z) (w : World P)
      : bool * World P :=
      match done_at ctx with
      | Some t =>
          if t <=? clock w + backoff
          then (true, set_clock (Z.max (clock w) t) w)
          else (false, emit (EvSleep backoff) (set_clock (clock w + backoff) w))
      | None => (false, emit (EvSleep backoff) (set_clock (clock w + backoff) w))
      end.

    (** The loop [for i := 0; i <= maxRetries; i++], with [fuel] iterations
        left. *)
Fixpoint AnalyzeDrift_loop (fuel : nat) (i : Z) (backoff : Z)
        (lastErr : option error) (ctx : Context) (systemPrompt prompt : string)
        (w : World P) : result AnalysisResult * World P :=
      match fuel with
      | O =>
          (Err ("analysis failed after " +:+ fmt_d maxRetries +:+ " retries: "
                +:+ fmt_w lastErr), w)
      | S fuel' =>
          let '(cancelled, backoff, w) :=
            if i >? 0
            then (let '(c, w') := select_backoff ctx backoff w in
                  (c, (if c then backoff else int_mul backoff 2), w'))
            else (false, backoff, w) in
          if cancelled then (Err (done_err ctx), w)
          else
            let '(r, p') := Chat (provider w) ctx systemPrompt prompt in
            let w := set_provider p' (emit (EvChat systemPrompt prompt) w) in
            match r with
            | Err err =>
                AnalyzeDrift_loop fuel' (i + 1) backoff (Some err) ctx
                  systemPrompt prompt w
            | Ok raw =>
                let cleaned := CleanJSON raw in
                match json_Unmarshal_AnalysisResult cleaned zero with
                | (res, None) => (Ok res, w)
                | (res, Some _) =>
                    match json_Unmarshal_AnalysisResult raw res with
                    | (res, None) => (Ok res, w)
                    | (_, Some err2) =>
                        AnalyzeDrift_loop fuel' (i + 1) backoff
                          (Some ("invalid json from provider: " +:+ err2)) ctx
                          systemPrompt prompt w
                    end
                end
            end
      end.

Definition AnalyzeDrift (ctx : Context)
        (adrContent codeContext filename systemPrompt : string) (w : World P)
      : result AnalysisResult * World P :=
      let prompt := GetAnalyzeDriftPrompt adrContent codeContext filename in
      AnalyzeDrift_loop (Z.to_nat (maxRetries + 1)) 0 (2 * Second) None ctx
        systemPrompt prompt (emit (EvAnalyzeDrift adrContent filename) w).
  End WithProvider.
End llm.

(* ===================================================================== *)
(** * Package config                                                       *)
(* ===================================================================== *)

Module config.
Record LLMConfig := {
    Provider : string;
    Model : string;
    BaseURL : string;
    MaxTokens : Z;
    Temperature : float64;
    SystemPrompt : string
  }.

Record VectorStore := {
    VS_Provider : string;
    VS_Model : string;
    EmbeddingDim : Z;
    SimilarityThreshold : float64
  }.

Record Analysis := {
    ADRPath : string;
    AcceptedStatuses : list string;
    ExcludePatterns : list string;
    MaxConcurrency : Z
  }.

Record Config := {
    Version : string;
    LLM : LLMConfig;
    VectorStore_ : VectorStore;
    Analysis_ : Analysis;
    IndexFile : string
  }.
End config.

(* ===================================================================== *)
(** * Package analysis                                                     *)
(* ===================================================================== *)

(** The [ContentProvider] interface. The providers of the package read the
    work tree, so the methods see the file system. *)
Class ContentProvider (C : Type) := {
  GetFiles : C -> FS -> result (list string);
  GetContent : C -> FS -> string -> result string;
  GetDiff : C -> FS -> string -> result string
}.

(** Package git: each function runs a [git] subprocess; what it returns is
    the environment's. *)
Class git_lib := {
  git_GetStagedFiles : result (list string);
  git_GetUncommittedFiles : result (list string);
  git_GetAllTrackedFiles : result (list string);
  git_GetStagedFileContent : string -> result string;
  git_GetStagedDiff : string -> result string;
  git_GetWorktreeDiff : string -> result string
}.

Module analysis.
  Import llm_types.

  (** ** provider.go *)

  (** The four providers of the package, as the one type of the interface
      values [runCheck] builds. *)
Inductive FileProvider : Type :=
    | UncommittedProvider
    | StagedProvider
    | AllProvider
    | SingleFileProvider (Path : string).

  (** [os.ReadFile(path)] and [string(b)]. *)
Definition read_worktree (fs : FS) (path : string) : result string :=
    match os_ReadFile fs path with
    | OsOk b => Ok b
    | OsNotExist err | OsError err => Err err
    end.

#[export] Instance FileProvider_ContentProvider `{git_lib}
    : ContentProvider FileProvider := {
    GetFiles p _ :=
      match p with
      | UncommittedProvider => git_GetUncommittedFiles
      | StagedProvider => git_GetStagedFiles
      | AllProvider => git_GetAllTrackedFiles
      | SingleFileProvider path => Ok [path]
      end;
    GetContent p fs path :=
      match p with
      | StagedProvider => git_GetStagedFileContent path
      | _ => read_worktree fs path
      end;
    GetDiff p _ path :=
      match p with
      | StagedProvider => git_GetStagedDiff path
      | _ => git_GetWorktreeDiff path
      end
  }.

  (** ** glob.go *)

Definition is_regex_meta (c : ascii) : bool :=
    existsb (Ascii.eqb c) (list_ascii_of_string ".+()|^$[]{}\").

  (** The body of the loop of [matchRegexGlob]: the regular expression built
      from the pattern, without the anchors. *)
Fixpoint glob_regex (pattern : string) : string :=
    match pattern with
    | EmptyString => EmptyString
    | String c rest =>
        if Ascii.eqb c "*" then
          match rest with
          | String c' rest' =>
              if Ascii.eqb c' "*" then ".*" +:+ glob_regex rest'
              else "[^/]*" +:+ glob_regex rest
          | EmptyString => "[^/]*"
          end
        else if Ascii.eqb c "?" then "[^/]" +:+ glob_regex rest
        else if is_regex_meta c then String "\" (String c (glob_regex rest))
        else String c (glob_regex rest)
    end.

  Section Glob.
    Context `{path_lib}.

Definition matchRegexGlob (pattern name : string) : bool :=
      regexp_MatchString ("^" +:+ glob_regex pattern +:+ "$") name.

Definition matchGlob (pattern name : string) : bool :=
      if negb (strings_Contains pattern "**") then filepath_Match pattern name
      else matchRegexGlob pattern name.
  End Glob.

  (** ** engine.go *)

  (** [Engine]. The [Provider] field is the provider state of the [World]. *)
Record Engine (C : Type) := {
    Config : config.Config;
    Store : index.Store;
    Content : C;
    Debug : bool;
    CI : bool;
    Cache : option cache.Cache
  }.
  Arguments Config {C} e.
  Arguments Store {C} e.
  Arguments Content {C} e.
  Arguments Debug {C} e.
  Arguments CI {C} e.
  Arguments Cache {C} e.

Definition findLineNumber (content quote : string) : Z :=
    if String.eqb quote "" then 0
    else
      let idx := strings_Index content quote in
      if idx =? -1 then 0
      else len_strings_Split (slice_to content idx) nl.

  Section WithLibs.
    Context {P C : Type} `{Provider P} `{ContentProvider C}.
    Context `{encoding_json} `{path_lib} `{fmt_lib} `{tiktoken_lib} `{SliceSorter}.

Definition NewEngine (cfg : config.Config) (store : index.Store)
        (content : C) (debug ci : bool) (fs0 : FS) : Engine C :=
      {| Config := cfg; Store := store; Content := content;
         Debug := debug; CI := ci;
         Cache := match cache.NewCache fs0 "." with
                  | Ok c => Some c
                  | Err _ => None
                  end |}.

    (** [Log]: straight to standard output, in debug mode only. *)
Definition Log (e : Engine C) (msg : string) (w : World P) : World P :=
      if Debug e then print ("[DEBUG] " +:+ msg +:+ nl) w else w.

Fixpoint shouldExclude_loop (patterns : list string) (path : string) : bool :=
      match patterns with
      | [] => false
      | pattern :: rest =>
          if filepath_Match pattern path then true
          else if strings_Contains pattern "**"
                  && strings_HasPrefix path (strings_TrimSuffix pattern "**")
               then true
               else shouldExclude_loop rest path
      end.

Definition shouldExclude (e : Engine C) (path : string) : bool :=
      shouldExclude_loop (config.ExcludePatterns (config.Analysis_ (Config e))) path.

Definition getTokenizer (e : Engine C) : result Tiktoken :=
      let model := config.Model (config.LLM (Config e)) in
      let model := if String.eqb model "" then "gpt-3.5-turbo" else model in
      match tiktoken_EncodingForModel model with
      | Err _ => tiktoken_GetEncoding "cl100k_base"
      | Ok tkm => Ok tkm
      end.

    (** [tokenIds[:n]]. *)
Definition tokens_to (tokenIds : list Z) (n : Z) : outcome (list Z) :=
      if (n <? 0) || (Z.of_nat (length tokenIds) <? n)
      then Panics "slice bounds out of range"
      else Returns (firstn (Z.to_nat n) tokenIds).

    (** The "smart truncate" of [fetchContext]. *)
Definition rollback_to_newline (truncatedContent : string) : string :=
      let lastNewline := strings_LastIndex truncatedContent nl in
      if negb (lastNewline =? -1) then slice_to truncatedContent (lastNewline + 1)
      else truncatedContent.

    (** [fetchContext]: [(content, mode, err)]. *)
Definition fetchContext (e : Engine C) (path : string) (w : World P)
      : outcome (string * string * option error * World P) :=
      let maxTokens := config.MaxTokens (config.LLM (Config e)) in
      let maxTokens := if maxTokens =? 0 then 8000 else maxTokens in
      match GetContent (Content e) (fs w) path with
      | Err err => Returns ("", "", Some err, w)
      | Ok fullContent =>
          match getTokenizer e with
          | Err err =>
              let w := Log e ("Tokenizer initialization failed: " +:+ err) w in
              if len fullContent >? int_mul maxTokens 4 then
                let! cut := slice_to_checked fullContent (int_mul maxTokens 4) in
                Returns (cut, "truncated", None, w)
              else Returns (fullContent, "full", None, w)
          | Ok tkm =>
              let tokenIds := tkm_Encode tkm fullContent in
              if Z.of_nat (length tokenIds) <=? maxTokens
              then Returns (fullContent, "full", None, w)
              else
                let truncate :=
                  let! truncatedIds := tokens_to tokenIds maxTokens in
                  let truncatedContent := tkm_Decode tkm truncatedIds in
                  Returns (rollback_to_newline truncatedContent, "truncated",
                           None, w) in
                match GetDiff (Content e) (fs w) path with
                | Err _ => truncate
                | Ok diff =>
                    if String.eqb diff "" then truncate
                    else Returns (diff, "diff", None, w)
                end
          end
      end.

    (** The system prompt in force: the configured one, or the default. *)
Definition effective_system_prompt (e : Engine C) : string :=
      let systemPrompt := config.SystemPrompt (config.LLM (Config e)) in
      if String.eqb systemPrompt "" then llm.DefaultSystemPrompt else systemPrompt.

Definition cache_key (e : Engine C) (adr : index.ADR) (content : string) : string :=
      cache.ComputeAnalysisKey (config.Model (config.LLM (Config e)))
        (index.Content adr) content (effective_system_prompt e) llm.ChatPrompt.

    (** Which hits the loop leaves with [continue] before any lookup: out of
        scope, or suppressed in the first 2000 bytes of the content. *)
Definition out_of_scope (file : string) (adr : index.ADR) : bool :=
      negb (String.eqb (index.Scope adr) "") && negb (matchGlob (index.Scope adr) file).

Definition suppressed (content : string) (adr : index.ADR) : bool :=
      let header := if len content >? 2000 then slice_to content 2000 else content in
      strings_Contains header ("archguard-ignore: " +:+ index.ID adr).

    (** The cache lookup of the loop: [res] is set only when [Get] returns
        no error and [found]. *)
Definition cache_lookup (e : Engine C) (fs : FS) (cacheKey : string)
      : option AnalysisResult :=
      match Cache e with
      | Some c =>
          match cache.Get c fs cacheKey with
          | (Some cachedRes, true, None) => Some cachedRes
          | _ => None
          end
      | None => None
      end.

    (** The end of an iteration, once [res] is known. *)
Definition report_verdict (adr : index.ADR) (content : string)
        (r : AnalysisResult) (sb : string) (localViolations : Z) : string * Z :=
      if Violation r then
        let lineNum := findLineNumber content (QuotedCode r) in
        let sb := sb +:+ "    [VIOLATION] " +:+ index.Title adr +:+ " [Line "
                    +:+ fmt_d lineNum +:+ "]" +:+ nl in
        let sb := sb +:+ "    Reasoning: " +:+ Reasoning r +:+ nl in
        let sb :=
          if negb (String.eqb (QuotedCode r) "")
          then sb +:+ "    Code: " +:+ QuotedCode r +:+ nl
          else sb in
        (sb, int_add localViolations 1)
      else (sb, localViolations).

    (** One iteration of [for _, hit := range hits]: the report buffer,
        [localViolations] and the world, before and after. *)
Definition check_hit (e : Engine C) (ctx : Context) (file content : string)
        (st : string * Z * World P) (hit : index.SearchResult)
      : string * Z * World P :=
      let '(sb, localViolations, w) := st in
      let adr := index.ADRptr hit in
      if out_of_scope file adr then (sb, localViolations, w)
      else if suppressed content adr then
        ((if Debug e
          then sb +:+ "  Skipping ADR " +:+ index.Title adr +:+ " (Suppressed)" +:+ nl
          else sb), localViolations, w)
      else
        let sb :=
          if Debug e
          then sb +:+ "  Checking against ADR: " +:+ index.Title adr +:+ " ("
                 +:+ fmt_f2 (index.Score hit) +:+ ")" +:+ nl
          else sb in
        let systemPrompt := effective_system_prompt e in
        let cacheKey := cache_key e adr content in
        match cache_lookup e (fs w) cacheKey with
        | Some cachedRes =>
            let sb :=
              if Debug e
              then sb +:+ "[DEBUG]   Cache Hit for " +:+ index.Title adr +:+ nl
              else sb in
            let '(sb, localViolations) :=
              report_verdict adr content cachedRes sb localViolations in
            (sb, localViolations, w)
        | None =>
            let sb :=
              if Debug e then sb +:+ "[DEBUG]   Cache Miss. Calling LLM..." +:+ nl
              else sb in
            match llm.AnalyzeDrift ctx (index.Content adr) content file
                    systemPrompt w with
            | (Err err, w) =>
                (sb +:+ "    Warning: LLM analysis failed: " +:+ err +:+ nl,
                 localViolations, w)
            | (Ok r, w) =>
                let w :=
                  match Cache e with
                  | Some c =>
                      match cache.Put c (fs w) cacheKey r with
                      | (Some err, fs') =>
                          Log e ("Failed to cache analysis result: " +:+ err)
                            (set_fs fs' w)
                      | (None, fs') => set_fs fs' w
                      end
                  | None => w
                  end in
                let '(sb, localViolations) :=
                  report_verdict adr content r sb localViolations in
                (sb, localViolations, w)
            end
        end.

Definition check_hits (e : Engine C) (ctx : Context) (file content : string)
        (hits : list index.SearchResult) (st : string * Z * World P)
      : string * Z * World P :=
      fold_left (check_hit e ctx file content) hits st.

    (** The goroutine started for one file. It returns what it adds to
        [violations] (nothing, that is 0, on the early returns) and has
        printed its report. *)
Definition worker (e : Engine C) (ctx : Context) (file : string) (w : World P)
      : outcome (Z * World P) :=
      let sb := if Debug e then "Analyzing " +:+ file +:+ "..." +:+ nl else "" in
      let! (content, diffMode, err, w) := fetchContext e file w in
      match err with
      | Some err =>
          Returns (0, print (sb +:+ "Error reading file " +:+ file +:+ ": " +:+ err +:+ nl) w)
      | None =>
          let sb := if Debug e then sb +:+ "  Context mode: " +:+ diffMode +:+ nl else sb in
          if String.eqb diffMode "truncated" && CI e then
            Returns (0, print (sb +:+ "  [WARN-OPEN] File " +:+ file
              +:+ " was truncated for analysis. In CI mode this is treated as a warning (no failure)."
              +:+ nl) w)
          else
            let diffForEmbedding :=
              match GetDiff (Content e) (fs w) file with
              | Err _ => content
              | Ok d => if String.eqb d "" then content else d
              end in
            let diffForEmbedding :=
              if len diffForEmbedding >? 6000 then slice_to diffForEmbedding 6000
              else diffForEmbedding in
            let '(r, p') := CreateEmbedding (provider w) ctx diffForEmbedding in
            let w := set_provider p' (emit (EvCreateEmbedding diffForEmbedding) w) in
            match r with
            | Err err =>
                Returns (0, print (sb +:+ "Error generating embedding for " +:+ file
                                      +:+ ": " +:+ err +:+ nl) w)
            | Ok embedding =>
                let w := emit (EvSearch 3) w in
                let! hits :=
                  index.Search (Store e) embedding
                    (config.SimilarityThreshold (config.VectorStore_ (Config e))) 3 in
                if (length hits =? 0)%nat then
                  Returns (0, print (if Debug e
                                     then sb +:+ "  No relevant ADRs found." +:+ nl
                                     else sb) w)
                else
                  let '(sb, localViolations, w) :=
                    check_hits e ctx file content hits (sb, 0, w) in
                  Returns (localViolations, print sb w)
            end
      end.

    (** The files of [Run], one worker after the other in the order of the
        list; [violations] is the shared counter. The workers of the source
        run concurrently behind a semaphore and meet only on the counter
        and on standard output, both under one mutex; the embedding fixes
        the schedule in which each worker runs to its end before the next
        starts. *)
Fixpoint run_files (e : Engine C) (ctx : Context) (files : list string)
        (violations : Z) (w : World P) : outcome (Z * World P) :=
      match files with
      | [] => Returns (violations, w)
      | file :: rest =>
          if shouldExclude e file then run_files e ctx rest violations w
          else
            let! (localViolations, w) := worker e ctx file w in
            run_files e ctx rest (int_add violations localViolations) w
      end.

Definition Run (e : Engine C) (ctx : Context) (w : World P)
      : outcome (option error * World P) :=
      match GetFiles (Content e) (fs w) with
      | Err err => Returns (Some err, w)
      | Ok files =>
          let! (violations, w) := run_files e ctx files 0 w in
          if violations >? 0
          then Returns (Some ("found " +:+ fmt_d violations +:+ " architectural violations"), w)
          else Returns (None, w)
      end.
  End WithLibs.
End analysis.

(* ===================================================================== *)
(** * Package cli                                                          *)
(* ===================================================================== *)

Module cli.

  (** What [checkFlags.Parse(args)] leaves: the four flags and the remaining
      arguments. (The flag set exits the process on a malformed command
      line, so [Parse] does not return an error.) *)
Record CheckFlags := {
    staged : bool;
    all : bool;
    debug : bool;
    ci : bool;
    Args : list string
  }.

Section WithLibs.
Context {P : Type} `{Provider P} `{git_lib}.
Context `{encoding_json} `{index.json_Store} `{path_lib} `{fmt_lib}
  `{tiktoken_lib} `{SliceSorter}.
#[local] Existing Instance analysis.FileProvider_ContentProvider.

Definition runCheck (cfg : config.Config) (indexFile : string)
        (flags : CheckFlags) (w : World P) : outcome (option error * World P) :=
      let files := Args flags in
      let store := index.NewStore in
      match index.CalculateHash (fs w) (config.ADRPath (config.Analysis_ cfg))
              (config.VS_Model (config.VectorStore_ cfg)) with
      | (_, Some err) =>
          Returns (Some ("failed to calculate ADR hash: " +:+ err), w)
      | (currentHash, None) =>
          match index.Load store (fs w) indexFile
                  (config.VS_Model (config.VectorStore_ cfg))
                  (config.EmbeddingDim (config.VectorStore_ cfg)) currentHash with
          | (Some err, _) =>
              Returns (Some ("index mismatch or load failed (run 'archguard index' to rebuild): "
                             +:+ err), w)
          | (None, store) =>
              let contentProvider :=
                match files with
                | target :: _ =>
                    if String.eqb target "." then analysis.AllProvider
                    else analysis.SingleFileProvider target
                | [] =>
                    if staged flags then analysis.StagedProvider
                    else if all flags then analysis.AllProvider
                    else analysis.UncommittedProvider
                end in
              let w := if debug flags then print ("[DEBUG] Mode Enabled" +:+ nl) w else w in
              let engine :=
                analysis.NewEngine cfg store contentProvider (debug flags)
                  (ci flags) (fs w) in
              let! (err, w) := analysis.Run engine context_Background w in
              match err with
              | Some err => Returns (Some ("analysis failed: " +:+ err), w)
              | None =>
                  Returns (None, print ("No architectural violations found." +:+ nl) w)
              end
          end
      end.
End WithLibs.
End cli.

(* ===================================================================== *)
(** * Package llm: mock.go                                                 *)
(* ===================================================================== *)

Module llm_mock.

(** [MockProvider]. A [ChatFunc] of the tests is a closure over a counter it
    increments; here it receives the number of calls made before. *)
Record MockProvider := {
  EmbedFunc : option (string -> result (list float32));
  ChatFunc : option (nat -> string -> string -> result string);
  EmbeddingDim : Z;
  chat_calls : nat
}.

Definition one32 : float32 := F32.of_Z2 1 0.
Definition zero32 : float32 := S754_zero false.

(** [v := make([]float32, dim); v[0] = 1.0]. *)
Definition default_embedding (dim : Z) : list float32 :=
  let dim := if dim =? 0 then 1536 else dim in
  one32 :: repeat zero32 (Z.to_nat dim - 1).

Definition default_chat : string :=
  "{" +:+ dq +:+ "violation" +:+ dq +:+ ": false, " +:+ dq +:+ "reasoning" +:+ dq
    +:+ ": " +:+ dq +:+ "default mock" +:+ dq +:+ ", " +:+ dq +:+ "quoted_code"
    +:+ dq +:+ ": " +:+ dq +:+ dq +:+ "}".

#[export] Instance MockProvider_Provider : Provider MockProvider := {
  CreateEmbedding m _ text :=
    (match EmbedFunc m with
     | Some f => f text
     | None => Ok (default_embedding (EmbeddingDim m))
     end, m);
  Chat m _ system user :=
    (match ChatFunc m with
     | Some f => f (chat_calls m) system user
     | None => Ok default_chat
     end,
     {| EmbedFunc := EmbedFunc m; ChatFunc := ChatFunc m;
        EmbeddingDim := EmbeddingDim m; chat_calls := S (chat_calls m) |})
}.

End llm_mock.

(* ===================================================================== *)
(** * Stand-ins for the libraries, and the doubles of the tests            *)
(* ===================================================================== *)

(** Concrete instances of the library classes, small enough to evaluate:
    they are what the examples and the closed instances of the theorems run
    on. The theorems themselves hold for every instance. *)
Module doubles.
Import llm_types.

(** ** A reader of flat JSON objects *)

Inductive jvalue : Type :=
  | JBool (b : bool)
  | JString (s : string)
  | JNumber (z : Z)
  | JEmptyArray
  | JNull.

Definition is_ws (c : ascii) : bool :=
  existsb (Ascii.eqb c) [" "%char; ascii_of_nat 10; ascii_of_nat 13; ascii_of_nat 9].

Fixpoint skip_ws (l : list ascii) : list ascii :=
  match l with
  | c :: l' => if is_ws c then skip_ws l' else l
  | [] => []
  end.

(** The characters of a string, after its opening quote. *)
Fixpoint read_string (l : list ascii) : option (string * list ascii) :=
  match l with
  | [] => None
  | c :: l' =>
      if Ascii.eqb c (ascii_of_nat 34) then Some (EmptyString, l')
      else if Ascii.eqb c "\" then
        match l' with
        | e :: l'' =>
            let put (x : ascii) :=
              match read_string l'' with
              | Some (s, r) => Some (String x s, r)
              | None => None
              end in
            if Ascii.eqb e "n" then put (ascii_of_nat 10)
            else if Ascii.eqb e "t" then put (ascii_of_nat 9)
            else if Ascii.eqb e "r" then put (ascii_of_nat 13)
            else if Ascii.eqb e (ascii_of_nat 34) || Ascii.eqb e "\" || Ascii.eqb e "/"
                 then put e
            else None
        | [] => None
        end
      else
        match read_string l' with
        | Some (s, r) => Some (String c s, r)
        | None => None
        end
  end.

Definition digit_of (c : ascii) : option Z :=
  let n := nat_of_ascii c in
  if (48 <=? n)%nat && (n <=? 57)%nat then Some (Z.of_nat (n - 48)) else None.

Fixpoint read_digits (l : list ascii) (acc : Z) : Z * list ascii :=
  match l with
  | c :: l' =>
      match digit_of c with
      | Some d => read_digits l' (10 * acc + d)
      | None => (acc, l)
      end
  | [] => (acc, [])
  end.

Definition read_value (l : list ascii) : option (jvalue * list ascii) :=
  match l with
  | "t"%char :: "r"%char :: "u"%char :: "e"%char :: r => Some (JBool true, r)
  | "f"%char :: "a"%char :: "l"%char :: "s"%char :: "e"%char :: r => Some (JBool false, r)
  | "n"%char :: "u"%char :: "l"%char :: "l"%char :: r => Some (JNull, r)
  | "["%char :: r =>
      match skip_ws r with
      | "]"%char :: r' => Some (JEmptyArray, r')
      | _ => None
      end
  | c :: r =>
      if Ascii.eqb c (ascii_of_nat 34) then
        match read_string r with
        | Some (s, r') => Some (JString s, r')
        | None => None
        end
      else
        match digit_of c with
        | Some _ => let '(z, r') := read_digits l 0 in Some (JNumber z, r')
        | None => None
        end
  | [] => None
  end.

(** The members of an object, after its opening brace. *)
Fixpoint read_members (fuel : nat) (l : list ascii)
  : option (list (string * jvalue)) :=
  match fuel with
  | O => None
  | S k =>
      match skip_ws l with
      | c :: r =>
          if Ascii.eqb c (ascii_of_nat 34) then
            match read_string r with
            | Some (key, r1) =>
                match skip_ws r1 with
                | ":"%char :: r2 =>
                    match read_value (skip_ws r2) with
                    | Some (v, r3) =>
                        match skip_ws r3 with
                        | ","%char :: r4 =>
                            match read_members k r4 with
                            | Some ms => Some ((key, v) :: ms)
                            | None => None
                            end
                        | "}"%char :: r4 =>
                            match skip_ws r4 with
                            | [] => Some [(key, v)]
                            | _ => None
                            end
                        | _ => None
                        end
                    | None => None
                    end
                | _ => None
                end
            | None => None
            end
          else None
      | [] => None
      end
  end.

Definition read_object (data : string) : option (list (string * jvalue)) :=
  match skip_ws (list_ascii_of_string data) with
  | "{"%char :: r =>
      match skip_ws r with
      | "}"%char :: r' => match skip_ws r' with [] => Some [] | _ => None end
      | _ => read_members (String.length data) r
      end
  | _ => None
  end.

Definition syntax_error : error := "invalid character in JSON input".
Definition type_error (field : string) : error :=
  "json: cannot unmarshal value into Go struct field " +:+ field.

Definition set_AnalysisResult (acc : AnalysisResult * option error)
    (m : string * jvalue) : AnalysisResult * option error :=
  let '(res, err) := acc in
  let fail f := (res, match err with Some e => Some e | None => Some (type_error f) end) in
  match m with
  | (k, JNull) => acc
  | (k, v) =>
      if String.eqb k "violation" then
        match v with
        | JBool b => ({| Violation := b; Reasoning := Reasoning res;
                         QuotedCode := QuotedCode res |}, err)
        | _ => fail k
        end
      else if String.eqb k "reasoning" then
        match v with
        | JString s => ({| Violation := Violation res; Reasoning := s;
                           QuotedCode := QuotedCode res |}, err)
        | _ => fail k
        end
      else if String.eqb k "quoted_code" then
        match v with
        | JString s => ({| Violation := Violation res; Reasoning := Reasoning res;
                           QuotedCode := s |}, err)
        | _ => fail k
        end
      else acc
  end.

Definition Unmarshal_AnalysisResult (data : string) (res : AnalysisResult)
  : AnalysisResult * option error :=
  match read_object data with
  | None => (res, Some syntax_error)
  | Some ms => fold_left set_AnalysisResult ms (res, None)
  end.

Fixpoint escape (s : string) : string :=
  match s with
  | EmptyString => EmptyString
  | String c s' =>
      if Ascii.eqb c (ascii_of_nat 34) || Ascii.eqb c "\" then String "\" (String c (escape s'))
      else if Ascii.eqb c (ascii_of_nat 10) then String "\" (String "n" (escape s'))
      else if Ascii.eqb c (ascii_of_nat 9) then String "\" (String "t" (escape s'))
      else if Ascii.eqb c (ascii_of_nat 13) then String "\" (String "r" (escape s'))
      else String c (escape s')
  end.

Definition quoted (s : string) : string := dq +:+ escape s +:+ dq.

Definition Marshal_AnalysisResult (res : AnalysisResult) : result string :=
  Ok ("{" +:+ quoted "violation" +:+ ":" +:+ (if Violation res then "true" else "false")
      +:+ "," +:+ quoted "reasoning" +:+ ":" +:+ quoted (Reasoning res)
      +:+ "," +:+ quoted "quoted_code" +:+ ":" +:+ quoted (QuotedCode res) +:+ "}").

(** A store without records: the stand-in reads [adrs] only when it is
    empty or null. *)
Definition set_Store (acc : index.Store * option error) (m : string * jvalue)
  : index.Store * option error :=
  let '(s, err) := acc in
  let fail f := (s, match err with Some e => Some e | None => Some (type_error f) end) in
  match m with
  | (k, JNull) => acc
  | (k, v) =>
      if String.eqb k "adrs" then
        match v with
        | JEmptyArray => ({| index.ADRs := []; index.Hash := index.Hash s;
                             index.ModelName := index.ModelName s;
                             index.Dim := index.Dim s |}, err)
        | _ => fail k
        end
      else if String.eqb k "hash" then
        match v with
        | JString h => ({| index.ADRs := index.ADRs s; index.Hash := h;
                           index.ModelName := index.ModelName s;
                           index.Dim := index.Dim s |}, err)
        | _ => fail k
        end
      else if String.eqb k "model_name" then
        match v with
        | JString n => ({| index.ADRs := index.ADRs s; index.Hash := index.Hash s;
                           index.ModelName := n; index.Dim := index.Dim s |}, err)
        | _ => fail k
        end
      else if String.eqb k "dim" then
        match v with
        | JNumber d => ({| index.ADRs := index.ADRs s; index.Hash := index.Hash s;
                           index.ModelName := index.ModelName s; index.Dim := d |}, err)
        | _ => fail k
        end
      else acc
  end.

Definition Unmarshal_Store (data : string) (s : index.Store)
  : index.Store * option error :=
  match read_object data with
  | None => (s, Some syntax_error)
  | Some ms => fold_left set_Store ms (s, None)
  end.

#[export] Instance json : encoding_json := {
  json_Marshal_AnalysisResult := Marshal_AnalysisResult;
  json_Unmarshal_AnalysisResult := Unmarshal_AnalysisResult
}.

#[export] Instance json_store : index.json_Store := {
  index.json_Unmarshal_Store := Unmarshal_Store
}.

(** ** Paths, formatting, tokens, git *)

(** Patterns without metacharacters match themselves; the one regular
    expression known is the one [matchRegexGlob] builds for the scope
    ["**"]; the walk finds no file. *)
#[export] Instance paths : path_lib := {
  filepath_Match pattern name := String.eqb pattern name;
  filepath_Join elems := String.concat "/" elems;
  regexp_MatchString re s := String.eqb re "^.*$";
  filepath_Walk _ _ := []
}.

#[export] Instance fmts : fmt_lib := {
  fmt_f2 _ := "?.??";
  fmt_q s := dq +:+ s +:+ dq
}.

(** One token per byte. *)
#[export] Instance byte_tokens : tiktoken_lib := {
  Tiktoken := unit;
  tiktoken_EncodingForModel _ := Ok tt;
  tiktoken_GetEncoding _ := Ok tt;
  tkm_Encode _ s := sha256.bytes_of_string s;
  tkm_Decode _ ids := sha256.string_of_bytes ids
}.

#[export] Instance no_git : git_lib := {
  git_GetStagedFiles := Ok [];
  git_GetUncommittedFiles := Ok [];
  git_GetAllTrackedFiles := Ok [];
  git_GetStagedFileContent _ := Ok "";
  git_GetStagedDiff _ := Ok "";
  git_GetWorktreeDiff _ := Ok ""
}.

(** ** The content providers of the tests *)

(** [MockContentProvider] of analysis_test.go; the files in the order
    [GetFiles] lists them. *)
Record MockContentProvider := { Files : list (string * string) }.

Definition mock_content (m : MockContentProvider) (path : string) : result string :=
  match List.find (fun kv => String.eqb (fst kv) path) (Files m) with
  | Some kv => Ok (snd kv)
  | None => Ok ""
  end.

#[export] Instance MockContentProvider_ContentProvider
  : ContentProvider MockContentProvider := {
  GetFiles m _ := Ok (map fst (Files m));
  GetContent m _ path := mock_content m path;
  GetDiff m _ path := mock_content m path
}.

(** [MockTruncationProvider] of engine_internal_test.go. *)
Record MockTruncationProvider := { Content : string }.

#[export] Instance MockTruncationProvider_ContentProvider
  : ContentProvider MockTruncationProvider := {
  GetFiles _ _ := Ok ["test.go"];
  GetContent m _ _ := Ok (Content m);
  GetDiff _ _ _ := Ok ""
}.

End doubles.

(* ===================================================================== *)
(** * sort.Slice on short slices                                           *)
(* ===================================================================== *)

(** Insertion sort as Go's [sort.Slice] runs it on a slice of at most 12
    elements ([insertionSortCmpFunc]; longer slices go through pattern-
    defeating quicksort): the elements are taken left to right and each is
    moved left past the elements it must precede. [before x y] decides
    whether [x] moves past [y]; Go's loop has [before := less], so that an
    element stops at the first one it need not precede. *)
Module sorting.

Section Insertion.
Context {A : Type} (before : A -> A -> bool).

(** [revl] is the sorted prefix, last element first. *)
Fixpoint move_left (x : A) (revl : list A) : list A :=
  match revl with
  | [] => [x]
  | y :: r => if before x y then y :: move_left x r else x :: y :: r
  end.

Definition insertion_sort (l : list A) : list A :=
  rev (fold_left (fun acc x => move_left x acc) l []).

Lemma move_left_Permutation x revl : Permutation (x :: revl) (move_left x revl).
Proof.
  induction revl as [|y r IH]; simpl; [reflexivity|].
  destruct (before x y); [|reflexivity].
  rewrite perm_swap. now apply perm_skip.
Qed.

Lemma move_left_In x revl z : In z (move_left x revl) -> z = x \/ In z revl.
Proof.
  intros Hin. apply (Permutation_in z (Permutation_sym (move_left_Permutation x revl))) in Hin.
  destruct Hin as [->|Hin]; auto.
Qed.

Lemma fold_move_left_Permutation l acc :
  Permutation (l ++ acc) (fold_left (fun acc x => move_left x acc) l acc).
Proof.
  revert acc. induction l as [|x l IH]; intros acc; simpl; [reflexivity|].
  rewrite <- IH. rewrite <- move_left_Permutation.
  apply Permutation_middle.
Qed.

Lemma insertion_sort_Permutation l : Permutation l (insertion_sort l).
Proof.
  unfold insertion_sort. rewrite <- Permutation_rev.
  rewrite <- fold_move_left_Permutation. now rewrite app_nil_r.
Qed.

Context (less : A -> A -> bool) (univ : list A).
Hypothesis swo : strict_weak_order_on less univ.
Hypothesis before_sound :
  forall x y, In x univ -> In y univ -> before x y = true -> less y x = false.
Hypothesis stop_sound :
  forall x y, In x univ -> In y univ -> before x y = false -> less x y = false.

Lemma less_asym x y : In x univ -> In y univ -> less x y = true -> less y x = false.
Proof.
  intros Hx Hy Hxy. destruct swo as (Hirr & Htr & _).
  destruct (less y x) eqn:Hyx; [|reflexivity].
  rewrite <- (Hirr x Hx). symmetry. now apply (Htr x y x).
Qed.

Lemma not_less_trans x y z :
  In x univ -> In y univ -> In z univ ->
  less x y = false -> less y z = false -> less x z = false.
Proof.
  intros Hx Hy Hz Hxy Hyz. destruct swo as (Hirr & Htr & Heq).
  destruct (less x z) eqn:Hxz; [|reflexivity].
  destruct (less y x) eqn:Hyx.
  { rewrite <- Hyz. symmetry. now apply (Htr y x z). }
  destruct (less z y) eqn:Hzy.
  { rewrite <- Hxy. symmetry. now apply (Htr x z y). }
  destruct (Heq x y z Hx Hy Hz Hxy Hyx Hyz Hzy) as [H1 _]. congruence.
Qed.

(** In the reversed prefix every element is not less than those after it. *)
Definition later_first : list A -> Prop :=
  StronglySorted (fun a y => less a y = false).

Lemma move_left_sorted x revl :
  In x univ -> Forall (fun z => In z univ) revl ->
  later_first revl -> later_first (move_left x revl).
Proof.
  intros Hx Hall Hs. induction Hs as [|y r Hr IH Hy]; simpl.
  - repeat constructor.
  - inversion Hall as [|? ? Hyu Hru]; subst.
    destruct (before x y) eqn:Hb.
    + constructor; [now apply IH|].
      rewrite List.Forall_forall. intros z Hz. apply move_left_In in Hz as [->|Hz].
      * now apply before_sound.
      * rewrite List.Forall_forall in Hy. now apply Hy.
    + constructor; [now constructor|].
      constructor; [now apply stop_sound|].
      rewrite List.Forall_forall in Hy, Hru |- *. intros z Hz.
      apply (not_less_trans x y z); auto.
Qed.

Lemma fold_move_left_sorted l acc :
  Forall (fun z => In z univ) l -> Forall (fun z => In z univ) acc ->
  later_first acc ->
  later_first (fold_left (fun acc x => move_left x acc) l acc).
Proof.
  revert acc. induction l as [|x l IH]; intros acc Hl Hacc Hs; simpl; [assumption|].
  inversion Hl; subst. apply IH; auto.
  - rewrite List.Forall_forall in Hacc |- *. intros z Hz.
    apply move_left_In in Hz as [->|Hz]; auto.
  - now apply move_left_sorted.
Qed.

Lemma sorted_snoc (R : A -> A -> Prop) l a :
  StronglySorted R l -> Forall (fun x => R x a) l -> StronglySorted R (l ++ [a]).
Proof.
  induction 1 as [|b r Hr IH Hb]; intros Hall; simpl.
  - repeat constructor.
  - inversion Hall; subst. constructor; [now apply IH|].
    rewrite List.Forall_app. split; [assumption|]. now repeat constructor.
Qed.

Lemma later_first_rev l :
  later_first l -> StronglySorted (fun x y => less y x = false) (rev l).
Proof.
  induction 1 as [|a l Hl IH Ha]; simpl; [constructor|].
  apply sorted_snoc; [assumption|].
  rewrite List.Forall_forall in Ha |- *. intros x Hx. apply Ha. now apply in_rev.
Qed.

Lemma insertion_sort_sorted :
  StronglySorted (fun x y => less y x = false) (insertion_sort univ).
Proof.
  unfold insertion_sort. apply later_first_rev.
  apply fold_move_left_sorted.
  - rewrite List.Forall_forall. auto.
  - constructor.
  - constructor.
Qed.

End Insertion.

Lemma stable_sorted {A} (less : A -> A -> bool) (l : list A) :
  strict_weak_order_on less l ->
  StronglySorted (fun x y => less y x = false) (insertion_sort less l).
Proof.
  intros Hswo. apply (insertion_sort_sorted less less l Hswo).
  - intros x y Hx Hy. now apply (less_asym less l Hswo).
  - auto.
Qed.

(** The sorter that is insertion sort at every length. *)
Definition stable : SliceSorter := {|
  sort_Slice A less l := insertion_sort less l;
  sort_Slice_Permutation A less l := insertion_sort_Permutation less l;
  sort_Slice_sorted A less l := stable_sorted less l
|}.

End sorting.

(* ===================================================================== *)
(** * The scenarios of the tests                                           *)
(* ===================================================================== *)

(** The stores, configurations, providers and engines of the repository's
    tests, on which the theorems are instantiated. *)
Module fixtures.
Import llm_types doubles.

Definition f64_zero : float64 := S754_zero false.

Definition config_with (model : string) (maxTokens : Z) (systemPrompt : string)
  : config.Config :=
  {| config.Version := "1";
     config.LLM := {| config.Provider := "mock"; config.Model := model;
                      config.BaseURL := ""; config.MaxTokens := maxTokens;
                      config.Temperature := f64_zero;
                      config.SystemPrompt := systemPrompt |};
     config.VectorStore_ := {| config.VS_Provider := "mock";
                               config.VS_Model := "nomic-embed-text";
                               config.EmbeddingDim := 0;
                               config.SimilarityThreshold := f64_zero |};
     config.Analysis_ := {| config.ADRPath := "./docs/arch";
                            config.AcceptedStatuses := ["Accepted"];
                            config.ExcludePatterns := [];
                            config.MaxConcurrency := 0 |};
     config.IndexFile := "" |}.

(** TestDriftDetection: one accepted ADR, threshold 0. *)
Definition adr_go : index.ADR :=
  {| index.ID := "0001"; index.Title := "Use Golang"; index.Status := "Accepted";
     index.Scope := ""; index.Content := "All services must be Go.";
     index.Embedding := llm_mock.default_embedding 1536; index.RelPath := "" |}.

Definition store_go : index.Store :=
  {| index.ADRs := [adr_go]; index.Hash := ""; index.ModelName := ""; index.Dim := 0 |}.

Definition verdict_json (violation reasoning quoted : string) : string :=
  "{" +:+ dq +:+ "violation" +:+ dq +:+ ": " +:+ violation +:+ ", "
    +:+ dq +:+ "reasoning" +:+ dq +:+ ": " +:+ dq +:+ reasoning +:+ dq +:+ ", "
    +:+ dq +:+ "quoted_code" +:+ dq +:+ ": " +:+ dq +:+ quoted +:+ dq +:+ "}".

Definition mock_with (chat : nat -> string -> string -> result string)
  : llm_mock.MockProvider :=
  {| llm_mock.EmbedFunc := None; llm_mock.ChatFunc := Some chat;
     llm_mock.EmbeddingDim := 0; llm_mock.chat_calls := 0 |}.

Definition python_violation : llm_mock.MockProvider :=
  mock_with (fun _ _ _ =>
    Ok (verdict_json "true" "Python is not allowed." "import python_library")).

(** TestAnalyzeDrift_Retry and TestAnalyzeDrift_MaxRetriesExceeded. *)
Definition fails_twice : llm_mock.MockProvider :=
  mock_with (fun calls _ _ =>
    if (calls <? 2)%nat then Err "simulated 429 error"
    else Ok (verdict_json "false" "success" "")).

Definition always_fails : llm_mock.MockProvider :=
  mock_with (fun _ _ _ => Err "persistent error").

Definition world_of {P : Type} (p : P) (f : FS) : World P :=
  {| provider := p; fs := f; clock := 0; stdout := ""; trace := [] |}.

Definition engine_of {C : Type} (cfg : config.Config) (store : index.Store)
    (content : C) (ci : bool) : analysis.Engine C :=
  {| analysis.Config := cfg; analysis.Store := store; analysis.Content := content;
     analysis.Debug := false; analysis.CI := ci; analysis.Cache := None |}.

Definition service_py : MockContentProvider :=
  {| Files := [("service.py", "// content ignored by mock")] |}.

Definition drift_engine : analysis.Engine MockContentProvider :=
  engine_of (config_with "" 0 "") store_go service_py false.

(** TestFetchContext_SmartTruncation, with the ceiling in bytes of the
    one-token-per-byte tokenizer: the cut falls inside the second line. *)
Definition three_lines : string := "Line1" +:+ nl +:+ "Line2" +:+ nl +:+ "Line3".

Definition truncation_engine (ci : bool) : analysis.Engine MockTruncationProvider :=
  engine_of (config_with "gpt-3.5-turbo" 8 "") store_go
    {| Content := three_lines |} ci.

End fixtures.

(* ===================================================================== *)
(** * More of the standard library: Split, SplitN, Rename, appending      *)
(* ===================================================================== *)

(** [strings.Split] for a non-empty separator; [cur] is the piece being
    read. *)
Fixpoint Split_fuel (fuel : nat) (s sep cur : string) : list string :=
  match fuel with
  | O => [cur +:+ s]
  | S k =>
      match s with
      | EmptyString => [cur]
      | String c s' =>
          if String.prefix sep s
          then cur :: Split_fuel k (drop_str (String.length sep) s) sep ""
          else Split_fuel k s' sep (cur +:+ String c "")
      end
  end.

Definition strings_Split (s sep : string) : list string :=
  Split_fuel (String.length s) s sep "".

(** [s[n:]]. *)
Definition slice_from (s : string) (n : Z) : string := drop_str (Z.to_nat n) s.

(** [bytes.SplitN(s, sep, 3)] for a non-empty separator: cut at the first
    two separators. *)
Definition bytes_SplitN3 (s sep : string) : list string :=
  let m := strings_Index s sep in
  if m <? 0 then [s]
  else
    let a0 := slice_to s m in
    let s := slice_from s (m + len sep) in
    let m := strings_Index s sep in
    if m <? 0 then [a0; s]
    else [a0; slice_to s m; slice_from s (m + len sep)].

(** [%v] of a [[]string]. *)
Definition fmt_v_strings (l : list string) : string :=
  "[" +:+ String.concat " " l +:+ "]".

(** [os.Rename]. *)
Definition os_Rename (fs : FS) (oldpath newpath : string) : option error * FS :=
  match files fs !! oldpath with
  | None =>
      (Some ("rename " +:+ oldpath +:+ " " +:+ newpath
             +:+ ": no such file or directory"), fs)
  | Some data =>
      if decide (newpath ∈ unwritable fs)
      then (Some ("rename " +:+ oldpath +:+ " " +:+ newpath
                  +:+ ": permission denied"), fs)
      else (None, {| files := <[newpath := data]> (delete oldpath (files fs));
                     unreadable := unreadable fs;
                     unwritable := unwritable fs; torn := torn fs |})
  end.

(** [os.OpenFile(path, O_APPEND|O_CREATE|O_WRONLY, 0644)]: the file is
    created when it is missing; nothing changes when it cannot be opened. *)
Definition os_OpenFile_append (fs : FS) (path : string) : option error * FS :=
  let opened :=
    {| files := <[path := default "" (files fs !! path)]> (files fs);
       unreadable := unreadable fs;
       unwritable := unwritable fs; torn := torn fs |} in
  if decide (path ∈ unwritable fs)
  then
    match torn fs !! path with
    | None => (Some ("open " +:+ path +:+ ": permission denied"), fs)
    | Some _ => (None, opened)
    end
  else (None, opened).

(** [f.WriteString(data)] on a file opened for appending. A write that
    fails has appended the bytes written before the failure. *)
Definition os_WriteString (fs : FS) (path data : string) : option error * FS :=
  let old := default "" (files fs !! path) in
  if decide (path ∈ unwritable fs)
  then
    (Some ("write " +:+ path +:+ ": no space left on device"),
     {| files := <[path := old +:+ substring 0 (default 0%nat (torn fs !! path)) data]>
                   (files fs);
        unreadable := unreadable fs;
        unwritable := unwritable fs; torn := torn fs |})
  else
    (None, {| files := <[path := old +:+ data]> (files fs);
              unreadable := unreadable fs;
              unwritable := unwritable fs; torn := torn fs |}).

(** More of path/filepath, and the libraries of adr.go and store.go. *)
Class filepath_lib := {
  filepath_Dir : string -> string;
  filepath_Base : string -> string;
  filepath_Rel : string -> string -> result string
}.

Class strings_lib := {
  (** [strings.EqualFold]: equality under Unicode case folding. *)
  strings_EqualFold : string -> string -> bool
}.

(* ===================================================================== *)
(** * Package index: adr.go and the rest of store.go                      *)
(* ===================================================================== *)

Module adr.

Record FrontMatter := {
  Title : string;
  Status : string;
  Scope : string
}.

Definition FrontMatter_zero : FrontMatter :=
  {| Title := ""; Status := ""; Scope := "" |}.

(** gopkg.in/yaml.v3 at the type the code decodes. *)
Class yaml_lib := {
  yaml_Unmarshal_FrontMatter : string -> FrontMatter -> FrontMatter * option error
}.

Section WithLibs.
Context `{yaml_lib} `{filepath_lib}.

Definition ParseADR (fs : FS) (path rootDir : string) : result index.ADR :=
  match os_ReadFile fs path with
  | OsNotExist err | OsError err => Err err
  | OsOk data =>
      if negb (String.prefix "---" data)
      then Err ("no frontmatter found in " +:+ path)
      else
        match bytes_SplitN3 data "---" with
        | [_; part1; part2] =>
            match yaml_Unmarshal_FrontMatter part1 FrontMatter_zero with
            | (_, Some err) =>
                Err ("failed to parse frontmatter in " +:+ path +:+ ": " +:+ err)
            | (fm, None) =>
                let filename := filepath_Base path in
                let id := hd "" (strings_Split filename "-") in
                let relPath :=
                  match filepath_Rel rootDir path with
                  | Ok r => r
                  | Err _ => ""
                  end in
                Ok {| index.ID := id; index.Title := Title fm;
                      index.Status := Status fm; index.Scope := Scope fm;
                      index.Content := part2; index.Embedding := [];
                      index.RelPath := relPath |}
            end
        | _ => Err ("invalid frontmatter format in " +:+ path)
        end
  end.
End WithLibs.
End adr.

Module store.

(** [json.MarshalIndent(s, "", "  ")] of a [*Store]. *)
Class json_Store_writer := {
  json_MarshalIndent_Store : index.Store -> result string
}.

Section WithLibs.
Context {P : Type} `{Provider P}.
Context `{adr.yaml_lib} `{filepath_lib} `{strings_lib} `{json_Store_writer}.
Context `{index.json_Store} `{path_lib} `{fmt_lib}.

Definition Save (s : index.Store) (fs : FS) (path : string) : option error * FS :=
  let dir := filepath_Dir path in
  match os_MkdirAll fs dir with
  | Some err => (Some err, fs)
  | None =>
      match json_MarshalIndent_Store s with
      | Err err => (Some err, fs)
      | Ok data =>
          let tmpPath := path +:+ ".tmp" in
          match os_WriteFile fs tmpPath data with
          | (Some err, fs) => (Some err, fs)
          | (None, fs) => os_Rename fs tmpPath path
          end
      end
  end.

(** The inner loop over [acceptedStatuses], left at the first match. *)
Definition accepted (acceptedStatuses : list string) (a : index.ADR) : bool :=
  existsb (fun status =>
             strings_EqualFold (strings_TrimSpace (index.Status a))
                               (strings_TrimSpace status))
          acceptedStatuses.

(** The callback of the walk of [BuildIndex], over the visits:
    [validADRs] and what has been printed so far. *)
Fixpoint BuildIndex_walk (fs : FS) (dirPath : string) (acceptedStatuses : list string)
    (visits : list WalkVisit) (validADRs : list index.ADR) (out : string)
  : list index.ADR * string * option error :=
  match visits with
  | [] => (validADRs, out, None)
  | v :: rest =>
      match visit_err v with
      | Some err => (validADRs, out, Some err)
      | None =>
          if negb (visit_IsDir v) && strings_HasSuffix (visit_name v) ".md"
          then
            match adr.ParseADR fs (visit_path v) dirPath with
            | Err err =>
                BuildIndex_walk fs dirPath acceptedStatuses rest validADRs
                  (out +:+ "Warning: skipping " +:+ visit_path v +:+ ": "
                     +:+ err +:+ nl)
            | Ok a =>
                BuildIndex_walk fs dirPath acceptedStatuses rest
                  (if accepted acceptedStatuses a then validADRs ++ [a]
                   else validADRs)
                  out
            end
          else BuildIndex_walk fs dirPath acceptedStatuses rest validADRs out
      end
  end.

Definition textToEmbed (a : index.ADR) : string :=
  "Title: " +:+ index.Title a +:+ nl +:+ "Status: " +:+ index.Status a +:+ nl
    +:+ "Content: " +:+ index.Content a.

Definition with_embedding (a : index.ADR) (embedding : list float32) : index.ADR :=
  {| index.ID := index.ID a; index.Title := index.Title a;
     index.Status := index.Status a; index.Scope := index.Scope a;
     index.Content := index.Content a; index.Embedding := embedding;
     index.RelPath := index.RelPath a |}.

(** The embeddings, one ADR after the other in the order of [validADRs]:
    [done] are the records that have theirs. The goroutines of the source
    run behind a semaphore and hand their results over a channel; the
    embedding fixes the schedule in which each goroutine runs and has its
    result received before the next starts, and in which the first error
    received ends the function before the remaining ones have started. *)
Fixpoint embed_all (ctx : Context) (todo done : list index.ADR) (w : World P)
  : result (list index.ADR) * World P :=
  match todo with
  | [] => (Ok done, w)
  | a :: rest =>
      let '(r, p') := CreateEmbedding (provider w) ctx (textToEmbed a) in
      let w := set_provider p' (emit (EvCreateEmbedding (textToEmbed a)) w) in
      match r with
      | Err err =>
          (Err ("failed to embed ADR " +:+ index.RelPath a +:+ ": " +:+ err), w)
      | Ok embedding =>
          embed_all ctx rest (done ++ [with_embedding a embedding]) (print "." w)
      end
  end.

(** [BuildIndex]: the error, the store as the call leaves it, the world. *)
Definition BuildIndex (s : index.Store) (ctx : Context) (dirPath modelName : string)
    (acceptedStatuses : list string) (w : World P)
  : option error * index.Store * World P :=
  let '(validADRs, out, werr) :=
    BuildIndex_walk (fs w) dirPath acceptedStatuses (filepath_Walk (fs w) dirPath)
      [] "" in
  let w := print out w in
  match werr with
  | Some err => (Some err, s, w)
  | None =>
      let w := print ("Found " +:+ fmt_d (Z.of_nat (length validADRs))
                        +:+ " valid ADRs. Generating embeddings..." +:+ nl) w in
      match embed_all ctx validADRs [] w with
      | (Err err, w) => (Some err, s, w)
      | (Ok validADRs, w) =>
          let w := print nl w in
          let s := {| index.ADRs := validADRs; index.Hash := index.Hash s;
                      index.ModelName := modelName; index.Dim := index.Dim s |} in
          let '(s, w) :=
            match validADRs with
            | first :: _ =>
                let actualDim := Z.of_nat (length (index.Embedding first)) in
                ({| index.ADRs := index.ADRs s; index.Hash := index.Hash s;
                    index.ModelName := index.ModelName s; index.Dim := actualDim |},
                 print ("Index built with " +:+ fmt_d actualDim +:+ " dimensions."
                          +:+ nl) w)
            | [] => (s, w)
            end in
          match index.CalculateHash (fs w) dirPath modelName with
          | (_, Some err) => (Some ("failed to calculate hash: " +:+ err), s, w)
          | (hash, None) =>
              (None,
               {| index.ADRs := index.ADRs s; index.Hash := hash;
                  index.ModelName := index.ModelName s; index.Dim := index.Dim s |},
               w)
          end
      end
  end.

(** cli.go: [runIndex]. *)
Definition runIndex (cfg : config.Config) (indexFile : string) (w : World P)
  : option error * World P :=
  match BuildIndex index.NewStore context_Background
          (config.ADRPath (config.Analysis_ cfg))
          (config.VS_Model (config.VectorStore_ cfg))
          (config.AcceptedStatuses (config.Analysis_ cfg)) w with
  | (Some err, _, w) => (Some ("indexing failed: " +:+ err), w)
  | (None, s, w) =>
      match Save s (fs w) indexFile with
      | (Some err, fs') => (Some ("failed to save index: " +:+ err), set_fs fs' w)
      | (None, fs') =>
          (None, print ("ADR Index updated successfully." +:+ nl) (set_fs fs' w))
      end
  end.
End WithLibs.
End store.

(* ===================================================================== *)
(** * Package git                                                         *)
(* ===================================================================== *)

Module git.

(** [exec.Command("git", args...).Output()]. *)
Class git_exec := {
  git_Output : list string -> result string
}.

(** The loop of [runGitLines] over the lines. *)
Fixpoint nonempty_lines (lines : list string) : list string :=
  match lines with
  | [] => []
  | l :: rest =>
      let l := strings_TrimSpace l in
      if negb (String.eqb l "") then l :: nonempty_lines rest
      else nonempty_lines rest
  end.

Section WithExec.
Context `{git_exec}.

Definition runGitLines (args : list string) : result (list string) :=
  match git_Output args with
  | Err err => Err ("git command failed " +:+ fmt_v_strings args +:+ ": " +:+ err)
  | Ok out => Ok (nonempty_lines (strings_Split (strings_TrimSpace out) nl))
  end.

Definition GetStagedFiles : result (list string) :=
  runGitLines ["diff"; "--cached"; "--name-only"; "--diff-filter=ACMR"].

Definition GetUncommittedFiles : result (list string) :=
  runGitLines ["diff"; "--name-only"; "--diff-filter=ACMR"].

Definition GetAllTrackedFiles : result (list string) :=
  runGitLines ["ls-files"].

Definition GetStagedFileContent (path : string) : result string :=
  match git_Output ["show"; ":" +:+ path] with
  | Err err => Err ("failed to get staged content for " +:+ path +:+ ": " +:+ err)
  | Ok out => Ok out
  end.

Definition GetStagedDiff (path : string) : result string :=
  match git_Output ["diff"; "--cached"; "--unified=100"; "--"; path] with
  | Err err => Err ("failed to get staged diff for " +:+ path +:+ ": " +:+ err)
  | Ok out => Ok out
  end.

Definition GetWorktreeDiff (path : string) : result string :=
  match git_Output ["diff"; "--unified=100"; "--"; path] with
  | Err err => Err ("failed to get worktree diff for " +:+ path +:+ ": " +:+ err)
  | Ok out => Ok out
  end.

Definition GetRepoRoot : result string :=
  match git_Output ["rev-parse"; "--show-toplevel"] with
  | Err err =>
      Err ("failed to find git root (are you in a git repo?): " +:+ err)
  | Ok out => Ok (strings_TrimSpace out)
  end.

(** The functions of the package, as the providers of package analysis
    call them. *)
Definition as_git_lib : git_lib := {|
  git_GetStagedFiles := GetStagedFiles;
  git_GetUncommittedFiles := GetUncommittedFiles;
  git_GetAllTrackedFiles := GetAllTrackedFiles;
  git_GetStagedFileContent := GetStagedFileContent;
  git_GetStagedDiff := GetStagedDiff;
  git_GetWorktreeDiff := GetWorktreeDiff
|}.
End WithExec.
End git.

(* ===================================================================== *)
(** * Package cli: ensureGitignore                                        *)
(* ===================================================================== *)

Module cli_init.

Definition gitignorePath : string := ".gitignore".
Definition archguardEntry : string := ".archguard/".

Section WithWorld.
Context {P : Type}.

(** [ensureGitignore]. The deferred [Close] sets a local [err] that the
    function has already returned, so its error is dropped. *)
Definition ensureGitignore (w : World P) : option error * World P :=
  match os_ReadFile (fs w) gitignorePath with
  | OsError err => (Some err, w)
  | r =>
      let content := match r with OsOk data => data | _ => "" end in
      let lines := strings_Split content nl in
      if existsb (fun line => String.eqb (strings_TrimSpace line) archguardEntry) lines
      then (None, w)
      else
        match os_OpenFile_append (fs w) gitignorePath with
        | (Some err, _) => (Some err, w)
        | (None, fs0) =>
            let '(werr, fs1) :=
              if (len content >? 0) && negb (strings_HasSuffix content nl)
              then os_WriteString fs0 gitignorePath nl
              else (None, fs0) in
            match werr with
            | Some err => (Some err, set_fs fs1 w)
            | None =>
                match os_WriteString fs1 gitignorePath (archguardEntry +:+ nl) with
                | (Some err, fs2) => (Some err, set_fs fs2 w)
                | (None, fs2) =>
                    (None, print ("Added " +:+ archguardEntry +:+ " to .gitignore"
                                    +:+ nl) (set_fs fs2 w))
                end
            end
        end
  end.
End WithWorld.
End cli_init.

(* ===================================================================== *)
(** * Stand-ins for the libraries of the index and of git                 *)
(* ===================================================================== *)

Module stand_ins.

(** path/filepath on clean, slash-separated paths. *)
Definition Base (path : string) : string :=
  let i := strings_LastIndex path "/" in
  if i <? 0 then path else slice_from path (i + 1).

Definition Dir (path : string) : string :=
  let i := strings_LastIndex path "/" in
  if i <? 0 then "." else slice_to path i.

Definition Rel (basepath targpath : string) : result string :=
  if String.prefix (basepath +:+ "/") targpath
  then Ok (drop_str (String.length basepath + 1) targpath)
  else Err ("Rel: can't make " +:+ targpath +:+ " relative to " +:+ basepath).

#[export] Instance slash_paths : filepath_lib := {
  filepath_Dir := Dir;
  filepath_Base := Base;
  filepath_Rel := Rel
}.

(** Case folding of the ASCII letters. *)
Definition lower (c : ascii) : ascii :=
  let n := nat_of_ascii c in
  if (65 <=? n)%nat && (n <=? 90)%nat then ascii_of_nat (n + 32) else c.

Fixpoint lower_string (s : string) : string :=
  match s with
  | EmptyString => EmptyString
  | String c s' => String (lower c) (lower_string s')
  end.

#[export] Instance ascii_fold : strings_lib := {
  strings_EqualFold s t := String.eqb (lower_string s) (lower_string t)
}.

(** A reader of front matter with one plain [key: value] per line. *)
Definition set_field (fm : adr.FrontMatter) (line : string) : adr.FrontMatter :=
  let line := strings_TrimSpace line in
  let value (key : string) := strings_TrimSpace (drop_str (String.length key) line) in
  if String.prefix "title:" line
  then {| adr.Title := value "title:"; adr.Status := adr.Status fm;
          adr.Scope := adr.Scope fm |}
  else if String.prefix "status:" line
  then {| adr.Title := adr.Title fm; adr.Status := value "status:";
          adr.Scope := adr.Scope fm |}
  else if String.prefix "scope:" line
  then {| adr.Title := adr.Title fm; adr.Status := adr.Status fm;
          adr.Scope := value "scope:" |}
  else fm.

#[export] Instance flat_yaml : adr.yaml_lib := {
  adr.yaml_Unmarshal_FrontMatter data fm :=
    (fold_left set_field (strings_Split data nl) fm, None)
}.

(** The indented encoding of a store without records; the stand-in refuses
    the others. *)
Definition MarshalIndent_Store (s : index.Store) : result string :=
  match index.ADRs s with
  | [] =>
      Ok ("{" +:+ nl
          +:+ "  " +:+ doubles.quoted "adrs" +:+ ": []," +:+ nl
          +:+ "  " +:+ doubles.quoted "hash" +:+ ": " +:+ doubles.quoted (index.Hash s)
          +:+ "," +:+ nl
          +:+ "  " +:+ doubles.quoted "model_name" +:+ ": "
          +:+ doubles.quoted (index.ModelName s) +:+ "," +:+ nl
          +:+ "  " +:+ doubles.quoted "dim" +:+ ": " +:+ fmt_d (index.Dim s) +:+ nl
          +:+ "}")
  | _ :: _ => Err "json: records are not encoded"
  end.

#[export] Instance store_writer : store.json_Store_writer := {
  store.json_MarshalIndent_Store := MarshalIndent_Store
}.

(** A walk that visits the directory and then the files below it. *)
Definition walk (fs : FS) (root : string) : list WalkVisit :=
  {| visit_path := root; visit_name := Base root; visit_IsDir := true;
     visit_err := None |}
  :: map (fun kv => {| visit_path := fst kv; visit_name := Base (fst kv);
                       visit_IsDir := false; visit_err := None |})
       (List.filter (fun kv => String.prefix (root +:+ "/") (fst kv))
          (map_to_list (files fs))).

#[export] Instance walking_paths : path_lib := {
  filepath_Match := @filepath_Match doubles.paths;
  filepath_Join := @filepath_Join doubles.paths;
  regexp_MatchString := @regexp_MatchString doubles.paths;
  filepath_Walk := walk
}.

(** No encoding can be loaded. *)
#[export] Instance no_tokens : tiktoken_lib := {
  Tiktoken := unit;
  tiktoken_EncodingForModel model := Err ("no encoding for model " +:+ model);
  tiktoken_GetEncoding name := Err ("unknown encoding " +:+ name);
  tkm_Encode _ s := [];
  tkm_Decode _ ids := ""
}.

(** A repository with two tracked files and nothing staged. *)
#[export] Instance two_tracked : git.git_exec := {
  git.git_Output args :=
    match args with
    | ["ls-files"] => Ok ("main.go" +:+ nl +:+ "docs/adr/0001-use-go.md" +:+ nl)
    | ["diff"; "--cached"; "--name-only"; "--diff-filter=ACMR"] => Ok ""
    | _ => Err "exit status 128"
    end
}.

End stand_ins.

(* ===================================================================== *)
(** * Facts about strings                                                  *)
(* ===================================================================== *)

Lemma append_cons (x : ascii) (a b : string) : String x a +:+ b = String x (a +:+ b).
Proof. reflexivity. Qed.

Lemma append_nil_l (a : string) : "" +:+ a = a.
Proof. reflexivity. Qed.

(** stdpp keeps [String.append] folded under [simpl]; this unfolds one step. *)
Ltac step_append := rewrite ?append_cons, ?append_nil_l in *.

Lemma append_assoc (a b c : string) : (a +:+ b) +:+ c = a +:+ (b +:+ c).
Proof. induction a as [|x a IH]; step_append; [reflexivity|]. now rewrite IH. Qed.

Lemma append_nil_r (a : string) : a +:+ "" = a.
Proof. induction a as [|x a IH]; step_append; [reflexivity|]. now rewrite IH. Qed.

Lemma append_length (a b : string) :
  String.length (a +:+ b) = (String.length a + String.length b)%nat.
Proof. induction a as [|x a IH]; step_append; simpl; [reflexivity|]. now rewrite IH. Qed.

Lemma append_inv_head (p a b : string) : p +:+ a = p +:+ b -> a = b.
Proof.
  induction p as [|x p IH]; intros H; step_append; [assumption|].
  injection H. auto.
Qed.

Lemma append_inv_tail (a b t : string) : a +:+ t = b +:+ t -> a = b.
Proof.
  revert b. induction a as [|x a IH]; intros [|y b] H; step_append.
  - reflexivity.
  - apply (f_equal String.length) in H. simpl in H. rewrite append_length in H. lia.
  - apply (f_equal String.length) in H. simpl in H. rewrite append_length in H. lia.
  - injection H as -> H. f_equal. now apply IH.
Qed.

(** A change in the middle of a concatenation shows in the whole. *)
Lemma append_middle_inj (p a b t : string) : p +:+ a +:+ t = p +:+ b +:+ t -> a = b.
Proof. intros H. apply append_inv_head in H. now apply append_inv_tail in H. Qed.

Definition unhex_digit (c : ascii) : nat :=
  let n := nat_of_ascii c in
  if (n <? 58)%nat then n - 48 else n - 87.

Lemma hex_byte_inv (c : ascii) :
  match hex_byte c with
  | String h (String l EmptyString) =>
      ascii_of_nat (16 * unhex_digit h + unhex_digit l) = c
  | _ => False
  end.
Proof. destruct c as [[] [] [] [] [] [] [] []]; reflexivity. Qed.

Lemma hex_byte_inj (c d : ascii) : hex_byte c = hex_byte d -> c = d.
Proof.
  intros H. pose proof (hex_byte_inv c) as Hc. pose proof (hex_byte_inv d) as Hd.
  rewrite H in Hc.
  destruct (hex_byte d) as [|h [|l [|]]]; try contradiction.
  now rewrite <- Hc, <- Hd.
Qed.

Lemma hex_byte_shape (c : ascii) :
  exists h l, hex_byte c = String h (String l EmptyString).
Proof. unfold hex_byte. eauto. Qed.

Lemma hex_EncodeToString_cons (c : ascii) (s : string) :
  hex_EncodeToString (String c s) = hex_byte c +:+ hex_EncodeToString s.
Proof. reflexivity. Qed.

Lemma hex_EncodeToString_inj (s t : string) :
  hex_EncodeToString s = hex_EncodeToString t -> s = t.
Proof.
  revert t. induction s as [|c s IH]; intros [|d t] H;
    rewrite ?hex_EncodeToString_cons in H.
  - reflexivity.
  - destruct (hex_byte_shape d) as (h & l & E). rewrite E in H. discriminate H.
  - destruct (hex_byte_shape c) as (h & l & E). rewrite E in H. discriminate H.
  - destruct (hex_byte_shape c) as (h & l & E), (hex_byte_shape d) as (h' & l' & E').
    rewrite E, E' in H. step_append. injection H as -> -> H.
    f_equal; [|now apply IH]. apply hex_byte_inj. now rewrite E, E'.
Qed.

(* ===================================================================== *)
(** * The cache fingerprint                                                *)
(* ===================================================================== *)

(** The two five-tuples differ in exactly one component. *)
Definition single_change (t t' : string * string * string * string * string) : Prop :=
  let '(m, a, f, s, u) := t in
  let '(m', a', f', s', u') := t' in
  (m <> m' /\ a = a' /\ f = f' /\ s = s' /\ u = u')
  \/ (m = m' /\ a <> a' /\ f = f' /\ s = s' /\ u = u')
  \/ (m = m' /\ a = a' /\ f <> f' /\ s = s' /\ u = u')
  \/ (m = m' /\ a = a' /\ f = f' /\ s <> s' /\ u = u')
  \/ (m = m' /\ a = a' /\ f = f' /\ s = s' /\ u <> u').

Definition key_of (t : string * string * string * string * string) : string :=
  let '(m, a, f, s, u) := t in cache.ComputeAnalysisKey m a f s u.

Definition material_of (t : string * string * string * string * string) : string :=
  let '(m, a, f, s, u) := t in cache.key_material m a f s u.

(** A single change reaches the bytes that are hashed: the separators
    cannot hide it, because everything around the changed component is
    the same on both sides. *)
Lemma single_change_material t t' :
  single_change t t' -> material_of t <> material_of t'.
Proof.
  destruct t as [[[[m a] f] s] u], t' as [[[[m' a'] f'] s'] u'].
  unfold single_change, material_of, cache.key_material.
  intros [H|[H|[H|[H|H]]]]; destruct H as (H1 & H2 & H3 & H4 & H5); subst; intros E.
  - apply H1. now apply append_inv_tail in E.
  - apply H2. apply append_inv_head in E. apply append_inv_head in E.
    now apply append_inv_tail in E.
  - apply H3. do 4 apply append_inv_head in E. now apply append_inv_tail in E.
  - apply H4. do 6 apply append_inv_head in E. now apply append_inv_tail in E.
  - apply H5. now do 8 apply append_inv_head in E.
Qed.

(** ** Only finitely many fingerprints *)

Lemma string_of_list_ascii_length (l : list ascii) :
  String.length (string_of_list_ascii l) = length l.
Proof. induction l as [|c l IH]; cbn; [reflexivity|now rewrite IH]. Qed.

Lemma be_bytes_length (n : nat) (z : Z) : length (sha256.be_bytes n z) = n.
Proof. unfold sha256.be_bytes. now rewrite List.length_map, List.length_seq. Qed.

(** A digest has 32 bytes. *)
Lemma Sum_length (msg : string) : String.length (sha256.Sum msg) = 32%nat.
Proof.
  unfold sha256.Sum.
  destruct (sha256.blocks _ _ _) as [[[[[[[a b] c] d] e] f] g] h].
  unfold sha256.string_of_bytes.
  rewrite string_of_list_ascii_length, List.length_map.
  cbn [flat_map]. rewrite !List.length_app, !be_bytes_length. reflexivity.
Qed.

(** A string as a number in base 256. *)
Fixpoint code (s : string) : nat :=
  match s with
  | EmptyString => 0
  | String c s' => nat_of_ascii c + 256 * code s'
  end.

Lemma nat_of_ascii_bound (c : ascii) : (nat_of_ascii c < 256)%nat.
Proof. destruct c as [[] [] [] [] [] [] [] []]; vm_compute; lia. Qed.

Lemma code_bound (s : string) : (code s < 256 ^ String.length s)%nat.
Proof.
  induction s as [|c s IH]; cbn [code String.length]; [cbn; lia|].
  pose proof (nat_of_ascii_bound c). rewrite Nat.pow_succ_r'. lia.
Qed.

Lemma code_inj (s t : string) :
  String.length s = String.length t -> code s = code t -> s = t.
Proof.
  revert t. induction s as [|c s IH]; intros [|d t] Hl Hc; cbn [String.length] in Hl;
    try discriminate; [reflexivity|].
  cbn [code] in Hc. pose proof (nat_of_ascii_bound c). pose proof (nat_of_ascii_bound d).
  assert (Hcd : nat_of_ascii c = nat_of_ascii d) by lia.
  assert (Hst : code s = code t) by lia.
  f_equal.
  - rewrite <- (ascii_nat_embedding c), <- (ascii_nat_embedding d). now rewrite Hcd.
  - apply IH; [now injection Hl|assumption].
Qed.

(** Among the members of a list of numbers, two are equal or none is. *)
Lemma dup_or_NoDup (l : list nat) :
  List.NoDup l \/ exists i j, (i < j < length l)%nat /\ nth i l 0%nat = nth j l 0%nat.
Proof.
  induction l as [|a l IH]; [left; constructor|].
  destruct (in_dec Nat.eq_dec a l) as [Hin|Hout].
  - right. apply (In_nth l a 0%nat) in Hin as (k & Hk & Hnth).
    exists 0%nat, (S k). cbn [length nth]. split; [lia|now rewrite Hnth].
  - destruct IH as [Hnd|(i & j & Hij & Heq)].
    + left. apply List.NoDup_cons; assumption.
    + right. exists (S i), (S j). cbn [length nth]. split; [lia|assumption].
Qed.

(** The pigeonhole principle: [N + 1] numbers below [N] are not all
    different. *)
Lemma pigeonhole (N : nat) (g : nat -> nat) :
  (forall i, (g i < N)%nat) ->
  exists i j, (i < j <= N)%nat /\ g i = g j.
Proof.
  intros Hg. set (l := map g (seq 0 (S N))).
  assert (Hlen : length l = S N) by (unfold l; now rewrite List.length_map, List.length_seq).
  assert (Hnth : forall i, (i < S N)%nat -> nth i l 0%nat = g i).
  { intros i Hi. unfold l.
    rewrite (nth_indep _ 0%nat (g 0%nat)) by (rewrite List.length_map, List.length_seq; lia).
    rewrite map_nth, seq_nth by lia. reflexivity. }
  destruct (dup_or_NoDup l) as [Hnd|(i & j & Hij & Heq)].
  - exfalso. assert (Hincl : incl l (seq 0 N)).
    { intros x Hx. unfold l in Hx. apply in_map_iff in Hx as (i & <- & _).
      apply in_seq. specialize (Hg i). lia. }
    pose proof (List.NoDup_incl_length Hnd Hincl) as Hle.
    rewrite Hlen, List.length_seq in Hle. lia.
  - exists i, j. rewrite Hlen in Hij. split; [lia|].
    rewrite <- (Hnth i), <- (Hnth j) by lia. exact Heq.
Qed.

(** As many different texts as wanted. *)
Fixpoint filler (n : nat) : string :=
  match n with
  | O => EmptyString
  | S k => String "a" (filler k)
  end.

Lemma filler_length (n : nat) : String.length (filler n) = n.
Proof. induction n as [|n IH]; cbn; [reflexivity|now rewrite IH]. Qed.

(** Whatever the other four components, two different ADR texts have the
    same fingerprint: there are more texts than digests of 32 bytes. *)
Lemma key_collision (m f s u : string) :
  exists a a', a <> a'
    /\ cache.ComputeAnalysisKey m a f s u = cache.ComputeAnalysisKey m a' f s u.
Proof.
  destruct (pigeonhole (256 ^ 32)
              (fun i => code (sha256.Sum (cache.key_material m (filler i) f s u))))
    as (i & j & Hij & Heq).
  { intros i. rewrite <- (Sum_length (cache.key_material m (filler i) f s u)) at 2.
    apply code_bound. }
  apply code_inj in Heq; [|now rewrite !Sum_length].
  exists (filler i), (filler j). split.
  - intros E. apply (f_equal String.length) in E. rewrite !filler_length in E. lia.
  - unfold cache.ComputeAnalysisKey. now rewrite Heq.
Qed.

(** C8. [ComputeAnalysisKey] is a function of the ordered five-tuple
    (model name, ADR text, file text, system prompt, prompt template): equal
    tuples give equal fingerprints. When exactly one of the five components
    changes, the bytes that are hashed change, and the fingerprint changes
    exactly when SHA-256 does not send the old and the new bytes to one
    digest. That proviso is not empty: whatever the other four components,
    two different ADR texts share a fingerprint. *)
Theorem ComputeAnalysisKey_sensitive
    (t t' : string * string * string * string * string) :
  (t = t' -> key_of t = key_of t')
  /\ (single_change t t' ->
      material_of t <> material_of t'
      /\ (key_of t <> key_of t'
          <-> sha256.Sum (material_of t) <> sha256.Sum (material_of t')))
  /\ (forall m f s u,
        exists a a',
          single_change (m, a, f, s, u) (m, a', f, s, u)
          /\ key_of (m, a, f, s, u) = key_of (m, a', f, s, u)).
Proof.
  split; [now intros ->|]. split.
  - intros Hchg. split; [now apply single_change_material|].
    destruct t as [[[[m a] f] s] u], t' as [[[[m' a'] f'] s'] u'].
    unfold key_of, material_of, cache.ComputeAnalysisKey. split.
    + intros Hkey Hsum. apply Hkey. now rewrite Hsum.
    + intros Hsum Hkey. apply Hsum. now apply hex_EncodeToString_inj.
  - intros m f s u. destruct (key_collision m f s u) as (a & a' & Hne & Hkey).
    exists a, a'. split; [|exact Hkey].
    right. left. now repeat split.
Qed.

(** Against C8 as stated: two ADR texts that differ, every other component
    held fixed, with one fingerprint. *)
Lemma ComputeAnalysisKey_collides :
  exists adr adr',
    adr <> adr'
    /\ cache.ComputeAnalysisKey "llama3.2" adr "package main"
         llm.DefaultSystemPrompt llm.ChatPrompt
       = cache.ComputeAnalysisKey "llama3.2" adr' "package main"
           llm.DefaultSystemPrompt llm.ChatPrompt.
Proof. apply key_collision. Qed.

(** An instance of C8: the model name alone changes, and so does the key,
    because the two digests differ. *)
Lemma ComputeAnalysisKey_sensitive_witness :
  key_of ("llama3.2", "All services must be Go.", "package main",
          llm.DefaultSystemPrompt, llm.ChatPrompt)
  <> key_of ("llama3.1", "All services must be Go.", "package main",
             llm.DefaultSystemPrompt, llm.ChatPrompt).
Proof.
  refine (proj2 (proj2 (proj1 (proj2 (ComputeAnalysisKey_sensitive _ _)) _)) _).
  - left. repeat split; discriminate.
  - vm_compute. discriminate.
Defined.

(* ===================================================================== *)
(** * The token budget: fetchContext                                       *)
(* ===================================================================== *)

Lemma prefix_String (a b : ascii) (s1 s2 : string) :
  String.prefix (String a s1) (String b s2) = Ascii.eqb a b && String.prefix s1 s2.
Proof.
  cbn [String.prefix]. destruct (ascii_dec a b) as [->|n].
  - now rewrite Ascii.eqb_refl.
  - apply Ascii.eqb_neq in n. now rewrite n.
Qed.

Lemma prefix_empty (s : string) : String.prefix "" s = true.
Proof. now destruct s. Qed.

Lemma prefix_nl (s : string) :
  String.prefix nl s = true <-> exists rest, s = nl +:+ rest.
Proof.
  unfold nl. split.
  - destruct s as [|c s]; [discriminate|]. rewrite prefix_String, prefix_empty, andb_true_r.
    intros H. apply Ascii.eqb_eq in H as <-. now exists s.
  - intros [rest ->]. step_append.
    now rewrite prefix_String, prefix_empty, Ascii.eqb_refl.
Qed.

Lemma Index_from_absent (s sep : string) (i j : Z) :
  0 <= i -> 0 <= j -> Index_from s sep i = -1 -> Index_from s sep j = -1.
Proof.
  revert i j. induction s as [|c s IH]; intros i j Hi Hj; cbn [Index_from].
  - destruct (String.prefix sep ""); [lia|auto].
  - destruct (String.prefix sep (String c s)); [lia|].
    apply IH; lia.
Qed.

Lemma LastIndex_from_nl (s : string) (i : Z) :
  0 <= i ->
  (LastIndex_from s nl i = -1 /\ Index_from s nl i = -1)
  \/ (exists p rest, s = p +:+ nl +:+ rest
        /\ LastIndex_from s nl i = i + len p
        /\ Index_from rest nl 0 = -1).
Proof.
  revert i. induction s as [|c s IH]; intros i Hi.
  - left. split; reflexivity.
  - cbn [LastIndex_from Index_from].
    destruct (IH (i + 1) ltac:(lia)) as [[Hl Hx]|(p & rest & -> & Hl & Hrest)].
    + rewrite Hl. change (-1 =? -1) with true. cbv iota.
      destruct (String.prefix nl (String c s)) eqn:Hp.
      * right. apply prefix_nl in Hp as [rest Hp]. exists "", rest.
        unfold nl in Hp. step_append. injection Hp as -> ->. repeat split.
        -- unfold len. simpl. lia.
        -- apply (Index_from_absent _ _ (i + 1)); auto; lia.
      * left. split; [reflexivity|assumption].
    + right. exists (String c p), rest. rewrite Hl. repeat split.
      * assert ((i + 1 + len p =? -1) = false) as -> by (apply Z.eqb_neq; unfold len; lia).
        unfold len. simpl String.length. lia.
      * assumption.
Qed.

Lemma substring_append (a b : string) : substring 0 (String.length a) (a +:+ b) = a.
Proof.
  induction a as [|x a IH]; step_append; simpl.
  - now destruct b.
  - now rewrite IH.
Qed.

Lemma rollback_to_newline_spec (cut : string) :
  (strings_Contains cut nl = false /\ analysis.rollback_to_newline cut = cut)
  \/ (exists p rest, cut = p +:+ nl +:+ rest
        /\ strings_Contains rest nl = false
        /\ analysis.rollback_to_newline cut = p +:+ nl).
Proof.
  unfold analysis.rollback_to_newline, strings_LastIndex, strings_Contains, strings_Index.
  destruct (LastIndex_from_nl cut 0 ltac:(lia)) as [[Hl Hx]|(p & rest & -> & Hl & Hrest)].
  - left. rewrite Hl, Hx. split; reflexivity.
  - right. exists p, rest. rewrite Hl, Hrest. repeat split.
    assert ((0 + len p =? -1) = false) as -> by (apply Z.eqb_neq; unfold len; lia).
    cbn [negb]. unfold slice_to.
    replace (Z.to_nat (0 + len p + 1)) with (String.length (p +:+ nl))
      by (rewrite append_length; unfold len, nl; simpl; lia).
    rewrite <- append_assoc. apply substring_append.
Qed.

Section FetchContext.
Context {P C : Type} `{ContentProvider C} `{tiktoken_lib}.

(** The ceiling in force: 8000 when the configuration leaves it unset. *)
Definition token_ceiling (e : analysis.Engine C) : Z :=
  let m := config.MaxTokens (config.LLM (analysis.Config e)) in
  if m =? 0 then 8000 else m.

(** C5. With a non-negative ceiling (8000 when unset), readable content and
    a tokenizer: content of at most that many tokens is returned whole, mode
    "full"; longer content is replaced by a non-empty diff, verbatim, mode
    "diff"; without a diff the tokens are cut at the ceiling and decoded, and
    the text is cut again after its last newline, so that it ends with a
    newline and what was dropped holds none; a cut text without any newline
    is returned as it is. Mode "truncated" in both cases. *)
Theorem fetchContext_modes (e : analysis.Engine C) (path : string) (w : World P)
    (fullContent : string) (tkm : Tiktoken) :
  0 <= config.MaxTokens (config.LLM (analysis.Config e)) ->
  GetContent (analysis.Content e) (fs w) path = Ok fullContent ->
  analysis.getTokenizer e = Ok tkm ->
  let tokenIds := tkm_Encode tkm fullContent in
  let n := Z.of_nat (length tokenIds) in
  (n <= token_ceiling e ->
     analysis.fetchContext e path w = Returns (fullContent, "full", None, w))
  /\ (token_ceiling e < n ->
      forall diff, GetDiff (analysis.Content e) (fs w) path = Ok diff -> diff <> "" ->
        analysis.fetchContext e path w = Returns (diff, "diff", None, w))
  /\ (token_ceiling e < n ->
      (GetDiff (analysis.Content e) (fs w) path = Ok ""
       \/ exists err, GetDiff (analysis.Content e) (fs w) path = Err err) ->
      let cut := tkm_Decode tkm (firstn (Z.to_nat (token_ceiling e)) tokenIds) in
      exists text,
        analysis.fetchContext e path w = Returns (text, "truncated", None, w)
        /\ ((strings_Contains cut nl = false /\ text = cut)
            \/ (exists p rest, cut = p +:+ nl +:+ rest
                  /\ strings_Contains rest nl = false
                  /\ text = p +:+ nl))).
Proof.
  intros Hmax Hcontent Htok tokenIds n.
  assert (Hceil : 0 <= token_ceiling e).
  { unfold token_ceiling. destruct (_ =? 0); lia. }
  assert (Hunfold : analysis.fetchContext e path w =
    if n <=? token_ceiling e then Returns (fullContent, "full", None, w)
    else
      let truncate :=
        let! truncatedIds := analysis.tokens_to tokenIds (token_ceiling e) in
        Returns (analysis.rollback_to_newline (tkm_Decode tkm truncatedIds),
                 "truncated", None, w) in
      match GetDiff (analysis.Content e) (fs w) path with
      | Err _ => truncate
      | Ok diff => if String.eqb diff "" then truncate
                   else Returns (diff, "diff", None, w)
      end).
  { unfold analysis.fetchContext. rewrite Hcontent, Htok. reflexivity. }
  rewrite Hunfold. clear Hunfold.
  split; [|split].
  - intros Hle. apply Z.leb_le in Hle. now rewrite Hle.
  - intros Hlt diff Hdiff Hne. apply Z.leb_gt in Hlt. rewrite Hlt, Hdiff.
    apply String.eqb_neq in Hne. now rewrite Hne.
  - intros Hlt Hnodiff cut.
    assert (Hcut : analysis.tokens_to tokenIds (token_ceiling e)
                   = Returns (firstn (Z.to_nat (token_ceiling e)) tokenIds)).
    { unfold analysis.tokens_to. fold n.
      assert ((token_ceiling e <? 0) = false) as -> by (apply Z.ltb_ge; lia).
      assert ((n <? token_ceiling e) = false) as -> by (apply Z.ltb_ge; lia).
      reflexivity. }
    apply Z.leb_gt in Hlt. rewrite Hlt.
    exists (analysis.rollback_to_newline cut). split.
    + destruct Hnodiff as [Hd|[err Hd]]; rewrite Hd; cbn; rewrite Hcut; reflexivity.
    + destruct (rollback_to_newline_spec cut) as [[Hc Hr]|(p & rest & Hc & Hrest & Hr)].
      * left. now rewrite Hr.
      * right. exists p, rest. now rewrite Hr.
Qed.
End FetchContext.

Section fetchContext_instance.
#[local] Existing Instance doubles.byte_tokens.
#[local] Existing Instance doubles.MockTruncationProvider_ContentProvider.

(** C5 on the three-line content of the truncation test. *)
Lemma fetchContext_modes_witness :
  exists text,
    analysis.fetchContext (fixtures.truncation_engine true) "test.go"
      (fixtures.world_of fixtures.always_fails empty_FS)
    = Returns (text, "truncated", None, fixtures.world_of fixtures.always_fails empty_FS)
    /\ ((strings_Contains ("Line1" +:+ nl +:+ "Li") nl = false
         /\ text = "Line1" +:+ nl +:+ "Li")
        \/ (exists p rest, "Line1" +:+ nl +:+ "Li" = p +:+ nl +:+ rest
              /\ strings_Contains rest nl = false
              /\ text = p +:+ nl)).
Proof.
  refine (proj2 (proj2 (fetchContext_modes (fixtures.truncation_engine true) "test.go"
            (fixtures.world_of fixtures.always_fails empty_FS) fixtures.three_lines tt _ _ _)) _ _).
  - simpl. lia.
  - reflexivity.
  - reflexivity.
  - vm_compute. reflexivity.
  - left. reflexivity.
Defined.
End fetchContext_instance.

(* ===================================================================== *)
(** * The result cache: Get and Put                                        *)
(* ===================================================================== *)

Section CacheRoundTrip.
Import llm_types.
Context {C : Type} `{encoding_json} `{path_lib}.

(** Where [Get] and [Put] keep the entry of a fingerprint. *)
Definition entry_path (c : cache.Cache) (fp : string) : string :=
  filepath_Join [cache.Dir c; fp +:+ ".json"].

Lemma Get_unknown (c : cache.Cache) (fs0 : FS) (fp : string) :
  files fs0 !! entry_path c fp = None ->
  cache.Get c fs0 fp = (None, false, None).
Proof.
  intros Hnone. unfold cache.Get, os_Stat_IsNotExist. fold (entry_path c fp).
  now rewrite Hnone.
Qed.

Lemma Get_stored (c : cache.Cache) (fs0 : FS) (fp data : string) :
  files fs0 !! entry_path c fp = Some data ->
  entry_path c fp ∉ unreadable fs0 ->
  cache.Get c fs0 fp =
    match json_Unmarshal_AnalysisResult data zero with
    | (_, Some err) => (None, false, Some err)
    | (res, None) => (Some res, true, None)
    end.
Proof.
  intros Hsome Hread. unfold cache.Get, os_Stat_IsNotExist, os_ReadFile.
  fold (entry_path c fp). rewrite Hsome.
  destruct (decide (entry_path c fp ∈ unreadable fs0)); [contradiction|reflexivity].
Qed.

(** C7, as the code has it. [Put(fp, v)] followed by [Get(fp)] returns
    [(v, true)] with no error, when the entry can be written and read and
    the verdict survives its JSON encoding. [Get] on a fingerprint without an
    entry returns [found = false] and no error. [Get] on an entry that does
    not parse returns [found = false] together with the parse error; the
    lookup of the orchestrator discards that error and sees a miss, as for
    an unknown fingerprint. *)
Theorem Cache_Put_Get (c : cache.Cache) (fs0 : FS) (fp : string) :
  (forall (v : AnalysisResult) (data : string),
      entry_path c fp ∉ unwritable fs0 ->
      entry_path c fp ∉ unreadable fs0 ->
      json_Marshal_AnalysisResult v = Ok data ->
      json_Unmarshal_AnalysisResult data zero = (v, None) ->
      exists fs1, cache.Put c fs0 fp v = (None, fs1)
                  /\ cache.Get c fs1 fp = (Some v, true, None))
  /\ (files fs0 !! entry_path c fp = None ->
      cache.Get c fs0 fp = (None, false, None))
  /\ (forall (data : string) (partial : AnalysisResult) (err : error),
      files fs0 !! entry_path c fp = Some data ->
      entry_path c fp ∉ unreadable fs0 ->
      json_Unmarshal_AnalysisResult data zero = (partial, Some err) ->
      cache.Get c fs0 fp = (None, false, Some err)
      /\ forall (e : analysis.Engine C),
           analysis.Cache e = Some c ->
           analysis.cache_lookup e fs0 fp = None).
Proof.
  split; [|split].
  - intros v data Hw Hr Hm Hu.
    unfold cache.Put, os_WriteFile. fold (entry_path c fp). rewrite Hm.
    destruct (decide (entry_path c fp ∈ unwritable fs0)); [contradiction|].
    eexists. split; [reflexivity|].
    rewrite (Get_stored c _ fp data); cbn.
    + now rewrite Hu.
    + apply lookup_insert_eq.
    + assumption.
  - apply Get_unknown.
  - intros data partial err Hsome Hr Hu.
    pose proof (Get_stored c fs0 fp data Hsome Hr) as Hget. rewrite Hu in Hget.
    split; [assumption|].
    intros e He. unfold analysis.cache_lookup. now rewrite He, Hget.
Qed.
End CacheRoundTrip.

Section Cache_instance.
Import llm_types.
#[local] Existing Instance doubles.json.
#[local] Existing Instance doubles.paths.

Definition cache_dir : cache.Cache := {| cache.Dir := ".archguard/cache" |}.

Definition fs_with (path data : string) : FS :=
  {| files := {[ path := data ]}; unreadable := ∅; unwritable := ∅; torn := ∅ |}.

Definition go_verdict : AnalysisResult :=
  {| Violation := true; Reasoning := "Python is not allowed.";
     QuotedCode := "import python_library" |}.

(** Against C7 as stated: on a corrupted entry [Get] returns a parse error,
    on an unknown fingerprint it returns none, so the two results differ. *)
Lemma Cache_Get_corrupt_differs :
  cache.Get cache_dir (fs_with ".archguard/cache/abc.json" "{corrupt") "abc"
    = (None, false, Some doubles.syntax_error)
  /\ cache.Get cache_dir empty_FS "abc" = (None, false, None)
  /\ cache.Get cache_dir (fs_with ".archguard/cache/abc.json" "{corrupt") "abc"
     <> cache.Get cache_dir empty_FS "abc".
Proof.
  assert (H1 : cache.Get cache_dir (fs_with ".archguard/cache/abc.json" "{corrupt") "abc"
    = (None, false, Some doubles.syntax_error)) by (vm_compute; reflexivity).
  assert (H2 : cache.Get cache_dir empty_FS "abc" = (None, false, None))
    by (vm_compute; reflexivity).
  split; [exact H1|]. split; [exact H2|]. rewrite H1, H2. discriminate.
Defined.

(** C7 on a cache directory with one verdict, and with one corrupt entry. *)
Lemma Cache_Put_Get_witness :
  (exists fs1, cache.Put cache_dir empty_FS "abc" go_verdict = (None, fs1)
               /\ cache.Get cache_dir fs1 "abc" = (Some go_verdict, true, None))
  /\ cache.Get cache_dir empty_FS "abc" = (None, false, None)
  /\ cache.Get cache_dir (fs_with ".archguard/cache/abc.json" "{corrupt") "abc"
     = (None, false, Some doubles.syntax_error).
Proof.
  split; [|split].
  - refine (proj1 (Cache_Put_Get (C := unit) cache_dir empty_FS "abc") go_verdict _ _ _ _ _).
    + cbn. apply not_elem_of_empty.
    + cbn. apply not_elem_of_empty.
    + reflexivity.
    + vm_compute. reflexivity.
  - refine (proj1 (proj2 (Cache_Put_Get (C := unit) cache_dir empty_FS "abc")) _).
    reflexivity.
  - refine (proj1 (proj2 (proj2 (Cache_Put_Get (C := unit) cache_dir
              (fs_with ".archguard/cache/abc.json" "{corrupt") "abc"))
              "{corrupt" zero doubles.syntax_error _ _ _)).
    + vm_compute. reflexivity.
    + cbn. apply not_elem_of_empty.
    + vm_compute. reflexivity.
Defined.
End Cache_instance.

(* ===================================================================== *)
(** * The drift judge: retries and backoff                                 *)
(* ===================================================================== *)

Section Retry.
Import llm_types.
Context {P : Type} `{Provider P} `{encoding_json}.

(** The world after a backoff wait of [d] that the timer ends. *)
Definition after_sleep (d : Z) (w : World P) : World P :=
  emit (EvSleep d) (set_clock (clock w + d) w).

(** The world after a call to [Chat] that leaves the provider in [p']. *)
Definition after_chat (systemPrompt prompt : string) (p' : P) (w : World P)
  : World P :=
  set_provider p' (emit (EvChat systemPrompt prompt) w).

Lemma backoff_doubles :
  int_mul (2 * llm.Second) 2 = 4 * llm.Second
  /\ int_mul (4 * llm.Second) 2 = 8 * llm.Second
  /\ int_mul (8 * llm.Second) 2 = 16 * llm.Second.
Proof. repeat split. Qed.

Lemma loop_first_fails fuel backoff lastErr ctx sys prompt (w : World P) e p' :
  Chat (provider w) ctx sys prompt = (Err e, p') ->
  llm.AnalyzeDrift_loop (S fuel) 0 backoff lastErr ctx sys prompt w
  = llm.AnalyzeDrift_loop fuel 1 backoff (Some e) ctx sys prompt
      (after_chat sys prompt p' w).
Proof. intros Hc. cbn. now rewrite Hc. Qed.

Lemma loop_retry_fails fuel i backoff lastErr ctx sys prompt (w : World P) e p' :
  0 < i -> done_at ctx = None ->
  Chat (provider w) ctx sys prompt = (Err e, p') ->
  llm.AnalyzeDrift_loop (S fuel) i backoff lastErr ctx sys prompt w
  = llm.AnalyzeDrift_loop fuel (i + 1) (int_mul backoff 2) (Some e) ctx sys prompt
      (after_chat sys prompt p' (after_sleep backoff w)).
Proof.
  intros Hi Hd Hc. cbn [llm.AnalyzeDrift_loop].
  assert ((i >? 0) = true) as -> by lia.
  unfold llm.select_backoff. rewrite Hd. cbn. now rewrite Hc.
Qed.

Lemma loop_retry_succeeds fuel i backoff lastErr ctx sys prompt (w : World P)
    raw res p' :
  0 < i -> done_at ctx = None ->
  Chat (provider w) ctx sys prompt = (Ok raw, p') ->
  json_Unmarshal_AnalysisResult (llm.CleanJSON raw) zero = (res, None) ->
  llm.AnalyzeDrift_loop (S fuel) i backoff lastErr ctx sys prompt w
  = (Ok res, after_chat sys prompt p' (after_sleep backoff w)).
Proof.
  intros Hi Hd Hc Hu. cbn [llm.AnalyzeDrift_loop].
  assert ((i >? 0) = true) as -> by lia.
  unfold llm.select_backoff. rewrite Hd. cbn. now rewrite Hc, Hu.
Qed.

Lemma loop_cancelled fuel i backoff lastErr ctx sys prompt (w : World P) t :
  0 < i -> done_at ctx = Some t -> t <= clock w + backoff ->
  llm.AnalyzeDrift_loop (S fuel) i backoff lastErr ctx sys prompt w
  = (Err (done_err ctx), set_clock (Z.max (clock w) t) w).
Proof.
  intros Hi Hd Ht. cbn [llm.AnalyzeDrift_loop].
  assert ((i >? 0) = true) as -> by lia.
  unfold llm.select_backoff. rewrite Hd.
  assert ((t <=? clock w + backoff) = true) as -> by lia.
  reflexivity.
Qed.

(** C2. With a context that is never done: four failing calls to [Chat] in
    a row make [AnalyzeDrift] return the terminal error after exactly four
    attempts, separated by waits of 2, 4 and 8 seconds; two failing calls
    followed by a verdict that parses return that verdict after exactly three
    attempts and waits of 2 and 4 seconds. With a context that is done no
    later than the end of a backoff wait, the judgment ends there with the
    context's error and no further attempt: after the first failure for the
    first wait, and at any later iteration of the loop. *)
Theorem AnalyzeDrift_retry (ctx : Context)
    (adrContent codeContext filename systemPrompt : string) (w : World P) :
  let prompt := llm.GetAnalyzeDriftPrompt adrContent codeContext filename in
  let started := [EvAnalyzeDrift adrContent filename] in
  let chat := EvChat systemPrompt prompt in
  (forall e1 e2 e3 e4 p1 p2 p3 p4,
      done_at ctx = None ->
      Chat (provider w) ctx systemPrompt prompt = (Err e1, p1) ->
      Chat p1 ctx systemPrompt prompt = (Err e2, p2) ->
      Chat p2 ctx systemPrompt prompt = (Err e3, p3) ->
      Chat p3 ctx systemPrompt prompt = (Err e4, p4) ->
      exists w',
        llm.AnalyzeDrift ctx adrContent codeContext filename systemPrompt w
        = (Err ("analysis failed after 3 retries: " +:+ e4), w')
        /\ provider w' = p4
        /\ clock w' = clock w + 14 * llm.Second
        /\ trace w' = trace w ++ started
             ++ [chat; EvSleep (2 * llm.Second); chat; EvSleep (4 * llm.Second);
                 chat; EvSleep (8 * llm.Second); chat])
  /\ (forall e1 e2 p1 p2 p3 raw res,
      done_at ctx = None ->
      Chat (provider w) ctx systemPrompt prompt = (Err e1, p1) ->
      Chat p1 ctx systemPrompt prompt = (Err e2, p2) ->
      Chat p2 ctx systemPrompt prompt = (Ok raw, p3) ->
      json_Unmarshal_AnalysisResult (llm.CleanJSON raw) zero = (res, None) ->
      exists w',
        llm.AnalyzeDrift ctx adrContent codeContext filename systemPrompt w
        = (Ok res, w')
        /\ provider w' = p3
        /\ clock w' = clock w + 6 * llm.Second
        /\ trace w' = trace w ++ started
             ++ [chat; EvSleep (2 * llm.Second); chat; EvSleep (4 * llm.Second); chat])
  /\ (forall e1 p1 t,
      Chat (provider w) ctx systemPrompt prompt = (Err e1, p1) ->
      done_at ctx = Some t -> t <= clock w + 2 * llm.Second ->
      exists w',
        llm.AnalyzeDrift ctx adrContent codeContext filename systemPrompt w
        = (Err (done_err ctx), w')
        /\ provider w' = p1
        /\ trace w' = trace w ++ started ++ [chat])
  /\ (forall fuel i backoff lastErr (w1 : World P) t,
      0 < i -> done_at ctx = Some t -> t <= clock w1 + backoff ->
      llm.AnalyzeDrift_loop (S fuel) i backoff lastErr ctx systemPrompt prompt w1
      = (Err (done_err ctx), set_clock (Z.max (clock w1) t) w1)).
Proof.
  intros prompt started chat.
  unfold llm.AnalyzeDrift. fold prompt.
  change (Z.to_nat (llm.maxRetries + 1)) with 4%nat.
  split; [|split; [|split]].
  - intros e1 e2 e3 e4 p1 p2 p3 p4 Hd H1 H2 H3 H4.
    erewrite loop_first_fails by exact H1.
    erewrite loop_retry_fails by (try exact H2; try exact Hd; lia).
    erewrite loop_retry_fails by (try exact H3; try exact Hd; lia).
    erewrite loop_retry_fails by (try exact H4; try exact Hd; lia).
    destruct backoff_doubles as (-> & -> & ->).
    eexists. split; [reflexivity|]. cbn [provider clock trace after_chat after_sleep set_provider set_clock emit].
    split; [reflexivity|]. split; [unfold llm.Second; lia|].
    rewrite <- !app_assoc. reflexivity.
  - intros e1 e2 p1 p2 p3 raw res Hd H1 H2 H3 Hu.
    erewrite loop_first_fails by exact H1.
    erewrite loop_retry_fails by (try exact H2; try exact Hd; lia).
    erewrite loop_retry_succeeds by (try exact H3; try exact Hd; try exact Hu; lia).
    destruct backoff_doubles as (-> & _ & _).
    eexists. split; [reflexivity|]. cbn [provider clock trace after_chat after_sleep set_provider set_clock emit].
    split; [reflexivity|]. split; [unfold llm.Second; lia|].
    rewrite <- !app_assoc. reflexivity.
  - intros e1 p1 t H1 Hd Ht.
    erewrite loop_first_fails by exact H1.
    erewrite loop_cancelled by (try exact Hd; cbn; lia).
    eexists. split; [reflexivity|]. cbn.
    split; [reflexivity|]. rewrite <- !app_assoc. reflexivity.
  - intros fuel i backoff lastErr w1 t Hi Hd Ht. now apply loop_cancelled.
Qed.
End Retry.

Section Retry_instance.
Import llm_types.
#[local] Existing Instance doubles.json.
#[local] Existing Instance llm_mock.MockProvider_Provider.

(** A context cancelled one second after the start of the clock. *)
Definition cancelled_after_1s : Context :=
  {| done_at := Some llm.Second; done_err := "context canceled" |}.

(** The mock after [n] calls to [Chat]. *)
Definition after_calls (m : llm_mock.MockProvider) (n : nat) : llm_mock.MockProvider :=
  {| llm_mock.EmbedFunc := llm_mock.EmbedFunc m;
     llm_mock.ChatFunc := llm_mock.ChatFunc m;
     llm_mock.EmbeddingDim := llm_mock.EmbeddingDim m;
     llm_mock.chat_calls := n |}.

Definition success_verdict : AnalysisResult :=
  {| Violation := false; Reasoning := "success"; QuotedCode := "" |}.

(** C2 on the providers of the two retry tests, and under cancellation. *)
Lemma AnalyzeDrift_retry_witness :
  (exists w',
      llm.AnalyzeDrift context_Background "adr" "code" "file.go" "system"
        (fixtures.world_of fixtures.always_fails empty_FS)
      = (Err ("analysis failed after 3 retries: " +:+ "persistent error"), w')
      /\ provider w' = after_calls fixtures.always_fails 4
      /\ clock w' = 0 + 14 * llm.Second)
  /\ (exists w',
      llm.AnalyzeDrift context_Background "adr" "code" "file.go" "system"
        (fixtures.world_of fixtures.fails_twice empty_FS)
      = (Ok success_verdict, w')
      /\ provider w' = after_calls fixtures.fails_twice 3
      /\ clock w' = 0 + 6 * llm.Second)
  /\ (exists w',
      llm.AnalyzeDrift cancelled_after_1s "adr" "code" "file.go" "system"
        (fixtures.world_of fixtures.always_fails empty_FS)
      = (Err "context canceled", w')
      /\ provider w' = after_calls fixtures.always_fails 1).
Proof.
  pose proof (AnalyzeDrift_retry context_Background "adr" "code" "file.go" "system"
                (fixtures.world_of fixtures.always_fails empty_FS)) as Tfail.
  pose proof (AnalyzeDrift_retry context_Background "adr" "code" "file.go" "system"
                (fixtures.world_of fixtures.fails_twice empty_FS)) as Ttwice.
  pose proof (AnalyzeDrift_retry cancelled_after_1s "adr" "code" "file.go" "system"
                (fixtures.world_of fixtures.always_fails empty_FS)) as Tcancel.
  split; [|split].
  - destruct (proj1 Tfail
        "persistent error" "persistent error" "persistent error" "persistent error"
        (after_calls fixtures.always_fails 1) (after_calls fixtures.always_fails 2)
        (after_calls fixtures.always_fails 3) (after_calls fixtures.always_fails 4)
        eq_refl eq_refl eq_refl eq_refl eq_refl)
      as (w' & Hr & Hp & Hc & _).
    exists w'. exact (conj Hr (conj Hp Hc)).
  - assert (Hu : json_Unmarshal_AnalysisResult
                   (llm.CleanJSON (fixtures.verdict_json "false" "success" "")) zero
                 = (success_verdict, None)) by (vm_compute; reflexivity).
    destruct (proj1 (proj2 Ttwice)
        "simulated 429 error" "simulated 429 error"
        (after_calls fixtures.fails_twice 1) (after_calls fixtures.fails_twice 2)
        (after_calls fixtures.fails_twice 3)
        (fixtures.verdict_json "false" "success" "") success_verdict
        eq_refl eq_refl eq_refl eq_refl Hu)
      as (w' & Hr & Hp & Hc & _).
    exists w'. exact (conj Hr (conj Hp Hc)).
  - assert (Ht : llm.Second <= clock (fixtures.world_of fixtures.always_fails empty_FS)
                               + 2 * llm.Second) by (cbn; unfold llm.Second; lia).
    destruct (proj1 (proj2 (proj2 Tcancel))
        "persistent error" (after_calls fixtures.always_fails 1) llm.Second
        eq_refl eq_refl Ht)
      as (w' & Hr & Hp & _).
    exists w'. exact (conj Hr Hp).
Defined.
End Retry_instance.

(* ===================================================================== *)
(** * The orchestrator: workers, the count, the final result               *)
(* ===================================================================== *)

(** Counting the calls of a trace. *)
Definition is_judge (ev : Event) : bool :=
  match ev with EvAnalyzeDrift _ _ => true | _ => false end.
Definition is_embed (ev : Event) : bool :=
  match ev with EvCreateEmbedding _ => true | _ => false end.
Definition is_search (ev : Event) : bool :=
  match ev with EvSearch _ => true | _ => false end.
Definition is_chat (ev : Event) : bool :=
  match ev with EvChat _ _ => true | _ => false end.

Definition calls (kind : Event -> bool) (evs : list Event) : nat :=
  length (List.filter kind evs).

(** Only attempts and waits: what [AnalyzeDrift] does after it has started. *)
Definition attempt_or_wait (ev : Event) : Prop :=
  match ev with EvChat _ _ | EvSleep _ => True | _ => False end.

Lemma calls_app kind a b : calls kind (a ++ b) = (calls kind a + calls kind b)%nat.
Proof. unfold calls. now rewrite List.filter_app, List.length_app. Qed.

Lemma calls_attempts kind evs :
  (forall x y, kind (EvChat x y) = false) -> (forall d, kind (EvSleep d) = false) ->
  Forall attempt_or_wait evs -> calls kind evs = 0%nat.
Proof.
  intros Hc Hs. induction 1 as [|ev evs Hev _ IH]; [reflexivity|].
  unfold calls in *. cbn [List.filter].
  destruct ev; try contradiction; rewrite ?Hc, ?Hs; assumption.
Qed.

Lemma wrap_int_small z : - 2 ^ 63 <= z < 2 ^ 63 -> wrap_int z = z.
Proof.
  intros Hz. unfold wrap_int. rewrite Z.mod_small; lia.
Qed.

Section RunFacts.
Import llm_types.
Context {P C : Type} `{Provider P} `{ContentProvider C}.
Context `{encoding_json} `{path_lib} `{fmt_lib} `{tiktoken_lib} `{SliceSorter}.

(** [w'] is [w] after the events [evs]. *)
Definition extends (w w' : World P) (evs : list Event) : Prop :=
  trace w' = trace w ++ evs.

Lemma extends_refl w : extends w w [].
Proof. unfold extends. now rewrite app_nil_r. Qed.

Lemma extends_trans w1 w2 w3 a b :
  extends w1 w2 a -> extends w2 w3 b -> extends w1 w3 (a ++ b).
Proof. unfold extends. intros H12 H23. now rewrite H23, H12, app_assoc. Qed.

Lemma Log_quiet (e : analysis.Engine C) msg (w : World P) :
  trace (analysis.Log e msg w) = trace w
  /\ provider (analysis.Log e msg w) = provider w
  /\ fs (analysis.Log e msg w) = fs w
  /\ clock (analysis.Log e msg w) = clock w.
Proof. unfold analysis.Log. now destruct (analysis.Debug e). Qed.

(** [fetchContext] reads; it calls neither the provider nor the judge, and
    writes nothing but a debug line. *)
Lemma fetchContext_quiet (e : analysis.Engine C) path (w : World P) content mode err w1 :
  analysis.fetchContext e path w = Returns (content, mode, err, w1) ->
  trace w1 = trace w /\ provider w1 = provider w /\ fs w1 = fs w /\ clock w1 = clock w.
Proof.
  unfold analysis.fetchContext.
  destruct (GetContent _ _ _) as [fullContent|e0]; [|now intros [= <- <- <- <-]].
  destruct (analysis.getTokenizer e) as [tkm|e0].
  - destruct (_ <=? _); [now intros [= <- <- <- <-]|].
    destruct (analysis.tokens_to _ _) as [ids|m] eqn:Hids; cbn.
    + destruct (GetDiff _ _ _) as [d|]; [destruct (String.eqb d "")|];
        now intros [= <- <- <- <-].
    + destruct (GetDiff _ _ _) as [d|]; [destruct (String.eqb d "")|];
        try discriminate. now intros [= <- <- <- <-].
  - destruct (_ >? _).
    + destruct (slice_to_checked _ _); cbn; [|discriminate].
      intros [= <- <- <- <-]. apply Log_quiet.
    + intros [= <- <- <- <-]. apply Log_quiet.
Qed.

(** With a sensible ceiling no slice of [fetchContext] is out of range. *)
Lemma fetchContext_returns (e : analysis.Engine C) path (w : World P) :
  0 <= config.MaxTokens (config.LLM (analysis.Config e)) < 2 ^ 61 ->
  exists r, analysis.fetchContext e path w = Returns r.
Proof.
  intros Hmax. unfold analysis.fetchContext.
  set (maxTokens := if _ =? 0 then 8000 else _).
  assert (Hm : 0 <= maxTokens < 2 ^ 61) by (subst maxTokens; destruct (_ =? 0); lia).
  destruct (GetContent _ _ _) as [fullContent|e0]; [|eauto].
  destruct (analysis.getTokenizer e) as [tkm|e0].
  - destruct (_ <=? _) eqn:Hle; [eauto|]. apply Z.leb_gt in Hle.
    assert (Hcut : exists ids, analysis.tokens_to (tkm_Encode tkm fullContent) maxTokens
                               = Returns ids).
    { unfold analysis.tokens_to.
      assert ((maxTokens <? 0) = false) as -> by lia.
      assert ((Z.of_nat (length (tkm_Encode tkm fullContent)) <? maxTokens) = false)
        as -> by lia.
      eauto. }
    destruct Hcut as [ids ->]. cbn.
    destruct (GetDiff _ _ _) as [d|]; [destruct (String.eqb d "")|]; eauto.
  - assert (Hmul : int_mul maxTokens 4 = maxTokens * 4).
    { unfold int_mul. apply wrap_int_small. lia. }
    rewrite Hmul. destruct (_ >? _) eqn:Hgt; [|eauto].
    unfold slice_to_checked.
    assert ((maxTokens * 4 <? 0) = false) as -> by lia.
    assert ((len fullContent <? maxTokens * 4) = false) as -> by lia.
    cbn. eauto.
Qed.

Lemma AnalyzeDrift_loop_events fuel i backoff lastErr ctx sys prompt (w : World P) r w' :
  llm.AnalyzeDrift_loop fuel i backoff lastErr ctx sys prompt w = (r, w') ->
  exists evs, extends w w' evs /\ Forall attempt_or_wait evs /\ fs w' = fs w.
Proof.
  revert i backoff lastErr w r w'.
  induction fuel as [|fuel IH]; intros i backoff lastErr w r w'.
  - cbn. intros [= <- <-]. exists []. split; [apply extends_refl|]. now split.
  - cbn [llm.AnalyzeDrift_loop].
    set (waited := if i >? 0 then _ else _).
    assert (Hw : exists c b w1 evs, waited = (c, b, w1) /\ extends w w1 evs
                   /\ Forall attempt_or_wait evs /\ fs w1 = fs w).
    { subst waited. destruct (i >? 0).
      - unfold llm.select_backoff. destruct (done_at ctx) as [t|].
        + destruct (t <=? _).
          * do 3 eexists. exists []. split; [reflexivity|].
            split; [unfold extends; cbn; now rewrite app_nil_r|]. now split.
          * do 3 eexists. exists [EvSleep backoff]. split; [reflexivity|].
            split; [reflexivity|]. split; [|reflexivity]. now repeat constructor.
        + do 3 eexists. exists [EvSleep backoff]. split; [reflexivity|].
          split; [reflexivity|]. split; [|reflexivity]. now repeat constructor.
      - do 3 eexists. exists []. split; [reflexivity|].
        split; [apply extends_refl|]. now split. }
    destruct Hw as (c & b & w1 & evs1 & -> & Hext1 & Hall1 & Hfs1).
    destruct c.
    { intros [= <- <-]. eauto. }
    destruct (Chat (provider w1) ctx sys prompt) as [rc p'] eqn:Hchat.
    set (w2 := set_provider p' (emit (EvChat sys prompt) w1)).
    assert (Hext2 : extends w w2 (evs1 ++ [EvChat sys prompt])).
    { apply (extends_trans w w1 w2); [assumption|reflexivity]. }
    assert (Hall2 : Forall attempt_or_wait (evs1 ++ [EvChat sys prompt])).
    { apply List.Forall_app. split; [assumption|]. now repeat constructor. }
    assert (Hrec : forall i' b' l' r0 w0,
      llm.AnalyzeDrift_loop fuel i' b' l' ctx sys prompt w2 = (r0, w0) ->
      exists evs, extends w w0 evs /\ Forall attempt_or_wait evs /\ fs w0 = fs w).
    { intros i' b' l' r0 w0 Hl. apply IH in Hl as (evs & He & Ha & Hf).
      exists ((evs1 ++ [EvChat sys prompt]) ++ evs). split; [|split].
      - now apply (extends_trans w w2 w0).
      - apply List.Forall_app. now split.
      - rewrite Hf. exact Hfs1. }
    destruct rc as [raw|err].
    + destruct (json_Unmarshal_AnalysisResult (llm.CleanJSON raw) zero) as [res [e1|]].
      * destruct (json_Unmarshal_AnalysisResult raw res) as [res2 [e2|]].
        -- apply Hrec.
        -- intros [= <- <-]. exists (evs1 ++ [EvChat sys prompt]). auto.
      * intros [= <- <-]. exists (evs1 ++ [EvChat sys prompt]). auto.
    + apply Hrec.
Qed.

(** A judgment is one [EvAnalyzeDrift] followed by attempts and waits. *)
Lemma AnalyzeDrift_events ctx adr code file sys (w : World P) r w' :
  llm.AnalyzeDrift ctx adr code file sys w = (r, w') ->
  exists evs, extends w w' (EvAnalyzeDrift adr file :: evs)
              /\ Forall attempt_or_wait evs /\ fs w' = fs w.
Proof.
  unfold llm.AnalyzeDrift. intros Hl.
  apply AnalyzeDrift_loop_events in Hl as (evs & He & Ha & Hf).
  exists evs. split; [|split; assumption].
  unfold extends in *. rewrite He. cbn. now rewrite <- app_assoc.
Qed.

(** Events of a loop over hits: at most [n] judgments, no embedding, no
    search. *)
Definition judging_only (n : nat) (evs : list Event) : Prop :=
  (calls is_judge evs <= n)%nat /\ calls is_embed evs = 0%nat
  /\ calls is_search evs = 0%nat.

Lemma judging_only_nil n : judging_only n [].
Proof. unfold judging_only, calls. cbn. repeat split. lia. Qed.

Lemma judging_only_app n m a b :
  judging_only n a -> judging_only m b -> judging_only (n + m) (a ++ b).
Proof.
  unfold judging_only. rewrite !calls_app. intros (? & ? & ?) (? & ? & ?).
  repeat split; lia.
Qed.

Lemma judging_only_judgment adr file evs :
  Forall attempt_or_wait evs -> judging_only 1 (EvAnalyzeDrift adr file :: evs).
Proof.
  intros Hall. unfold judging_only.
  change (EvAnalyzeDrift adr file :: evs) with ([EvAnalyzeDrift adr file] ++ evs).
  rewrite !calls_app, !(calls_attempts _ evs) by (auto; reflexivity).
  cbn. repeat split. lia.
Qed.

Lemma report_verdict_count adr content r sb lv :
  snd (analysis.report_verdict adr content r sb lv)
  = if Violation r then int_add lv 1 else lv.
Proof. unfold analysis.report_verdict. now destruct (Violation r). Qed.

(** One hit costs at most one judgment and adds at most one violation. *)
Lemma check_hit_step (e : analysis.Engine C) ctx file content sb lv (w : World P)
    hit sb' lv' w' :
  analysis.check_hit e ctx file content (sb, lv, w) hit = (sb', lv', w') ->
  (lv' = lv \/ lv' = int_add lv 1)
  /\ exists evs, extends w w' evs /\ judging_only 1 evs.
Proof.
  unfold analysis.check_hit.
  assert (Hquiet : exists evs, extends w w evs /\ judging_only 1 evs).
  { exists []. split; [apply extends_refl|apply judging_only_nil]. }
  destruct (analysis.out_of_scope _ _); [intros [= <- <- <-]; auto|].
  destruct (analysis.suppressed _ _); [intros [= <- <- <-]; auto|].
  set (sb1 := if analysis.Debug e then _ else sb).
  destruct (analysis.cache_lookup _ _ _) as [cached|].
  - pose proof (report_verdict_count (index.ADRptr hit) content cached
        (if analysis.Debug e then sb1 +:+ "[DEBUG]   Cache Hit for "
           +:+ index.Title (index.ADRptr hit) +:+ nl else sb1) lv) as Hrv.
    destruct (analysis.report_verdict _ _ _ _ _) as [sb2 lv2]. cbn in Hrv.
    intros [= <- <- <-]. split; [|assumption].
    subst lv2. destruct (Violation cached); auto.
  - destruct (llm.AnalyzeDrift _ _ _ _ _ _) as [[r|err] w1] eqn:Hj;
      apply AnalyzeDrift_events in Hj as (evs & Hext & Hall & Hfs).
    + set (w2 := match analysis.Cache e with Some c => _ | None => w1 end).
      assert (Hw2 : trace w2 = trace w1).
      { subst w2. destruct (analysis.Cache e) as [c|]; [|reflexivity].
        destruct (cache.Put _ _ _ _) as [[err|] fs']; [|reflexivity].
        now rewrite (proj1 (Log_quiet _ _ _)). }
      match goal with |- context [analysis.report_verdict ?a ?c ?r ?s ?l] =>
        pose proof (report_verdict_count a c r s l) as Hrv;
        destruct (analysis.report_verdict a c r s l) as [sb2 lv2] end.
      cbn in Hrv. intros [= <- <- <-]. split.
      * subst lv2. destruct (Violation r); auto.
      * exists (EvAnalyzeDrift (index.Content (index.ADRptr hit)) file :: evs).
        split; [|now apply judging_only_judgment].
        unfold extends in *. now rewrite Hw2.
    + intros [= <- <- <-]. split; [auto|].
      exists (EvAnalyzeDrift (index.Content (index.ADRptr hit)) file :: evs).
      split; [assumption|now apply judging_only_judgment].
Qed.

Lemma int_add_small a b :
  - 2 ^ 63 <= a + b < 2 ^ 63 -> int_add a b = a + b.
Proof. apply wrap_int_small. Qed.

Lemma check_hits_steps (e : analysis.Engine C) ctx file content hits :
  forall sb lv (w : World P) sb' lv' w',
  analysis.check_hits e ctx file content hits (sb, lv, w) = (sb', lv', w') ->
  0 <= lv -> lv + Z.of_nat (length hits) < 2 ^ 63 ->
  lv <= lv' <= lv + Z.of_nat (length hits)
  /\ exists evs, extends w w' evs /\ judging_only (length hits) evs.
Proof.
  unfold analysis.check_hits.
  induction hits as [|hit hits IH]; intros sb lv w sb' lv' w'; cbn [fold_left].
  - intros [= <- <- <-] ? ?. split; [cbn; lia|].
    exists []. split; [apply extends_refl|apply judging_only_nil].
  - destruct (analysis.check_hit e ctx file content (sb, lv, w) hit)
      as [[sb1 lv1] w1] eqn:Hstep.
    apply check_hit_step in Hstep as (Hlv & evs1 & Hext1 & Hj1).
    intros Hrest Hpos Hbound. cbn [length] in *.
    assert (Hlv1 : lv <= lv1 <= lv + 1).
    { destruct Hlv as [->| ->]; [lia|]. rewrite int_add_small; lia. }
    apply IH in Hrest as (Hr & evs2 & Hext2 & Hj2); [|lia|lia].
    split; [lia|].
    exists (evs1 ++ evs2). split; [now apply (extends_trans w w1 w')|].
    now apply (judging_only_app 1 (length hits)).
Qed.

(** A non-negative [topK] never slices out of range, and bounds the result. *)
Lemma Search_length (s : index.Store) q th (topK : Z) :
  0 <= topK ->
  exists hits, index.Search s q th topK = Returns hits
               /\ Z.of_nat (length hits) <= topK.
Proof.
  intros Hk. unfold index.Search.
  set (results := sort_Slice _ _).
  destruct (Z.of_nat (length results) >? topK) eqn:Hgt.
  - assert ((topK <? 0) = false) as -> by lia.
    eexists. split; [reflexivity|].
    pose proof (List.firstn_le_length (Z.to_nat topK) results). 
    rewrite List.length_firstn. lia.
  - eexists. split; [reflexivity|]. lia.
Qed.

Lemma print_trace s (w : World P) : trace (print s w) = trace w.
Proof. reflexivity. Qed.

Definition sane_ceiling (e : analysis.Engine C) : Prop :=
  0 <= config.MaxTokens (config.LLM (analysis.Config e)) < 2 ^ 61.


Definition warn_open (file : string) : string :=
  "  [WARN-OPEN] File " +:+ file
    +:+ " was truncated for analysis. In CI mode this is treated as a warning (no failure)."
    +:+ nl.

(** C6. In CI mode, when the context of a file comes back with mode
    "truncated", the goroutine of the file prints the warn-open line and
    returns: the trace is unchanged (no embedding, no search, no judgment),
    the provider and the files are untouched, nothing is added to the
    violation count, and a run over this file alone succeeds. *)
Theorem CI_truncated_skipped (e : analysis.Engine C) (ctx : Context)
    (file content : string) (w w1 : World P) :
  analysis.CI e = true ->
  analysis.fetchContext e file w = Returns (content, "truncated", None, w1) ->
  exists w2 report,
    analysis.worker e ctx file w = Returns (0, w2)
    /\ trace w2 = trace w /\ provider w2 = provider w /\ fs w2 = fs w
    /\ stdout w2 = stdout w1 +:+ report +:+ warn_open file
    /\ (forall rest violations,
          analysis.shouldExclude e file = false ->
          - 2 ^ 63 <= violations < 2 ^ 63 ->
          analysis.run_files e ctx (file :: rest) violations w
          = analysis.run_files e ctx rest violations w2)
    /\ (analysis.shouldExclude e file = false ->
        GetFiles (analysis.Content e) (fs w) = Ok [file] ->
        analysis.Run e ctx w = Returns (None, w2)).
Proof.
  intros Hci Hfc.
  assert (Hw : exists report,
    analysis.worker e ctx file w
    = Returns (0, print (report +:+ warn_open file) w1)).
  { unfold analysis.worker. rewrite Hfc, Hci. cbn. eauto. }
  destruct Hw as [report Hw].
  apply fetchContext_quiet in Hfc as (Ht & Hp & Hf & _).
  exists (print (report +:+ warn_open file) w1), report.
  split; [assumption|]. split; [assumption|]. split; [assumption|].
  split; [assumption|]. split; [reflexivity|]. split.
  - intros rest v Hex Hv. cbn [analysis.run_files]. rewrite Hex, Hw.
    cbn [outcome_bind]. unfold int_add. rewrite Z.add_0_r.
    now rewrite wrap_int_small.
  - intros Hex Hfiles. unfold analysis.Run. rewrite Hfiles.
    cbn [analysis.run_files]. rewrite Hex, Hw. reflexivity.
Qed.

(** The hit is judged by the model: in scope, not suppressed, not cached. *)
Definition reaches_judge (e : analysis.Engine C) (file content : string)
    (fs0 : FS) (hit : index.SearchResult) : Prop :=
  analysis.out_of_scope file (index.ADRptr hit) = false
  /\ analysis.suppressed content (index.ADRptr hit) = false
  /\ analysis.cache_lookup e fs0 (analysis.cache_key e (index.ADRptr hit) content)
     = None.

Definition found_violations (n : Z) : error :=
  "found " +:+ fmt_d n +:+ " architectural violations".

End RunFacts.

Section Run_instances.
Import llm_types.
#[local] Existing Instance doubles.json.
#[local] Existing Instance doubles.paths.
#[local] Existing Instance doubles.fmts.
#[local] Existing Instance doubles.byte_tokens.
#[local] Existing Instance doubles.MockContentProvider_ContentProvider.
#[local] Existing Instance doubles.MockTruncationProvider_ContentProvider.
#[local] Existing Instance llm_mock.MockProvider_Provider.
#[local] Existing Instance sorting.stable.

Definition drift_world : World llm_mock.MockProvider :=
  fixtures.world_of fixtures.python_violation empty_FS.

Definition failing_world : World llm_mock.MockProvider :=
  fixtures.world_of fixtures.always_fails empty_FS.

Definition hit_go : index.SearchResult :=
  {| index.ADRptr := fixtures.adr_go; index.Score := F64.one |}.


Definition truncation_world : World llm_mock.MockProvider :=
  fixtures.world_of fixtures.python_violation empty_FS.

(** C6 on the truncation test in CI mode: the file is skipped and the run
    succeeds, although the provider would report a violation. *)
Lemma CI_truncated_skipped_witness :
  exists w2 report,
    analysis.worker (fixtures.truncation_engine true) context_Background "test.go"
      truncation_world = Returns (0, w2)
    /\ trace w2 = [] /\ provider w2 = fixtures.python_violation
    /\ stdout w2 = "" +:+ report +:+ warn_open "test.go"
    /\ analysis.Run (fixtures.truncation_engine true) context_Background
         truncation_world = Returns (None, w2).
Proof.
  assert (Hfc : analysis.fetchContext (fixtures.truncation_engine true) "test.go"
                  truncation_world
                = Returns ("Line1" +:+ nl, "truncated", None, truncation_world))
    by (vm_compute; reflexivity).
  destruct (CI_truncated_skipped (fixtures.truncation_engine true) context_Background
              "test.go" ("Line1" +:+ nl) truncation_world truncation_world
              eq_refl Hfc)
    as (w2 & report & Hw & Ht & Hp & _ & Hs & _ & Hrun).
  exists w2, report. split; [exact Hw|]. split; [exact Ht|]. split; [exact Hp|].
  split; [exact Hs|]. apply Hrun; reflexivity.
Defined.

End Run_instances.

(* ===================================================================== *)
(** * The validity gate of the index: Load and runCheck                    *)
(* ===================================================================== *)

Section IndexGate.
Context {P : Type} `{Provider P} `{git_lib}.
Context `{encoding_json} `{index.json_Store} `{path_lib} `{fmt_lib}
        `{tiktoken_lib} `{SliceSorter}.
#[local] Existing Instance analysis.FileProvider_ContentProvider.

(** What [runCheck] does once [Load] has returned nil, with the store it
    left. *)
Definition check_with_store (cfg : config.Config) (store : index.Store)
    (flags : cli.CheckFlags) (w : World P) : outcome (option error * World P) :=
  let contentProvider :=
    match cli.Args flags with
    | target :: _ =>
        if String.eqb target "." then analysis.AllProvider
        else analysis.SingleFileProvider target
    | [] =>
        if cli.staged flags then analysis.StagedProvider
        else if cli.all flags then analysis.AllProvider
        else analysis.UncommittedProvider
    end in
  let w := if cli.debug flags then print ("[DEBUG] Mode Enabled" +:+ nl) w else w in
  let engine :=
    analysis.NewEngine cfg store contentProvider (cli.debug flags) (cli.ci flags)
      (fs w) in
  let! (err, w) := analysis.Run engine context_Background w in
  match err with
  | Some err => Returns (Some ("analysis failed: " +:+ err), w)
  | None => Returns (None, print ("No architectural violations found." +:+ nl) w)
  end.

Definition load_failed (err : error) : error :=
  "index mismatch or load failed (run 'archguard index' to rebuild): " +:+ err.

(** The snapshot is the one of this configuration and of these ADR files. *)
Definition snapshot_valid (s : index.Store) (modelName : string) (dim : Z)
    (currentHash : string) : Prop :=
  index.ModelName s = modelName /\ index.Dim s = dim /\ index.Hash s = currentHash.

Lemma Load_stale (s0 s : index.Store) fs0 path data modelName dim currentHash :
  os_ReadFile fs0 path = OsOk data ->
  index.json_Unmarshal_Store data s0 = (s, None) ->
  ~ snapshot_valid s modelName dim currentHash ->
  exists err, index.Load s0 fs0 path modelName dim currentHash = (Some err, s).
Proof.
  intros Hread Hparse Hstale. unfold index.Load. rewrite Hread, Hparse.
  destruct (negb (String.eqb (index.ModelName s) modelName)
            || negb (index.Dim s =? dim)
            || negb (String.eqb (index.Hash s) currentHash)) eqn:Hm; [eauto|].
  exfalso. apply Hstale.
  apply orb_false_iff in Hm as [Hm Hh]. apply orb_false_iff in Hm as [Hm Hd].
  apply negb_false_iff in Hm, Hd, Hh.
  apply String.eqb_eq in Hm, Hh. apply Z.eqb_eq in Hd. now repeat split.
Qed.

Lemma Load_valid (s0 s : index.Store) fs0 path data modelName dim currentHash :
  os_ReadFile fs0 path = OsOk data ->
  index.json_Unmarshal_Store data s0 = (s, None) ->
  snapshot_valid s modelName dim currentHash ->
  index.Load s0 fs0 path modelName dim currentHash = (None, s).
Proof.
  intros Hread Hparse (Hm & Hd & Hh). unfold index.Load. rewrite Hread, Hparse.
  rewrite Hm, Hd, Hh, !String.eqb_refl, Z.eqb_refl. reflexivity.
Qed.

(** C9, as the code has it. A check run fails at once, before any file is
    analysed (the world is returned as it was), when the hash of the ADR
    files cannot be computed, when the index file cannot be read or does not
    parse, and when it parses to a snapshot whose model name, dimension or
    hash differs from the current ones. A valid snapshot is analysed. A
    missing index file is no error: [Load] returns nil and leaves the empty
    store, and the run goes on to analyse the files against no ADR. *)
Theorem runCheck_index_gate (cfg : config.Config) (indexFile : string)
    (flags : cli.CheckFlags) (w : World P) :
  let adrPath := config.ADRPath (config.Analysis_ cfg) in
  let model := config.VS_Model (config.VectorStore_ cfg) in
  let dim := config.EmbeddingDim (config.VectorStore_ cfg) in
  (forall h err,
      index.CalculateHash (fs w) adrPath model = (h, Some err) ->
      cli.runCheck cfg indexFile flags w
      = Returns (Some ("failed to calculate ADR hash: " +:+ err), w))
  /\ (forall currentHash,
      index.CalculateHash (fs w) adrPath model = (currentHash, None) ->
      (forall data s,
          os_ReadFile (fs w) indexFile = OsOk data ->
          index.json_Unmarshal_Store data index.NewStore = (s, None) ->
          ~ snapshot_valid s model dim currentHash ->
          exists err,
            cli.runCheck cfg indexFile flags w = Returns (Some (load_failed err), w))
      /\ (forall data s err,
          os_ReadFile (fs w) indexFile = OsOk data ->
          index.json_Unmarshal_Store data index.NewStore = (s, Some err) ->
          cli.runCheck cfg indexFile flags w = Returns (Some (load_failed err), w))
      /\ (forall err,
          os_ReadFile (fs w) indexFile = OsError err ->
          cli.runCheck cfg indexFile flags w = Returns (Some (load_failed err), w))
      /\ (forall data s,
          os_ReadFile (fs w) indexFile = OsOk data ->
          index.json_Unmarshal_Store data index.NewStore = (s, None) ->
          snapshot_valid s model dim currentHash ->
          cli.runCheck cfg indexFile flags w = check_with_store cfg s flags w)
      /\ (forall err,
          os_ReadFile (fs w) indexFile = OsNotExist err ->
          index.Load index.NewStore (fs w) indexFile model dim currentHash
          = (None, index.NewStore)
          /\ cli.runCheck cfg indexFile flags w
             = check_with_store cfg index.NewStore flags w)).
Proof.
  intros adrPath model dim. unfold cli.runCheck.
  fold adrPath. fold model. fold dim.
  split.
  - intros h err ->. reflexivity.
  - intros currentHash ->. split; [|split; [|split; [|split]]].
    + intros data s Hread Hparse Hstale.
      destruct (Load_stale _ _ _ _ _ _ _ _ Hread Hparse Hstale) as [err ->].
      exists err. reflexivity.
    + intros data s err Hread Hparse. unfold index.Load. rewrite Hread, Hparse.
      reflexivity.
    + intros err Hread. unfold index.Load. rewrite Hread. reflexivity.
    + intros data s Hread Hparse Hvalid.
      rewrite (Load_valid _ _ _ _ _ _ _ _ Hread Hparse Hvalid). reflexivity.
    + intros err Hread. unfold index.Load. rewrite Hread. split; reflexivity.
Qed.
End IndexGate.

Section IndexGate_instance.
#[local] Existing Instance doubles.json.
#[local] Existing Instance doubles.json_store.
#[local] Existing Instance doubles.paths.
#[local] Existing Instance doubles.fmts.
#[local] Existing Instance doubles.byte_tokens.
#[local] Existing Instance doubles.no_git.
#[local] Existing Instance llm_mock.MockProvider_Provider.
#[local] Existing Instance sorting.stable.

Definition check_cfg : config.Config := fixtures.config_with "" 0 "".

Definition check_service_py : cli.CheckFlags :=
  {| cli.staged := false; cli.all := false; cli.debug := false; cli.ci := false;
     cli.Args := ["service.py"] |}.

Definition index_path : string := ".archguard/index.json".

(** A work tree with one source file and no index. *)
Definition tree_without_index : FS :=
  {| files := {[ "service.py" := "import python_library" ]};
     unreadable := ∅; unwritable := ∅; torn := ∅ |}.

(** The same tree with an index built for other ADR contents. *)
Definition stale_index : string :=
  "{" +:+ dq +:+ "adrs" +:+ dq +:+ ": [], " +:+ dq +:+ "hash" +:+ dq +:+ ": "
    +:+ dq +:+ "0000" +:+ dq +:+ ", " +:+ dq +:+ "model_name" +:+ dq +:+ ": "
    +:+ dq +:+ "nomic-embed-text" +:+ dq +:+ ", " +:+ dq +:+ "dim" +:+ dq
    +:+ ": 0}".

Definition tree_with_stale_index : FS :=
  {| files := <[ index_path := stale_index ]> (files tree_without_index);
     unreadable := ∅; unwritable := ∅; torn := ∅ |}.

(** Against C9 as stated: without an index file the run does not fail; the
    file is embedded and searched, and the run reports no violation. *)
Lemma runCheck_missing_index_proceeds :
  (exists err, os_ReadFile tree_without_index index_path = OsNotExist err)
  /\ exists w',
       cli.runCheck check_cfg index_path check_service_py
         (fixtures.world_of fixtures.python_violation tree_without_index)
       = Returns (None, w')
       /\ trace w' = [EvCreateEmbedding "import python_library"; EvSearch 3]
       /\ stdout w' = "No architectural violations found." +:+ nl.
Proof.
  split.
  - eexists. vm_compute. reflexivity.
  - eexists. vm_compute. repeat split.
Defined.

(** C9 on a tree whose index was built for other ADR contents. *)
Lemma runCheck_index_gate_witness :
  exists err,
    cli.runCheck check_cfg index_path check_service_py
      (fixtures.world_of fixtures.python_violation tree_with_stale_index)
    = Returns (Some (load_failed err),
               fixtures.world_of fixtures.python_violation tree_with_stale_index).
Proof.
  pose proof (runCheck_index_gate check_cfg index_path check_service_py
    (fixtures.world_of fixtures.python_violation tree_with_stale_index)) as T.
  cbv zeta in T. destruct T as [_ T].
  assert (Hh : index.CalculateHash
                 (fs (fixtures.world_of fixtures.python_violation tree_with_stale_index))
                 (config.ADRPath (config.Analysis_ check_cfg))
                 (config.VS_Model (config.VectorStore_ check_cfg))
               = (hex_EncodeToString (sha256.Sum "nomic-embed-text"), None))
    by reflexivity.
  destruct (T _ Hh) as [Tstale _].
  refine (Tstale stale_index
            {| index.ADRs := []; index.Hash := "0000";
               index.ModelName := "nomic-embed-text"; index.Dim := 0 |} _ _ _).
  - vm_compute. reflexivity.
  - vm_compute. reflexivity.
  - intros (_ & _ & Hhash). vm_compute in Hhash. discriminate Hhash.
Defined.
End IndexGate_instance.

(* ===================================================================== *)
(** * The similarity index: Search                                        *)
(* ===================================================================== *)

(** ** The order of float comparison *)

(** A key that orders the values other than NaN as [SFcompare] does:
    sign class first, then exponent, then mantissa. *)
Definition order_key (x : spec_float) : Z * Z * Z :=
  match x with
  | S754_nan => (0, 0, 0)
  | S754_infinity true => (-2, 0, 0)
  | S754_finite true m e => (-1, - e, - Zpos m)
  | S754_zero _ => (0, 0, 0)
  | S754_finite false m e => (1, e, Zpos m)
  | S754_infinity false => (2, 0, 0)
  end.

Definition key_lt (a b : Z * Z * Z) : Prop :=
  let '(a1, a2, a3) := a in
  let '(b1, b2, b3) := b in
  a1 < b1 \/ (a1 = b1 /\ (a2 < b2 \/ (a2 = b2 /\ a3 < b3))).

Definition not_nan (x : spec_float) : Prop := x <> S754_nan.

Lemma SFcompare_key (x y : spec_float) :
  not_nan x -> not_nan y ->
  match SFcompare x y with
  | Some Lt => key_lt (order_key x) (order_key y)
  | Some Eq => order_key x = order_key y
  | Some Gt => key_lt (order_key y) (order_key x)
  | None => False
  end.
Proof.
  intros Hx Hy.
  destruct x as [[]|[]| |[] mx ex], y as [[]|[]| |[] my ey];
    try (now contradiction Hx); try (now contradiction Hy);
    cbn; try lia; try reflexivity.
  - destruct (Z.compare_spec ex ey); try lia.
    subst. change (Pos.compare_cont Eq mx my) with (Pos.compare mx my).
    destruct (Pos.compare_spec mx my); cbn; try lia. now subst.
  - destruct (Z.compare_spec ex ey); try lia.
    subst. change (Pos.compare_cont Eq mx my) with (Pos.compare mx my).
    destruct (Pos.compare_spec mx my); cbn; try lia. now subst.
Qed.

Lemma SFltb_key (x y : spec_float) :
  not_nan x -> not_nan y ->
  (SFltb x y = true <-> key_lt (order_key x) (order_key y)).
Proof.
  intros Hx Hy. pose proof (SFcompare_key x y Hx Hy) as Hc. unfold SFltb.
  destruct (order_key x) as [[a1 a2] a3] eqn:Ea, (order_key y) as [[b1 b2] b3] eqn:Eb.
  destruct (SFcompare x y) as [[]|]; cbn in *; split; intros; try easy; try lia.
  injection Hc as -> -> ->. lia.
Qed.

Lemma SFleb_key (x y : spec_float) :
  not_nan x -> not_nan y ->
  (SFleb x y = true <-> ~ key_lt (order_key y) (order_key x)).
Proof.
  intros Hx Hy. pose proof (SFcompare_key x y Hx Hy) as Hc. unfold SFleb.
  destruct (order_key x) as [[a1 a2] a3] eqn:Ea, (order_key y) as [[b1 b2] b3] eqn:Eb.
  destruct (SFcompare x y) as [[]|]; cbn in *; split; intros; try easy; try lia.
  injection Hc as -> -> ->. lia.
Qed.

Lemma SFleb_not_nan (x y : spec_float) : SFleb x y = true -> not_nan x /\ not_nan y.
Proof.
  unfold SFleb, not_nan. destruct x as [[]|[]| |[] mx ex], y as [[]|[]| |[] my ey];
    cbn; intros; split; congruence.
Qed.

Lemma SFltb_false_key (x y : spec_float) :
  not_nan x -> not_nan y ->
  (SFltb x y = false <-> ~ key_lt (order_key x) (order_key y)).
Proof.
  intros Hx Hy. rewrite <- (SFltb_key x y Hx Hy). now destruct (SFltb x y).
Qed.

Lemma StronglySorted_weaken {A} (R R' : A -> A -> Prop) (l : list A) :
  (forall x y, In x l -> In y l -> R x y -> R' x y) ->
  StronglySorted R l -> StronglySorted R' l.
Proof.
  intros Hw Hs. induction Hs as [|a l Hl IH Ha]; constructor.
  - apply IH. intros x y Hx Hy. apply Hw; now right.
  - rewrite List.Forall_forall in Ha |- *. intros y Hy.
    apply Hw; [now left|now right|now apply Ha].
Qed.

Lemma In_firstn {A} (n : nat) (l : list A) (x : A) : In x (firstn n l) -> In x l.
Proof. intros Hx. rewrite <- (List.firstn_skipn n l). apply in_or_app. now left. Qed.

(** ** Search *)

(** ** Insertion sort keeps ties in order *)

(** Neither of the two must precede the other. *)
Definition tied {A : Type} (less : A -> A -> bool) (k x : A) : bool :=
  negb (less k x) && negb (less x k).

(** Moving [x] left past the elements it must precede does not change the
    order within a class [p] that holds none of them together with [x]. *)
Lemma move_left_filter {A : Type} (less : A -> A -> bool) (p : A -> bool)
    (x : A) (revl : list A) :
  (forall y, In y revl -> less x y = true -> p x = true -> p y = false) ->
  List.filter p (rev (sorting.move_left less x revl))
  = List.filter p (rev revl ++ [x]).
Proof.
  induction revl as [|y r IH]; intros Hp; cbn [sorting.move_left]; [reflexivity|].
  destruct (less x y) eqn:Hxy; [|reflexivity].
  cbn [rev]. rewrite !List.filter_app, IH by (intros z Hz; apply Hp; now right).
  rewrite List.filter_app, <- !app_assoc. f_equal.
  specialize (Hp y (or_introl eq_refl) Hxy). cbn [List.filter].
  destruct (p x); [rewrite (Hp eq_refl)|]; now destruct (p y).
Qed.

Lemma fold_move_left_filter {A : Type} (less : A -> A -> bool) (p : A -> bool)
    (l acc : list A) :
  (forall x y, In x l -> In y (acc ++ l) -> less x y = true -> p x = true -> p y = false) ->
  List.filter p (rev (fold_left (fun acc x => sorting.move_left less x acc) l acc))
  = List.filter p (rev acc ++ l).
Proof.
  revert acc. induction l as [|x l IH]; intros acc Hp; cbn [fold_left].
  - now rewrite app_nil_r.
  - rewrite IH.
    + rewrite List.filter_app, move_left_filter, <- List.filter_app, <- app_assoc;
        [reflexivity|].
      intros y Hy. apply Hp; [now left|]. apply in_or_app. now left.
    + intros a b Ha Hb. apply Hp; [now right|].
      apply in_app_or in Hb as [Hb|Hb].
      * apply sorting.move_left_In in Hb as [->|Hb]; apply in_or_app;
          [right; now left|now left].
      * apply in_or_app. right. now right.
Qed.

(** Insertion sort is stable: the elements tied with [k] come out in the
    order in which they went in. *)
Lemma insertion_sort_stable {A : Type} (less : A -> A -> bool) (l : list A) (k : A) :
  strict_weak_order_on less l -> In k l ->
  List.filter (tied less k) (sorting.insertion_sort less l)
  = List.filter (tied less k) l.
Proof.
  intros (Hirr & Htr & Heq) Hk. unfold sorting.insertion_sort.
  rewrite fold_move_left_filter; [reflexivity|].
  cbn [rev app]. intros x y Hx Hy Hxy Hpx. unfold tied in *.
  apply andb_true_iff in Hpx as [Hkx Hxk].
  apply negb_true_iff in Hkx, Hxk.
  destruct (less k y) eqn:Hky; [reflexivity|].
  destruct (less y k) eqn:Hyk; [reflexivity|]. exfalso.
  destruct (Heq x k y Hx Hk Hy Hxk Hkx Hky Hyk) as [Hno _]. congruence.
Qed.

Section SearchRanked.
Context `{SliceSorter}.

(** The hit of an ADR for a query. *)
Definition scored (queryEmbedding : list float32) (adr : index.ADR)
  : index.SearchResult :=
  {| index.ADRptr := adr;
     index.Score := index.cosineSimilarity queryEmbedding (index.Embedding adr) |}.

(** The hits at or above the threshold, in the order of the store. *)
Definition candidates (s : index.Store) (queryEmbedding : list float32)
    (threshold : float64) : list index.SearchResult :=
  List.filter (fun h => F64.leb threshold (index.Score h))
    (map (scored queryEmbedding) (index.ADRs s)).

Lemma collect_candidates q th adrs :
  index.collect q th adrs
  = List.filter (fun h => F64.leb th (index.Score h)) (map (scored q) adrs).
Proof.
  induction adrs as [|adr adrs IH]; cbn; [reflexivity|].
  fold (scored q adr). destruct (F64.leb th _); now rewrite IH.
Qed.

Lemma candidate_not_nan s q th h :
  In h (candidates s q th) -> not_nan (index.Score h).
Proof.
  unfold candidates. rewrite List.filter_In. intros [_ Hle].
  now apply SFleb_not_nan in Hle.
Qed.

Ltac score_keys :=
  repeat match goal with
  | H : index.by_score_desc _ _ = true |- _ =>
      unfold index.by_score_desc, F64.ltb in H; apply SFltb_key in H; [|auto..]
  | H : index.by_score_desc _ _ = false |- _ =>
      unfold index.by_score_desc, F64.ltb in H; apply SFltb_false_key in H; [|auto..]
  | |- index.by_score_desc _ _ = true =>
      unfold index.by_score_desc, F64.ltb; apply SFltb_key; [auto..|]
  | |- index.by_score_desc _ _ = false =>
      unfold index.by_score_desc, F64.ltb; apply SFltb_false_key; [auto..|]
  end.

Lemma by_score_desc_swo (l : list index.SearchResult) :
  (forall h, In h l -> not_nan (index.Score h)) ->
  strict_weak_order_on index.by_score_desc l.
Proof.
  intros Hnn. split; [|split].
  - intros x Hx. pose proof (Hnn x Hx). score_keys.
    destruct (order_key _) as [[? ?] ?]. cbn. lia.
  - intros x y z Hx Hy Hz Hxy Hyz.
    pose proof (Hnn x Hx). pose proof (Hnn y Hy). pose proof (Hnn z Hz).
    score_keys.
    destruct (order_key (index.Score x)) as [[? ?] ?],
             (order_key (index.Score y)) as [[? ?] ?],
             (order_key (index.Score z)) as [[? ?] ?]. cbn in *. lia.
  - intros x y z Hx Hy Hz Hxy Hyx Hyz Hzy.
    pose proof (Hnn x Hx). pose proof (Hnn y Hy). pose proof (Hnn z Hz).
    split; score_keys;
    destruct (order_key (index.Score x)) as [[? ?] ?],
             (order_key (index.Score y)) as [[? ?] ?],
             (order_key (index.Score z)) as [[? ?] ?]; cbn in *; lia.
Qed.

End SearchRanked.

Definition unit_x : list float32 := [llm_mock.one32; llm_mock.zero32].

Definition adr_named (id : string) : index.ADR :=
  {| index.ID := id; index.Title := id; index.Status := "Accepted";
     index.Scope := ""; index.Content := ""; index.Embedding := unit_x;
     index.RelPath := "" |}.

(** Two ADRs with the same embedding: the same score for every query. *)
Definition twin_store : index.Store :=
  {| index.ADRs := [adr_named "0001"; adr_named "0002"]; index.Hash := "";
     index.ModelName := ""; index.Dim := 2 |}.

Definition twin_hit (id : string) : index.SearchResult :=
  {| index.ADRptr := adr_named id; index.Score := F64.one |}.



(* ===================================================================== *)
(** * The similarity score: cosineSimilarity                              *)
(* ===================================================================== *)

(** ** Rounding, step by step *)

Lemma digits2_pos_size (p : positive) : digits2_pos p = Pos.size p.
Proof. induction p; cbn; congruence. Qed.

Lemma Zdigits2_bounds (p : positive) (d : Z) :
  2 ^ (d - 1) <= Zpos p < 2 ^ d -> 0 < d -> Zdigits2 (Zpos p) = d.
Proof.
  intros [Hlo Hhi] Hd. cbn. rewrite digits2_pos_size.
  pose proof (Pos.size_gt p) as Hgt. pose proof (Pos.size_le p) as Hle.
  apply Pos2Z.pos_lt_pos in Hgt. apply Pos2Z.pos_le_pos in Hle.
  rewrite Pos2Z.inj_pow in Hgt, Hle. cbn [Z.pow_pos] in *.
  change (Zpos p~0) with (2 * Zpos p) in Hle.
  set (n := Zpos (Pos.size p)) in *.
  assert (0 < n) by (subst n; lia).
  destruct (Z.lt_trichotomy n d) as [Hlt|[Heq|Hlt]]; [|exact Heq|].
  - assert (2 ^ n <= 2 ^ (d - 1)) by (apply Z.pow_le_mono_r; lia). lia.
  - assert (2 ^ d <= 2 ^ (n - 1)) by (apply Z.pow_le_mono_r; lia).
    replace n with (Z.succ (n - 1)) in Hle at 1 by lia.
    rewrite Z.pow_succ_r in Hle by lia. lia.
Qed.

Lemma iter_pos_shift {A} (f : A -> A) (n : nat) (x : A) :
  Nat.iter n f (f x) = f (Nat.iter n f x).
Proof. now rewrite <- Nat.iter_succ_r, Nat.iter_succ. Qed.

Lemma iter_pos_nat {A} (f : A -> A) (p : positive) (x : A) :
  SpecFloat.iter_pos f p x = Nat.iter (Pos.to_nat p) f x.
Proof.
  revert x. induction p as [p IH|p IH|]; intros x; cbn [SpecFloat.iter_pos].
  - rewrite !IH, Pos2Nat.inj_xI, <- Nat.iter_add, <- Nat.iter_succ_r.
    f_equal. lia.
  - rewrite !IH, Pos2Nat.inj_xO, <- Nat.iter_add. f_equal. lia.
  - reflexivity.
Qed.

Lemma odd_mod2 (m : Z) : Z.odd m = true <-> m mod 2 = 1.
Proof. now rewrite <- Z.bit0_odd, Z.bit0_eqb, Z.eqb_eq. Qed.

Lemma shr_1_spec (m : Z) (r s : bool) :
  0 <= m ->
  shr_1 (Build_shr_record m r s)
  = Build_shr_record (m / 2) (Z.odd m) (r || s).
Proof.
  intros Hm. destruct m as [|p|p]; [reflexivity| |lia].
  destruct p as [p|p|]; cbn [shr_1]; f_equal; try reflexivity.
  - rewrite Pos2Z.inj_xI. apply Z.div_unique with 1; lia.
  - rewrite Pos2Z.inj_xO. apply Z.div_unique with 0; lia.
Qed.

(** [n] halvings of an exact integer: the quotient, the bit that fell off
    last, and whether anything fell off before it. *)
Lemma shr_iter_spec (P : Z) (n : nat) :
  0 <= P ->
  let rec := Nat.iter (S n) shr_1 (Build_shr_record P false false) in
  shr_m rec = P / 2 ^ Z.of_nat (S n)
  /\ (shr_r rec = true <-> 2 ^ Z.of_nat n <= P mod 2 ^ Z.of_nat (S n))
  /\ (shr_s rec = true <-> P mod 2 ^ Z.of_nat n <> 0).
Proof.
  intros HP. induction n as [|n IH].
  - cbn [Nat.iter]. rewrite shr_1_spec by exact HP. cbn [shr_m shr_r shr_s orb].
    change (2 ^ Z.of_nat 1) with 2. change (2 ^ Z.of_nat 0) with 1.
    repeat split.
    + rewrite odd_mod2. lia.
    + intros H. apply odd_mod2. pose proof (Z.mod_pos_bound P 2). lia.
    + discriminate.
    + intros H. rewrite Z.mod_1_r in H. congruence.
  - cbn zeta in IH.
    remember (Nat.iter (S n) shr_1 (Build_shr_record P false false)) as rec eqn:Hrec.
    change (Nat.iter (S (S n)) shr_1 (Build_shr_record P false false))
      with (shr_1 (Nat.iter (S n) shr_1 (Build_shr_record P false false))).
    rewrite <- Hrec. destruct rec as [m r s]. cbn [shr_m shr_r shr_s] in IH.
    destruct IH as (Hm & Hr & Hs).
    set (a := Z.of_nat n) in *.
    assert (Ha : 0 <= a) by (subst a; lia).
    replace (Z.of_nat (S n)) with (a + 1) in * by (subst a; lia).
    replace (Z.of_nat (S (S n))) with (a + 1 + 1) by (subst a; lia).
    assert (Hpa : 0 < 2 ^ a) by (apply Z.pow_pos_nonneg; lia).
    assert (Hp1 : 2 ^ (a + 1) = 2 * 2 ^ a) by (rewrite Z.pow_add_r by lia; lia).
    assert (Hp2 : 2 ^ (a + 1 + 1) = 2 * 2 ^ (a + 1))
      by (rewrite (Z.pow_add_r 2 (a + 1) 1) by lia; lia).
    assert (Hm0 : 0 <= m) by (subst m; apply Z.div_pos; lia).
    rewrite shr_1_spec by exact Hm0. cbn [shr_m shr_r shr_s].
    pose proof (Z.div_mod P (2 ^ (a + 1)) ltac:(lia)) as E1.
    pose proof (Z.mod_pos_bound P (2 ^ (a + 1)) ltac:(lia)) as B1.
    pose proof (Z.div_mod m 2 ltac:(lia)) as E2.
    pose proof (Z.mod_pos_bound m 2 ltac:(lia)) as B2.
    rewrite <- Hm in E1.
    assert (Hmod : P mod 2 ^ (a + 1 + 1) = (m mod 2) * 2 ^ (a + 1) + P mod 2 ^ (a + 1)).
    { symmetry. apply Z.mod_unique_pos with (m / 2); nia. }
    assert (Hdiv : P / 2 ^ (a + 1 + 1) = m / 2).
    { symmetry. apply Z.div_unique_pos with ((m mod 2) * 2 ^ (a + 1) + P mod 2 ^ (a + 1)); nia. }
    pose proof (Z.div_mod (P mod 2 ^ (a + 1)) (2 ^ a) ltac:(lia)) as E3.
    assert (Hmm : (P mod 2 ^ (a + 1)) mod 2 ^ a = P mod 2 ^ a).
    { rewrite Hp1, Z.mul_comm. rewrite Z.rem_mul_r by lia.
      rewrite Z.mul_comm, Z.mod_add by lia. apply Z.mod_mod. lia. }
    pose proof (Z.mod_pos_bound P (2 ^ a) ltac:(lia)) as B3.
    repeat split.
    + symmetry. exact Hdiv.
    + rewrite odd_mod2. intros H. rewrite Hmod. nia.
    + intros H. apply odd_mod2. rewrite Hmod in H. nia.
    + intros H. apply orb_true_iff in H. destruct H as [H|H].
      * apply Hr in H. lia.
      * apply Hs in H. intros Hz. apply H. rewrite <- Hmm, Hz. apply Z.mod_0_l. lia.
    + intros H. apply orb_true_iff.
      destruct (Z_lt_le_dec (P mod 2 ^ (a + 1)) (2 ^ a)) as [Hlt|Hge].
      * right. apply Hs. rewrite <- Hmm. rewrite Z.mod_small by lia. exact H.
      * left. apply Hr. exact Hge.
Qed.

Lemma mod_pow2_mod (P a : Z) :
  0 <= a -> (P mod 2 ^ (a + 1)) mod 2 ^ a = P mod 2 ^ a.
Proof.
  intros Ha. assert (0 < 2 ^ a) by (apply Z.pow_pos_nonneg; lia).
  rewrite Z.pow_add_r, Z.pow_1_r by lia.
  rewrite Z.rem_mul_r by lia.
  rewrite Z.mul_comm, Z.mod_add by lia. apply Z.mod_mod. lia.
Qed.

(** Shifting an exact integer right by [k] bits and rounding to nearest
    even lands within half a unit of the last place kept. *)
Lemma round_shift (P : Z) (k : positive) :
  0 <= P ->
  let rec := SpecFloat.iter_pos shr_1 k (Build_shr_record P false false) in
  let R := round_nearest_even (shr_m rec) (loc_of_shr_record rec) in
  2 * (R * 2 ^ Zpos k) <= 2 * P + 2 ^ Zpos k
  /\ 2 * P <= 2 * (R * 2 ^ Zpos k) + 2 ^ Zpos k
  /\ P / 2 ^ Zpos k <= R <= P / 2 ^ Zpos k + 1.
Proof.
  intros HP. cbn zeta. rewrite iter_pos_nat.
  destruct (Pos2Nat.is_succ k) as [n Hn]. rewrite Hn.
  pose proof (shr_iter_spec P n HP) as Hspec. cbn zeta in Hspec.
  destruct (Nat.iter (S n) shr_1 _) as [m r s]. cbn [shr_m shr_r shr_s] in *.
  destruct Hspec as (Hm & Hr & Hs).
  assert (Hk : Zpos k = Z.of_nat n + 1) by lia.
  replace (Z.of_nat (S n)) with (Z.of_nat n + 1) in * by lia.
  rewrite Hk. set (a := Z.of_nat n) in *.
  assert (Ha : 0 <= a) by (subst a; lia).
  assert (Hpa : 0 < 2 ^ a) by (apply Z.pow_pos_nonneg; lia).
  assert (Hp1 : 2 ^ (a + 1) = 2 * 2 ^ a) by (rewrite Z.pow_add_r by lia; lia).
  pose proof (Z.div_mod P (2 ^ (a + 1)) ltac:(lia)) as E1.
  pose proof (Z.mod_pos_bound P (2 ^ (a + 1)) ltac:(lia)) as B1.
  rewrite <- Hm in *.
  pose proof (mod_pow2_mod P a Ha) as Hmm.
  pose proof (Z.div_mod (P mod 2 ^ (a + 1)) (2 ^ a) ltac:(lia)) as E3.
  pose proof (Z.mod_pos_bound P (2 ^ a) ltac:(lia)) as B3.
  rewrite Hmm in E3.
  assert (Hlow : r = false -> P mod 2 ^ (a + 1) < 2 ^ a).
  { intros ->. destruct (Z_lt_le_dec (P mod 2 ^ (a + 1)) (2 ^ a)) as [|Hge];
      [assumption|]. apply Hr in Hge. discriminate. }
  assert (Hhigh : r = true -> 2 ^ a <= P mod 2 ^ (a + 1)) by apply Hr.
  assert (Hzero : s = false -> P mod 2 ^ a = 0).
  { intros ->. destruct (Z.eq_dec (P mod 2 ^ a) 0) as [|Hne]; [assumption|].
    apply Hs in Hne. discriminate. }
  clear Hr Hs Hmm Hm. rewrite Hp1 in *.
  remember (2 ^ a) as A eqn:EA. remember (P mod (2 * A)) as rm eqn:Erm.
  remember (P mod A) as lm eqn:Elm. remember (rm / A) as c eqn:Ec.
  clear EA Erm Elm Ec Hk Hn.
  destruct r, s; cbn [loc_of_shr_record round_nearest_even].
  - specialize (Hhigh eq_refl). nia.
  - specialize (Hhigh eq_refl). specialize (Hzero eq_refl).
    assert (c = 1).
    { destruct (Z_lt_le_dec c 1); [|destruct (Z_lt_le_dec 1 c)]; [nia|nia|lia]. }
    assert (rm = A) by lia.
    destruct (Z.even m); nia.
  - specialize (Hlow eq_refl). nia.
  - specialize (Hlow eq_refl). nia.
Qed.

(** ** Rounding in binary64 *)



(** The second half of [binary_round_aux]: the carry out of the rounding
    and the overflow test. *)
Definition renorm (R e : Z) : spec_float :=
  let '(mrs, e') := shr_fexp 53 1024 R e loc_Exact in
  match shr_m mrs with
  | Z0 => S754_zero false
  | Zpos m => if e' <=? 1024 - 53 then S754_finite false m e' else S754_infinity false
  | Zneg _ => S754_nan
  end.

Lemma binary_round_aux_renorm (mx ex : Z) (lx : location) :
  binary_round_aux 53 1024 false mx ex lx
  = renorm (round_nearest_even (shr_m (fst (shr_fexp 53 1024 mx ex lx)))
                               (loc_of_shr_record (fst (shr_fexp 53 1024 mx ex lx))))
           (snd (shr_fexp 53 1024 mx ex lx)).
Proof.
  unfold binary_round_aux, renorm.
  destruct (shr_fexp 53 1024 mx ex lx) as [mrs' e']. reflexivity.
Qed.

Lemma shr_record_of_loc_m (m : Z) (l : location) :
  shr_m (shr_record_of_loc m l) = m.
Proof. destruct l as [|[| |]]; reflexivity. Qed.

Lemma loc_of_shr_record_of_loc (m : Z) (l : location) :
  loc_of_shr_record (shr_record_of_loc m l) = l.
Proof. destruct l as [|[| |]]; reflexivity. Qed.

Lemma Zdigits2_53 (q : Z) : 2 ^ 52 <= q < 2 ^ 53 -> Zdigits2 q = 53.
Proof.
  intros Hq. destruct q as [|p|p]; try lia.
  apply Zdigits2_bounds; [exact Hq|lia].
Qed.

Lemma Zdigits2_54 (q : Z) : 2 ^ 53 <= q < 2 ^ 54 -> Zdigits2 q = 54.
Proof.
  intros Hq. destruct q as [|p|p]; try lia.
  apply Zdigits2_bounds; [exact Hq|lia].
Qed.

Lemma shr_fexp_keep (q e : Z) (l : location) :
  2 ^ 52 <= q < 2 ^ 53 -> -1074 <= e ->
  shr_fexp 53 1024 q e l = (shr_record_of_loc q l, e).
Proof.
  intros Hq He. unfold shr_fexp. rewrite (Zdigits2_53 q Hq).
  replace (fexp 53 1024 (53 + e) - e) with 0 by (unfold fexp, emin; lia).
  reflexivity.
Qed.

Lemma shr_fexp_one (q e : Z) (l : location) :
  2 ^ 53 <= q < 2 ^ 54 -> -1074 <= e ->
  shr_fexp 53 1024 q e l = (shr_1 (shr_record_of_loc q l), e + 1).
Proof.
  intros Hq He. unfold shr_fexp. rewrite (Zdigits2_54 q Hq).
  replace (fexp 53 1024 (54 + e) - e) with 1 by (unfold fexp, emin; lia).
  reflexivity.
Qed.

Lemma renorm_normal (R e : Z) :
  2 ^ 52 <= R < 2 ^ 53 -> -1074 <= e <= 971 ->
  renorm R e = S754_finite false (Z.to_pos R) e.
Proof.
  intros HR He. unfold renorm. rewrite shr_fexp_keep by lia.
  cbn [shr_record_of_loc shr_m]. destruct R as [|p|p]; try lia.
  replace (e <=? 1024 - 53) with true by (symmetry; apply Z.leb_le; lia).
  reflexivity.
Qed.

Lemma renorm_carry (e : Z) :
  -1074 <= e <= 970 ->
  renorm (2 ^ 53) e = S754_finite false (Z.to_pos (2 ^ 52)) (e + 1).
Proof.
  intros He. unfold renorm. rewrite shr_fexp_one by lia.
  replace (e + 1 <=? 1024 - 53) with true by (symmetry; apply Z.leb_le; lia).
  reflexivity.
Qed.

(** A positive normal binary64 number: 53 significant bits, exponent in
    range. *)
Definition normal64 (x : float64) : bool :=
  match x with
  | S754_finite false m e =>
      (2 ^ 52 <=? Zpos m) && (Zpos m <? 2 ^ 53) && (-1074 <=? e) && (e <=? 971)
  | _ => false
  end.

Lemma normal64_inv (x : float64) :
  normal64 x = true ->
  exists m e, x = S754_finite false m e
              /\ 2 ^ 52 <= Zpos m < 2 ^ 53 /\ -1074 <= e <= 971.
Proof.
  destruct x as [| | |[|] m e]; try discriminate. cbn [normal64].
  intros H. exists m, e.
  rewrite !andb_true_iff, !Z.leb_le, Z.ltb_lt in H. repeat split; lia.
Qed.

Lemma div2_shift (e : Z) : Z.div2 (53 + e + 1) = Z.div2 e + 27.
Proof.
  rewrite !Z.div2_div. replace (53 + e + 1) with (e + 27 * 2) by lia.
  apply Z.div_add. lia.
Qed.

Lemma div2_cases (e : Z) :
  e = 2 * Z.div2 e \/ e = 2 * Z.div2 e + 1.
Proof. pose proof (Z.div2_odd e) as H. destruct (Z.odd e); cbn in H; lia. Qed.

(** The square root of a normal number: a 53-bit mantissa [S] whose square
    is within [S] of the radicand's scaled mantissa. *)
Lemma sqrt_normal (m : positive) (e : Z) :
  2 ^ 52 <= Zpos m < 2 ^ 53 -> -1074 <= e <= 971 ->
  exists (S : positive) (s : Z),
    F64.sqrt (S754_finite false m e) = S754_finite false S (Z.div2 e - 26)
    /\ 2 ^ 52 <= Zpos S < 2 ^ 53
    /\ (s = 52 \/ s = 53) /\ e = 2 * (Z.div2 e - 26) + s
    /\ - Zpos S < Zpos m * 2 ^ s - Zpos S * Zpos S <= Zpos S.
Proof.
  intros Hm He. set (e' := Z.div2 e - 26).
  pose (s := e - 2 * e').
  assert (Hs : s = 52 \/ s = 53) by (subst s e'; destruct (div2_cases e); lia).
  assert (He' : -563 <= e' <= 459) by (subst e'; destruct (div2_cases e); lia).
  unfold F64.sqrt, SFsqrt, SFsqrt_core_binary, F64.prec, F64.emax.
  rewrite (Zdigits2_53 (Zpos m) Hm), div2_shift.
  replace (Z.min (fexp 53 1024 (Z.div2 e + 27)) (Z.div2 e)) with e'
    by (unfold fexp, emin; subst e'; lia).
  fold s.
  assert (Hshift : match s with
                   | 0 => Zpos m
                   | Zpos _ => Z.shiftl (Zpos m) s
                   | Zneg _ => 0
                   end = Zpos m * 2 ^ s).
  { destruct Hs as [-> | ->]; now rewrite Z.shiftl_mul_pow2. }
  rewrite Hshift. set (M := Zpos m * 2 ^ s) in *.
  assert (HM : 2 ^ 104 <= M < 2 ^ 106) by (subst M; destruct Hs as [-> | ->]; lia).
  assert (HMtop : M <= 2 ^ 106 - 2 ^ 53) by (subst M; destruct Hs as [-> | ->]; lia).
  pose proof (Z.sqrtrem_spec M ltac:(lia)) as Hsq.
  destruct (Z.sqrtrem M) as [q r]. destruct Hsq as (HMq & Hr).
  assert (Hq : 2 ^ 52 <= q < 2 ^ 53).
  { split.
    - destruct (Z_lt_le_dec q (2 ^ 52)) as [Hlt|]; [|assumption].
      assert (q * q <= (2 ^ 52 - 1) * (2 ^ 52 - 1)) by nia. lia.
    - destruct (Z_lt_le_dec q (2 ^ 53)) as [|Hge]; [assumption|].
      assert (2 ^ 53 * 2 ^ 53 <= q * q) by nia. lia. }
  rewrite binary_round_aux_renorm, shr_fexp_keep by lia.
  cbn [fst snd]. rewrite shr_record_of_loc_m, loc_of_shr_record_of_loc.
  assert (Hcases : (r <= q /\ round_nearest_even q
                      (if r =? 0 then loc_Exact
                       else loc_Inexact (if r <=? q then Lt else Gt)) = q)
                   \/ (q < r /\ round_nearest_even q
                      (if r =? 0 then loc_Exact
                       else loc_Inexact (if r <=? q then Lt else Gt)) = q + 1)).
  { destruct (Z.eqb_spec r 0) as [->|Hr0]; [left; split; [lia|reflexivity]|].
    destruct (Z.leb_spec r q); [left|right]; split; try lia; reflexivity. }
  destruct Hcases as [(Hrq & ->) | (Hrq & ->)].
  - rewrite renorm_normal by lia. exists (Z.to_pos q), s.
    rewrite Z2Pos.id by lia. repeat split; try lia; subst s; lia.
  - assert (q < 2 ^ 53 - 1).
    { destruct (Z_lt_le_dec q (2 ^ 53 - 1)) as [|Hge]; [assumption|].
      assert (q = 2 ^ 53 - 1) by lia. subst q. lia. }
    rewrite renorm_normal by lia. exists (Z.to_pos (q + 1)), s.
    rewrite Z2Pos.id by lia. repeat split; try lia; subst s; lia.
Qed.

(** The product of that root with itself: the square [S * S], rounded to
    53 bits at half a unit in the last place. *)
Lemma mul_self_normal (S : positive) (e' : Z) :
  2 ^ 52 <= Zpos S < 2 ^ 53 -> -563 <= e' <= 459 ->
  exists (mp : positive) (k j : Z),
    F64.mul (S754_finite false S e') (S754_finite false S e')
    = S754_finite false mp (2 * e' + k + j)
    /\ 2 ^ 52 <= Zpos mp < 2 ^ 53
    /\ (k = 52 \/ k = 53) /\ (j = 0 \/ j = 1)
    /\ 2 * (Zpos mp * 2 ^ (k + j)) <= 2 * (Zpos S * Zpos S) + 2 ^ k
    /\ 2 * (Zpos S * Zpos S) <= 2 * (Zpos mp * 2 ^ (k + j)) + 2 ^ k
    /\ 2 ^ (52 + k) <= Zpos S * Zpos S < 2 ^ (53 + k).
Proof.
  intros HS He'.
  unfold F64.mul, SFmul, F64.prec, F64.emax. cbn [xorb].
  rewrite Pos2Z.inj_mul. set (P := Zpos S * Zpos S).
  assert (HP : 2 ^ 104 <= P <= 2 ^ 106 - 2 ^ 54 + 1) by (subst P; nia).
  assert (Hk : exists k : positive,
             (Zpos k = 52 \/ Zpos k = 53) /\ 2 ^ (52 + Zpos k) <= P < 2 ^ (53 + Zpos k)).
  { destruct (Z_lt_le_dec P (2 ^ 105)); [exists 52%positive|exists 53%positive];
      (split; [lia|]); split; try lia. }
  destruct Hk as (k & Hk & HPk).
  assert (Hdig : Zdigits2 P = 53 + Zpos k).
  { assert (0 < P) as HP0 by lia. destruct P as [|p|p]; try lia.
    apply Zdigits2_bounds; [|lia].
    replace (53 + Zpos k - 1) with (52 + Zpos k) by lia. exact HPk. }
  rewrite binary_round_aux_renorm. unfold shr_fexp. rewrite Hdig.
  replace (fexp 53 1024 (53 + Zpos k + (e' + e')) - (e' + e')) with (Zpos k)
    by (unfold fexp, emin; lia).
  cbn [shr shr_record_of_loc fst snd].
  pose proof (round_shift P k ltac:(lia)) as Hround. cbn zeta in Hround.
  set (R := round_nearest_even _ _) in *.
  destruct Hround as (Hup & Hdown & Hnear).
  assert (Hquot : 2 ^ 52 <= P / 2 ^ Zpos k < 2 ^ 53).
  { split.
    - apply Z.div_le_lower_bound; [lia|].
      destruct Hk as [E|E]; rewrite E in *; lia.
    - apply Z.div_lt_upper_bound; [lia|].
      destruct Hk as [E|E]; rewrite E in *; lia. }
  destruct (Z_lt_le_dec R (2 ^ 53)) as [Hlt|Hge].
  - rewrite renorm_normal by lia.
    exists (Z.to_pos R), (Zpos k), 0. rewrite Z2Pos.id by lia.
    rewrite !Z.add_0_r. repeat split; try lia.
    f_equal. lia.
  - assert (HR : R = 2 ^ 53) by lia. rewrite HR in *.
    assert (Hk52 : Zpos k = 52).
    { destruct Hk as [Hk|Hk]; [assumption|]. rewrite Hk in *. lia. }
    rewrite Hk52 in *. rewrite renorm_carry by lia.
    exists (Z.to_pos (2 ^ 52)), 52, 1. repeat split; try lia.
    f_equal. lia.
Qed.

(** The tolerance: [2^-51], two units in the last place of 1.0. *)
Definition tolerance : float64 := F64.of_Z2 1 (-51).

Definition near_one (r : float64) : bool :=
  F64.leb (F64.abs (F64.sub r F64.one)) tolerance.

Lemma new_location_0 (d : Z) : new_location d 0 = loc_Exact.
Proof. unfold new_location. destruct (Z.even d); reflexivity. Qed.

Lemma quotient_range (N d q r L U : Z) :
  N = d * q + r -> 0 <= r < d -> L * d <= N -> N <= U * d ->
  L <= q <= U /\ (q = U -> r = 0).
Proof.
  intros HN Hr HL HU. repeat split.
  - destruct (Z_lt_le_dec q L); [nia|assumption].
  - destruct (Z_lt_le_dec U q); [nia|lia].
  - intros ->. lia.
Qed.

Ltac each_quotient Hq Htop :=
  repeat (destruct Hq as [Hq|Hq]);
  rewrite Hq in *;
  match goal with
  | |- near_one (binary_round_aux _ _ _ _ _ ?l) = true =>
      destruct l as [|[| |]];
      solve [ vm_compute; reflexivity
            | specialize (Htop eq_refl); discriminate Htop ]
  end.

(** Every quotient that close to a power of two rounds to within the
    tolerance of 1.0: a finite table, evaluated. *)
Lemma round_near_one (delta q : Z) (l : location) :
  (delta = 1 /\ 2 ^ 52 <= q <= 2 ^ 52 + 2 /\ (q = 2 ^ 52 + 2 -> l = loc_Exact))
  \/ (delta = 0 /\ 2 ^ 53 - 4 <= q <= 2 ^ 53 + 4
      /\ (q = 2 ^ 53 + 4 -> l = loc_Exact))
  \/ (delta = -1 /\ 2 ^ 54 - 8 <= q <= 2 ^ 54 - 1) ->
  near_one (binary_round_aux 53 1024 false q (delta - 53) l) = true.
Proof.
  intros [(-> & Hq & Htop) | [(-> & Hq & Htop) | (-> & Hq)]].
  - assert (Hq' : q = 2 ^ 52 \/ q = 2 ^ 52 + 1 \/ q = 2 ^ 52 + 2) by lia.
    clear Hq. each_quotient Hq' Htop.
  - assert (Hq' : q = 2 ^ 53 - 4 \/ q = 2 ^ 53 - 3 \/ q = 2 ^ 53 - 2
                  \/ q = 2 ^ 53 - 1 \/ q = 2 ^ 53 \/ q = 2 ^ 53 + 1
                  \/ q = 2 ^ 53 + 2 \/ q = 2 ^ 53 + 3 \/ q = 2 ^ 53 + 4) by lia.
    clear Hq. each_quotient Hq' Htop.
  - assert (Hq' : q = 2 ^ 54 - 8 \/ q = 2 ^ 54 - 7 \/ q = 2 ^ 54 - 6
                  \/ q = 2 ^ 54 - 5 \/ q = 2 ^ 54 - 4 \/ q = 2 ^ 54 - 3
                  \/ q = 2 ^ 54 - 2 \/ q = 2 ^ 54 - 1) by lia.
    clear Hq. assert (Htop : q = 0 -> l = loc_Exact) by lia.
    each_quotient Hq' Htop.
Qed.

Ltac quotient_in L U HN Hr :=
  let Hq := fresh "Hq" in
  let Htop := fresh "Htop" in
  let E := fresh "E" in
  destruct (quotient_range _ _ _ _ L U HN Hr) as (Hq & Htop);
  try lia;
  try (split; [exact Hq|]; intros E; rewrite (Htop E); apply new_location_0).

(** The quotient of two normal numbers whose ratio is within [2^-51] of 1
    is itself within the tolerance of 1.0. *)
Lemma div_near_one (m mp : positive) (e ep a b : Z) :
  2 ^ 52 <= Zpos m < 2 ^ 53 -> 2 ^ 52 <= Zpos mp < 2 ^ 53 ->
  b = 52 \/ b = 53 -> a = 52 \/ a = 53 \/ a = 54 -> e - ep = b - a ->
  (2 ^ 51 - 1) * (Zpos mp * 2 ^ a) <= 2 ^ 51 * (Zpos m * 2 ^ b) ->
  2 ^ 51 * (Zpos m * 2 ^ b) <= (2 ^ 51 + 1) * (Zpos mp * 2 ^ a) ->
  near_one (F64.div (S754_finite false m e) (S754_finite false mp ep)) = true.
Proof.
  intros Hm Hmp Hb Ha Hd Hlo Hhi.
  unfold F64.div, SFdiv, SFdiv_core_binary, F64.prec, F64.emax. cbn [xorb].
  rewrite (Zdigits2_53 (Zpos m) Hm), (Zdigits2_53 (Zpos mp) Hmp).
  replace (Z.min (fexp 53 1024 (53 + e - (53 + ep))) (e - ep)) with (b - a - 53)
    by (unfold fexp, emin; lia).
  replace (e - ep - (b - a - 53)) with 53 by lia.
  cbv beta iota. rewrite Z.shiftl_mul_pow2 by lia.
  pose proof (Z_div_mod (Zpos m * 2 ^ 53) (Zpos mp) ltac:(lia)) as Hdm.
  destruct (Z.div_eucl (Zpos m * 2 ^ 53) (Zpos mp)) as [q r].
  destruct Hdm as (HN & Hr).
  apply round_near_one.
  destruct Hb as [-> | ->]; destruct Ha as [-> | [-> | ->]].
  - right; left. split; [lia|]. quotient_in (2 ^ 53 - 4) (2 ^ 53 + 4) HN Hr.
  - right; right. split; [lia|]. quotient_in (2 ^ 54 - 8) (2 ^ 54 - 1) HN Hr.
  - exfalso. lia.
  - left. split; [lia|]. quotient_in (2 ^ 52) (2 ^ 52 + 2) HN Hr.
  - right; left. split; [lia|]. quotient_in (2 ^ 53 - 4) (2 ^ 53 + 4) HN Hr.
  - right; right. split; [lia|]. quotient_in (2 ^ 54 - 8) (2 ^ 54 - 1) HN Hr.
Qed.

(** For a normal squared norm [n], [n / (sqrt n * sqrt n)] is within
    [2^-51] of 1.0. *)
Lemma self_similarity_near_one (n : float64) :
  normal64 n = true -> near_one (F64.div n (F64.mul (F64.sqrt n) (F64.sqrt n))) = true.
Proof.
  intros Hn. destruct (normal64_inv n Hn) as (m & e & -> & Hm & He).
  destruct (sqrt_normal m e Hm He) as (S & s & -> & HS & Hs & Hes & Hclose).
  assert (He' : -563 <= Z.div2 e - 26 <= 459) by (destruct (div2_cases e); lia).
  destruct (mul_self_normal S (Z.div2 e - 26) HS He')
    as (mp & k & j & -> & Hmp & Hk & Hj & Hup & Hdown & HP).
  set (P := Zpos S * Zpos S) in *.
  assert (HPS : 2 ^ 52 * Zpos S <= P) by (subst P; nia).
  apply div_near_one with (a := k + j) (b := s); try assumption; try lia.
  - destruct Hk as [-> | ->]; lia.
  - destruct Hk as [E|E]; rewrite E in *; lia.
Qed.

(** ** Symmetry, and the two vectors being the same *)

Lemma SFmul_comm (prec emax : Z) (x y : spec_float) :
  SFmul prec emax x y = SFmul prec emax y x.
Proof.
  destruct x as [sx|sx| |sx mx ex], y as [sy|sy| |sy my ey]; cbn;
    try reflexivity; try now rewrite xorb_comm.
  now rewrite xorb_comm, Pos.mul_comm, Z.add_comm.
Qed.

Definition swap_norms (acc : float64 * float64 * float64)
  : float64 * float64 * float64 :=
  let '(dotProduct, normA, normB) := acc in (dotProduct, normB, normA).

Lemma cosine_loop_swap (a b : list float32) (acc : float64 * float64 * float64) :
  index.cosine_loop b a (swap_norms acc) = swap_norms (index.cosine_loop a b acc).
Proof.
  revert b acc. induction a as [|x a IH]; intros [|y b] [[d na] nb]; cbn;
    try reflexivity.
  rewrite <- IH. cbn. unfold F32.mul. now rewrite (SFmul_comm _ _ y x).
Qed.

(** The sum of the squares as the loop accumulates it: each square rounded
    to [float32], then added in [float64]. *)
Fixpoint sum_squares (a : list float32) (acc : float64) : float64 :=
  match a with
  | [] => acc
  | x :: a' => sum_squares a' (F64.add acc (F64.of_float32 (F32.mul x x)))
  end.

Definition squared_norm (a : list float32) : float64 := sum_squares a F64.zero.

Lemma cosine_loop_self (a : list float32) (acc : float64) :
  index.cosine_loop a a (acc, acc, acc)
  = (sum_squares a acc, sum_squares a acc, sum_squares a acc).
Proof.
  revert acc. induction a as [|x a IH]; intros acc; cbn; [reflexivity|].
  now rewrite IH.
Qed.

(** What [cosineSimilarity] computes from a squared norm when both vectors
    are the same. *)
Definition self_similarity (n : float64) : float64 :=
  F64.div n (F64.mul (F64.sqrt n) (F64.sqrt n)).

Lemma cosineSimilarity_self (a : list float32) :
  index.cosineSimilarity a a
  = if F64.eqb (squared_norm a) F64.zero then F64.zero
    else self_similarity (squared_norm a).
Proof.
  unfold index.cosineSimilarity. rewrite Nat.eqb_refl. cbn [negb].
  rewrite cosine_loop_self. fold (squared_norm a).
  now destruct (F64.eqb (squared_norm a) F64.zero).
Qed.

Lemma cosineSimilarity_sym (a b : list float32) :
  index.cosineSimilarity a b = index.cosineSimilarity b a.
Proof.
  unfold index.cosineSimilarity. rewrite (Nat.eqb_sym (length b) (length a)).
  destruct (negb _); [reflexivity|].
  pose proof (cosine_loop_swap a b (F64.zero, F64.zero, F64.zero)) as Hs.
  cbn [swap_norms] in Hs. rewrite Hs.
  destruct (index.cosine_loop a b _) as [[d na] nb]. cbn [swap_norms].
  rewrite (orb_comm (F64.eqb nb F64.zero)).
  destruct (_ || _); [reflexivity|].
  unfold F64.mul. now rewrite (SFmul_comm _ _ (F64.sqrt nb)).
Qed.

Lemma cosine_loop_norms (a b : list float32) (d na nb : float64) :
  length a = length b ->
  exists d', index.cosine_loop a b (d, na, nb)
             = (d', sum_squares a na, sum_squares b nb).
Proof.
  revert b d na nb. induction a as [|x a IH]; intros [|y b] d na nb Hlen;
    try discriminate Hlen.
  - exists d. reflexivity.
  - cbn [index.cosine_loop sum_squares]. apply IH. now injection Hlen.
Qed.

Lemma cosineSimilarity_mismatch (a b : list float32) :
  length a <> length b -> index.cosineSimilarity a b = F64.zero.
Proof.
  intros Hlen. unfold index.cosineSimilarity.
  destruct (Nat.eqb_spec (length a) (length b)) as [E|_]; [contradiction|].
  reflexivity.
Qed.

Lemma cosineSimilarity_zero_norm (a b : list float32) :
  F64.eqb (squared_norm a) F64.zero = true
  \/ F64.eqb (squared_norm b) F64.zero = true ->
  index.cosineSimilarity a b = F64.zero.
Proof.
  intros Hzero. unfold index.cosineSimilarity.
  destruct (Nat.eqb_spec (length a) (length b)) as [E|_]; [|reflexivity].
  cbn [negb].
  destruct (cosine_loop_norms a b F64.zero F64.zero F64.zero E) as (d' & ->).
  fold (squared_norm a) (squared_norm b).
  destruct Hzero as [-> | ->]; [reflexivity|].
  now rewrite orb_true_r.
Qed.

Lemma normal64_not_zero (n : float64) :
  normal64 n = true -> F64.eqb n F64.zero = false.
Proof. destruct n as [| | |[|] m e]; try discriminate. reflexivity. Qed.

(** C4, as the code has it. The score is symmetric; it is exactly [+0]
    when the lengths differ or when one of the two computed squared norms
    is zero; and for two equal vectors whose computed squared norm is a
    positive normal [float64] it is within [2^-51] of 1.0. The squared
    norm is computed from squares rounded to [float32], so it is zero, or
    infinite, for some vectors that are not. *)
Theorem cosineSimilarity_properties (a b : list float32) :
  index.cosineSimilarity a b = index.cosineSimilarity b a
  /\ (length a <> length b -> index.cosineSimilarity a b = F64.zero)
  /\ (F64.eqb (squared_norm a) F64.zero = true
      \/ F64.eqb (squared_norm b) F64.zero = true ->
      index.cosineSimilarity a b = F64.zero)
  /\ (normal64 (squared_norm a) = true ->
      near_one (index.cosineSimilarity a a) = true).
Proof.
  split; [apply cosineSimilarity_sym|].
  split; [apply cosineSimilarity_mismatch|].
  split; [apply cosineSimilarity_zero_norm|].
  intros Hn. rewrite cosineSimilarity_self, (normal64_not_zero _ Hn).
  apply self_similarity_near_one. exact Hn.
Qed.

(** A [float32] that Go's [x != 0] holds of. *)
Definition nonzero32 (x : float32) : bool :=
  F32.valid x && negb (SFeqb x (S754_zero false)).

Definition tiny : list float32 := [F32.of_Z2 1 (-100)].
Definition huge : list float32 := [F32.of_Z2 1 100].

(** Against C4 as stated. [2^-100] and [2^100] are [float32] values other
    than zero; the square of the first underflows to zero in [float32], so
    the vector's score with itself is 0, and the square of the second
    overflows, so the score is NaN. *)
Lemma cosineSimilarity_equal_nonzero_off :
  forallb nonzero32 tiny = true
  /\ index.cosineSimilarity tiny tiny = F64.zero
  /\ near_one (index.cosineSimilarity tiny tiny) = false
  /\ forallb nonzero32 huge = true
  /\ index.cosineSimilarity huge huge = S754_nan
  /\ near_one (index.cosineSimilarity huge huge) = false.
Proof. repeat split; vm_compute; reflexivity. Defined.

Definition ones : list float32 := [llm_mock.one32; llm_mock.one32; llm_mock.one32].

(** C4 on the vector [(1, 1, 1)], whose squared norm 3 has no exact square
    root. *)
Lemma cosineSimilarity_properties_witness :
  near_one (index.cosineSimilarity ones ones) = true
  /\ index.cosineSimilarity ones tiny = F64.zero
  /\ index.cosineSimilarity tiny ones = F64.zero.
Proof.
  split; [|split].
  - apply (proj2 (proj2 (proj2 (cosineSimilarity_properties ones ones)))).
    vm_compute. reflexivity.
  - apply (proj1 (proj2 (cosineSimilarity_properties ones tiny))).
    cbn. discriminate.
  - rewrite <- (proj1 (cosineSimilarity_properties ones tiny)).
    apply (proj1 (proj2 (cosineSimilarity_properties ones tiny))).
    cbn. discriminate.
Defined.

(* ===================================================================== *)
(** * Substrings: where a pattern occurs                                  *)
(* ===================================================================== *)

(** [p] occurs in [s]. *)
Definition occurs (p s : string) : Prop := exists a b, s = a +:+ p +:+ b.

Fixpoint has_char (c : ascii) (p : string) : bool :=
  match p with
  | EmptyString => false
  | String x p' => Ascii.eqb c x || has_char c p'
  end.

Lemma prefix_iff (p s : string) :
  String.prefix p s = true <-> exists b, s = p +:+ b.
Proof.
  revert s. induction p as [|x p IH]; intros s.
  - rewrite prefix_empty. split; [intros _; now exists s|reflexivity].
  - destruct s as [|y s].
    + split; [discriminate|]. intros [b Hb]. step_append. discriminate Hb.
    + rewrite prefix_String, andb_true_iff, Ascii.eqb_eq, IH. split.
      * intros [-> [b ->]]. now exists b.
      * intros [b Hb]. step_append. injection Hb as -> ->. eauto.
Qed.

Lemma occurs_refl (p : string) : occurs p p.
Proof. exists "", "". now rewrite append_nil_r. Qed.

Lemma occurs_app_l (p u v : string) : occurs p u -> occurs p (u +:+ v).
Proof.
  intros (a & b & ->). exists a, (b +:+ v). now rewrite !append_assoc.
Qed.

Lemma occurs_app_r (p u v : string) : occurs p v -> occurs p (u +:+ v).
Proof.
  intros (a & b & ->). exists (u +:+ a), b. now rewrite !append_assoc.
Qed.

Lemma occurs_cons (p : string) (c : ascii) (s : string) :
  occurs p s -> occurs p (String c s).
Proof. apply (occurs_app_r p (String c "") s). Qed.

Lemma occurs_empty (p : string) : occurs p "" -> p = "".
Proof.
  intros (a & b & E). destruct a; [|discriminate E]. step_append.
  destruct p; [reflexivity|discriminate E].
Qed.

Lemma occurs_String (p : string) (c : ascii) (s : string) :
  occurs p (String c s) -> String.prefix p (String c s) = true \/ occurs p s.
Proof.
  intros (a & b & E). destruct a as [|x a]; step_append.
  - left. apply prefix_iff. now exists b.
  - right. injection E as -> E. now exists a, b.
Qed.

(** The first occurrence: [strings.Index]. *)
Lemma Index_from_spec (s p : string) (i : Z) :
  (Index_from s p i = -1 /\ ~ occurs p s)
  \/ (exists a b, s = a +:+ p +:+ b /\ Index_from s p i = i + len a
        /\ forall a' b', s = a' +:+ p +:+ b' -> len a <= len a').
Proof.
  revert i. induction s as [|c s IH]; intros i; cbn [Index_from].
  - destruct (String.prefix p "") eqn:Hp.
    + right. apply prefix_iff in Hp as [b Hb]. exists "", b. step_append.
      split; [assumption|]. split; [unfold len; simpl; lia|].
      intros a' b' _. unfold len. simpl. lia.
    + left. split; [reflexivity|]. intros Ho. apply occurs_empty in Ho as ->.
      discriminate Hp.
  - destruct (String.prefix p (String c s)) eqn:Hp.
    + right. apply prefix_iff in Hp as [b Hb]. exists "", b. step_append.
      split; [assumption|]. split; [unfold len; simpl; lia|].
      intros a' b' _. unfold len. simpl. lia.
    + destruct (IH (i + 1)) as [[Hi Hno]|(a & b & -> & Hi & Hmin)].
      * left. split; [assumption|]. intros Ho.
        apply occurs_String in Ho as [Ho|Ho]; [congruence|contradiction].
      * right. exists (String c a), b. step_append. split; [reflexivity|].
        split; [rewrite Hi; unfold len; simpl String.length; lia|].
        intros a' b' E. destruct a' as [|x a']; step_append.
        -- exfalso. assert (String.prefix p (String c (a +:+ p +:+ b)) = true)
             by (apply prefix_iff; now exists b').
           congruence.
        -- injection E as _ E. specialize (Hmin a' b' E).
           unfold len in *. simpl String.length. lia.
Qed.

Lemma Contains_iff (s p : string) : strings_Contains s p = true <-> occurs p s.
Proof.
  unfold strings_Contains, strings_Index.
  destruct (Index_from_spec s p 0) as [[Hi Hno]|(a & b & -> & Hi & _)].
  - rewrite Hi. split; [discriminate|contradiction].
  - rewrite Hi. split; [intros _; now exists a, b|].
    intros _. apply Z.leb_le. unfold len. lia.
Qed.

Lemma Contains_false (s p : string) : strings_Contains s p = false <-> ~ occurs p s.
Proof.
  rewrite <- Contains_iff. destruct (strings_Contains s p); split; congruence.
Qed.

(** A pattern cannot reach across a character it does not contain. *)
Lemma prefix_split (p b u v : string) (c : ascii) :
  p +:+ b = u +:+ String c v -> has_char c p = false -> exists b', u = p +:+ b'.
Proof.
  revert u. induction p as [|x p IH]; intros u E Hc.
  - now exists u.
  - cbn [has_char] in Hc. apply orb_false_iff in Hc as [Hx Hc].
    destruct u as [|y u]; step_append.
    + injection E as -> _. now rewrite Ascii.eqb_refl in Hx.
    + injection E as -> E. destruct (IH u E Hc) as [b' ->]. now exists b'.
Qed.

Lemma occurs_barrier (p u v : string) (c : ascii) :
  has_char c p = false -> occurs p (u +:+ String c v) -> occurs p u \/ occurs p v.
Proof.
  intros Hc (a & b & E). revert a E.
  induction u as [|y u IH]; intros a E; step_append.
  - destruct a as [|x a]; step_append.
    + left. destruct (prefix_split p b "" v c (eq_sym E) Hc) as [b' Hb].
      now exists "", b'.
    + right. injection E as _ E. now exists a, b.
  - destruct a as [|x a]; step_append.
    + left. destruct (prefix_split p b (String y u) v c (eq_sym E) Hc) as [b' Hb].
      now exists "", b'.
    + injection E as -> E. destruct (IH a E) as [(a' & b' & ->)|R].
      * left. now exists (String x a'), b'.
      * now right.
Qed.

Lemma drop_str_append (a b : string) : drop_str (String.length a) (a +:+ b) = b.
Proof. induction a as [|x a IH]; step_append; [reflexivity|exact IH]. Qed.

Lemma append_eq_length (a x u y : string) :
  a +:+ x = u +:+ y -> String.length a = String.length u -> a = u /\ x = y.
Proof.
  revert u. induction a as [|c a IH]; intros [|d u] E Hl; try discriminate Hl;
    step_append.
  - now split.
  - injection E as -> E. injection Hl as Hl. destruct (IH u E Hl) as [-> ->].
    now split.
Qed.

(* ===================================================================== *)
(** * strings.ReplaceAll                                                  *)
(* ===================================================================== *)

Section ReplaceAll.
Variables (old : string) (a1 a2 : ascii) (mid : string).

(** The replacement: at least two characters, [a1] first and [a2] last. *)
Definition bracketed : string := String a1 (mid +:+ String a2 "").

(** A pattern that can neither sit inside the replacement nor reach across
    one of its ends. *)
Definition kept_out (p : string) : Prop :=
  has_char a1 p = false /\ has_char a2 p = false /\ ~ occurs p mid.

Lemma bracketed_barrier (p u v : string) :
  kept_out p -> occurs p (u +:+ bracketed +:+ v) -> occurs p u \/ occurs p v.
Proof.
  intros (H1 & H2 & Hmid) Ho. unfold bracketed in Ho. step_append.
  apply (occurs_barrier p u _ a1 H1) in Ho as [Ho|Ho]; [now left|].
  rewrite append_assoc in Ho. step_append.
  apply (occurs_barrier p mid v a2 H2) in Ho as [Ho|Ho]; [contradiction|now right].
Qed.

(** Replacing leaves out what was out. *)
Lemma ReplaceAll_fuel_keeps_out (p : string) (n : nat) (s u : string) :
  kept_out p -> ~ occurs p (u +:+ s) ->
  ~ occurs p (u +:+ ReplaceAll_fuel n s old bracketed).
Proof.
  intros Hk. revert s u. induction n as [|n IH]; intros s u Hno;
    cbn [ReplaceAll_fuel]; [assumption|].
  destruct (String.prefix old s) eqn:Hp.
  - apply prefix_iff in Hp as [s2 ->]. rewrite drop_str_append.
    intros Ho. apply (bracketed_barrier p u _ Hk) in Ho as [Ho|Ho].
    + apply Hno. now apply occurs_app_l.
    + apply (IH s2 ""); [|exact Ho]. step_append. intros Hs2.
      apply Hno. now do 2 apply occurs_app_r.
  - destruct s as [|c s]; [assumption|].
    replace (u +:+ String c (ReplaceAll_fuel n s old bracketed))
      with ((u +:+ String c "") +:+ ReplaceAll_fuel n s old bracketed)
      by now rewrite append_assoc.
    apply IH. now rewrite append_assoc.
Qed.

(** Every occurrence of [old] in [u ++ s] starts in [s]. *)
Definition starts_late (u s : string) : Prop :=
  forall a b, u +:+ s = a +:+ old +:+ b -> (String.length u <= String.length a)%nat.

(** Replacing removes every occurrence of [old], and makes no new one. *)
Lemma ReplaceAll_fuel_removes (n : nat) (s u : string) :
  old <> "" -> kept_out old -> (String.length s < n)%nat -> starts_late u s ->
  ~ occurs old (u +:+ ReplaceAll_fuel n s old bracketed).
Proof.
  intros Hne Hk. assert (Hlen : (0 < String.length old)%nat)
    by (destruct old; [congruence|simpl; lia]).
  revert s u. induction n as [|n IH]; intros s u Hn Hlate; [lia|].
  cbn [ReplaceAll_fuel].
  assert (Hu : ~ occurs old u).
  { intros (a & b & E). specialize (Hlate a (b +:+ s)).
    rewrite E, !append_assoc in Hlate. specialize (Hlate eq_refl).
    rewrite !append_length in Hlate. lia. }
  destruct (String.prefix old s) eqn:Hp.
  - apply prefix_iff in Hp as [s2 ->]. rewrite drop_str_append.
    intros Ho. apply (bracketed_barrier old u _ Hk) in Ho as [Ho|Ho]; [contradiction|].
    apply (IH s2 ""); [| |exact Ho].
    + rewrite append_length in Hn. lia.
    + intros a b _. simpl. lia.
  - destruct s as [|c s]; [now rewrite append_nil_r|].
    replace (u +:+ String c (ReplaceAll_fuel n s old bracketed))
      with ((u +:+ String c "") +:+ ReplaceAll_fuel n s old bracketed)
      by now rewrite append_assoc.
    apply IH; [simpl in Hn; lia|].
    intros a b E. rewrite append_assoc in E. step_append.
    pose proof (Hlate a b E) as Hle. rewrite append_length. simpl.
    destruct (Nat.eq_dec (String.length u) (String.length a)) as [Heq|]; [|lia].
    exfalso. destruct (append_eq_length _ _ _ _ E Heq) as [_ Hs].
    assert (String.prefix old (String c s) = true)
      by (apply prefix_iff; now exists b).
    congruence.
Qed.

Lemma ReplaceAll_removes (s : string) :
  old <> "" -> kept_out old ->
  strings_Contains (strings_ReplaceAll s old bracketed) old = false.
Proof.
  intros Hne Hk. apply Contains_false. unfold strings_ReplaceAll.
  change (~ occurs old ("" +:+ ReplaceAll_fuel (S (String.length s)) s old bracketed)).
  apply ReplaceAll_fuel_removes; try assumption; [lia|].
  intros a b _. simpl. lia.
Qed.

Lemma ReplaceAll_keeps_out (p s : string) :
  kept_out p -> strings_Contains s p = false ->
  strings_Contains (strings_ReplaceAll s old bracketed) p = false.
Proof.
  intros Hk Hs. apply Contains_false. apply Contains_false in Hs.
  unfold strings_ReplaceAll.
  change (~ occurs p ("" +:+ ReplaceAll_fuel (S (String.length s)) s old bracketed)).
  now apply ReplaceAll_fuel_keeps_out.
Qed.
End ReplaceAll.

(** Nothing to replace, nothing changed (whatever the replacement). *)
Lemma ReplaceAll_fuel_absent (old new : string) (n : nat) (s : string) :
  ~ occurs old s -> ReplaceAll_fuel n s old new = s.
Proof.
  revert s. induction n as [|n IH]; intros s Hno; cbn [ReplaceAll_fuel];
    [reflexivity|].
  destruct (String.prefix old s) eqn:Hp.
  - exfalso. apply Hno. apply prefix_iff in Hp as [b ->].
    exists "", b. reflexivity.
  - destruct s as [|c s]; [reflexivity|]. f_equal. apply IH.
    intros Ho. apply Hno. now apply occurs_cons.
Qed.

Lemma ReplaceAll_absent (old new s : string) :
  strings_Contains s old = false -> strings_ReplaceAll s old new = s.
Proof.
  intros Hs. apply Contains_false in Hs. now apply ReplaceAll_fuel_absent.
Qed.

(* ===================================================================== *)
(** * llm.EscapePromptDelimiter                                           *)
(* ===================================================================== *)

Lemma not_occurs (p s : string) : strings_Contains s p = false -> ~ occurs p s.
Proof. apply Contains_false. Qed.

Ltac kept_out_tac :=
  repeat split; try reflexivity; apply not_occurs; reflexivity.

Lemma ADR_END_kept_out :
  kept_out "[" "]" "ADR_END" "</adr_content>".
Proof. kept_out_tac. Qed.

Lemma CODE_END_kept_out (p : string) :
  p = "</adr_content>" \/ p = "</code_context>" -> kept_out "[" "]" "CODE_END" p.
Proof. intros [-> | ->]; kept_out_tac. Qed.

Lemma quotes_kept_out (p : string) :
  p = "</adr_content>" \/ p = "</code_context>" \/ p = "```" ->
  kept_out "'" "'" "'" p.
Proof. intros [-> | [-> | ->]]; kept_out_tac. Qed.

(** X1. Whatever the input, the escaped text holds none of the three
    delimiters: neither closing tag of the prompt's containers, and no
    triple backtick. The replacements cannot be completed to a delimiter by
    the text around them, and a later replacement cannot bring back what an
    earlier one removed. *)
Theorem EscapePromptDelimiter_neutralises (input : string) :
  strings_Contains (llm.EscapePromptDelimiter input) "</adr_content>" = false
  /\ strings_Contains (llm.EscapePromptDelimiter input) "</code_context>" = false
  /\ strings_Contains (llm.EscapePromptDelimiter input) "```" = false.
Proof.
  unfold llm.EscapePromptDelimiter.
  change "[ADR_END]" with (bracketed "[" "]" "ADR_END").
  change "[CODE_END]" with (bracketed "[" "]" "CODE_END").
  change "'''" with (bracketed "'" "'" "'").
  set (s1 := strings_ReplaceAll input "</adr_content>" _).
  set (s2 := strings_ReplaceAll s1 "</code_context>" _).
  assert (H1 : strings_Contains s1 "</adr_content>" = false)
    by (apply ReplaceAll_removes; [discriminate|apply ADR_END_kept_out]).
  assert (H2 : strings_Contains s2 "</adr_content>" = false)
    by (apply ReplaceAll_keeps_out; [apply CODE_END_kept_out; auto|exact H1]).
  assert (H2' : strings_Contains s2 "</code_context>" = false)
    by (apply ReplaceAll_removes; [discriminate|apply CODE_END_kept_out; auto]).
  split; [|split].
  - apply ReplaceAll_keeps_out; [apply quotes_kept_out; auto|exact H2].
  - apply ReplaceAll_keeps_out; [apply quotes_kept_out; auto|exact H2'].
  - apply ReplaceAll_removes; [discriminate|apply quotes_kept_out; auto].
Qed.

Lemma EscapePromptDelimiter_clean (input : string) :
  strings_Contains input "</adr_content>" = false ->
  strings_Contains input "</code_context>" = false ->
  strings_Contains input "```" = false ->
  llm.EscapePromptDelimiter input = input.
Proof.
  intros H1 H2 H3. unfold llm.EscapePromptDelimiter.
  rewrite (ReplaceAll_absent _ _ input H1), (ReplaceAll_absent _ _ input H2).
  now apply ReplaceAll_absent.
Qed.

(** X2. Text that holds none of the three delimiters goes through
    unchanged, and escaping twice is escaping once. *)
Theorem EscapePromptDelimiter_fixpoints (input : string) :
  (strings_Contains input "</adr_content>"
   || strings_Contains input "</code_context>"
   || strings_Contains input "```" = false ->
   llm.EscapePromptDelimiter input = input)
  /\ llm.EscapePromptDelimiter (llm.EscapePromptDelimiter input)
     = llm.EscapePromptDelimiter input.
Proof.
  split.
  - intros H. apply orb_false_iff in H as [H H3].
    apply orb_false_iff in H as [H1 H2]. now apply EscapePromptDelimiter_clean.
  - destruct (EscapePromptDelimiter_neutralises input) as (H1 & H2 & H3).
    now apply EscapePromptDelimiter_clean.
Qed.

Definition go_snippet : string :=
  "package main" +:+ nl +:+ "func main() { println(1) }" +:+ nl.

Lemma EscapePromptDelimiter_fixpoints_witness :
  llm.EscapePromptDelimiter go_snippet = go_snippet.
Proof.
  apply (proj1 (EscapePromptDelimiter_fixpoints go_snippet)).
  vm_compute. reflexivity.
Defined.

(* ===================================================================== *)
(** * llm.CleanJSON                                                       *)
(* ===================================================================== *)

Lemma has_char_app (c : ascii) (a b : string) :
  has_char c (a +:+ b) = has_char c a || has_char c b.
Proof.
  induction a as [|x a IH]; step_append; cbn [has_char]; [reflexivity|].
  now rewrite IH, orb_assoc.
Qed.

Lemma has_char_occurs (c : ascii) (s : string) :
  has_char c s = true <-> occurs (String c "") s.
Proof.
  split.
  - induction s as [|x s IH]; cbn [has_char]; [discriminate|].
    intros H. apply orb_true_iff in H as [H|H].
    + apply Ascii.eqb_eq in H as ->. now exists "", s.
    + now apply occurs_cons, IH.
  - intros (a & b & ->). rewrite has_char_app. step_append. cbn [has_char].
    now rewrite Ascii.eqb_refl, orb_true_r.
Qed.

Lemma has_char_Contains (c : ascii) (s : string) :
  strings_Contains s (String c "") = false -> has_char c s = false.
Proof.
  intros H. apply Contains_false in H. destruct (has_char c s) eqn:E; [|reflexivity].
  exfalso. now apply H, has_char_occurs.
Qed.

(** No byte of the encoding of a space. *)
Definition not_in_space (c : ascii) : Prop :=
  forallb (fun r => negb (has_char c r)) space_runes = true.

Lemma not_in_space_rune (c : ascii) (r : string) :
  not_in_space c -> In r space_runes -> has_char c r = false.
Proof.
  intros Hc Hr. unfold not_in_space in Hc. rewrite List.forallb_forall in Hc.
  specialize (Hc r Hr). now apply negb_true_iff in Hc.
Qed.

Lemma TrimLeft_fuel_keeps (c : ascii) (rest : string) (n : nat) (x : string) :
  not_in_space c ->
  exists y x', x = y +:+ x'
    /\ TrimLeft_fuel n (x +:+ String c rest) = x' +:+ String c rest.
Proof.
  intros Hc. revert x. induction n as [|n IH]; intros x; cbn [TrimLeft_fuel].
  - now exists "", x.
  - destruct (leading_space (x +:+ String c rest)) as [r|] eqn:Hl.
    + unfold leading_space in Hl. apply List.find_some in Hl as [Hin Hp].
      apply prefix_iff in Hp as [b Hb].
      destruct (prefix_split r b x rest c (eq_sym Hb)
                  (not_in_space_rune c r Hc Hin)) as [x1 ->].
      rewrite append_assoc, drop_str_append.
      destruct (IH x1) as (y & x' & -> & ->).
      exists (r +:+ y), x'. now rewrite append_assoc.
    + now exists "", x.
Qed.

Lemma substring_drop (k : nat) (s : string) : substring 0 k s +:+ drop_str k s = s.
Proof.
  revert s. induction k as [|k IH]; intros [|c s]; simpl; step_append;
    try reflexivity.
  now rewrite IH.
Qed.

Lemma HasSuffix_iff (s r : string) :
  strings_HasSuffix s r = true <-> exists a, s = a +:+ r.
Proof.
  unfold strings_HasSuffix. rewrite andb_true_iff, Nat.leb_le, String.eqb_eq. split.
  - intros [Hle E]. exists (substring 0 (String.length s - String.length r) s).
    set (k := (String.length s - String.length r)%nat) in *.
    transitivity (substring 0 k s +:+ drop_str k s);
      [symmetry; apply substring_drop|now rewrite E].
  - intros [a ->]. rewrite append_length. split; [lia|].
    replace (String.length a + String.length r - String.length r)%nat
      with (String.length a) by lia.
    apply drop_str_append.
Qed.

Lemma suffix_split (a r u y : string) (c : ascii) :
  a +:+ r = u +:+ String c y -> has_char c r = false -> exists y', y = y' +:+ r.
Proof.
  revert a. induction u as [|z u IH]; intros a E Hc; step_append.
  - destruct a as [|x a]; step_append.
    + subst r. cbn [has_char] in Hc. now rewrite Ascii.eqb_refl in Hc.
    + injection E as _ E. now exists a.
  - destruct a as [|x a]; step_append.
    + subst r. cbn [has_char] in Hc. rewrite has_char_app in Hc. cbn [has_char] in Hc.
      rewrite Ascii.eqb_refl, !orb_true_r in Hc. discriminate Hc.
    + injection E as _ E. now apply (IH a).
Qed.

Lemma TrimRight_fuel_keeps (c : ascii) (u : string) (n : nat) (y : string) :
  not_in_space c ->
  exists y' z, y = y' +:+ z
    /\ TrimRight_fuel n (u +:+ String c y) = u +:+ String c y'.
Proof.
  intros Hc. revert y. induction n as [|n IH]; intros y; cbn [TrimRight_fuel].
  - exists y, "". now rewrite append_nil_r.
  - destruct (trailing_space (u +:+ String c y)) as [r|] eqn:Hl.
    + unfold trailing_space in Hl. apply List.find_some in Hl as [Hin Hp].
      apply HasSuffix_iff in Hp as [a Ha].
      destruct (suffix_split a r u y c (eq_sym Ha)
                  (not_in_space_rune c r Hc Hin)) as [y1 ->].
      assert (Ea : a = u +:+ String c y1).
      { apply (append_inv_tail _ _ r). rewrite <- Ha, append_assoc. now step_append. }
      rewrite Ha, append_length.
      replace (String.length a + String.length r - String.length r)%nat
        with (String.length a) by lia.
      rewrite substring_append, Ea.
      destruct (IH y1) as (y' & z & -> & ->).
      exists y', (z +:+ r). now rewrite append_assoc.
    + exists y, "". now rewrite append_nil_r.
Qed.

Lemma Index_from_char (c : ascii) (x rest : string) (i : Z) :
  has_char c x = false ->
  Index_from (x +:+ String c rest) (String c "") i = i + len x.
Proof.
  revert i. induction x as [|d x IH]; intros i Hc; step_append; cbn [Index_from].
  - rewrite prefix_String, Ascii.eqb_refl, prefix_empty. unfold len. simpl. lia.
  - cbn [has_char] in Hc. apply orb_false_iff in Hc as [Hd Hc].
    rewrite prefix_String, Hd. cbn [andb]. rewrite IH by assumption.
    unfold len. simpl String.length. lia.
Qed.

Lemma LastIndex_from_none (c : ascii) (y : string) (j : Z) :
  has_char c y = false -> LastIndex_from y (String c "") j = -1.
Proof.
  revert j. induction y as [|d y IH]; intros j Hc; cbn [LastIndex_from].
  - reflexivity.
  - cbn [has_char] in Hc. apply orb_false_iff in Hc as [Hd Hc].
    rewrite IH by assumption. change (-1 =? -1) with true. cbv iota.
    now rewrite prefix_String, Hd.
Qed.

Lemma LastIndex_from_char (c : ascii) (pre y : string) (i : Z) :
  0 <= i -> has_char c y = false ->
  LastIndex_from (pre +:+ String c y) (String c "") i = i + len pre.
Proof.
  intros Hi Hc. revert i Hi. induction pre as [|d pre IH]; intros i Hi;
    step_append; cbn [LastIndex_from].
  - rewrite LastIndex_from_none by assumption. change (-1 =? -1) with true.
    cbv iota. rewrite prefix_String, Ascii.eqb_refl, prefix_empty.
    unfold len. simpl. lia.
  - rewrite IH by lia.
    assert ((i + 1 + len pre =? -1) = false) as ->
      by (apply Z.eqb_neq; unfold len; lia).
    unfold len. simpl String.length. lia.
Qed.

Lemma substring_middle (a m b : string) :
  substring (String.length a) (String.length m) (a +:+ m +:+ b) = m.
Proof.
  induction a as [|x a IH]; step_append.
  - apply substring_append.
  - simpl. exact IH.
Qed.

Lemma brace_not_in_space : not_in_space "{" /\ not_in_space "}".
Proof. split; vm_compute; reflexivity. Qed.

(** X3. Around a JSON object, [CleanJSON] drops what comes before the first
    opening brace and after the last closing one: prose, Markdown fences,
    white space. The object may hold braces of its own. *)
Theorem CleanJSON_extracts (before body after : string) :
  strings_Contains before "{" = false ->
  strings_Contains after "}" = false ->
  llm.CleanJSON (before +:+ "{" +:+ body +:+ "}" +:+ after)
  = "{" +:+ body +:+ "}".
Proof.
  intros Hb Ha. apply has_char_Contains in Hb, Ha.
  destruct brace_not_in_space as [Ho Hc].
  unfold llm.CleanJSON, strings_TrimSpace.
  set (input := before +:+ "{" +:+ body +:+ "}" +:+ after).
  destruct (TrimLeft_fuel_keeps "{" (body +:+ "}" +:+ after) (String.length input)
              before Ho) as (y & x' & Hx & Hleft).
  change (before +:+ String "{" (body +:+ "}" +:+ after)) with input in Hleft.
  rewrite Hleft.
  set (s1 := x' +:+ String "{" (body +:+ "}" +:+ after)).
  assert (Es1 : s1 = (x' +:+ "{" +:+ body) +:+ String "}" after).
  { subst s1. rewrite !append_assoc. now step_append. }
  destruct (TrimRight_fuel_keeps "}" (x' +:+ "{" +:+ body) (String.length s1)
              after Hc) as (y' & z & Hy & Hright).
  rewrite <- Es1 in Hright. rewrite Hright.
  assert (Hx' : has_char "{" x' = false).
  { rewrite Hx, has_char_app in Hb. now apply orb_false_iff in Hb. }
  assert (Hy' : has_char "}" y' = false).
  { rewrite Hy, has_char_app in Ha. now apply orb_false_iff in Ha. }
  set (out := (x' +:+ "{" +:+ body) +:+ String "}" y').
  assert (Hstart : strings_Index out "{" = len x').
  { unfold strings_Index, out. rewrite !append_assoc. step_append.
    now rewrite Index_from_char. }
  assert (Hend : strings_LastIndex out "}" = len (x' +:+ "{" +:+ body)).
  { unfold strings_LastIndex, out. now rewrite LastIndex_from_char. }
  rewrite Hstart, Hend.
  assert (Hlen : len (x' +:+ "{" +:+ body) = len x' + 1 + len body).
  { unfold len. rewrite !append_length. simpl String.length. lia. }
  rewrite Hlen.
  assert ((len x' =? -1) = false) as -> by (apply Z.eqb_neq; unfold len; lia).
  assert ((len x' + 1 + len body =? -1) = false) as ->
    by (apply Z.eqb_neq; unfold len; lia).
  assert ((len x' + 1 + len body >? len x') = true) as ->
    by (apply Z.gtb_lt; unfold len; lia).
  cbn [negb andb].
  replace (Z.to_nat (len x')) with (String.length x') by (unfold len; lia).
  replace (Z.to_nat (len x' + 1 + len body + 1 - len x'))
    with (String.length ("{" +:+ body +:+ "}"))
    by (rewrite !append_length; unfold len; simpl String.length; lia).
  replace out with (x' +:+ ("{" +:+ body +:+ "}") +:+ y')
    by (unfold out; rewrite !append_assoc; now step_append).
  apply substring_middle.
Qed.

Definition fence : string := "```".

(** The reply fenced as Markdown, of the tests of [CleanJSON]. *)
Lemma CleanJSON_extracts_witness :
  llm.CleanJSON
    ("Here is the result:" +:+ nl +:+ fence +:+ "json" +:+ nl +:+ "{"
       +:+ dq +:+ "key" +:+ dq +:+ ": " +:+ dq +:+ "value" +:+ dq +:+ "}"
       +:+ nl +:+ fence)
  = "{" +:+ dq +:+ "key" +:+ dq +:+ ": " +:+ dq +:+ "value" +:+ dq +:+ "}".
Proof.
  pose proof (CleanJSON_extracts
                ("Here is the result:" +:+ nl +:+ fence +:+ "json" +:+ nl)
                (dq +:+ "key" +:+ dq +:+ ": " +:+ dq +:+ "value" +:+ dq)
                (nl +:+ fence) eq_refl eq_refl) as T.
  rewrite !append_assoc in T. exact T.
Defined.

(* ===================================================================== *)
(** * analysis.findLineNumber                                             *)
(* ===================================================================== *)

(** How many times the byte [c] is in [s]. *)
Fixpoint count_byte (c : ascii) (s : string) : Z :=
  match s with
  | EmptyString => 0
  | String x s' => (if Ascii.eqb c x then 1 else 0) + count_byte c s'
  end.

Lemma count_byte_nonneg (c : ascii) (s : string) : 0 <= count_byte c s.
Proof. induction s as [|x s IH]; cbn [count_byte]; [lia|]. destruct (Ascii.eqb c x); lia. Qed.

Lemma count_sep_byte (c : ascii) (fuel : nat) (s : string) :
  (String.length s <= fuel)%nat ->
  count_sep fuel s (String c "") = count_byte c s.
Proof.
  revert s. induction fuel as [|fuel IH]; intros [|x s] Hf; simpl in Hf;
    try lia; try reflexivity.
  cbn [count_sep count_byte].
  rewrite prefix_String, prefix_empty, andb_true_r.
  destruct (Ascii.eqb c x).
  - cbn [String.length drop_str]. rewrite IH by lia. reflexivity.
  - rewrite IH by lia. lia.
Qed.

Lemma Index_first (content quote pre post : string) :
  content = pre +:+ quote +:+ post ->
  (forall a b, content = a +:+ quote +:+ b -> len pre <= len a) ->
  strings_Index content quote = len pre.
Proof.
  intros E Hmin. unfold strings_Index.
  destruct (Index_from_spec content quote 0) as [[_ Hno]|(a & b & Ea & Hi & Ha)].
  - exfalso. apply Hno. now exists pre, post.
  - rewrite Hi. specialize (Hmin a b Ea). specialize (Ha pre post E). lia.
Qed.

(** X4. The line of a violation: 0 when the verdict quotes nothing or quotes
    text that is not in the content; otherwise the 1-based number of the
    line in which the first occurrence of the quoted text starts, that is,
    one more than the number of newlines before it. *)
Theorem findLineNumber_line (content quote : string) :
  (quote = "" \/ strings_Contains content quote = false ->
   analysis.findLineNumber content quote = 0)
  /\ (forall pre post,
        quote <> "" ->
        content = pre +:+ quote +:+ post ->
        (forall a b, content = a +:+ quote +:+ b -> len pre <= len a) ->
        analysis.findLineNumber content quote = 1 + count_byte (ascii_of_nat 10) pre
        /\ 1 <= analysis.findLineNumber content quote).
Proof.
  unfold analysis.findLineNumber. split.
  - intros [-> | Hno]; [reflexivity|].
    destruct (String.eqb quote ""); [reflexivity|].
    unfold strings_Contains in Hno. apply Z.leb_gt in Hno.
    unfold strings_Index in *.
    destruct (Index_from_spec content quote 0) as [[Hi _]|(a & b & _ & Hi & _)].
    + now rewrite Hi.
    + rewrite Hi in Hno. unfold len in Hno. lia.
  - intros pre post Hne E Hmin.
    apply String.eqb_neq in Hne. rewrite Hne.
    rewrite (Index_first content quote pre post E Hmin).
    assert ((len pre =? -1) = false) as -> by (apply Z.eqb_neq; unfold len; lia).
    unfold slice_to. replace (Z.to_nat (len pre)) with (String.length pre)
      by (unfold len; lia).
    rewrite E, substring_append. unfold len_strings_Split, nl.
    rewrite count_sep_byte by lia.
    pose proof (count_byte_nonneg (ascii_of_nat 10) pre). lia.
Qed.

Definition two_line_file : string :=
  "package main" +:+ nl +:+ "import python" +:+ nl.

(** The quoted import is on line 2. *)
Lemma findLineNumber_line_witness :
  analysis.findLineNumber two_line_file "import python" = 2.
Proof.
  destruct (proj2 (findLineNumber_line two_line_file "import python")
              ("package main" +:+ nl) nl) as [T _].
  - discriminate.
  - reflexivity.
  - intros a b E.
    assert (H : strings_Index two_line_file "import python" = 13) by reflexivity.
    unfold strings_Index in H.
    destruct (Index_from_spec two_line_file "import python" 0)
      as [[Hi _]|(a0 & b0 & _ & Hi & Hmin)]; [rewrite Hi in H; discriminate H|].
    specialize (Hmin a b E). rewrite Hi in H.
    change (len ("package main" +:+ nl)) with 13. lia.
  - exact T.
Defined.

(* ===================================================================== *)
(** * analysis.shouldExclude                                              *)
(* ===================================================================== *)

Lemma TrimSuffix_append (d suf : string) : strings_TrimSuffix (d +:+ suf) suf = d.
Proof.
  unfold strings_TrimSuffix.
  assert (strings_HasSuffix (d +:+ suf) suf = true) as ->
    by (apply HasSuffix_iff; now exists d).
  rewrite append_length.
  replace (String.length d + String.length suf - String.length suf)%nat
    with (String.length d) by lia.
  apply substring_append.
Qed.

Section Exclude.
Context {P C : Type} `{Provider P} `{ContentProvider C}.
Context `{encoding_json} `{path_lib} `{fmt_lib} `{tiktoken_lib} `{SliceSorter}.

(** What one pattern excludes. *)
Definition excluded_by (pattern path : string) : Prop :=
  filepath_Match pattern path = true
  \/ (strings_Contains pattern "**" = true
      /\ strings_HasPrefix path (strings_TrimSuffix pattern "**") = true).

Lemma shouldExclude_loop_iff (patterns : list string) (path : string) :
  analysis.shouldExclude_loop patterns path = true
  <-> exists pattern, In pattern patterns /\ excluded_by pattern path.
Proof.
  induction patterns as [|p ps IH]; cbn [analysis.shouldExclude_loop].
  - split; [discriminate|]. now intros (p & [] & _).
  - destruct (filepath_Match p path) eqn:Hm.
    + split; [|reflexivity]. intros _. exists p. split; [now left|now left].
    + destruct (strings_Contains p "**" && strings_HasPrefix path _) eqn:Hs.
      * split; [|reflexivity]. intros _. exists p. split; [now left|].
        right. now apply andb_true_iff in Hs.
      * rewrite IH. split.
        -- intros (q & Hq & Hex). exists q. split; [now right|assumption].
        -- intros (q & [<-|Hq] & Hex); [|now exists q].
           exfalso. destruct Hex as [Hex|[Hc Hp]]; [congruence|].
           rewrite Hc, Hp in Hs. discriminate Hs.
Qed.

(** X5. A file is excluded exactly when some exclude pattern matches it as
    a [filepath.Match] pattern, or contains [**] and, once a trailing [**]
    is cut off, is a prefix of the path; the order of the patterns does not
    matter. So a pattern [dir/**] excludes every path that starts with
    [dir/], and the pattern [**] excludes every path. *)
Theorem shouldExclude_patterns (e : analysis.Engine C) (path : string) :
  let patterns := config.ExcludePatterns (config.Analysis_ (analysis.Config e)) in
  (analysis.shouldExclude e path = true
   <-> exists pattern, In pattern patterns /\ excluded_by pattern path)
  /\ (forall dir rest,
        In (dir +:+ "**") patterns -> path = dir +:+ rest ->
        analysis.shouldExclude e path = true)
  /\ (In "**" patterns -> analysis.shouldExclude e path = true).
Proof.
  cbn zeta. unfold analysis.shouldExclude.
  assert (Hdir : forall dir rest,
    In (dir +:+ "**") (config.ExcludePatterns (config.Analysis_ (analysis.Config e))) ->
    path = dir +:+ rest ->
    analysis.shouldExclude_loop
      (config.ExcludePatterns (config.Analysis_ (analysis.Config e))) path = true).
  { intros dir rest Hin ->. apply shouldExclude_loop_iff.
    exists (dir +:+ "**"). split; [assumption|]. right. split.
    - apply Contains_iff. exists dir, "". now rewrite append_nil_r.
    - rewrite TrimSuffix_append. unfold strings_HasPrefix.
      apply prefix_iff. now exists rest. }
  split; [apply shouldExclude_loop_iff|]. split; [exact Hdir|].
  intros Hin. now apply (Hdir "" path).
Qed.
End Exclude.

(* ===================================================================== *)
(** * The cache: what a Put touches, and what the key tells apart         *)
(* ===================================================================== *)

Section CacheFrame.
Import llm_types.
Context `{encoding_json} `{path_lib}.

Lemma Put_files (c : cache.Cache) (fs0 fs1 : FS) (fp : string) (v : AnalysisResult) :
  cache.Put c fs0 fp v = (None, fs1) ->
  exists data, json_Marshal_AnalysisResult v = Ok data
    /\ (entry_path c fp ∉ unwritable fs0)
    /\ files fs1 = (<[entry_path c fp := data]> (files fs0))
    /\ unreadable fs1 = unreadable fs0 /\ unwritable fs1 = unwritable fs0.
Proof.
  unfold cache.Put, os_WriteFile. fold (entry_path c fp).
  destruct (json_Marshal_AnalysisResult v) as [data|err]; [|discriminate].
  destruct (decide (entry_path c fp ∈ unwritable fs0));
    [destruct (torn fs0 !! entry_path c fp); discriminate|].
  intros [= <-]. now exists data.
Qed.

(** Whatever its result, a [Put] writes to the file of its entry only; when
    it fails, that file is as it was or holds a beginning of the
    encoding. *)
Lemma Put_touches (c : cache.Cache) (fs0 fs1 : FS) (fp : string) (v : AnalysisResult)
    (err : option error) :
  cache.Put c fs0 fp v = (err, fs1) ->
  (forall path, path <> entry_path c fp -> files fs1 !! path = files fs0 !! path)
  /\ unreadable fs1 = unreadable fs0
  /\ (err <> None ->
      files fs1 !! entry_path c fp = files fs0 !! entry_path c fp
      \/ exists data n,
           json_Marshal_AnalysisResult v = Ok data
           /\ files fs1 !! entry_path c fp = Some (substring 0 n data)).
Proof.
  unfold cache.Put, os_WriteFile. fold (entry_path c fp).
  destruct (json_Marshal_AnalysisResult v) as [data|e].
  - destruct (decide (entry_path c fp ∈ unwritable fs0)).
    + destruct (torn fs0 !! entry_path c fp) as [n|].
      * intros [= <- <-]. cbn [files unreadable]. repeat split.
        -- intros path Hne. now apply lookup_insert_ne.
        -- intros _. right. exists data, n. split; [reflexivity|].
           apply lookup_insert_eq.
      * intros [= <- <-]. repeat split. intros _. now left.
    + intros [= <- <-]. cbn [files unreadable]. repeat split.
      * intros path Hne. now apply lookup_insert_ne.
      * intros Hn. now contradiction Hn.
  - intros [= <- <-]. repeat split. intros _. now left.
Qed.

Lemma Get_depends (c : cache.Cache) (fs0 fs1 : FS) (fp : string) :
  files fs1 !! entry_path c fp = files fs0 !! entry_path c fp ->
  unreadable fs1 = unreadable fs0 ->
  cache.Get c fs1 fp = cache.Get c fs0 fp.
Proof.
  intros Hf Hr. unfold cache.Get, os_Stat_IsNotExist, os_ReadFile.
  fold (entry_path c fp). now rewrite Hf, Hr.
Qed.

(** X6. A [Put] touches the file of its own fingerprint only, whether it
    succeeds or fails: every other file is as before, and [Get] of a
    fingerprint kept in another file returns what it returned before. A
    [Put] that fails has left its own file as it was or has left in it a
    beginning of the encoding of the verdict. And the last [Put] wins:
    after two that succeed on one fingerprint, [Get] returns the second
    verdict. *)
Theorem Cache_Put_frame (c : cache.Cache) (fs0 : FS) (fp : string)
    (v : AnalysisResult) :
  (forall err fs1,
      cache.Put c fs0 fp v = (err, fs1) ->
      (forall path, path <> entry_path c fp ->
         files fs1 !! path = files fs0 !! path)
      /\ (forall other, entry_path c other <> entry_path c fp ->
            cache.Get c fs1 other = cache.Get c fs0 other)
      /\ (err <> None ->
          files fs1 !! entry_path c fp = files fs0 !! entry_path c fp
          \/ exists data n,
               json_Marshal_AnalysisResult v = Ok data
               /\ files fs1 !! entry_path c fp = Some (substring 0 n data)))
  /\ (forall fs1 fs2 v2 data2,
        cache.Put c fs0 fp v = (None, fs1) ->
        cache.Put c fs1 fp v2 = (None, fs2) ->
        json_Marshal_AnalysisResult v2 = Ok data2 ->
        json_Unmarshal_AnalysisResult data2 zero = (v2, None) ->
        entry_path c fp ∉ unreadable fs0 ->
        cache.Get c fs2 fp = (Some v2, true, None)).
Proof.
  split.
  - intros err fs1 Hput. apply Put_touches in Hput as (Hf & Hr & Hfail).
    split; [exact Hf|]. split; [|exact Hfail].
    intros other Hne. apply Get_depends; [now apply Hf|assumption].
  - intros fs1 fs2 v2 data2 Hput1 Hput2 Hm Hu Hread.
    apply Put_files in Hput1 as (data1 & _ & _ & Hf1 & Hr1 & _).
    apply Put_files in Hput2 as (data2' & Hm' & _ & Hf2 & Hr2 & _).
    rewrite Hm in Hm'. injection Hm' as <-.
    rewrite (Get_stored c fs2 fp data2).
    + now rewrite Hu.
    + rewrite Hf2. apply lookup_insert_eq.
    + now rewrite Hr2, Hr1.
Qed.
End CacheFrame.

Section CacheFrame_instance.
Import llm_types.
#[local] Existing Instance doubles.json.
#[local] Existing Instance doubles.paths.

Definition clean_verdict : AnalysisResult :=
  {| Violation := false; Reasoning := "none"; QuotedCode := "" |}.

(** A disk that takes five bytes of the entry of ["abc"] and no more, and
    holds an entry for ["xyz"]. *)
Definition full_disk : FS :=
  {| files := {[ ".archguard/cache/xyz.json" := "{}" ]};
     unreadable := ∅;
     unwritable := {[ ".archguard/cache/abc.json" ]};
     torn := {[ ".archguard/cache/abc.json" := 5%nat ]} |}.

(** Two verdicts put under ["abc"], read back, with ["xyz"] left alone;
    and a [Put] that fails on the full disk: five bytes of the entry are
    left, and ["xyz"] is read as before. *)
Lemma Cache_Put_frame_witness :
  (exists fs1 fs2,
    cache.Put cache_dir empty_FS "abc" go_verdict = (None, fs1)
    /\ cache.Put cache_dir fs1 "abc" clean_verdict = (None, fs2)
    /\ cache.Get cache_dir fs1 "xyz" = cache.Get cache_dir empty_FS "xyz"
    /\ cache.Get cache_dir fs2 "abc" = (Some clean_verdict, true, None))
  /\ (exists err fs1,
        cache.Put cache_dir full_disk "abc" go_verdict = (Some err, fs1)
        /\ files fs1 !! ".archguard/cache/abc.json" = Some ("{" +:+ dq +:+ "vio")
        /\ cache.Get cache_dir fs1 "xyz" = cache.Get cache_dir full_disk "xyz").
Proof.
  split.
  - set (fs1 := snd (cache.Put cache_dir empty_FS "abc" go_verdict)).
    set (fs2 := snd (cache.Put cache_dir fs1 "abc" clean_verdict)).
    assert (E1 : cache.Put cache_dir empty_FS "abc" go_verdict = (None, fs1))
      by (vm_compute; reflexivity).
    assert (E2 : cache.Put cache_dir fs1 "abc" clean_verdict = (None, fs2))
      by (vm_compute; reflexivity).
    exists fs1, fs2. split; [exact E1|]. split; [exact E2|].
    pose proof (Cache_Put_frame cache_dir empty_FS "abc" go_verdict) as (T1 & T3).
    split.
    + apply (proj1 (proj2 (T1 _ fs1 E1)) "xyz"). vm_compute. discriminate.
    + apply (T3 fs1 fs2 clean_verdict _ E1 E2 eq_refl).
      * vm_compute. reflexivity.
      * cbn. apply not_elem_of_empty.
  - set (r := cache.Put cache_dir full_disk "abc" go_verdict).
    assert (E : r = (Some "write .archguard/cache/abc.json: no space left on device",
                     snd r)) by (vm_compute; reflexivity).
    exists "write .archguard/cache/abc.json: no space left on device", (snd r).
    split; [exact E|]. split; [vm_compute; reflexivity|].
    apply (proj1 (proj2 (proj1 (Cache_Put_frame cache_dir full_disk "abc" go_verdict)
                           _ _ E)) "xyz").
    vm_compute. discriminate.
Defined.
End CacheFrame_instance.

(** X7. The cache key does not keep its five inputs apart: text moved
    across the ["||"] between the ADR and the file content gives the same
    key, so two different pairs of ADR and file share one cache entry. *)
Theorem ComputeAnalysisKey_boundary
    (modelName x y z systemPrompt userPromptTemplate : string) :
  cache.ComputeAnalysisKey modelName (x +:+ "||" +:+ y) z
    systemPrompt userPromptTemplate
  = cache.ComputeAnalysisKey modelName x (y +:+ "||" +:+ z)
      systemPrompt userPromptTemplate.
Proof.
  unfold cache.ComputeAnalysisKey, cache.key_material.
  do 2 f_equal. now rewrite !append_assoc.
Qed.

(* ===================================================================== *)
(** * index.CalculateHash: what is hashed                                 *)
(* ===================================================================== *)

Section HashedBytes.
Context `{index.json_Store} `{path_lib} `{fmt_lib}.

(** A visit that the callback hashes: a file, not a directory, whose name
    ends in [.md]. *)
Definition is_markdown (v : WalkVisit) : bool :=
  negb (visit_IsDir v) && strings_HasSuffix (visit_name v) ".md".

(** What such a visit adds: the name, then the content if it can be read. *)
Definition hashed_of (fs0 : FS) (v : WalkVisit) : string :=
  visit_name v +:+ match os_ReadFile fs0 (visit_path v) with
                   | OsOk content => content
                   | _ => ""
                   end.

Definition hashed_bytes (fs0 : FS) (visits : list WalkVisit) : string :=
  String.concat "" (map (hashed_of fs0) (List.filter is_markdown visits)).

Lemma concat_empty_cons (x : string) (l : list string) :
  String.concat "" (x :: l) = x +:+ String.concat "" l.
Proof. destruct l; cbn [String.concat]; [now rewrite append_nil_r|reflexivity]. Qed.

Lemma CalculateHash_walk_bytes (fs0 : FS) (visits : list WalkVisit) (written : string) :
  Forall (fun v => visit_err v = None) visits ->
  index.CalculateHash_walk fs0 visits written
  = (written +:+ hashed_bytes fs0 visits, None).
Proof.
  intros Hok. revert written. unfold hashed_bytes.
  induction Hok as [|v rest Hv _ IH]; intros written;
    cbn [index.CalculateHash_walk List.filter map].
  - cbn. now rewrite append_nil_r.
  - rewrite Hv. fold (is_markdown v). destruct (is_markdown v).
    + rewrite IH. cbn [map]. rewrite concat_empty_cons. unfold hashed_of.
      destruct (os_ReadFile fs0 (visit_path v)); now rewrite ?append_nil_r, !append_assoc.
    + apply IH.
Qed.

Lemma CalculateHash_walk_error (fs0 : FS) (before after : list WalkVisit)
    (v : WalkVisit) (err : error) (written : string) :
  Forall (fun v => visit_err v = None) before ->
  visit_err v = Some err ->
  snd (index.CalculateHash_walk fs0 (before ++ v :: after) written) = Some err.
Proof.
  intros Hok Hv. revert written. induction Hok as [|b rest Hb _ IH]; intros written;
    cbn [index.CalculateHash_walk app].
  - now rewrite Hv.
  - rewrite Hb. destruct (_ && _); apply IH.
Qed.

(** X8. When the walk meets no error, the hash is the SHA-256 of the model
    name followed, for each Markdown file in the order of the walk, by the
    base name of the file and, if it can be read, its content. Directories
    and files of other kinds do not count: two trees whose walks agree on
    the Markdown files have the same hash. A walk that does meet an error
    returns that error. *)
Theorem CalculateHash_markdown_only (fs0 : FS) (dirPath modelName : string) :
  (Forall (fun v => visit_err v = None) (filepath_Walk fs0 dirPath) ->
   index.CalculateHash fs0 dirPath modelName
   = (hex_EncodeToString
        (sha256.Sum (modelName +:+ hashed_bytes fs0 (filepath_Walk fs0 dirPath))),
      None))
  /\ (forall fs1 dirPath1,
        Forall (fun v => visit_err v = None) (filepath_Walk fs0 dirPath) ->
        Forall (fun v => visit_err v = None) (filepath_Walk fs1 dirPath1) ->
        map (hashed_of fs1) (List.filter is_markdown (filepath_Walk fs1 dirPath1))
        = map (hashed_of fs0) (List.filter is_markdown (filepath_Walk fs0 dirPath)) ->
        index.CalculateHash fs1 dirPath1 modelName
        = index.CalculateHash fs0 dirPath modelName)
  /\ (forall before v after err,
        filepath_Walk fs0 dirPath = before ++ v :: after ->
        Forall (fun v => visit_err v = None) before ->
        visit_err v = Some err ->
        snd (index.CalculateHash fs0 dirPath modelName) = Some err).
Proof.
  assert (Hclosed : forall fsx dirx,
    Forall (fun v => visit_err v = None) (filepath_Walk fsx dirx) ->
    index.CalculateHash fsx dirx modelName
    = (hex_EncodeToString
         (sha256.Sum (modelName +:+ hashed_bytes fsx (filepath_Walk fsx dirx))), None)).
  { intros fsx dirx Hok. unfold index.CalculateHash.
    now rewrite CalculateHash_walk_bytes. }
  split; [apply Hclosed|]. split.
  - intros fs1 dirPath1 Hok0 Hok1 Hsame.
    rewrite (Hclosed _ _ Hok0), (Hclosed _ _ Hok1). unfold hashed_bytes.
    now rewrite Hsame.
  - intros before v after err Hwalk Hok Hv. unfold index.CalculateHash.
    rewrite Hwalk.
    pose proof (CalculateHash_walk_error fs0 before after v err modelName Hok Hv) as E.
    destruct (index.CalculateHash_walk _ _ _) as [written e]. exact E.
Qed.
End HashedBytes.

(* ===================================================================== *)
(** * The drift judge: what a judgment costs at most                      *)
(* ===================================================================== *)

(** The time spent in backoff waits. *)
Fixpoint slept (evs : list Event) : Z :=
  match evs with
  | [] => 0
  | EvSleep d :: rest => d + slept rest
  | _ :: rest => slept rest
  end.

Lemma slept_app (a b : list Event) : slept (a ++ b) = slept a + slept b.
Proof.
  induction a as [|ev a IH]; [reflexivity|]. cbn [app slept].
  destruct ev; rewrite IH; lia.
Qed.

Section JudgeCost.
Import llm_types.
Context {P : Type} `{Provider P} `{encoding_json}.

(** What a stretch of the loop does: [evs] are the attempts and waits
    added, with at most [n] attempts and at most [budget] of waiting. *)
Definition within (n : nat) (budget : Z) (w w' : World P) (evs : list Event) : Prop :=
  trace w' = trace w ++ evs
  /\ (calls is_chat evs <= n)%nat
  /\ 0 <= slept evs <= budget
  /\ clock w <= clock w' <= clock w + budget
  /\ fs w' = fs w /\ stdout w' = stdout w.

Lemma loop_within (fuel : nat) :
  forall i backoff lastErr ctx sys prompt (w : World P),
    0 < i -> 0 <= backoff -> backoff * 2 ^ Z.of_nat fuel < 2 ^ 62 ->
    exists r w' evs,
      llm.AnalyzeDrift_loop fuel i backoff lastErr ctx sys prompt w = (r, w')
      /\ within fuel (backoff * (2 ^ Z.of_nat fuel - 1)) w w' evs.
Proof.
  induction fuel as [|fuel IH]; intros i b lastErr ctx sys prompt w Hi Hb Hsmall.
  - cbn [llm.AnalyzeDrift_loop]. eexists _, w, []. split; [reflexivity|].
    unfold within. rewrite app_nil_r. cbn. repeat split; lia.
  - assert (Hpow : 2 ^ Z.of_nat (S fuel) = 2 * 2 ^ Z.of_nat fuel).
    { rewrite Nat2Z.inj_succ, Z.pow_succ_r by lia. reflexivity. }
    assert (Hpos : 1 <= 2 ^ Z.of_nat fuel)
      by (pose proof (Z.pow_pos_nonneg 2 (Z.of_nat fuel)); lia).
    rewrite Hpow in *. set (X := 2 ^ Z.of_nat fuel) in *.
    assert (Hdouble : int_mul b 2 = b * 2).
    { unfold int_mul. apply wrap_int_small. nia. }
    cbn [llm.AnalyzeDrift_loop].
    assert ((i >? 0) = true) as -> by lia.
    unfold llm.select_backoff.
    assert (Hcancel : forall t, (t <=? clock w + b) = true ->
      exists r w' evs,
        (Err (done_err ctx) : result AnalysisResult, set_clock (Z.max (clock w) t) w)
        = (r, w')
        /\ within (S fuel) (b * (2 * X - 1)) w w' evs).
    { intros t Ht. apply Z.leb_le in Ht. eexists _, _, []. split; [reflexivity|].
      unfold within. rewrite app_nil_r. cbn. repeat split; try lia; nia. }
    assert (Hgo : exists r w' evs,
      (let '(r, p') := Chat (provider (emit (EvSleep b) (set_clock (clock w + b) w)))
                         ctx sys prompt in
       let w0 := set_provider p'
                   (emit (EvChat sys prompt)
                      (emit (EvSleep b) (set_clock (clock w + b) w))) in
       match r with
       | Ok raw =>
           match json_Unmarshal_AnalysisResult (llm.CleanJSON raw) zero with
           | (res, Some _) =>
               match json_Unmarshal_AnalysisResult raw res with
               | (res0, Some err2) =>
                   llm.AnalyzeDrift_loop fuel (i + 1) (int_mul b 2)
                     (Some ("invalid json from provider: " +:+ err2)) ctx sys prompt w0
               | (res0, None) => (Ok res0, w0)
               end
           | (res, None) => (Ok res, w0)
           end
       | Err err =>
           llm.AnalyzeDrift_loop fuel (i + 1) (int_mul b 2) (Some err) ctx sys prompt w0
       end) = (r, w')
      /\ within (S fuel) (b * (2 * X - 1)) w w' evs).
    { destruct (Chat _ ctx sys prompt) as [rc p'].
      set (w0 := set_provider p' _).
      assert (Hstop : forall r0, exists r w' evs,
        (r0 : result AnalysisResult, w0) = (r, w')
        /\ within (S fuel) (b * (2 * X - 1)) w w' evs).
      { intros r0. eexists _, _, [EvSleep b; EvChat sys prompt].
        split; [reflexivity|]. unfold within. subst w0. cbn.
        rewrite <- app_assoc. repeat split; try lia; nia. }
      assert (Hrec : forall l, exists r w' evs,
        llm.AnalyzeDrift_loop fuel (i + 1) (int_mul b 2) l ctx sys prompt w0 = (r, w')
        /\ within (S fuel) (b * (2 * X - 1)) w w' evs).
      { intros l. rewrite Hdouble.
        destruct (IH (i + 1) (b * 2) l ctx sys prompt w0 ltac:(lia) ltac:(lia)
                    ltac:(fold X; lia))
          as (r & w' & evs & -> & Ht & Hc & Hs & Hk & Hf & Ho).
        fold X in Hs, Hk.
        exists r, w', ([EvSleep b; EvChat sys prompt] ++ evs). split; [reflexivity|].
        unfold within. rewrite Ht, calls_app, slept_app. subst w0. cbn in *.
        rewrite <- !app_assoc. cbn. repeat split; try lia; try nia; assumption. }
      destruct rc as [raw|err]; [|apply Hrec].
      destruct (json_Unmarshal_AnalysisResult (llm.CleanJSON raw) zero) as [res [e1|]];
        [|apply Hstop].
      destruct (json_Unmarshal_AnalysisResult raw res) as [res2 [e2|]];
        [apply Hrec|apply Hstop]. }
    destruct (done_at ctx) as [t|].
    + destruct (t <=? clock w + b) eqn:Ht; [apply (Hcancel t Ht)|exact Hgo].
    + exact Hgo.
Qed.

Lemma loop_first_attempt (fuel : nat) backoff lastErr ctx sys prompt (w : World P) :
  llm.AnalyzeDrift_loop (S fuel) 0 backoff lastErr ctx sys prompt w
  = let '(r, p') := Chat (provider w) ctx sys prompt in
    let w0 := set_provider p' (emit (EvChat sys prompt) w) in
    match r with
    | Ok raw =>
        match json_Unmarshal_AnalysisResult (llm.CleanJSON raw) zero with
        | (res, Some _) =>
            match json_Unmarshal_AnalysisResult raw res with
            | (res0, Some err2) =>
                llm.AnalyzeDrift_loop fuel 1 backoff
                  (Some ("invalid json from provider: " +:+ err2)) ctx sys prompt w0
            | (res0, None) => (Ok res0, w0)
            end
        | (res, None) => (Ok res, w0)
        end
    | Err err => llm.AnalyzeDrift_loop fuel 1 backoff (Some err) ctx sys prompt w0
    end.
Proof. reflexivity. Qed.

(** X9. Whatever the provider answers and whenever the context is done, a
    judgment calls [Chat] at least once and at most four times, waits at
    most 2 + 4 + 8 = 14 seconds in all, and touches neither the files nor
    standard output. *)
Theorem AnalyzeDrift_cost (ctx : Context)
    (adrContent codeContext filename systemPrompt : string) (w : World P) :
  exists r w' evs,
    llm.AnalyzeDrift ctx adrContent codeContext filename systemPrompt w = (r, w')
    /\ trace w' = trace w ++ EvAnalyzeDrift adrContent filename :: evs
    /\ (1 <= calls is_chat evs <= 4)%nat
    /\ 0 <= slept evs <= 14 * llm.Second
    /\ clock w <= clock w' <= clock w + 14 * llm.Second
    /\ fs w' = fs w /\ stdout w' = stdout w.
Proof.
  unfold llm.AnalyzeDrift.
  set (prompt := llm.GetAnalyzeDriftPrompt adrContent codeContext filename).
  change (Z.to_nat (llm.maxRetries + 1)) with 4%nat.
  set (w0 := emit (EvAnalyzeDrift adrContent filename) w).
  change 4%nat with (S 3). rewrite loop_first_attempt.
  destruct (Chat (provider w0) ctx systemPrompt prompt) as [rc p'].
  set (w1 := set_provider p' (emit (EvChat systemPrompt prompt) w0)).
  assert (Hstop : forall r0, exists r w' evs,
    (r0 : result AnalysisResult, w1) = (r, w')
    /\ trace w' = trace w ++ EvAnalyzeDrift adrContent filename :: evs
    /\ (1 <= calls is_chat evs <= 4)%nat
    /\ 0 <= slept evs <= 14 * llm.Second
    /\ clock w <= clock w' <= clock w + 14 * llm.Second
    /\ fs w' = fs w /\ stdout w' = stdout w).
  { intros r0. eexists _, _, [EvChat systemPrompt prompt]. split; [reflexivity|].
    subst w1 w0. cbn. rewrite <- app_assoc. unfold calls, llm.Second. cbn.
    repeat split; lia. }
  assert (Hrec : forall l, exists r w' evs,
    llm.AnalyzeDrift_loop 3 1 (2 * llm.Second) l ctx systemPrompt prompt w1
    = (r, w')
    /\ trace w' = trace w ++ EvAnalyzeDrift adrContent filename :: evs
    /\ (1 <= calls is_chat evs <= 4)%nat
    /\ 0 <= slept evs <= 14 * llm.Second
    /\ clock w <= clock w' <= clock w + 14 * llm.Second
    /\ fs w' = fs w /\ stdout w' = stdout w).
  { intros l.
    destruct (loop_within 3 1 (2 * llm.Second) l ctx systemPrompt prompt w1
                ltac:(lia) ltac:(unfold llm.Second; lia)
                ltac:(unfold llm.Second; cbn; lia))
      as (r & w' & evs & -> & Ht & Hc & Hs & Hk & Hf & Ho).
    change (2 * llm.Second * (2 ^ Z.of_nat 3 - 1)) with (14 * llm.Second) in *.
    exists r, w', (EvChat systemPrompt prompt :: evs). split; [reflexivity|].
    rewrite Ht. clear Hstop. subst w1 w0. unfold calls in Hc |- *.
    cbn in Hs, Hk, Hf, Ho |- *. rewrite <- !app_assoc. cbn.
    repeat split; try lia; assumption. }
  destruct rc as [raw|err]; [|apply Hrec].
  destruct (json_Unmarshal_AnalysisResult (llm.CleanJSON raw) zero) as [res [e1|]];
    [|apply Hstop].
  destruct (json_Unmarshal_AnalysisResult raw res) as [res2 [e2|]];
    [apply Hrec|apply Hstop].
Qed.

(** An attempt that fails: [Chat] returns an error, or a reply that parses
    neither cleaned nor raw. [e] is what [lastErr] becomes. *)
Definition attempt_fails (p : P) (ctx : Context) (sys prompt : string)
    (e : error) (p' : P) : Prop :=
  Chat p ctx sys prompt = (Err e, p')
  \/ exists raw part c q r,
       Chat p ctx sys prompt = (Ok raw, p')
       /\ json_Unmarshal_AnalysisResult (llm.CleanJSON raw) zero = (part, Some c)
       /\ json_Unmarshal_AnalysisResult raw part = (q, Some r)
       /\ e = "invalid json from provider: " +:+ r.

Lemma loop_attempt_fails fuel backoff lastErr ctx sys prompt (w : World P) e p' :
  attempt_fails (provider w) ctx sys prompt e p' ->
  llm.AnalyzeDrift_loop (S fuel) 0 backoff lastErr ctx sys prompt w
  = llm.AnalyzeDrift_loop fuel 1 backoff (Some e) ctx sys prompt
      (after_chat sys prompt p' w).
Proof.
  intros [Hc|(raw & part & c & q & r & Hc & H1 & H2 & ->)];
    rewrite loop_first_attempt, Hc; [reflexivity|].
  now rewrite H1, H2.
Qed.

Lemma loop_later_attempt_fails fuel i backoff lastErr ctx sys prompt (w : World P) e p' :
  0 < i -> done_at ctx = None ->
  attempt_fails (provider w) ctx sys prompt e p' ->
  llm.AnalyzeDrift_loop (S fuel) i backoff lastErr ctx sys prompt w
  = llm.AnalyzeDrift_loop fuel (i + 1) (int_mul backoff 2) (Some e) ctx sys prompt
      (after_chat sys prompt p' (after_sleep backoff w)).
Proof.
  intros Hi Hd Hf. cbn [llm.AnalyzeDrift_loop].
  assert ((i >? 0) = true) as -> by lia.
  unfold llm.select_backoff. rewrite Hd. cbn.
  destruct Hf as [Hc|(raw & part & c & q & r & Hc & H1 & H2 & ->)]; rewrite Hc;
    [reflexivity|].
  now rewrite H1, H2.
Qed.

(** X10. A reply that parses neither after [CleanJSON] nor as it came
    counts as a failed attempt, like an error of the provider: with a
    context that is never done, four failed attempts of either kind end in
    the terminal error that carries the last failure, after waits of 2, 4
    and 8 seconds; one failed attempt followed by a verdict costs two calls
    and one wait of 2 seconds. *)
Theorem AnalyzeDrift_failed_attempts (ctx : Context)
    (adrContent codeContext filename systemPrompt : string) (w : World P) :
  let prompt := llm.GetAnalyzeDriftPrompt adrContent codeContext filename in
  let started := [EvAnalyzeDrift adrContent filename] in
  let chat := EvChat systemPrompt prompt in
  (forall e1 e2 e3 e4 p1 p2 p3 p4,
      done_at ctx = None ->
      attempt_fails (provider w) ctx systemPrompt prompt e1 p1 ->
      attempt_fails p1 ctx systemPrompt prompt e2 p2 ->
      attempt_fails p2 ctx systemPrompt prompt e3 p3 ->
      attempt_fails p3 ctx systemPrompt prompt e4 p4 ->
      exists w',
        llm.AnalyzeDrift ctx adrContent codeContext filename systemPrompt w
        = (Err ("analysis failed after 3 retries: " +:+ e4), w')
        /\ provider w' = p4
        /\ clock w' = clock w + 14 * llm.Second
        /\ trace w' = trace w ++ started
             ++ [chat; EvSleep (2 * llm.Second); chat; EvSleep (4 * llm.Second);
                 chat; EvSleep (8 * llm.Second); chat])
  /\ (forall e1 p1 p2 raw res,
      done_at ctx = None ->
      attempt_fails (provider w) ctx systemPrompt prompt e1 p1 ->
      Chat p1 ctx systemPrompt prompt = (Ok raw, p2) ->
      json_Unmarshal_AnalysisResult (llm.CleanJSON raw) zero = (res, None) ->
      exists w',
        llm.AnalyzeDrift ctx adrContent codeContext filename systemPrompt w
        = (Ok res, w')
        /\ provider w' = p2
        /\ clock w' = clock w + 2 * llm.Second
        /\ trace w' = trace w ++ started ++ [chat; EvSleep (2 * llm.Second); chat]).
Proof.
  intros prompt started chat.
  unfold llm.AnalyzeDrift. fold prompt.
  change (Z.to_nat (llm.maxRetries + 1)) with 4%nat.
  split.
  - intros e1 e2 e3 e4 p1 p2 p3 p4 Hd H1 H2 H3 H4.
    erewrite loop_attempt_fails by exact H1.
    erewrite loop_later_attempt_fails by (try exact H2; try exact Hd; lia).
    erewrite loop_later_attempt_fails by (try exact H3; try exact Hd; lia).
    erewrite loop_later_attempt_fails by (try exact H4; try exact Hd; lia).
    destruct backoff_doubles as (-> & -> & ->).
    eexists. split; [reflexivity|].
    cbn [provider clock trace after_chat after_sleep set_provider set_clock emit].
    split; [reflexivity|]. split; [unfold llm.Second; lia|].
    rewrite <- !app_assoc. reflexivity.
  - intros e1 p1 p2 raw res Hd H1 H2 Hu.
    erewrite loop_attempt_fails by exact H1.
    erewrite loop_retry_succeeds by (try exact H2; try exact Hd; try exact Hu; lia).
    eexists. split; [reflexivity|].
    cbn [provider clock trace after_chat after_sleep set_provider set_clock emit].
    split; [reflexivity|]. split; [unfold llm.Second; lia|].
    rewrite <- !app_assoc. reflexivity.
Qed.

(** X11. The context is looked at between attempts only. A judgment whose
    first call to [Chat] returns a verdict makes that one call, does not
    wait, and returns the verdict, even when the context was done before
    the judgment started. *)
Theorem AnalyzeDrift_first_attempt (ctx : Context)
    (adrContent codeContext filename systemPrompt : string) (w : World P)
    (raw : string) (res : AnalysisResult) (p1 : P) :
  let prompt := llm.GetAnalyzeDriftPrompt adrContent codeContext filename in
  Chat (provider w) ctx systemPrompt prompt = (Ok raw, p1) ->
  json_Unmarshal_AnalysisResult (llm.CleanJSON raw) zero = (res, None) ->
  exists w',
    llm.AnalyzeDrift ctx adrContent codeContext filename systemPrompt w = (Ok res, w')
    /\ provider w' = p1 /\ clock w' = clock w
    /\ trace w' = trace w ++ [EvAnalyzeDrift adrContent filename;
                               EvChat systemPrompt prompt].
Proof.
  intros prompt Hc Hu. unfold llm.AnalyzeDrift. fold prompt.
  change (Z.to_nat (llm.maxRetries + 1)) with (S 3). rewrite loop_first_attempt.
  cbn [provider emit]. rewrite Hc, Hu. eexists. split; [reflexivity|].
  cbn. rewrite <- app_assoc. repeat split.
Qed.
End JudgeCost.

Section JudgeCost_instance.
Import llm_types.
#[local] Existing Instance doubles.json.
#[local] Existing Instance llm_mock.MockProvider_Provider.

(** A provider that keeps answering with prose. *)
Definition chatty : llm_mock.MockProvider :=
  fixtures.mock_with (fun _ _ _ => Ok "I cannot answer that.").

(** A context that was cancelled before the clock started. *)
Definition cancelled_before : Context :=
  {| done_at := Some (-1); done_err := "context canceled" |}.

Lemma AnalyzeDrift_failed_attempts_witness :
  exists w',
    llm.AnalyzeDrift context_Background "adr" "code" "file.go" "system"
      (fixtures.world_of chatty empty_FS)
    = (Err ("analysis failed after 3 retries: invalid json from provider: "
            +:+ doubles.syntax_error), w')
    /\ provider w' = after_calls chatty 4
    /\ clock w' = 0 + 14 * llm.Second.
Proof.
  pose proof (AnalyzeDrift_failed_attempts context_Background "adr" "code" "file.go"
                "system" (fixtures.world_of chatty empty_FS)) as T.
  assert (Hfail : forall n,
    attempt_fails (after_calls chatty n) context_Background "system"
      (llm.GetAnalyzeDriftPrompt "adr" "code" "file.go")
      ("invalid json from provider: " +:+ doubles.syntax_error)
      (after_calls chatty (S n))).
  { intros n. right.
    exists "I cannot answer that.", zero, doubles.syntax_error, zero, doubles.syntax_error.
    repeat split. }
  destruct (proj1 T _ _ _ _ _ _ _ _ eq_refl (Hfail 0%nat) (Hfail 1%nat) (Hfail 2%nat)
              (Hfail 3%nat)) as (w' & Hr & Hp & Hc & _).
  exists w'. exact (conj Hr (conj Hp Hc)).
Defined.

Lemma AnalyzeDrift_first_attempt_witness :
  exists w',
    llm.AnalyzeDrift cancelled_before "adr" "code" "file.go" "system"
      (fixtures.world_of fixtures.python_violation empty_FS)
    = (Ok go_verdict, w')
    /\ clock w' = 0.
Proof.
  destruct (AnalyzeDrift_first_attempt cancelled_before "adr" "code" "file.go" "system"
              (fixtures.world_of fixtures.python_violation empty_FS)
              (fixtures.verdict_json "true" "Python is not allowed."
                 "import python_library")
              go_verdict (after_calls fixtures.python_violation 1))
    as (w' & Hr & _ & Hc & _).
  - reflexivity.
  - vm_compute. reflexivity.
  - exists w'. exact (conj Hr Hc).
Defined.
End JudgeCost_instance.

(* ===================================================================== *)
(** * The orchestrator: what is sent, what is skipped, what is reused     *)
(* ===================================================================== *)

Lemma substring_length_le (n : nat) (s : string) :
  (String.length (substring 0 n s) <= n)%nat.
Proof.
  revert s. induction n as [|n IH]; intros [|c s]; simpl; try lia.
  specialize (IH s). lia.
Qed.

Lemma substring_app_le (n : nat) (a b : string) :
  (String.length a <= n)%nat ->
  substring 0 n (a +:+ b) = a +:+ substring 0 (n - String.length a) b.
Proof.
  revert n. induction a as [|x a IH]; intros n Hn; step_append.
  - simpl. now rewrite Nat.sub_0_r.
  - destruct n as [|n]; simpl in Hn; [lia|]. simpl. f_equal. apply IH. lia.
Qed.

(** The cut [diffForEmbedding[:6000]] of the goroutine. *)
Definition embedding_cap (s : string) : string :=
  if len s >? 6000 then slice_to s 6000 else s.

Lemma embedding_cap_len (s : string) : len (embedding_cap s) <= 6000.
Proof.
  unfold embedding_cap. destruct (len s >? 6000) eqn:E; [|lia].
  unfold slice_to, len. pose proof (substring_length_le (Z.to_nat 6000) s). lia.
Qed.

Section RunMore.
Import llm_types.
Context {P C : Type} `{Provider P} `{ContentProvider C}.
Context `{encoding_json} `{path_lib} `{fmt_lib} `{tiktoken_lib} `{SliceSorter}.

Lemma no_embed_In (evs : list Event) (text : string) :
  calls is_embed evs = 0%nat -> ~ In (EvCreateEmbedding text) evs.
Proof.
  unfold calls. intros Hc Hin.
  assert (Hf : In (EvCreateEmbedding text) (List.filter is_embed evs))
    by (apply List.filter_In; now split).
  destruct (List.filter is_embed evs); [contradiction|discriminate].
Qed.

(** What the goroutine embeds: the diff of the file, or the content that
    [fetchContext] returned when there is no diff. *)
Definition embedding_source (e : analysis.Engine C) (file content : string)
    (fs0 : FS) : string :=
  match GetDiff (analysis.Content e) fs0 file with
  | Err _ => content
  | Ok d => if String.eqb d "" then content else d
  end.

(** X12. A file is embedded at most once, and the text sent to the
    embedding model is never longer than 6000 bytes: it is the diff of the
    file, or else the content under analysis, cut at 6000 bytes. *)
Theorem worker_embedding_capped (e : analysis.Engine C) (ctx : Context)
    (file : string) (w : World P) :
  sane_ceiling e ->
  exists n w' evs,
    analysis.worker e ctx file w = Returns (n, w')
    /\ trace w' = trace w ++ evs
    /\ (calls is_embed evs <= 1)%nat
    /\ forall text, In (EvCreateEmbedding text) evs ->
         len text <= 6000
         /\ exists content mode w1,
              analysis.fetchContext e file w = Returns (content, mode, None, w1)
              /\ text = embedding_cap (embedding_source e file content (fs w1)).
Proof.
  intros Hmax. unfold analysis.worker.
  destruct (fetchContext_returns e file w Hmax) as [[[[content mode] err] w1] Hfc].
  rewrite Hfc. cbn [outcome_bind].
  pose proof (fetchContext_quiet _ _ _ _ _ _ _ Hfc) as (Ht1 & _).
  assert (Hearly : forall s, exists n w' evs,
    Returns (0, print s w1) = Returns (n, w')
    /\ trace w' = trace w ++ evs /\ (calls is_embed evs <= 1)%nat
    /\ forall text, In (EvCreateEmbedding text) evs ->
         len text <= 6000
         /\ exists content0 mode0 w0,
              Returns (content, mode, err, w1) = Returns (content0, mode0, None, w0)
              /\ text = embedding_cap (embedding_source e file content0 (fs w0))).
  { intros s. exists 0, (print s w1), []. split; [reflexivity|].
    split; [now rewrite print_trace, Ht1, app_nil_r|].
    split; [unfold calls; cbn; lia|]. intros text []. }
  destruct err as [err|]; [apply Hearly|].
  destruct (String.eqb mode "truncated" && analysis.CI e); [apply Hearly|].
  clear Hearly.
  change (if len ?s >? 6000 then slice_to ?s 6000 else ?s) with (embedding_cap s).
  fold (embedding_source e file content (fs w1)).
  set (d := embedding_cap (embedding_source e file content (fs w1))).
  assert (Hd : forall text evs,
    calls is_embed evs = 0%nat ->
    In (EvCreateEmbedding text) ([EvCreateEmbedding d] ++ evs) ->
    len text <= 6000
    /\ exists content0 mode0 w0,
         Returns (content, mode, @None error, w1) = Returns (content0, mode0, None, w0)
         /\ text = embedding_cap (embedding_source e file content0 (fs w0))).
  { intros text evs Hno [Hin|Hin].
    - injection Hin as <-. split; [apply embedding_cap_len|].
      now exists content, mode, w1.
    - now apply no_embed_In in Hin. }
  destruct (CreateEmbedding (provider w1) ctx d) as [[embedding|err] p'].
  - destruct (Search_length (analysis.Store e) embedding
                (config.SimilarityThreshold (config.VectorStore_ (analysis.Config e)))
                3 ltac:(lia)) as (hits & -> & Hlen).
    cbn [outcome_bind].
    destruct (length hits =? 0)%nat.
    + eexists 0, _, [EvCreateEmbedding d; EvSearch 3]. split; [reflexivity|].
      split; [rewrite print_trace; cbn; rewrite Ht1, <- app_assoc; reflexivity|].
      split; [unfold calls; cbn; lia|].
      intros text Hin. apply (Hd text [EvSearch 3]); [reflexivity|exact Hin].
    + destruct (analysis.check_hits e ctx file content hits _) as [[sb' lv'] w3] eqn:Hch.
      apply check_hits_steps in Hch as (_ & evs & Hext3 & (_ & He & _)); [|lia|lia].
      eexists lv', _, ([EvCreateEmbedding d; EvSearch 3] ++ evs).
      split; [reflexivity|].
      split; [rewrite print_trace, Hext3; cbn; rewrite Ht1, <- !app_assoc; reflexivity|].
      split; [rewrite calls_app, He; unfold calls; cbn; lia|].
      intros text Hin. apply (Hd text (EvSearch 3 :: evs)); [|exact Hin].
      change (EvSearch 3 :: evs) with ([EvSearch 3] ++ evs).
      rewrite calls_app, He. reflexivity.
  - eexists 0, _, [EvCreateEmbedding d]. split; [reflexivity|].
    split; [rewrite print_trace; cbn; now rewrite Ht1|].
    split; [unfold calls; cbn; lia|].
    intros text Hin. apply (Hd text []); [reflexivity|exact Hin].
Qed.

Lemma report_verdict_shape adr content r sb lv :
  exists sb', analysis.report_verdict adr content r sb lv
              = (sb', if Violation r then int_add lv 1 else lv).
Proof.
  unfold analysis.report_verdict. destruct (Violation r); eauto.
Qed.

(** X13. A verdict is judged once. When a hit is judged and the verdict is
    stored, the entry of its key then holds that verdict, and checking the
    same hit again makes no call at all: the world is left as it is and the
    count moves as the stored verdict says. *)
Theorem check_hit_cached (e : analysis.Engine C) (ctx : Context)
    (file content : string) (hit : index.SearchResult) (c : cache.Cache)
    (sb : string) (lv : Z) (w w1 : World P) (r : AnalysisResult) (data : string) :
  let key := analysis.cache_key e (index.ADRptr hit) content in
  reaches_judge e file content (fs w) hit ->
  analysis.Cache e = Some c ->
  llm.AnalyzeDrift ctx (index.Content (index.ADRptr hit)) content file
    (analysis.effective_system_prompt e) w = (Ok r, w1) ->
  entry_path c key ∉ unwritable (fs w) ->
  entry_path c key ∉ unreadable (fs w) ->
  json_Marshal_AnalysisResult r = Ok data ->
  json_Unmarshal_AnalysisResult data zero = (r, None) ->
  exists sb1 w2,
    analysis.check_hit e ctx file content (sb, lv, w) hit
    = (sb1, (if Violation r then int_add lv 1 else lv), w2)
    /\ trace w2 = trace w1 /\ provider w2 = provider w1
    /\ analysis.cache_lookup e (fs w2) key = Some r
    /\ forall sb' lv', exists sb2,
         analysis.check_hit e ctx file content (sb', lv', w2) hit
         = (sb2, (if Violation r then int_add lv' 1 else lv'), w2).
Proof.
  intros key (Hscope & Hsup & Hmiss) Hc Hj Hw Hr Hm Hu. fold key in Hmiss.
  pose proof (AnalyzeDrift_events _ _ _ _ _ _ _ _ Hj) as (evs & _ & _ & Hfs).
  assert (Hput : cache.Put c (fs w1) key r
                 = (None, {| files := <[entry_path c key := data]> (files (fs w1));
                             unreadable := unreadable (fs w1);
                             unwritable := unwritable (fs w1); torn := torn (fs w1) |})).
  { unfold cache.Put, os_WriteFile. fold (entry_path c key). rewrite Hm, Hfs.
    destruct (decide (entry_path c key ∈ unwritable (fs w))); [contradiction|].
    reflexivity. }
  set (fs2 := {| files := <[entry_path c key := data]> (files (fs w1));
                 unreadable := unreadable (fs w1);
                 unwritable := unwritable (fs w1); torn := torn (fs w1) |}) in *.
  assert (Hhit : analysis.cache_lookup e fs2 key = Some r).
  { unfold analysis.cache_lookup. rewrite Hc.
    rewrite (Get_stored c fs2 key data).
    - now rewrite Hu.
    - apply lookup_insert_eq.
    - cbn. now rewrite Hfs. }
  assert (Hagain : forall sb' lv' (w' : World P), fs w' = fs2 -> exists sb2,
    analysis.check_hit e ctx file content (sb', lv', w') hit
    = (sb2, (if Violation r then int_add lv' 1 else lv'), w')).
  { intros sb' lv' w' Hw'. unfold analysis.check_hit. rewrite Hscope, Hsup.
    fold key. rewrite Hw', Hhit.
    match goal with |- context [analysis.report_verdict ?a ?b ?c0 ?d ?l] =>
      destruct (report_verdict_shape a b c0 d l) as [sb2 ->] end.
    now exists sb2. }
  assert (Hfirst : exists sb1,
    analysis.check_hit e ctx file content (sb, lv, w) hit
    = (sb1, (if Violation r then int_add lv 1 else lv), set_fs fs2 w1)).
  { unfold analysis.check_hit. rewrite Hscope, Hsup. fold key.
    rewrite Hmiss, Hj, Hc, Hput.
    match goal with |- context [analysis.report_verdict ?a ?b ?c0 ?d ?l] =>
      destruct (report_verdict_shape a b c0 d l) as [sb1 ->] end.
    now exists sb1. }
  destruct Hfirst as [sb1 Hfirst].
  exists sb1, (set_fs fs2 w1). split; [exact Hfirst|].
  split; [reflexivity|]. split; [reflexivity|]. split; [exact Hhit|].
  intros sb' lv'. now apply Hagain.
Qed.

(** X14. The ignore directive. When the text [archguard-ignore: ] followed
    by the ID of an ADR stands within the first 2000 bytes of the content,
    a hit for that ADR is skipped: no lookup, no judgment, the count and the
    world as they were. What follows the ID does not matter, so the
    directive for an ID also covers every ADR whose ID is a prefix of it. *)
Theorem check_hit_suppressed (e : analysis.Engine C) (ctx : Context)
    (file content pre post : string) (hit : index.SearchResult)
    (sb : string) (lv : Z) (w : World P) :
  let directive := "archguard-ignore: " +:+ index.ID (index.ADRptr hit) in
  content = pre +:+ directive +:+ post ->
  len pre + len directive <= 2000 ->
  analysis.suppressed content (index.ADRptr hit) = true
  /\ exists sb', analysis.check_hit e ctx file content (sb, lv, w) hit = (sb', lv, w).
Proof.
  intros directive Hc Hlen.
  assert (Hsup : analysis.suppressed content (index.ADRptr hit) = true).
  { unfold analysis.suppressed. fold directive. apply Contains_iff.
    destruct (len content >? 2000).
    - unfold slice_to. rewrite Hc, <- append_assoc.
      rewrite substring_app_le
        by (rewrite append_length; unfold len in Hlen; lia).
      exists pre, (substring 0 (Z.to_nat 2000 - String.length (pre +:+ directive)) post).
      now rewrite append_assoc.
    - now exists pre, post. }
  split; [exact Hsup|]. unfold analysis.check_hit.
  destruct (analysis.out_of_scope file (index.ADRptr hit)); [now exists sb|].
  rewrite Hsup. eauto.
Qed.

Lemma run_files_filter (e : analysis.Engine C) (ctx : Context) (files : list string)
    (v : Z) (w : World P) :
  analysis.run_files e ctx files v w
  = analysis.run_files e ctx
      (List.filter (fun f => negb (analysis.shouldExclude e f)) files) v w.
Proof.
  revert v w. induction files as [|f files IH]; intros v w; [reflexivity|].
  cbn [analysis.run_files List.filter].
  destruct (analysis.shouldExclude e f) eqn:Hex; cbn [negb].
  - apply IH.
  - cbn [analysis.run_files]. rewrite Hex.
    destruct (analysis.worker e ctx f w) as [[n w1]|m]; cbn [outcome_bind];
      [apply IH|reflexivity].
Qed.

(** X15. Excluded files are not analysed: a run over a list of files is the
    run over those that are not excluded, and when every file is excluded
    the run returns nil without reading, embedding or judging anything. *)
Theorem Run_excluded (e : analysis.Engine C) (ctx : Context) (w : World P)
    (files : list string) :
  GetFiles (analysis.Content e) (fs w) = Ok files ->
  analysis.run_files e ctx files 0 w
  = analysis.run_files e ctx
      (List.filter (fun f => negb (analysis.shouldExclude e f)) files) 0 w
  /\ (Forall (fun f => analysis.shouldExclude e f = true) files ->
      analysis.Run e ctx w = Returns (None, w)).
Proof.
  intros Hfiles. split; [apply run_files_filter|].
  intros Hall. unfold analysis.Run. rewrite Hfiles, run_files_filter.
  assert (List.filter (fun f => negb (analysis.shouldExclude e f)) files = []) as ->.
  { clear Hfiles. induction Hall as [|f files Hf _ IH]; [reflexivity|].
    cbn [List.filter]. rewrite Hf. exact IH. }
  reflexivity.
Qed.

(** The head of the report of a file in debug mode: the line that names the
    file, then (once the context is known) the line that names its mode. *)
Definition analyzing (e : analysis.Engine C) (file : string) : string :=
  if analysis.Debug e then "Analyzing " +:+ file +:+ "..." +:+ nl else "".

Definition context_mode (e : analysis.Engine C) (mode : string) : string :=
  if analysis.Debug e then "  Context mode: " +:+ mode +:+ nl else "".

(** X16. Failing open. A file whose content cannot be read, or whose
    embedding fails, is reported on standard output ([Error reading file]
    or [Error generating embedding], with the error) and adds no
    violation: in the first case nothing is called, in the second the
    embedding call is the only one. A run over that file alone returns
    nil. *)
Theorem worker_fails_open (e : analysis.Engine C) (ctx : Context)
    (file : string) (w : World P) :
  (forall err,
      GetContent (analysis.Content e) (fs w) file = Err err ->
      analysis.worker e ctx file w
      = Returns (0, print (analyzing e file +:+ "Error reading file " +:+ file
                             +:+ ": " +:+ err +:+ nl) w))
  /\ (forall content mode w1 err p',
        analysis.fetchContext e file w = Returns (content, mode, None, w1) ->
        String.eqb mode "truncated" && analysis.CI e = false ->
        CreateEmbedding (provider w1) ctx
          (embedding_cap (embedding_source e file content (fs w1))) = (Err err, p') ->
        exists w2,
          analysis.worker e ctx file w = Returns (0, w2)
          /\ trace w2 = trace w
               ++ [EvCreateEmbedding
                     (embedding_cap (embedding_source e file content (fs w1)))]
          /\ provider w2 = p' /\ fs w2 = fs w
          /\ stdout w2
             = stdout w1 +:+ (analyzing e file +:+ context_mode e mode)
                 +:+ "Error generating embedding for " +:+ file +:+ ": " +:+ err
                 +:+ nl)
  /\ (forall w2,
        analysis.worker e ctx file w = Returns (0, w2) ->
        analysis.shouldExclude e file = false ->
        GetFiles (analysis.Content e) (fs w) = Ok [file] ->
        analysis.Run e ctx w = Returns (None, w2)).
Proof.
  split; [|split].
  - intros err Hg. unfold analysis.worker, analysis.fetchContext. rewrite Hg.
    cbn [outcome_bind]. reflexivity.
  - intros content mode w1 err p' Hfc Hm He.
    pose proof (fetchContext_quiet _ _ _ _ _ _ _ Hfc) as (Ht1 & _ & Hf1 & _).
    unfold analysis.worker. rewrite Hfc. cbn [outcome_bind]. rewrite Hm.
    change (if len ?s >? 6000 then slice_to ?s 6000 else ?s) with (embedding_cap s).
    fold (embedding_source e file content (fs w1)). rewrite He.
    eexists. split; [reflexivity|]. rewrite print_trace. cbn [trace provider fs
      stdout print set_provider emit]. rewrite Ht1.
    repeat split; try assumption.
    unfold analyzing, context_mode. destruct (analysis.Debug e);
      now rewrite ?append_assoc, ?append_nil_l.
  - intros w2 Hw Hex Hfiles. unfold analysis.Run. rewrite Hfiles.
    cbn [analysis.run_files]. rewrite Hex, Hw. reflexivity.
Qed.

(** X17. Without a tokenizer the budget is counted in bytes, four to a
    token: content of at most four times the ceiling is returned whole,
    mode "full"; longer content is cut at exactly that many bytes, mode
    "truncated". The diff is not consulted. *)
Theorem fetchContext_without_tokenizer (e : analysis.Engine C) (path : string)
    (w : World P) (fullContent : string) (terr : error) :
  sane_ceiling e ->
  GetContent (analysis.Content e) (fs w) path = Ok fullContent ->
  analysis.getTokenizer e = Err terr ->
  let budget := 4 * token_ceiling e in
  exists w1,
    trace w1 = trace w /\ fs w1 = fs w /\ provider w1 = provider w
    /\ if len fullContent >? budget
       then analysis.fetchContext e path w
            = Returns (slice_to fullContent budget, "truncated", None, w1)
            /\ len (slice_to fullContent budget) = budget
       else analysis.fetchContext e path w = Returns (fullContent, "full", None, w1).
Proof.
  intros Hmax Hg Ht budget. unfold analysis.fetchContext. rewrite Hg, Ht.
  fold (token_ceiling e).
  assert (Hc : 0 < token_ceiling e < 2 ^ 61).
  { unfold token_ceiling, sane_ceiling in *.
    destruct (Z.eqb_spec (config.MaxTokens (config.LLM (analysis.Config e))) 0); lia. }
  assert (Hmul : int_mul (token_ceiling e) 4 = budget).
  { unfold int_mul, budget. rewrite wrap_int_small; lia. }
  rewrite Hmul.
  set (w1 := analysis.Log e _ w).
  exists w1. pose proof (Log_quiet e ("Tokenizer initialization failed: " +:+ terr) w)
    as (Hl1 & Hl2 & Hl3 & _).
  split; [exact Hl1|]. split; [exact Hl3|]. split; [exact Hl2|].
  destruct (len fullContent >? budget) eqn:Hgt; [|reflexivity].
  unfold slice_to_checked.
  assert ((budget <? 0) = false) as -> by (subst budget; lia).
  assert ((len fullContent <? budget) = false) as -> by lia.
  cbn. split; [reflexivity|].
  unfold slice_to, len.
  assert (Hsub : forall n s, (n <= String.length s)%nat ->
            String.length (substring 0 n s) = n).
  { induction n as [|n IH]; intros [|c s] Hn; simpl in *; try lia.
    rewrite IH; lia. }
  rewrite Hsub; unfold len in Hgt; lia.
Qed.
End RunMore.

(* ===================================================================== *)
(** * Search: thresholds and embeddings that do not compare               *)
(* ===================================================================== *)

Section SearchEdges.
Context `{SliceSorter}.

Lemma Search_hits (s : index.Store) (q : list float32) (th : float64) (topK : Z)
    (hits : list index.SearchResult) (h : index.SearchResult) :
  index.Search s q th topK = Returns hits -> In h hits ->
  In h (candidates s q th).
Proof.
  unfold index.Search. rewrite collect_candidates. fold (candidates s q th).
  intros Hs Hin.
  assert (Hsorted : In h (sort_Slice index.by_score_desc (candidates s q th))).
  { destruct (_ >? topK); [destruct (topK <? 0); [discriminate|]|];
      injection Hs as <-; [now apply In_firstn in Hin|assumption]. }
  apply (Permutation_in h (Permutation_sym (sort_Slice_Permutation _ _ _)) Hsorted).
Qed.

(** X18. Every hit is an ADR of the store with its cosine score, which is
    not NaN and not below the threshold. So a threshold that is NaN turns
    the search off: no ADR is ever a hit. And an ADR whose embedding has
    another length than the query scores exactly 0: it is a hit only when
    the threshold is at most 0. *)
Theorem Search_thresholds (s : index.Store) (queryEmbedding : list float32)
    (threshold : float64) (topK : Z) (hits : list index.SearchResult) :
  index.Search s queryEmbedding threshold topK = Returns hits ->
  (forall h, In h hits ->
     In (index.ADRptr h) (index.ADRs s)
     /\ index.Score h
        = index.cosineSimilarity queryEmbedding (index.Embedding (index.ADRptr h))
     /\ F64.leb threshold (index.Score h) = true
     /\ F64.is_nan (index.Score h) = false
     /\ (length (index.Embedding (index.ADRptr h)) <> length queryEmbedding ->
         index.Score h = F64.zero /\ F64.leb threshold F64.zero = true))
  /\ (F64.is_nan threshold = true -> hits = []).
Proof.
  intros Hs.
  assert (Hcand : forall h, In h hits ->
    In (index.ADRptr h) (index.ADRs s)
    /\ index.Score h
       = index.cosineSimilarity queryEmbedding (index.Embedding (index.ADRptr h))
    /\ F64.leb threshold (index.Score h) = true).
  { intros h Hin. apply (Search_hits _ _ _ _ _ _ Hs) in Hin.
    unfold candidates in Hin. apply List.filter_In in Hin as [Hin Hle].
    apply List.in_map_iff in Hin as (adr & <- & Hadr). now repeat split. }
  split.
  - intros h Hin. destruct (Hcand h Hin) as (Hadr & Hscore & Hle).
    split; [assumption|]. split; [assumption|]. split; [assumption|]. split.
    + destruct (index.Score h); try reflexivity.
      unfold F64.leb, SFleb in Hle. destruct threshold; discriminate Hle.
    + intros Hlen. assert (Hz : index.Score h = F64.zero).
      { rewrite Hscore. apply cosineSimilarity_mismatch. congruence. }
      split; [assumption|]. now rewrite <- Hz.
  - intros Hnan. destruct hits as [|h hits']; [reflexivity|]. exfalso.
    destruct (Hcand h (or_introl eq_refl)) as (_ & _ & Hle).
    destruct threshold; try discriminate Hnan.
    unfold F64.leb, SFleb in Hle. cbn in Hle. discriminate Hle.
Qed.
End SearchEdges.

(* ===================================================================== *)
(** * strings.Split at a one-byte separator                               *)
(* ===================================================================== *)

Fixpoint split_byte (c : ascii) (s cur : string) : list string :=
  match s with
  | EmptyString => [cur]
  | String x s' =>
      if Ascii.eqb c x then cur :: split_byte c s' ""
      else split_byte c s' (cur +:+ String x "")
  end.

Lemma Split_fuel_byte (c : ascii) (fuel : nat) (s cur : string) :
  (String.length s <= fuel)%nat ->
  Split_fuel fuel s (String c "") cur = split_byte c s cur.
Proof.
  revert s cur. induction fuel as [|fuel IH]; intros [|x s] cur Hf; simpl in Hf;
    try lia; cbn [Split_fuel split_byte]; try reflexivity.
  - now rewrite append_nil_r.
  - rewrite prefix_String, prefix_empty, andb_true_r.
    destruct (Ascii.eqb c x); cbn [String.length drop_str]; rewrite IH by lia;
      reflexivity.
Qed.

Lemma Split_byte (c : ascii) (s : string) :
  strings_Split s (String c "") = split_byte c s "".
Proof. unfold strings_Split. now apply Split_fuel_byte. Qed.

Lemma split_byte_app (c : ascii) (a b cur : string) :
  split_byte c (a +:+ String c b) cur = split_byte c a cur ++ split_byte c b "".
Proof.
  revert cur. induction a as [|x a IH]; intros cur; step_append; cbn [split_byte].
  - now rewrite Ascii.eqb_refl.
  - destruct (Ascii.eqb c x); rewrite IH; reflexivity.
Qed.

Lemma split_byte_whole (c : ascii) (a cur : string) :
  has_char c a = false -> split_byte c a cur = [cur +:+ a].
Proof.
  revert cur. induction a as [|x a IH]; intros cur Hc; cbn [split_byte].
  - now rewrite append_nil_r.
  - cbn [has_char] in Hc. apply orb_false_iff in Hc as [Hx Hc]. rewrite Hx.
    rewrite IH by assumption. now rewrite append_assoc.
Qed.

Lemma split_byte_pieces (c : ascii) (s cur : string) :
  has_char c cur = false ->
  Forall (fun l => has_char c l = false) (split_byte c s cur).
Proof.
  revert cur. induction s as [|x s IH]; intros cur Hc; cbn [split_byte].
  - now constructor.
  - destruct (Ascii.eqb c x) eqn:Hx.
    + constructor; [assumption|]. now apply IH.
    + apply IH. rewrite has_char_app, Hc. cbn [has_char]. now rewrite Hx.
Qed.

Lemma split_byte_length (c : ascii) (s cur : string) :
  Z.of_nat (length (split_byte c s cur)) = 1 + count_byte c s.
Proof.
  revert cur. induction s as [|x s IH]; intros cur; cbn [split_byte count_byte];
    [reflexivity|].
  destruct (Ascii.eqb c x); cbn [length]; rewrite ?Nat2Z.inj_succ, IH; lia.
Qed.

(** The elements of [strings.Split] are as many as [len(strings.Split)]
    says. *)
Lemma Split_length_nl (s : string) :
  Z.of_nat (length (strings_Split s nl)) = len_strings_Split s nl.
Proof.
  unfold nl. rewrite Split_byte, split_byte_length.
  unfold len_strings_Split. now rewrite count_sep_byte.
Qed.

(* ===================================================================== *)
(** * Store.Save: the index file is replaced in one step                  *)
(* ===================================================================== *)

Lemma tmp_path_differs (path : string) : path +:+ ".tmp" <> path.
Proof.
  intros E. apply (f_equal String.length) in E.
  rewrite append_length in E. cbn in E. lia.
Qed.

Section SaveFacts.
Context {P : Type} `{Provider P}.
Context `{adr.yaml_lib} `{filepath_lib} `{strings_lib} `{store.json_Store_writer}.
Context `{index.json_Store} `{path_lib} `{fmt_lib}.

Lemma Save_fails (s : index.Store) (fs0 : FS) (path : string) (err : error) (fs1 : FS) :
  store.Save s fs0 path = (Some err, fs1) ->
  files fs1 !! path = files fs0 !! path
  /\ forall other, other <> path +:+ ".tmp" -> files fs1 !! other = files fs0 !! other.
Proof.
  unfold store.Save. intros E.
  destruct (os_MkdirAll fs0 (filepath_Dir path)); [now inversion E|].
  destruct (store.json_MarshalIndent_Store s) as [data|e]; [|now inversion E].
  unfold os_WriteFile in E.
  destruct (decide (path +:+ ".tmp" ∈ unwritable fs0)).
  { destruct (torn fs0 !! (path +:+ ".tmp")); inversion E; subst;
      [|now split]. cbn [files]. split.
    - apply lookup_insert_ne, tmp_path_differs.
    - intros other Ho. now apply lookup_insert_ne. }
  unfold os_Rename in E. cbn [files unwritable] in E.
  rewrite lookup_insert_eq in E.
  destruct (decide (path ∈ unwritable fs0)); [|discriminate].
  inversion E; subst; cbn [files]. split.
  - apply lookup_insert_ne, tmp_path_differs.
  - intros other Ho. now apply lookup_insert_ne.
Qed.

Lemma Save_succeeds (s : index.Store) (fs0 : FS) (path : string) (fs1 : FS) :
  store.Save s fs0 path = (None, fs1) ->
  exists data,
    store.json_MarshalIndent_Store s = Ok data
    /\ files fs1 !! path = Some data
    /\ files fs1 !! (path +:+ ".tmp") = None
    /\ (forall other, other <> path -> other <> path +:+ ".tmp" ->
        files fs1 !! other = files fs0 !! other)
    /\ unreadable fs1 = unreadable fs0 /\ unwritable fs1 = unwritable fs0.
Proof.
  unfold store.Save. intros E.
  destruct (os_MkdirAll fs0 (filepath_Dir path)); [discriminate|].
  destruct (store.json_MarshalIndent_Store s) as [data|e]; [|discriminate].
  unfold os_WriteFile in E.
  destruct (decide (path +:+ ".tmp" ∈ unwritable fs0));
    [destruct (torn fs0 !! (path +:+ ".tmp")); discriminate|].
  unfold os_Rename in E. cbn [files unwritable] in E.
  rewrite lookup_insert_eq in E.
  destruct (decide (path ∈ unwritable fs0)); [discriminate|].
  inversion E; subst; cbn [files unreadable unwritable]. exists data.
  repeat split.
  - apply lookup_insert_eq.
  - rewrite lookup_insert_ne by (intros E'; symmetry in E'; now apply tmp_path_differs in E').
    apply lookup_delete_eq.
  - intros other Hne1 Hne2. rewrite lookup_insert_ne by congruence.
    rewrite lookup_delete_ne by congruence. now apply lookup_insert_ne.
Qed.

(** X19. [Save] never leaves a half-written index: when it fails, the
    index file is as it was (only the [.tmp] file beside it may have been
    written); when it succeeds, the index file holds exactly the encoded
    store, the [.tmp] file is gone and no other file has changed; and a
    store that the JSON decoder reads back from its encoding is what [Load]
    returns for the saved model, dimension and hash. *)
Theorem Save_atomic (s : index.Store) (fs0 : FS) (path : string) :
  (forall err fs1, store.Save s fs0 path = (Some err, fs1) ->
     files fs1 !! path = files fs0 !! path
     /\ forall other, other <> path +:+ ".tmp" ->
          files fs1 !! other = files fs0 !! other)
  /\ (forall fs1, store.Save s fs0 path = (None, fs1) ->
        exists data,
          store.json_MarshalIndent_Store s = Ok data
          /\ files fs1 !! path = Some data
          /\ files fs1 !! (path +:+ ".tmp") = None
          /\ (forall other, other <> path -> other <> path +:+ ".tmp" ->
                files fs1 !! other = files fs0 !! other)
          /\ (forall s0, path ∉ unreadable fs0 ->
                index.json_Unmarshal_Store data s0 = (s, None) ->
                index.Load s0 fs1 path (index.ModelName s) (index.Dim s)
                  (index.Hash s) = (None, s))).
Proof.
  split.
  - intros err fs1. apply Save_fails.
  - intros fs1 E. apply Save_succeeds in E as (data & Hm & Hp & Ht & Ho & Hr & _).
    exists data. repeat split; try assumption.
    intros s0 Hread Hjson. unfold index.Load, os_ReadFile.
    rewrite Hp, Hr. destruct (decide (path ∈ unreadable fs0)); [contradiction|].
    rewrite Hjson, !String.eqb_refl, Z.eqb_refl. reflexivity.
Qed.
End SaveFacts.

(* ===================================================================== *)
(** * ParseADR: the front matter and the body                             *)
(* ===================================================================== *)

Lemma Index_at_prefix (s p : string) :
  String.prefix p s = true -> strings_Index s p = 0.
Proof.
  unfold strings_Index. destruct s as [|c s]; cbn [Index_from]; intros ->; reflexivity.
Qed.

Lemma Index_missing (s p : string) :
  strings_Contains s p = false -> (strings_Index s p <? 0) = true.
Proof.
  unfold strings_Contains. intros Hc. apply Z.leb_gt in Hc. now apply Z.ltb_lt.
Qed.

Lemma SplitN3_two (rest : string) :
  strings_Contains rest "---" = false ->
  bytes_SplitN3 ("---" +:+ rest) "---" = [""; rest].
Proof.
  intros Hc. unfold bytes_SplitN3.
  rewrite (Index_at_prefix ("---" +:+ rest) "---") by (apply prefix_iff; now exists rest).
  change (0 <? 0) with false. cbv iota.
  change (slice_from ("---" +:+ rest) (0 + len "---")) with rest.
  rewrite (Index_missing rest "---" Hc). reflexivity.
Qed.

Lemma SplitN3_three (fm body : string) :
  strings_Index (fm +:+ "---" +:+ body) "---" = len fm ->
  bytes_SplitN3 ("---" +:+ fm +:+ "---" +:+ body) "---" = [""; fm; body].
Proof.
  intros Hi. unfold bytes_SplitN3.
  rewrite (Index_at_prefix ("---" +:+ fm +:+ "---" +:+ body) "---")
    by (apply prefix_iff; now eexists).
  change (0 <? 0) with false. cbv iota.
  change (slice_from ("---" +:+ fm +:+ "---" +:+ body) (0 + len "---"))
    with (fm +:+ "---" +:+ body).
  rewrite Hi.
  assert (Hlt : (len fm <? 0) = false) by (apply Z.ltb_ge; unfold len; lia).
  rewrite Hlt. f_equal. f_equal; [|f_equal].
  - unfold slice_to, len. rewrite Nat2Z.id. apply substring_append.
  - unfold slice_from, len.
    replace (Z.to_nat (Z.of_nat (String.length fm) + Z.of_nat (String.length "---")))
      with (String.length (fm +:+ "---")) by (rewrite append_length; lia).
    rewrite <- append_assoc. apply drop_str_append.
Qed.

Lemma Split_hd_first (c : ascii) (id rest : string) :
  has_char c id = false ->
  hd "" (strings_Split (id +:+ String c rest) (String c "")) = id.
Proof.
  intros Hc. rewrite Split_byte, split_byte_app, split_byte_whole by assumption.
  reflexivity.
Qed.

Lemma Split_hd_whole (c : ascii) (name : string) :
  has_char c name = false -> hd "" (strings_Split name (String c "")) = name.
Proof.
  intros Hc. rewrite Split_byte, split_byte_whole by assumption. reflexivity.
Qed.

Lemma prefix_append (p s : string) : String.prefix p (p +:+ s) = true.
Proof. apply prefix_iff. now exists s. Qed.

Section ParseFacts.
Context `{adr.yaml_lib} `{filepath_lib}.

(** X20. What [ParseADR] makes of a file it can read. Without the leading
    [---] it reports that there is no front matter; with the leading [---]
    and no second one it reports an invalid format; otherwise the YAML
    decoder is given exactly the text between the first two [---] and the
    record's content is everything after the second one, further [---]
    included. The ID is the file name up to its first hyphen, or the whole
    file name when it has none. *)
Theorem ParseADR_frontmatter (fs0 : FS) (path rootDir data : string) :
  os_ReadFile fs0 path = OsOk data ->
  (strings_HasPrefix data "---" = false ->
   adr.ParseADR fs0 path rootDir = Err ("no frontmatter found in " +:+ path))
  /\ (forall rest, data = "---" +:+ rest -> strings_Contains rest "---" = false ->
      adr.ParseADR fs0 path rootDir = Err ("invalid frontmatter format in " +:+ path))
  /\ (forall fm body,
        data = "---" +:+ fm +:+ "---" +:+ body ->
        strings_Index (fm +:+ "---" +:+ body) "---" = len fm ->
        (forall m err,
           adr.yaml_Unmarshal_FrontMatter fm adr.FrontMatter_zero = (m, Some err) ->
           adr.ParseADR fs0 path rootDir
           = Err ("failed to parse frontmatter in " +:+ path +:+ ": " +:+ err))
        /\ (forall m,
              adr.yaml_Unmarshal_FrontMatter fm adr.FrontMatter_zero = (m, None) ->
              exists a,
                adr.ParseADR fs0 path rootDir = Ok a
                /\ index.Content a = body
                /\ index.Title a = adr.Title m /\ index.Status a = adr.Status m
                /\ index.Scope a = adr.Scope m /\ index.Embedding a = []
                /\ (forall id rest, filepath_Base path = id +:+ "-" +:+ rest ->
                      has_char "-" id = false -> index.ID a = id)
                /\ (has_char "-" (filepath_Base path) = false ->
                      index.ID a = filepath_Base path))).
Proof.
  intros Hread. unfold adr.ParseADR. rewrite Hread. repeat split.
  - unfold strings_HasPrefix. now intros ->.
  - intros rest -> Hc. rewrite prefix_append, SplitN3_two by assumption.
    reflexivity.
  - intros m err Hy. subst data.
    rewrite prefix_append, SplitN3_three by assumption. cbn [negb].
    now rewrite Hy.
  - intros m Hy. subst data.
    rewrite prefix_append, SplitN3_three by assumption. cbn [negb]. rewrite Hy.
    eexists. split; [reflexivity|]. cbn. repeat split; try reflexivity.
    + intros id rest E Hc. rewrite E. now apply (Split_hd_first "-").
    + intros Hc. now apply (Split_hd_whole "-").
Qed.
End ParseFacts.

(* ===================================================================== *)
(** * BuildIndex and runIndex                                             *)
(* ===================================================================== *)

Section BuildFacts.
Context {P : Type} `{Provider P}.
Context `{adr.yaml_lib} `{filepath_lib} `{strings_lib} `{store.json_Store_writer}.
Context `{index.json_Store} `{path_lib} `{fmt_lib}.

(** A visit that [BuildIndex] parses. *)
Definition adr_file (v : WalkVisit) : bool :=
  negb (visit_IsDir v) && strings_HasSuffix (visit_name v) ".md".

(** The records the walk adds are the accepted ADRs of the Markdown files
    it visits, each once per visit and in the order of the visits. *)
Definition indexed (fs0 : FS) (dirPath : string) (acceptedStatuses : list string)
    (v : WalkVisit) : list index.ADR :=
  if adr_file v then
    match adr.ParseADR fs0 (visit_path v) dirPath with
    | Ok a => if store.accepted acceptedStatuses a then [a] else []
    | Err _ => []
    end
  else [].

Lemma BuildIndex_walk_ok (fs0 : FS) (dirPath : string) (statuses : list string)
    (visits : list WalkVisit) (init : list index.ADR) (out : string)
    (valid : list index.ADR) (out' : string) :
  store.BuildIndex_walk fs0 dirPath statuses visits init out = (valid, out', None) ->
  valid = init ++ concat (map (indexed fs0 dirPath statuses) visits)
  /\ Forall (fun v => visit_err v = None) visits.
Proof.
  revert init out. induction visits as [|v rest IH]; intros init out E;
    cbn [store.BuildIndex_walk] in E.
  - inversion E. cbn. now rewrite app_nil_r.
  - destruct (visit_err v) eqn:Hv; [discriminate|].
    unfold indexed at 1. cbn [map concat]. unfold adr_file.
    destruct (negb (visit_IsDir v) && strings_HasSuffix (visit_name v) ".md").
    + destruct (adr.ParseADR fs0 (visit_path v) dirPath) as [a|e].
      * apply IH in E as [-> Hall]. split; [|now constructor].
        destruct (store.accepted statuses a); cbn [app];
          now rewrite <- ?app_assoc.
      * apply IH in E as [-> Hall]. split; [reflexivity|now constructor].
    + apply IH in E as [-> Hall]. split; [reflexivity|now constructor].
Qed.

Lemma CalculateHash_walk_ok (fs0 : FS) (visits : list WalkVisit) (written : string) :
  Forall (fun v => visit_err v = None) visits ->
  snd (index.CalculateHash_walk fs0 visits written) = None.
Proof.
  intros Hall. revert written. induction Hall as [|v rest Hv _ IH]; intros written;
    cbn [index.CalculateHash_walk]; [reflexivity|].
  rewrite Hv.
  destruct (negb (visit_IsDir v) && strings_HasSuffix (visit_name v) ".md");
    apply IH.
Qed.

Lemma CalculateHash_ok (fs0 : FS) (dirPath modelName : string) :
  Forall (fun v => visit_err v = None) (filepath_Walk fs0 dirPath) ->
  snd (index.CalculateHash fs0 dirPath modelName) = None.
Proof.
  intros Hall. unfold index.CalculateHash.
  pose proof (CalculateHash_walk_ok fs0 _ modelName Hall) as Hs.
  destruct (index.CalculateHash_walk fs0 (filepath_Walk fs0 dirPath) modelName).
  exact Hs.
Qed.

(** The embedded records are the records given, in their order, each with
    the embedding of one request for its text. *)
Lemma embed_all_ok (ctx : Context) (todo done : list index.ADR) (w : World P)
    (res : list index.ADR) (w1 : World P) :
  store.embed_all ctx todo done w = (Ok res, w1) ->
  (exists news, res = done ++ news
     /\ Forall2 (fun a r => r = store.with_embedding a (index.Embedding r)) todo news)
  /\ trace w1 = trace w ++ map (fun a => EvCreateEmbedding (store.textToEmbed a)) todo.
Proof.
  revert done w. induction todo as [|a rest IH]; intros done w E;
    cbn [store.embed_all] in E.
  - inversion E; subst. split; [|now rewrite app_nil_r].
    exists []. now rewrite app_nil_r.
  - destruct (CreateEmbedding (provider w) ctx (store.textToEmbed a)) as [[emb|e] p'];
      [|discriminate].
    apply IH in E as [(news & -> & Hall) Ht]. split.
    + exists (store.with_embedding a emb :: news). rewrite <- app_assoc. split;
        [reflexivity|]. now constructor.
    + rewrite Ht. cbn [trace print set_provider emit map].
      now rewrite <- app_assoc.
Qed.

Lemma embed_all_frame (ctx : Context) (todo done : list index.ADR) (w : World P) :
  fs (snd (store.embed_all ctx todo done w)) = fs w
  /\ clock (snd (store.embed_all ctx todo done w)) = clock w.
Proof.
  revert done w. induction todo as [|a rest IH]; intros done w;
    cbn [store.embed_all]; [now split|].
  destruct (CreateEmbedding (provider w) ctx (store.textToEmbed a)) as [[emb|e] p'];
    [|now split].
  destruct (IH (done ++ [store.with_embedding a emb])
              (print "." (set_provider p'
                 (emit (EvCreateEmbedding (store.textToEmbed a)) w)))) as [-> ->].
  now split.
Qed.

Lemma BuildIndex_frame (s : index.Store) (ctx : Context) (dirPath modelName : string)
    (statuses : list string) (w : World P) :
  fs (snd (store.BuildIndex s ctx dirPath modelName statuses w)) = fs w.
Proof.
  unfold store.BuildIndex.
  destruct (store.BuildIndex_walk _ _ _ _ _ _) as [[valid out] [e|]]; [reflexivity|].
  match goal with |- context [store.embed_all ?c ?t ?d ?w0] =>
    pose proof (embed_all_frame c t d w0) as [Hf _];
    destruct (store.embed_all c t d w0) as [[res|e] w1] end;
    cbn [snd fs print] in Hf; [|exact Hf].
  destruct res as [|first res'];
    destruct (index.CalculateHash _ _ _) as [hash [e|]]; exact Hf.
Qed.

(** X21. [BuildIndex], with the files unchanged during the call. A failure
    (of the walk or of one embedding request) leaves the store as it was.
    On success the store has the model name given and the hash that
    [CalculateHash] computes for the directory; its records are exactly the
    ADRs that [ParseADR] reads from the visited Markdown files and whose
    status is accepted, in the order of the walk, each with an embedding;
    one embedding was requested per record, for its title, status and
    content; and the dimension is the length of the first record's
    embedding, or is left alone when there is no record. No file is
    written either way. *)
Theorem BuildIndex_result (s : index.Store) (ctx : Context)
    (dirPath modelName : string) (statuses : list string) (w : World P) :
  forall err s1 w1,
    store.BuildIndex s ctx dirPath modelName statuses w = (err, s1, w1) ->
    fs w1 = fs w
    /\ (err <> None -> s1 = s)
    /\ (err = None ->
        index.ModelName s1 = modelName
        /\ index.CalculateHash (fs w) dirPath modelName = (index.Hash s1, None)
        /\ Forall2 (fun a r => r = store.with_embedding a (index.Embedding r))
             (concat (map (indexed (fs w) dirPath statuses)
                        (filepath_Walk (fs w) dirPath)))
             (index.ADRs s1)
        /\ trace w1
           = trace w ++ map (fun r => EvCreateEmbedding (store.textToEmbed r))
                          (index.ADRs s1)
        /\ index.Dim s1
           = match index.ADRs s1 with
             | [] => index.Dim s
             | first :: _ => Z.of_nat (length (index.Embedding first))
             end).
Proof.
  intros err s1 w1 E. split.
  - pose proof (BuildIndex_frame s ctx dirPath modelName statuses w) as Hf.
    rewrite E in Hf. exact Hf.
  - revert E. unfold store.BuildIndex.
    destruct (store.BuildIndex_walk _ _ _ _ _ _) as [[valid out] [e|]] eqn:Hw.
    { intros E; inversion E; subst. split; [reflexivity|].
      intros Hn; discriminate. }
    apply BuildIndex_walk_ok in Hw as [Hvalid Hall]. cbn [app] in Hvalid.
    match goal with |- context [store.embed_all ?c ?t ?d ?w0] =>
      pose proof (embed_all_frame c t d w0) as [Hf _];
      destruct (store.embed_all c t d w0) as [[res|e] w2] eqn:He end;
      cbn [snd fs print] in Hf.
    2:{ intros E; inversion E; subst. split; [reflexivity|].
        intros Hn; discriminate. }
    apply embed_all_ok in He as [(news & Hres & Hnews) Ht]. cbn [app] in Hres.
    subst res. cbn [trace print] in Ht.
    pose proof (CalculateHash_ok (fs w) dirPath modelName Hall) as Hh.
    assert (Htexts : map (fun a => EvCreateEmbedding (store.textToEmbed a)) valid
                     = map (fun r => EvCreateEmbedding (store.textToEmbed r)) news).
    { clear -Hnews. induction Hnews as [|a r l l' Hr _ IH]; [reflexivity|].
      cbn [map]. rewrite IH. f_equal. rewrite Hr. reflexivity. }
    destruct news as [|first news'].
    + cbn [print fs]. rewrite Hf.
      destruct (index.CalculateHash (fs w) dirPath modelName) as [hash herr] eqn:Hc.
      cbn [snd] in Hh. subst herr. intros E; inversion E; subst.
      split; [intros Hn; now contradiction Hn|]. intros _. cbn.
      repeat split; try reflexivity; try assumption.
      now rewrite Ht, Htexts.
    + cbn [print fs]. rewrite Hf.
      destruct (index.CalculateHash (fs w) dirPath modelName) as [hash herr] eqn:Hc.
      cbn [snd] in Hh. subst herr. intros E; inversion E; subst.
      split; [intros Hn; now contradiction Hn|]. intros _. cbn [index.ModelName index.Hash
        index.ADRs index.Dim trace print].
      repeat split; try reflexivity; try assumption.
      now rewrite Ht, Htexts.
Qed.
End BuildFacts.

Section IndexThenCheck.
Context {P : Type} `{Provider P}.
Context `{adr.yaml_lib} `{filepath_lib} `{strings_lib} `{store.json_Store_writer}.
Context `{index.json_Store} `{path_lib} `{fmt_lib}.

(** X22. [archguard index] and the check that follows. A failed [runIndex]
    leaves the index file as it was. A successful one has written the
    encoding of a store built for the configured model and the current
    hash of the ADR directory; when the JSON decoder reads that store back
    and writing the index has not changed the hash of the ADR directory,
    the [Load] of the next check accepts it exactly when the configured
    embedding dimension equals the length of the embeddings the provider
    returned (0 for an index without records), and otherwise fails with
    the dimension mismatch alone. *)
Theorem runIndex_then_Load (cfg : config.Config) (indexFile : string) (w : World P) :
  let adrPath := config.ADRPath (config.Analysis_ cfg) in
  let model := config.VS_Model (config.VectorStore_ cfg) in
  let dim := config.EmbeddingDim (config.VectorStore_ cfg) in
  forall err w1,
    store.runIndex cfg indexFile w = (err, w1) ->
    (err <> None -> files (fs w1) !! indexFile = files (fs w) !! indexFile)
    /\ (err = None ->
        exists s w2 data,
          store.BuildIndex index.NewStore context_Background adrPath model
            (config.AcceptedStatuses (config.Analysis_ cfg)) w = (None, s, w2)
          /\ store.json_MarshalIndent_Store s = Ok data
          /\ files (fs w1) !! indexFile = Some data
          /\ index.Dim s
             = match index.ADRs s with
               | [] => 0
               | first :: _ => Z.of_nat (length (index.Embedding first))
               end
          /\ (indexFile ∉ unreadable (fs w) ->
              index.json_Unmarshal_Store data index.NewStore = (s, None) ->
              index.CalculateHash (fs w1) adrPath model
              = index.CalculateHash (fs w) adrPath model ->
              index.Load index.NewStore (fs w1) indexFile model dim
                (fst (index.CalculateHash (fs w1) adrPath model))
              = if index.Dim s =? dim then (None, s)
                else (Some ("index metadata mismatch:" +:+ nl +:+ "  "
                            +:+ "Dimension mismatch (Saved: " +:+ fmt_d (index.Dim s)
                            +:+ ", Config: " +:+ fmt_d dim +:+ ")"), s))).
Proof.
  intros adrPath model dim err w1. unfold store.runIndex.
  fold adrPath model.
  destruct (store.BuildIndex index.NewStore context_Background adrPath model
              (config.AcceptedStatuses (config.Analysis_ cfg)) w)
    as [[berr s] w2] eqn:Hb.
  pose proof Hb as Hb'. apply BuildIndex_result in Hb' as (Hfs & _ & Hok).
  destruct berr as [e|].
  { intros E; inversion E; subst. split; [now rewrite Hfs|discriminate]. }
  destruct (Hok eq_refl) as (Hmodel & Hhash & _ & _ & Hdim). clear Hok.
  destruct (store.Save s (fs w2) indexFile) as [[e|] fs'] eqn:Hs.
  - intros E; inversion E; subst. cbn [fs set_fs]. split; [|discriminate].
    intros _. apply Save_fails in Hs as [Hs _]. now rewrite Hs, Hfs.
  - intros E; inversion E; subst. cbn [fs set_fs print].
    split; [intros Hn; now contradiction Hn|]. intros _.
    pose proof Hs as Hs'. apply Save_succeeds in Hs' as (data & Hm & Hp & _ & _ & Hr & _).
    exists s, w2, data. repeat split; try assumption.
    intros Hread Hjson Hsame. rewrite Hsame, Hhash. cbn [fst].
    unfold index.Load, os_ReadFile. rewrite Hp, Hr, Hfs.
    destruct (decide (indexFile ∈ unreadable (fs w))); [contradiction|].
    rewrite Hjson. unfold index.mismatch_reasons.
    rewrite Hmodel, !String.eqb_refl. cbn [negb orb app].
    destruct (index.Dim s =? dim); reflexivity.
Qed.
End IndexThenCheck.

(* ===================================================================== *)
(** * The verdict of a run, and the three hits of a file                   *)
(* ===================================================================== *)

Section RunOutcomes.
Import llm_types.
Context {P C : Type} `{Provider P} `{ContentProvider C}.
Context `{encoding_json} `{path_lib} `{fmt_lib} `{tiktoken_lib} `{SliceSorter}.

(** ** What the loop over the hits makes of each hit *)

Inductive hit_outcome : Type :=
  | Skipped                        (* out of scope, or suppressed *)
  | Cached (r : AnalysisResult)    (* the verdict was in the cache *)
  | Judged (r : AnalysisResult)    (* the judge returned the verdict *)
  | JudgeFailed (err : error).     (* the judgment failed *)

(** The outcomes that count: a verdict that is a violation. *)
Definition is_violation (o : hit_outcome) : bool :=
  match o with
  | Cached r | Judged r => Violation r
  | Skipped | JudgeFailed _ => false
  end.

Definition violations_in (os : list hit_outcome) : Z :=
  Z.of_nat (length (List.filter is_violation os)).

(** The outcomes for which the judge was called. *)
Definition went_to_judge (o : hit_outcome) : bool :=
  match o with
  | Judged _ | JudgeFailed _ => true
  | Skipped | Cached _ => false
  end.

(** The world once a verdict of the judge has been handed to the cache. *)
Definition stored (e : analysis.Engine C) (cacheKey : string) (r : AnalysisResult)
    (w : World P) : World P :=
  match analysis.Cache e with
  | Some c =>
      match cache.Put c (fs w) cacheKey r with
      | (Some err, fs') =>
          analysis.Log e ("Failed to cache analysis result: " +:+ err) (set_fs fs' w)
      | (None, fs') => set_fs fs' w
      end
  | None => w
  end.

(** [judged w hits os w']: from the world [w], the hits are taken in order
    and have the outcomes [os], one each; [w'] is the world after the last. *)
Inductive judged (e : analysis.Engine C) (ctx : Context) (file content : string)
  : World P -> list index.SearchResult -> list hit_outcome -> World P -> Prop :=
  | judged_nil w : judged e ctx file content w [] [] w
  | judged_skipped w hit hits os w' :
      analysis.out_of_scope file (index.ADRptr hit)
        || analysis.suppressed content (index.ADRptr hit) = true ->
      judged e ctx file content w hits os w' ->
      judged e ctx file content w (hit :: hits) (Skipped :: os) w'
  | judged_cached w hit hits os w' r :
      analysis.out_of_scope file (index.ADRptr hit) = false ->
      analysis.suppressed content (index.ADRptr hit) = false ->
      analysis.cache_lookup e (fs w)
        (analysis.cache_key e (index.ADRptr hit) content) = Some r ->
      judged e ctx file content w hits os w' ->
      judged e ctx file content w (hit :: hits) (Cached r :: os) w'
  | judged_verdict w hit hits os w' r w1 :
      reaches_judge e file content (fs w) hit ->
      llm.AnalyzeDrift ctx (index.Content (index.ADRptr hit)) content file
        (analysis.effective_system_prompt e) w = (Ok r, w1) ->
      judged e ctx file content
        (stored e (analysis.cache_key e (index.ADRptr hit) content) r w1) hits os w' ->
      judged e ctx file content w (hit :: hits) (Judged r :: os) w'
  | judged_failed w hit hits os w' err w1 :
      reaches_judge e file content (fs w) hit ->
      llm.AnalyzeDrift ctx (index.Content (index.ADRptr hit)) content file
        (analysis.effective_system_prompt e) w = (Err err, w1) ->
      judged e ctx file content w1 hits os w' ->
      judged e ctx file content w (hit :: hits) (JudgeFailed err :: os) w'.

(** The outcomes as the loop computes them, hit after hit. *)
Fixpoint outcomes (e : analysis.Engine C) (ctx : Context) (file content : string)
    (hits : list index.SearchResult) (w : World P) : list hit_outcome * World P :=
  match hits with
  | [] => ([], w)
  | hit :: hits =>
      let adr := index.ADRptr hit in
      if analysis.out_of_scope file adr || analysis.suppressed content adr then
        let '(os, w') := outcomes e ctx file content hits w in (Skipped :: os, w')
      else
        match analysis.cache_lookup e (fs w) (analysis.cache_key e adr content) with
        | Some r =>
            let '(os, w') := outcomes e ctx file content hits w in (Cached r :: os, w')
        | None =>
            match llm.AnalyzeDrift ctx (index.Content adr) content file
                    (analysis.effective_system_prompt e) w with
            | (Ok r, w1) =>
                let '(os, w') :=
                  outcomes e ctx file content hits
                    (stored e (analysis.cache_key e adr content) r w1) in
                (Judged r :: os, w')
            | (Err err, w1) =>
                let '(os, w') := outcomes e ctx file content hits w1 in
                (JudgeFailed err :: os, w')
            end
        end
  end.

(** ** What the report of a file says *)

Definition debug_line (e : analysis.Engine C) (s : string) : string :=
  if analysis.Debug e then s else "".

(** The line a failed judgment leaves in the report of the file. *)
Definition warning (err : error) : string :=
  "    Warning: LLM analysis failed: " +:+ err +:+ nl.

(** The lines of a verdict: none unless it is a violation. *)
Definition verdict_lines (adr : index.ADR) (content : string) (r : AnalysisResult)
  : string :=
  if Violation r then
    ("    [VIOLATION] " +:+ index.Title adr +:+ " [Line "
       +:+ fmt_d (analysis.findLineNumber content (QuotedCode r)) +:+ "]" +:+ nl)
    +:+ ("    Reasoning: " +:+ Reasoning r +:+ nl)
    +:+ (if negb (String.eqb (QuotedCode r) "")
         then "    Code: " +:+ QuotedCode r +:+ nl else "")
  else "".

Definition checking (e : analysis.Engine C) (hit : index.SearchResult) : string :=
  debug_line e
    ("  Checking against ADR: " +:+ index.Title (index.ADRptr hit) +:+ " ("
       +:+ fmt_f2 (index.Score hit) +:+ ")" +:+ nl).

(** What one hit adds to the report, by its outcome. *)
Definition said (e : analysis.Engine C) (file content : string)
    (hit : index.SearchResult) (o : hit_outcome) : string :=
  let adr := index.ADRptr hit in
  match o with
  | Skipped =>
      if analysis.out_of_scope file adr then ""
      else debug_line e ("  Skipping ADR " +:+ index.Title adr +:+ " (Suppressed)" +:+ nl)
  | Cached r =>
      checking e hit
        +:+ debug_line e ("[DEBUG]   Cache Hit for " +:+ index.Title adr +:+ nl)
        +:+ verdict_lines adr content r
  | Judged r =>
      checking e hit
        +:+ debug_line e ("[DEBUG]   Cache Miss. Calling LLM..." +:+ nl)
        +:+ verdict_lines adr content r
  | JudgeFailed err =>
      checking e hit
        +:+ debug_line e ("[DEBUG]   Cache Miss. Calling LLM..." +:+ nl)
        +:+ warning err
  end.

Fixpoint report_of (e : analysis.Engine C) (file content : string)
    (hits : list index.SearchResult) (os : list hit_outcome) : string :=
  match hits, os with
  | hit :: hits, o :: os => said e file content hit o +:+ report_of e file content hits os
  | _, _ => ""
  end.

(** The report of a file that reached the search. *)
Definition file_report (e : analysis.Engine C) (file content mode : string)
    (hits : list index.SearchResult) (os : list hit_outcome) : string :=
  analyzing e file +:+ context_mode e mode
    +:+ (if (length hits =? 0)%nat
         then debug_line e ("  No relevant ADRs found." +:+ nl)
         else report_of e file content hits os).

(** ** One file, and the files of a run *)

(** [checked file w os w']: the goroutine of the file, started in [w], ends
    in [w'], its hits having had the outcomes [os]. A file that cannot be
    read, that was truncated in CI mode, or that cannot be embedded, has no
    hits; otherwise the hits are those of the search with [topK = 3]. *)
Inductive checked (e : analysis.Engine C) (ctx : Context) (file : string)
    (w : World P) : list hit_outcome -> World P -> Prop :=
  | checked_unreadable content mode err w1 :
      analysis.fetchContext e file w = Returns (content, mode, Some err, w1) ->
      checked e ctx file w []
        (print (analyzing e file +:+ "Error reading file " +:+ file +:+ ": "
                  +:+ err +:+ nl) w1)
  | checked_truncated content mode w1 :
      analysis.fetchContext e file w = Returns (content, mode, None, w1) ->
      String.eqb mode "truncated" && analysis.CI e = true ->
      checked e ctx file w []
        (print (analyzing e file +:+ context_mode e mode +:+ warn_open file) w1)
  | checked_unembedded content mode w1 err p' :
      analysis.fetchContext e file w = Returns (content, mode, None, w1) ->
      String.eqb mode "truncated" && analysis.CI e = false ->
      CreateEmbedding (provider w1) ctx
        (embedding_cap (embedding_source e file content (fs w1))) = (Err err, p') ->
      checked e ctx file w []
        (print (analyzing e file +:+ context_mode e mode
                  +:+ "Error generating embedding for " +:+ file +:+ ": "
                  +:+ err +:+ nl)
           (set_provider p'
              (emit (EvCreateEmbedding
                       (embedding_cap (embedding_source e file content (fs w1)))) w1)))
  | checked_hits content mode w1 embedding p' hits os w3 :
      analysis.fetchContext e file w = Returns (content, mode, None, w1) ->
      String.eqb mode "truncated" && analysis.CI e = false ->
      CreateEmbedding (provider w1) ctx
        (embedding_cap (embedding_source e file content (fs w1))) = (Ok embedding, p') ->
      index.Search (analysis.Store e) embedding
        (config.SimilarityThreshold (config.VectorStore_ (analysis.Config e))) 3
      = Returns hits ->
      judged e ctx file content
        (emit (EvSearch 3)
           (set_provider p'
              (emit (EvCreateEmbedding
                       (embedding_cap (embedding_source e file content (fs w1)))) w1)))
        hits os w3 ->
      checked e ctx file w os (print (file_report e file content mode hits os) w3).

(** [analysed files w oss w']: the files of a run, one after the other; an
    excluded file is passed over, every other file has its outcomes. *)
Inductive analysed (e : analysis.Engine C) (ctx : Context)
  : list string -> World P -> list (list hit_outcome) -> World P -> Prop :=
  | analysed_nil w : analysed e ctx [] w [] w
  | analysed_excluded file files w oss w' :
      analysis.shouldExclude e file = true ->
      analysed e ctx files w oss w' ->
      analysed e ctx (file :: files) w oss w'
  | analysed_file file files w os w1 oss w' :
      analysis.shouldExclude e file = false ->
      checked e ctx file w os w1 ->
      analysed e ctx files w1 oss w' ->
      analysed e ctx (file :: files) w (os :: oss) w'.

(** ** The loop over the hits *)

Lemma violations_in_cons (o : hit_outcome) (os : list hit_outcome) :
  violations_in (o :: os) = (if is_violation o then 1 else 0) + violations_in os.
Proof.
  unfold violations_in. cbn [List.filter]. destruct (is_violation o); cbn [length]; lia.
Qed.

Lemma violations_in_app (a b : list hit_outcome) :
  violations_in (a ++ b) = violations_in a + violations_in b.
Proof. unfold violations_in. rewrite List.filter_app, List.length_app. lia. Qed.

Lemma violations_in_bounds (os : list hit_outcome) :
  0 <= violations_in os <= Z.of_nat (length os).
Proof.
  unfold violations_in. pose proof (List.filter_length_le is_violation os). lia.
Qed.

Lemma judged_length e ctx file content (w : World P) hits os w' :
  judged e ctx file content w hits os w' -> length os = length hits.
Proof. induction 1; cbn [length]; congruence. Qed.

(** The outcomes the loop computes are outcomes of the hits: every list of
    hits has its outcomes. *)
Lemma outcomes_judged e ctx file content hits :
  forall w : World P,
    judged e ctx file content w hits
      (fst (outcomes e ctx file content hits w))
      (snd (outcomes e ctx file content hits w)).
Proof.
  induction hits as [|hit hits IH]; intros w; cbn [outcomes]; [constructor|].
  destruct (analysis.out_of_scope file (index.ADRptr hit)) eqn:Hscope; cbn [orb].
  { specialize (IH w). destruct (outcomes e ctx file content hits w) as [os w'].
    cbn [fst snd] in *. apply judged_skipped; [now rewrite Hscope|assumption]. }
  destruct (analysis.suppressed content (index.ADRptr hit)) eqn:Hsup.
  { specialize (IH w). destruct (outcomes e ctx file content hits w) as [os w'].
    cbn [fst snd] in *. apply judged_skipped; [now rewrite Hscope, Hsup|assumption]. }
  destruct (analysis.cache_lookup e (fs w) _) as [r|] eqn:Hcache.
  { specialize (IH w). destruct (outcomes e ctx file content hits w) as [os w'].
    cbn [fst snd] in *. now apply judged_cached. }
  assert (Hreach : reaches_judge e file content (fs w) hit) by now repeat split.
  destruct (llm.AnalyzeDrift ctx _ content file _ w) as [[r|err] w1] eqn:Hj.
  - specialize (IH (stored e (analysis.cache_key e (index.ADRptr hit) content) r w1)).
    destruct (outcomes e ctx file content hits _) as [os w'].
    cbn [fst snd] in *. eapply judged_verdict; eauto.
  - specialize (IH w1). destruct (outcomes e ctx file content hits w1) as [os w'].
    cbn [fst snd] in *. eapply judged_failed; eauto.
Qed.

Lemma report_verdict_lines adr content r sb lv :
  analysis.report_verdict adr content r sb lv
  = (sb +:+ verdict_lines adr content r, if Violation r then int_add lv 1 else lv).
Proof.
  unfold analysis.report_verdict, verdict_lines. destruct (Violation r).
  - destruct (negb _); now rewrite ?append_assoc, ?append_nil_r.
  - now rewrite append_nil_r.
Qed.

(** The loop does to the hits what their outcomes say: each outcome adds
    its lines to the report, and one to the count when it is a verdict of
    violation. *)
Lemma judged_check_hits e ctx file content (w : World P) hits os w' :
  judged e ctx file content w hits os w' ->
  forall sb lv,
    0 <= lv -> lv + Z.of_nat (length hits) < 2 ^ 63 ->
    analysis.check_hits e ctx file content hits (sb, lv, w)
    = (sb +:+ report_of e file content hits os, lv + violations_in os, w').
Proof.
  unfold analysis.check_hits.
  induction 1 as [w|w hit hits os w' Hskip _ IH|w hit hits os w' r Hscope Hsup Hc _ IH
                 |w hit hits os w' r w1 (Hscope & Hsup & Hc) Hj _ IH
                 |w hit hits os w' err w1 (Hscope & Hsup & Hc) Hj _ IH];
    intros sb lv Hlv Hb; cbn [fold_left report_of length] in *.
  - unfold violations_in. cbn. now rewrite append_nil_r, Z.add_0_r.
  - unfold analysis.check_hit at 2. unfold said.
    destruct (analysis.out_of_scope file (index.ADRptr hit)).
    + rewrite IH by lia. rewrite violations_in_cons. cbn [is_violation].
      now rewrite Z.add_0_l.
    + cbn [orb] in Hskip. rewrite Hskip.
      rewrite IH by lia. rewrite violations_in_cons. cbn [is_violation].
      unfold debug_line.
      destruct (analysis.Debug e); now rewrite ?append_assoc, Z.add_0_l.
  - unfold analysis.check_hit at 2. rewrite Hscope, Hsup, Hc, report_verdict_lines.
    rewrite violations_in_cons. cbn [is_violation].
    assert (Hlv1 : (if Violation r then int_add lv 1 else lv)
                   = lv + (if Violation r then 1 else 0)).
    { destruct (Violation r); [apply int_add_small|]; lia. }
    rewrite Hlv1, IH by (destruct (Violation r); lia).
    unfold said, checking, debug_line.
    destruct (analysis.Debug e); cbn [append];
      rewrite ?append_assoc, Z.add_assoc; reflexivity.
  - unfold analysis.check_hit at 2. rewrite Hscope, Hsup, Hc, Hj.
    fold (stored e (analysis.cache_key e (index.ADRptr hit) content) r w1).
    rewrite report_verdict_lines.
    rewrite violations_in_cons. cbn [is_violation].
    assert (Hlv1 : (if Violation r then int_add lv 1 else lv)
                   = lv + (if Violation r then 1 else 0)).
    { destruct (Violation r); [apply int_add_small|]; lia. }
    rewrite Hlv1, IH by (destruct (Violation r); lia).
    unfold said, checking, debug_line.
    destruct (analysis.Debug e); cbn [append];
      rewrite ?append_assoc, Z.add_assoc; reflexivity.
  - unfold analysis.check_hit at 2. rewrite Hscope, Hsup, Hc, Hj.
    rewrite IH by lia. rewrite violations_in_cons. cbn [is_violation].
    unfold said, checking, debug_line, warning.
    destruct (analysis.Debug e); cbn [append];
      rewrite ?append_assoc, Z.add_0_l; reflexivity.
Qed.

(** A failed judgment has its warning in the report. *)
Lemma judged_warning e ctx file content (w : World P) hits os w' :
  judged e ctx file content w hits os w' ->
  forall err, In (JudgeFailed err) os ->
    exists a b, report_of e file content hits os = a +:+ warning err +:+ b.
Proof.
  induction 1 as [w|w hit hits os w' Hskip _ IH|w hit hits os w' r Hscope Hsup Hc _ IH
                 |w hit hits os w' r w1 Hr Hj _ IH
                 |w hit hits os w' err0 w1 Hr Hj _ IH];
    intros err Hin; cbn [report_of]; [destruct Hin| | | |].
  1-3: destruct Hin as [Hin|Hin]; [discriminate Hin|];
       destruct (IH err Hin) as (a & b & ->);
       match goal with
       | |- context [said ?e0 ?f ?c ?h ?o] => exists (said e0 f c h o +:+ a), b
       end; now rewrite append_assoc.
  destruct Hin as [Hin|Hin].
  - injection Hin as ->. unfold said.
    exists (checking e hit
              +:+ debug_line e ("[DEBUG]   Cache Miss. Calling LLM..." +:+ nl)),
      (report_of e file content hits os).
    now rewrite !append_assoc.
  - destruct (IH err Hin) as (a & b & ->).
    exists (said e file content hit (JudgeFailed err0) +:+ a), b.
    now rewrite append_assoc.
Qed.

Lemma stored_trace e key r (w : World P) : trace (stored e key r w) = trace w.
Proof.
  unfold stored. destruct (analysis.Cache e) as [c|]; [|reflexivity].
  destruct (cache.Put _ _ _ _) as [[err|] fs']; [|reflexivity].
  now rewrite (proj1 (Log_quiet _ _ _)).
Qed.

Lemma calls_cons kind ev evs :
  calls kind (ev :: evs) = ((if kind ev then 1 else 0) + calls kind evs)%nat.
Proof. unfold calls. cbn [List.filter]. now destruct (kind ev). Qed.

Lemma attempts_no_judgment evs adr f :
  Forall attempt_or_wait evs -> ~ In (EvAnalyzeDrift adr f) evs.
Proof.
  intros Hall Hin. rewrite List.Forall_forall in Hall. exact (Hall _ Hin).
Qed.

(** The calls of the loop: one judgment for each outcome that went to the
    judge, each for the file and for the ADR of one of the hits; no
    embedding and no search. *)
Lemma judged_events e ctx file content (w : World P) hits os w' :
  judged e ctx file content w hits os w' ->
  exists evs,
    trace w' = trace w ++ evs
    /\ calls is_judge evs = length (List.filter went_to_judge os)
    /\ calls is_embed evs = 0%nat /\ calls is_search evs = 0%nat
    /\ forall adr f, In (EvAnalyzeDrift adr f) evs ->
         f = file /\ exists hit, In hit hits /\ adr = index.Content (index.ADRptr hit).
Proof.
  assert (Hlater : forall hit hits evs,
    (forall adr f, In (EvAnalyzeDrift adr f) evs ->
       f = file /\ exists hit0, In hit0 hits
                               /\ adr = index.Content (index.ADRptr hit0)) ->
    forall adr f, In (EvAnalyzeDrift adr f) evs ->
      f = file /\ exists hit0, In hit0 (hit :: hits)
                              /\ adr = index.Content (index.ADRptr hit0)).
  { intros hit hits0 evs Hadr adr f Hin.
    destruct (Hadr adr f Hin) as (Hf & hit0 & Hhit & Hc).
    split; [assumption|]. exists hit0. split; [now right|assumption]. }
  assert (Hcall : forall hit hits evs1 evs,
    Forall attempt_or_wait evs1 ->
    (forall adr f, In (EvAnalyzeDrift adr f) evs ->
       f = file /\ exists hit0, In hit0 hits
                               /\ adr = index.Content (index.ADRptr hit0)) ->
    forall adr f,
      In (EvAnalyzeDrift adr f)
        ((EvAnalyzeDrift (index.Content (index.ADRptr hit)) file :: evs1) ++ evs) ->
      f = file /\ exists hit0, In hit0 (hit :: hits)
                              /\ adr = index.Content (index.ADRptr hit0)).
  { intros hit hits0 evs1 evs Hall Hadr adr f Hin.
    apply List.in_app_or in Hin as [[Hin|Hin]|Hin].
    - injection Hin as <- <-. split; [reflexivity|].
      exists hit. split; [now left|reflexivity].
    - now apply attempts_no_judgment in Hin.
    - now apply (Hlater hit hits0 evs Hadr). }
  induction 1 as [w|w hit hits os w' Hskip _ IH|w hit hits os w' r Hscope Hsup Hc _ IH
                 |w hit hits os w' r w1 Hr Hj _ IH
                 |w hit hits os w' err0 w1 Hr Hj _ IH].
  - exists []. rewrite app_nil_r.
    split; [reflexivity|]. split; [reflexivity|]. split; [reflexivity|].
    split; [reflexivity|]. intros adr f [].
  - destruct IH as (evs & Ht & Hj & He & Hs & Hadr). exists evs.
    split; [assumption|]. split; [assumption|]. split; [assumption|].
    split; [assumption|]. now apply Hlater.
  - destruct IH as (evs & Ht & Hj & He & Hs & Hadr). exists evs.
    split; [assumption|]. split; [assumption|]. split; [assumption|].
    split; [assumption|]. now apply Hlater.
  - destruct IH as (evs & Ht & Hjs & He & Hs & Hadr).
    apply AnalyzeDrift_events in Hj as (evs1 & Hext & Hall & _).
    rewrite stored_trace in Ht.
    exists ((EvAnalyzeDrift (index.Content (index.ADRptr hit)) file :: evs1) ++ evs).
    split; [unfold extends in Hext; now rewrite Ht, Hext, <- app_assoc|].
    rewrite !calls_app, !calls_cons, !(calls_attempts _ evs1) by (auto; reflexivity).
    cbn [is_judge is_embed is_search List.filter went_to_judge length].
    split; [lia|]. split; [lia|]. split; [lia|]. now apply Hcall.
  - destruct IH as (evs & Ht & Hjs & He & Hs & Hadr).
    apply AnalyzeDrift_events in Hj as (evs1 & Hext & Hall & _).
    exists ((EvAnalyzeDrift (index.Content (index.ADRptr hit)) file :: evs1) ++ evs).
    split; [unfold extends in Hext; now rewrite Ht, Hext, <- app_assoc|].
    rewrite !calls_app, !calls_cons, !(calls_attempts _ evs1) by (auto; reflexivity).
    cbn [is_judge is_embed is_search List.filter went_to_judge length].
    split; [lia|]. split; [lia|]. split; [lia|]. now apply Hcall.
Qed.
(** ** The goroutine of a file *)

(** With [topK = 3] the search returns the first three of the candidates
    as [sort.Slice] has ordered them. *)
Lemma Search_top3 (s : index.Store) q th :
  index.Search s q th 3
  = Returns (firstn 3 (sort_Slice index.by_score_desc (candidates s q th))).
Proof.
  unfold index.Search. rewrite collect_candidates. fold (candidates s q th).
  set (results := sort_Slice _ _).
  destruct (Z.of_nat (length results) >? 3) eqn:Hgt; [reflexivity|].
  rewrite List.firstn_all2; [reflexivity|].
  rewrite Z.gtb_ltb in Hgt. apply Z.ltb_ge in Hgt. lia.
Qed.

Lemma top3_length {A : Type} (less : A -> A -> bool) (l : list A) :
  length (firstn 3 (sort_Slice less l)) = Nat.min 3 (length l).
Proof.
  rewrite List.length_firstn.
  now rewrite <- (Permutation_length (sort_Slice_Permutation A less l)).
Qed.

Lemma report_header (e : analysis.Engine C) (file mode : string) :
  (if analysis.Debug e
   then (if analysis.Debug e then "Analyzing " +:+ file +:+ "..." +:+ nl else "")
          +:+ "  Context mode: " +:+ mode +:+ nl
   else (if analysis.Debug e then "Analyzing " +:+ file +:+ "..." +:+ nl else ""))
  = analyzing e file +:+ context_mode e mode.
Proof.
  unfold analyzing, context_mode. destruct (analysis.Debug e); [reflexivity|].
  reflexivity.
Qed.

(** The goroutine does what [checked] says, and no file has more than
    three outcomes. *)
Lemma checked_worker e ctx file (w : World P) os w' :
  checked e ctx file w os w' ->
  analysis.worker e ctx file w = Returns (violations_in os, w')
  /\ (length os <= 3)%nat.
Proof.
  intros Hc.
  destruct Hc as [content mode err w1 Hfc|content mode w1 Hfc Hcond
                 |content mode w1 err p' Hfc Hcond Hemb
                 |content mode w1 embedding p' hits os w3 Hfc Hcond Hemb Hs Hj].
  - split; [|cbn; lia]. unfold analysis.worker. rewrite Hfc. reflexivity.
  - split; [|cbn; lia]. unfold analysis.worker. rewrite Hfc. cbn [outcome_bind].
    rewrite Hcond, report_header. unfold warn_open.
    now rewrite !append_assoc.
  - split; [|cbn; lia]. unfold analysis.worker. rewrite Hfc. cbn [outcome_bind].
    rewrite Hcond, report_header.
    change (if len ?s >? 6000 then slice_to ?s 6000 else ?s) with (embedding_cap s).
    fold (embedding_source e file content (fs w1)). rewrite Hemb.
    now rewrite !append_assoc.
  - assert (Hlen : (length hits <= 3)%nat).
    { rewrite Search_top3 in Hs. injection Hs as <-. rewrite top3_length. lia. }
    pose proof (judged_length _ _ _ _ _ _ _ _ Hj) as Hos.
    split; [|lia]. unfold analysis.worker. rewrite Hfc. cbn [outcome_bind].
    rewrite Hcond, report_header.
    change (if len ?s >? 6000 then slice_to ?s 6000 else ?s) with (embedding_cap s).
    fold (embedding_source e file content (fs w1)). rewrite Hemb, Hs.
    cbn [outcome_bind]. unfold file_report.
    destruct (length hits =? 0)%nat eqn:Hnone.
    + apply Nat.eqb_eq in Hnone. destruct hits; [|discriminate Hnone].
      inversion Hj; subst. unfold debug_line.
      destruct (analysis.Debug e); now rewrite ?append_assoc, ?append_nil_r.
    + rewrite (judged_check_hits _ _ _ _ _ _ _ _ Hj) by lia.
      now rewrite Z.add_0_l, !append_assoc.
Qed.

(** Every file has its outcomes: the goroutine returns. *)
Lemma checked_total e ctx file (w : World P) :
  sane_ceiling e -> exists os w', checked e ctx file w os w'.
Proof.
  intros Hmax.
  destruct (fetchContext_returns e file w Hmax) as [[[[content mode] err] w1] Hfc].
  destruct err as [err|]; [eexists _, _; eapply checked_unreadable; eassumption|].
  destruct (String.eqb mode "truncated" && analysis.CI e) eqn:Hcond;
    [eexists _, _; eapply checked_truncated; eassumption|].
  destruct (CreateEmbedding (provider w1) ctx
              (embedding_cap (embedding_source e file content (fs w1))))
    as [[embedding|err] p'] eqn:Hemb;
    [|eexists _, _; eapply checked_unembedded; eassumption].
  eexists _, _. eapply checked_hits; try eassumption.
  - apply Search_top3.
  - apply outcomes_judged.
Qed.

(** The calls of a file: at most one embedding and one search, and one
    judgment for each outcome that went to the judge. *)
Lemma checked_events e ctx file (w : World P) os w' :
  checked e ctx file w os w' ->
  exists evs,
    trace w' = trace w ++ evs
    /\ calls is_judge evs = length (List.filter went_to_judge os)
    /\ (calls is_embed evs <= 1)%nat /\ (calls is_search evs <= 1)%nat.
Proof.
  intros Hc.
  destruct Hc as [content mode err w1 Hfc|content mode w1 Hfc Hcond
                 |content mode w1 err p' Hfc Hcond Hemb
                 |content mode w1 embedding p' hits os w3 Hfc Hcond Hemb Hs Hj];
    apply fetchContext_quiet in Hfc as (Ht & _).
  - exists []. rewrite print_trace, Ht, app_nil_r. cbn. repeat split; lia.
  - exists []. rewrite print_trace, Ht, app_nil_r. cbn. repeat split; lia.
  - eexists [_]. rewrite print_trace. cbn [trace set_provider emit]. rewrite Ht.
    split; [reflexivity|]. cbn. repeat split; lia.
  - apply judged_events in Hj as (evs & Hext & Hjs & He & Hse & _).
    eexists ([_; _] ++ evs). rewrite print_trace, Hext.
    cbn [trace set_provider emit]. rewrite Ht, <- !app_assoc.
    split; [reflexivity|]. rewrite !calls_app, Hjs, He, Hse. cbn.
    repeat split; lia.
Qed.

(** A failed judgment of a file is reported on standard output. *)
Lemma checked_warning e ctx file (w : World P) os w' :
  checked e ctx file w os w' ->
  forall err, In (JudgeFailed err) os ->
    exists a b, stdout w' = a +:+ warning err +:+ b.
Proof.
  intros Hc err Hin.
  destruct Hc as [content mode err0 w1 Hfc|content mode w1 Hfc Hcond
                 |content mode w1 err0 p' Hfc Hcond Hemb
                 |content mode w1 embedding p' hits os w3 Hfc Hcond Hemb Hs Hj];
    try contradiction.
  pose proof (judged_length _ _ _ _ _ _ _ _ Hj) as Hlen.
  destruct (judged_warning _ _ _ _ _ _ _ _ Hj err Hin) as (a & b & Hrep).
  exists (stdout w3 +:+ analyzing e file +:+ context_mode e mode +:+ a), b.
  cbn [stdout print]. unfold file_report.
  destruct hits as [|hit hits]; [destruct os; [contradiction|discriminate Hlen]|].
  cbn [length Nat.eqb]. now rewrite Hrep, !append_assoc.
Qed.

(** A file that reaches the search: its hits are the first three of the
    candidates for its embedding, each has its outcome, and the judge is
    called for these hits only. *)
Lemma checked_top3 e ctx file (w : World P) content mode w1 embedding p' :
  analysis.fetchContext e file w = Returns (content, mode, None, w1) ->
  String.eqb mode "truncated" && analysis.CI e = false ->
  CreateEmbedding (provider w1) ctx
    (embedding_cap (embedding_source e file content (fs w1))) = (Ok embedding, p') ->
  let found :=
    candidates (analysis.Store e) embedding
      (config.SimilarityThreshold (config.VectorStore_ (analysis.Config e))) in
  let top := firstn 3 (sort_Slice index.by_score_desc found) in
  exists os w' evs,
    checked e ctx file w os w'
    /\ length os = Nat.min 3 (length found)
    /\ trace w'
       = trace w
           ++ [EvCreateEmbedding
                 (embedding_cap (embedding_source e file content (fs w1)));
               EvSearch 3] ++ evs
    /\ calls is_judge evs = length (List.filter went_to_judge os)
    /\ calls is_embed evs = 0%nat /\ calls is_search evs = 0%nat
    /\ forall adr f, In (EvAnalyzeDrift adr f) evs ->
         f = file /\ exists hit, In hit top /\ adr = index.Content (index.ADRptr hit).
Proof.
  intros Hfc Hcond Hemb found top.
  pose proof (outcomes_judged e ctx file content top
                (emit (EvSearch 3)
                   (set_provider p'
                      (emit (EvCreateEmbedding
                               (embedding_cap
                                  (embedding_source e file content (fs w1)))) w1))))
    as Hj.
  destruct (outcomes e ctx file content top _) as [os w3]. cbn [fst snd] in Hj.
  pose proof (judged_length _ _ _ _ _ _ _ _ Hj) as Hlen.
  destruct (judged_events _ _ _ _ _ _ _ _ Hj) as (evs & Hext & Hjs & He & Hse & Hadr).
  exists os, (print (file_report e file content mode top os) w3), evs.
  split; [eapply checked_hits; try eassumption; apply Search_top3|].
  split; [rewrite Hlen; apply top3_length|].
  split; [|split; [exact Hjs|split; [exact He|split; [exact Hse|exact Hadr]]]].
  rewrite print_trace, Hext. cbn [trace set_provider emit].
  apply fetchContext_quiet in Hfc as (-> & _). now rewrite <- !app_assoc.
Qed.

(** ** The files of a run *)

Lemma analysed_run_files e ctx files (w : World P) oss w' :
  analysed e ctx files w oss w' ->
  forall v, 0 <= v -> v + 3 * Z.of_nat (length files) < 2 ^ 63 ->
    analysis.run_files e ctx files v w
    = Returns (v + violations_in (concat oss), w').
Proof.
  induction 1 as [w|file files w oss w' Hex _ IH|file files w os w1 oss w' Hex Hc _ IH];
    intros v Hv Hb; cbn [analysis.run_files length concat] in *.
  - unfold violations_in. cbn. now rewrite Z.add_0_r.
  - rewrite Hex. apply IH; lia.
  - rewrite Hex. destruct (checked_worker _ _ _ _ _ _ Hc) as [-> Hlen].
    cbn [outcome_bind]. pose proof (violations_in_bounds os) as Hos.
    rewrite int_add_small by lia. rewrite IH by lia.
    now rewrite violations_in_app, Z.add_assoc.
Qed.

Lemma analysed_total e ctx files :
  sane_ceiling e -> forall w : World P, exists oss w', analysed e ctx files w oss w'.
Proof.
  intros Hmax. induction files as [|file files IH]; intros w.
  - exists [], w. constructor.
  - destruct (analysis.shouldExclude e file) eqn:Hex.
    + destruct (IH w) as (oss & w' & Ha). exists oss, w'. now apply analysed_excluded.
    + destruct (checked_total e ctx file w Hmax) as (os & w1 & Hc).
      destruct (IH w1) as (oss & w' & Ha). exists (os :: oss), w'.
      now apply (analysed_file _ _ _ _ _ _ w1).
Qed.

(** C1. The files of a run have their outcomes (the run returns), and
    whatever these are, the run returns the failing error that carries the
    number of verdicts of violation among them when there is one, and nil
    when there is none; for one violation the error is "found 1
    architectural violations". The goroutine of a file adds to the count
    the number of verdicts of violation among the outcomes of its hits: a
    judgment that fails is an outcome that is no verdict, so it adds
    nothing, its warning is on standard output, and the hits after it have
    their outcomes as well, the loop doing to each hit what its outcome
    says. *)
Theorem Run_verdict (e : analysis.Engine C) (ctx : Context) (w : World P)
    (files : list string) :
  3 * Z.of_nat (length files) < 2 ^ 63 ->
  GetFiles (analysis.Content e) (fs w) = Ok files ->
  (sane_ceiling e -> exists oss w', analysed e ctx files w oss w')
  /\ (forall oss w',
        analysed e ctx files w oss w' ->
        let count := violations_in (concat oss) in
        0 <= count
        /\ analysis.Run e ctx w
           = Returns ((if count >? 0 then Some (found_violations count) else None),
                      w')
        /\ (count = 1 ->
            analysis.Run e ctx w
            = Returns (Some "found 1 architectural violations", w')))
  /\ (forall file (w0 : World P) os w1,
        checked e ctx file w0 os w1 ->
        analysis.worker e ctx file w0 = Returns (violations_in os, w1)
        /\ forall err, In (JudgeFailed err) os ->
             exists a b, stdout w1 = a +:+ warning err +:+ b)
  /\ (forall file content (w0 : World P) hits os w1,
        judged e ctx file content w0 hits os w1 ->
        length os = length hits
        /\ forall sb localViolations,
             0 <= localViolations ->
             localViolations + Z.of_nat (length hits) < 2 ^ 63 ->
             analysis.check_hits e ctx file content hits (sb, localViolations, w0)
             = (sb +:+ report_of e file content hits os,
                localViolations + violations_in os, w1)).
Proof.
  intros Hlen Hfiles. split; [|split; [|split]].
  - intros Hmax. apply analysed_total. exact Hmax.
  - intros oss w' Ha count.
    assert (Hrun : analysis.Run e ctx w
                   = Returns ((if count >? 0 then Some (found_violations count)
                               else None), w')).
    { unfold analysis.Run. rewrite Hfiles.
      rewrite (analysed_run_files _ _ _ _ _ _ Ha 0) by lia.
      cbn [outcome_bind]. rewrite Z.add_0_l. fold count.
      unfold found_violations. now destruct (count >? 0). }
    split; [apply violations_in_bounds|]. split; [exact Hrun|].
    intros Hone. rewrite Hrun, Hone. reflexivity.
  - intros file w0 os w1 Hc. split.
    + apply (checked_worker _ _ _ _ _ _ Hc).
    + apply (checked_warning _ _ _ _ _ _ Hc).
  - intros file content w0 hits os w1 Hj. split.
    + apply (judged_length _ _ _ _ _ _ _ _ Hj).
    + intros sb lv. apply (judged_check_hits _ _ _ _ _ _ _ _ Hj).
Qed.

(** C10. Whatever the configuration, the search of a file is the search
    with [topK = 3]: it returns the first three of the candidates in the
    order of [sort.Slice]. The goroutine of a file does what the outcomes
    of these hits say, so it has at most three outcomes, makes at most one
    search, and calls the judge once for each outcome that went to it. A
    file that reaches the search has exactly as many outcomes as there are
    candidates, up to three, and the judge is called for the ADRs of these
    three hits only. *)
Theorem worker_top3 (e : analysis.Engine C) (ctx : Context) (file : string)
    (w : World P) :
  (forall queryEmbedding threshold,
      index.Search (analysis.Store e) queryEmbedding threshold 3
      = Returns (firstn 3 (sort_Slice index.by_score_desc
                             (candidates (analysis.Store e) queryEmbedding threshold))))
  /\ (forall os w',
        checked e ctx file w os w' ->
        analysis.worker e ctx file w = Returns (violations_in os, w')
        /\ (length os <= 3)%nat
        /\ exists evs,
             trace w' = trace w ++ evs
             /\ calls is_judge evs = length (List.filter went_to_judge os)
             /\ (calls is_judge evs <= 3)%nat
             /\ (calls is_search evs <= 1)%nat)
  /\ (forall content mode w1 embedding p',
        analysis.fetchContext e file w = Returns (content, mode, None, w1) ->
        String.eqb mode "truncated" && analysis.CI e = false ->
        CreateEmbedding (provider w1) ctx
          (embedding_cap (embedding_source e file content (fs w1)))
        = (Ok embedding, p') ->
        let found :=
          candidates (analysis.Store e) embedding
            (config.SimilarityThreshold (config.VectorStore_ (analysis.Config e))) in
        exists os w' evs,
          checked e ctx file w os w'
          /\ length os = Nat.min 3 (length found)
          /\ trace w'
             = trace w
                 ++ [EvCreateEmbedding
                       (embedding_cap (embedding_source e file content (fs w1)));
                     EvSearch 3] ++ evs
          /\ calls is_judge evs = length (List.filter went_to_judge os)
          /\ calls is_embed evs = 0%nat /\ calls is_search evs = 0%nat
          /\ forall adr f, In (EvAnalyzeDrift adr f) evs ->
               f = file
               /\ exists hit,
                    In hit (firstn 3 (sort_Slice index.by_score_desc found))
                    /\ adr = index.Content (index.ADRptr hit)).
Proof.
  split; [|split].
  - intros q th. apply Search_top3.
  - intros os w' Hc. destruct (checked_worker _ _ _ _ _ _ Hc) as [Hw Hlen].
    split; [exact Hw|]. split; [exact Hlen|].
    destruct (checked_events _ _ _ _ _ _ Hc) as (evs & Ht & Hj & _ & Hs).
    exists evs. split; [exact Ht|]. split; [exact Hj|]. split; [|exact Hs].
    rewrite Hj. pose proof (List.filter_length_le went_to_judge os). lia.
  - intros content mode w1 embedding p' Hfc Hcond Hemb.
    apply (checked_top3 e ctx file w content mode w1 embedding p' Hfc Hcond Hemb).
Qed.
End RunOutcomes.

Section RunOutcomes_instances.
Import llm_types.
#[local] Existing Instance doubles.json.
#[local] Existing Instance doubles.paths.
#[local] Existing Instance doubles.fmts.
#[local] Existing Instance doubles.byte_tokens.
#[local] Existing Instance doubles.MockContentProvider_ContentProvider.
#[local] Existing Instance doubles.MockTruncationProvider_ContentProvider.
#[local] Existing Instance llm_mock.MockProvider_Provider.
#[local] Existing Instance sorting.stable.

(** The verdict of the provider of the drift-detection test. *)
Definition python_verdict : AnalysisResult :=
  {| Violation := true; Reasoning := "Python is not allowed.";
     QuotedCode := "import python_library" |}.

Definition retries_exhausted : error :=
  "analysis failed after 3 retries: persistent error".

(** Five ADRs that all score 1 against the default embedding. *)
Definition adr_numbered (id : string) : index.ADR :=
  {| index.ID := id; index.Title := "ADR " +:+ id; index.Status := "Accepted";
     index.Scope := ""; index.Content := "Rule " +:+ id +:+ ".";
     index.Embedding := llm_mock.default_embedding 1536; index.RelPath := "" |}.

Definition five_store : index.Store :=
  {| index.ADRs := map adr_numbered ["1"; "2"; "3"; "4"; "5"]; index.Hash := "";
     index.ModelName := ""; index.Dim := 0 |}.

Definition five_engine : analysis.Engine doubles.MockContentProvider :=
  fixtures.engine_of (fixtures.config_with "" 0 "") five_store fixtures.service_py
    false.

Definition hit_numbered (id : string) : index.SearchResult :=
  {| index.ADRptr := adr_numbered id; index.Score := F64.one |}.

(** The outcomes of a file that reaches the search, as the loop computes
    them. *)
Lemma checked_computed {C : Type} `{ContentProvider C} (e : analysis.Engine C)
    (file : string) (w : World llm_mock.MockProvider) content mode w1 embedding p'
    hits os :
  analysis.fetchContext e file w = Returns (content, mode, None, w1) ->
  String.eqb mode "truncated" && analysis.CI e = false ->
  CreateEmbedding (provider w1) context_Background
    (embedding_cap (embedding_source e file content (fs w1))) = (Ok embedding, p') ->
  index.Search (analysis.Store e) embedding
    (config.SimilarityThreshold (config.VectorStore_ (analysis.Config e))) 3
  = Returns hits ->
  fst (outcomes e context_Background file content hits
         (emit (EvSearch 3)
            (set_provider p'
               (emit (EvCreateEmbedding
                        (embedding_cap (embedding_source e file content (fs w1))))
                  w1)))) = os ->
  exists w', checked e context_Background file w os w'.
Proof.
  intros Hfc Hcond Hemb Hs <-. eexists.
  eapply checked_hits; try eassumption. apply outcomes_judged.
Qed.

Lemma drift_checked :
  exists w', checked fixtures.drift_engine context_Background "service.py"
               drift_world [Judged python_verdict] w'.
Proof.
  apply (checked_computed fixtures.drift_engine "service.py" drift_world
           "// content ignored by mock" "full" drift_world
           (llm_mock.default_embedding 0) fixtures.python_violation [hit_go]);
    vm_compute; reflexivity.
Qed.

Lemma failing_checked :
  exists w', checked fixtures.drift_engine context_Background "service.py"
               failing_world [JudgeFailed retries_exhausted] w'.
Proof.
  apply (checked_computed fixtures.drift_engine "service.py" failing_world
           "// content ignored by mock" "full" failing_world
           (llm_mock.default_embedding 0) fixtures.always_fails [hit_go]);
    vm_compute; reflexivity.
Qed.

Lemma five_checked :
  exists w', checked five_engine context_Background "service.py" drift_world
               [Judged python_verdict; Judged python_verdict; Judged python_verdict]
               w'.
Proof.
  apply (checked_computed five_engine "service.py" drift_world
           "// content ignored by mock" "full" drift_world
           (llm_mock.default_embedding 0) fixtures.python_violation
           [hit_numbered "1"; hit_numbered "2"; hit_numbered "3"]);
    vm_compute; reflexivity.
Qed.

(** C1 on the drift-detection test: one file, one ADR, a verdict of
    violation, and the run fails with "found 1 architectural violations";
    and on a provider whose judgments all fail: the only outcome is the
    failure, the run returns nil and the warning is on standard output. *)
Lemma Run_verdict_witness :
  (exists w',
      analysed fixtures.drift_engine context_Background ["service.py"] drift_world
        [[Judged python_verdict]] w'
      /\ analysis.Run fixtures.drift_engine context_Background drift_world
         = Returns (Some "found 1 architectural violations", w'))
  /\ (exists w',
      analysed fixtures.drift_engine context_Background ["service.py"]
        failing_world [[JudgeFailed retries_exhausted]] w'
      /\ analysis.Run fixtures.drift_engine context_Background failing_world
         = Returns (None, w')
      /\ analysis.worker fixtures.drift_engine context_Background "service.py"
           failing_world = Returns (0, w')
      /\ exists a b, stdout w' = a +:+ warning retries_exhausted +:+ b).
Proof.
  assert (Hlen : 3 * Z.of_nat (length ["service.py"]) < 2 ^ 63) by (cbn; lia).
  assert (Hfiles : forall w : World llm_mock.MockProvider,
            GetFiles (analysis.Content fixtures.drift_engine) (fs w)
            = Ok ["service.py"]) by (intros w; reflexivity).
  split.
  - destruct drift_checked as [w' Hc]. exists w'.
    assert (Ha : analysed fixtures.drift_engine context_Background ["service.py"]
                   drift_world [[Judged python_verdict]] w').
    { eapply analysed_file; [reflexivity|exact Hc|apply analysed_nil]. }
    split; [exact Ha|].
    destruct (Run_verdict fixtures.drift_engine context_Background drift_world
                ["service.py"] Hlen (Hfiles _)) as (_ & T & _).
    destruct (T _ _ Ha) as (_ & _ & Tone). apply Tone. reflexivity.
  - destruct failing_checked as [w' Hc]. exists w'.
    assert (Ha : analysed fixtures.drift_engine context_Background ["service.py"]
                   failing_world [[JudgeFailed retries_exhausted]] w').
    { eapply analysed_file; [reflexivity|exact Hc|apply analysed_nil]. }
    split; [exact Ha|].
    destruct (Run_verdict fixtures.drift_engine context_Background failing_world
                ["service.py"] Hlen (Hfiles _)) as (_ & T & Tw & _).
    destruct (T _ _ Ha) as (_ & Trun & _).
    destruct (Tw _ _ _ _ Hc) as (Tworker & Twarn).
    split; [exact Trun|]. split; [exact Tworker|].
    apply Twarn. now left.
Defined.

(** C10 on a store of five ADRs that all match: the search returns the
    first three, the goroutine judges these three and no other, and counts
    their three violations. *)
Lemma worker_top3_witness :
  index.Search five_store (llm_mock.default_embedding 0) fixtures.f64_zero 3
  = Returns [hit_numbered "1"; hit_numbered "2"; hit_numbered "3"]
  /\ (exists w' evs,
        analysis.worker five_engine context_Background "service.py" drift_world
        = Returns (3, w')
        /\ trace w' = [] ++ evs
        /\ calls is_judge evs = 3%nat
        /\ (calls is_search evs <= 1)%nat)
  /\ (exists os w' evs,
        checked five_engine context_Background "service.py" drift_world os w'
        /\ length os = 3%nat
        /\ trace w'
           = [] ++ [EvCreateEmbedding "// content ignored by mock"; EvSearch 3]
               ++ evs
        /\ calls is_judge evs = length (List.filter went_to_judge os)
        /\ forall adr f, In (EvAnalyzeDrift adr f) evs ->
             f = "service.py"
             /\ exists hit,
                  In hit [hit_numbered "1"; hit_numbered "2"; hit_numbered "3"]
                  /\ adr = index.Content (index.ADRptr hit)).
Proof.
  pose proof (worker_top3 five_engine context_Background "service.py" drift_world)
    as (Tsearch & Tchecked & Ttop).
  split; [|split].
  - change five_store with (analysis.Store five_engine).
    rewrite Tsearch. vm_compute. reflexivity.
  - destruct five_checked as [w' Hc].
    destruct (Tchecked _ _ Hc) as (Tw & _ & evs & Tt & Tj & _ & Ts).
    exists w', evs. split; [exact Tw|]. split; [exact Tt|]. split; [exact Tj|].
    exact Ts.
  - assert (Hfc : analysis.fetchContext five_engine "service.py" drift_world
                  = Returns ("// content ignored by mock", "full", None, drift_world))
      by (vm_compute; reflexivity).
    destruct (Ttop "// content ignored by mock" "full" drift_world
                (llm_mock.default_embedding 0) fixtures.python_violation
                Hfc eq_refl eq_refl)
      as (os & w' & evs & Tc & Tl & Tt & Tj & _ & _ & Tadr).
    exists os, w', evs. split; [exact Tc|].
    split; [rewrite Tl; vm_compute; reflexivity|].
    split; [exact Tt|]. split; [exact Tj|].
    intros adr f Hin. destruct (Tadr adr f Hin) as (Hf & hit & Hhit & Hadr).
    split; [exact Hf|]. exists hit. split; [|exact Hadr].
    assert (Etop : firstn 3 (sort_Slice index.by_score_desc
                     (candidates (analysis.Store five_engine)
                        (llm_mock.default_embedding 0)
                        (config.SimilarityThreshold
                           (config.VectorStore_ (analysis.Config five_engine)))))
                   = [hit_numbered "1"; hit_numbered "2"; hit_numbered "3"])
      by (vm_compute; reflexivity).
    rewrite <- Etop. exact Hhit.
Defined.
End RunOutcomes_instances.

(* ===================================================================== *)
(** * ensureGitignore                                                     *)
(* ===================================================================== *)

Section Gitignore.
Context {P : Type}.

(** The test of the loop of [ensureGitignore]. *)
Definition ignores_archguard (content : string) : bool :=
  existsb (fun line => String.eqb (strings_TrimSpace line) cli_init.archguardEntry)
    (strings_Split content nl).

Lemma entry_line : strings_TrimSpace cli_init.archguardEntry = cli_init.archguardEntry.
Proof. reflexivity. Qed.

Lemma ignores_after_line (pre : string) :
  pre = "" \/ (exists pre', pre = pre' +:+ nl) ->
  ignores_archguard (pre +:+ cli_init.archguardEntry +:+ nl) = true.
Proof.
  intros Hpre. unfold ignores_archguard. apply existsb_exists.
  exists cli_init.archguardEntry. split; [|now rewrite entry_line].
  unfold nl. rewrite Split_byte.
  assert (Hlast : split_byte (ascii_of_nat 10)
                    (cli_init.archguardEntry +:+ String (ascii_of_nat 10) "") ""
                  = [cli_init.archguardEntry; ""]) by reflexivity.
  destruct Hpre as [->|[pre' ->]].
  - rewrite append_nil_l, Hlast. now left.
  - rewrite append_assoc.
    change (nl +:+ cli_init.archguardEntry +:+ String (ascii_of_nat 10) "")
      with (String (ascii_of_nat 10)
              (cli_init.archguardEntry +:+ String (ascii_of_nat 10) "")).
    rewrite split_byte_app, Hlast. apply in_or_app. right. now left.
Qed.

Lemma OpenFile_append_opens (fs0 fs1 : FS) (path : string) :
  os_OpenFile_append fs0 path = (None, fs1) ->
  files fs1 = (<[path := default "" (files fs0 !! path)]> (files fs0))
  /\ unreadable fs1 = unreadable fs0 /\ unwritable fs1 = unwritable fs0.
Proof.
  unfold os_OpenFile_append.
  destruct (decide (path ∈ unwritable fs0));
    [destruct (torn fs0 !! path); [|discriminate]|]; intros [= <-]; now repeat split.
Qed.

Lemma WriteString_appends (fs0 fs1 : FS) (path data : string) (err : option error) :
  os_WriteString fs0 path data = (err, fs1) ->
  exists written,
    files fs1 = (<[path := default "" (files fs0 !! path) +:+ written]> (files fs0))
    /\ unreadable fs1 = unreadable fs0 /\ unwritable fs1 = unwritable fs0
    /\ (err = None -> written = data).
Proof.
  unfold os_WriteString. destruct (decide (path ∈ unwritable fs0)); intros [= <- <-].
  - eexists. repeat split. discriminate.
  - exists data. now repeat split.
Qed.

(** The part of [ensureGitignore] that is reached when no line of the file
    is the entry: what it leaves in the file is what was there, followed by
    something; when it succeeds, by the entry on a line of its own. *)
Lemma ensureGitignore_appends (w : World P) (content : string)
    (err : option error) (w1 : World P) :
  default "" (files (fs w) !! cli_init.gitignorePath) = content ->
  match os_OpenFile_append (fs w) cli_init.gitignorePath with
  | (Some err, _) => (Some err, w)
  | (None, fs0) =>
      let '(werr, fs1) :=
        if (len content >? 0) && negb (strings_HasSuffix content nl)
        then os_WriteString fs0 cli_init.gitignorePath nl
        else (None, fs0) in
      match werr with
      | Some err => (Some err, set_fs fs1 w)
      | None =>
          match os_WriteString fs1 cli_init.gitignorePath
                  (cli_init.archguardEntry +:+ nl) with
          | (Some err, fs2) => (Some err, set_fs fs2 w)
          | (None, fs2) =>
              (None, print ("Added " +:+ cli_init.archguardEntry +:+ " to .gitignore"
                              +:+ nl) (set_fs fs2 w))
          end
      end
  end = (err, w1) ->
  (fst (os_OpenFile_append (fs w) cli_init.gitignorePath) <> None -> w1 = w)
  /\ (err <> None -> stdout w1 = stdout w)
  /\ unreadable (fs w1) = unreadable (fs w)
  /\ ((err <> None /\ w1 = w)
      \/ exists added,
           files (fs w1) = (<[cli_init.gitignorePath := content +:+ added]> (files (fs w)))
           /\ (err = None -> ignores_archguard (content +:+ added) = true)).
Proof.
  intros Hcontent.
  destruct (os_OpenFile_append (fs w) cli_init.gitignorePath) as [[oerr|] fs0] eqn:Hopen.
  { intros [= <- <-]. repeat split; auto. }
  apply OpenFile_append_opens in Hopen as (Hf0 & Hr0 & Hw0). rewrite Hcontent in Hf0.
  set (sep := if (len content >? 0) && negb (strings_HasSuffix content nl)
              then nl else "").
  assert (Hsep : content +:+ sep = "" \/ exists pre', content +:+ sep = pre' +:+ nl).
  { unfold sep. destruct (len content >? 0) eqn:Hlen; cbn [andb].
    - destruct (strings_HasSuffix content nl) eqn:Hsuf; cbn [negb].
      + right. apply HasSuffix_iff in Hsuf as [a ->]. exists a.
        now rewrite append_nil_r.
      + right. now exists content.
    - left. destruct content; [reflexivity|]. unfold len in Hlen.
      cbn [String.length] in Hlen. rewrite Z.gtb_ltb in Hlen.
      apply Z.ltb_ge in Hlen. lia. }
  destruct (if (len content >? 0) && negb (strings_HasSuffix content nl)
            then os_WriteString fs0 cli_init.gitignorePath nl
            else (None, fs0)) as [werr fs1] eqn:Hfirst.
  assert (H1 : exists written1,
    files fs1 = (<[cli_init.gitignorePath := content +:+ written1]> (files (fs w)))
    /\ unreadable fs1 = unreadable (fs w)
    /\ (werr = None -> written1 = sep)).
  { unfold sep. destruct ((len content >? 0) && negb (strings_HasSuffix content nl)).
    - apply WriteString_appends in Hfirst as (written & Hf & Hr & _ & Hok).
      exists written. rewrite Hf, Hf0, lookup_insert_eq, insert_insert_eq.
      cbn [default from_option id]. repeat split; [congruence|exact Hok].
    - injection Hfirst as <- <-. exists "". rewrite append_nil_r.
      repeat split; assumption. }
  destruct H1 as (written1 & Hf1 & Hr1 & Hok1).
  destruct werr as [e1|].
  { intros [= <- <-]. cbn [fs set_fs stdout]. split; [intros Hn; now contradiction Hn|].
    split; [reflexivity|]. split; [exact Hr1|]. right. exists written1.
    split; [exact Hf1|discriminate]. }
  rewrite (Hok1 eq_refl) in Hf1. cbv iota.
  destruct (os_WriteString fs1 cli_init.gitignorePath (cli_init.archguardEntry +:+ nl))
    as [err2 fs2] eqn:Hsecond.
  apply WriteString_appends in Hsecond as (written2 & Hf2 & Hr2 & _ & Hok2).
  rewrite Hf1, lookup_insert_eq, insert_insert_eq in Hf2.
  cbn [default from_option id] in Hf2. rewrite append_assoc in Hf2.
  destruct err2 as [e2|]; intros [= <- <-]; cbn [fs set_fs print stdout].
  - split; [intros Hn; now contradiction Hn|]. split; [reflexivity|].
    split; [congruence|]. right. exists (sep +:+ written2).
    split; [exact Hf2|discriminate].
  - split; [intros Hn; now contradiction Hn|].
    split; [intros Hn; now contradiction Hn|]. split; [congruence|].
    right. exists (sep +:+ written2). split; [exact Hf2|]. intros _.
    rewrite (Hok2 eq_refl), <- append_assoc. now apply ignores_after_line.
Qed.

(** X23. [ensureGitignore] on a [.gitignore] that can be read once it
    exists. Whatever the result, no other file is touched and what the
    file held before is still its beginning. A call that fails prints
    nothing, and changes nothing when the file could not be opened; a
    failed write leaves what it had written. After a successful call the
    file exists and one of its lines is [.archguard/] up to surrounding
    white space; a file that already had such a line is not written and
    nothing is printed; and a second call changes nothing at all. *)
Theorem ensureGitignore_idempotent (w : World P) :
  (cli_init.gitignorePath ∉ unreadable (fs w)) ->
  forall err w1,
    cli_init.ensureGitignore w = (err, w1) ->
    let before := default "" (files (fs w) !! cli_init.gitignorePath) in
    (forall other, other <> cli_init.gitignorePath ->
       files (fs w1) !! other = files (fs w) !! other)
    /\ (exists added,
          default "" (files (fs w1) !! cli_init.gitignorePath) = before +:+ added)
    /\ (err <> None ->
        stdout w1 = stdout w
        /\ (fst (os_OpenFile_append (fs w) cli_init.gitignorePath) <> None -> w1 = w))
    /\ (err = None ->
        (exists added,
           files (fs w1) !! cli_init.gitignorePath = Some (before +:+ added)
           /\ ignores_archguard (before +:+ added) = true)
        /\ (files (fs w) !! cli_init.gitignorePath <> None ->
            ignores_archguard before = true -> w1 = w)
        /\ cli_init.ensureGitignore w1 = (None, w1)).
Proof.
  intros Hread err w1 E before.
  assert (Hdone : forall (w0 : World P) content,
    files (fs w0) !! cli_init.gitignorePath = Some content ->
    (cli_init.gitignorePath ∉ unreadable (fs w0)) ->
    ignores_archguard content = true ->
    cli_init.ensureGitignore w0 = (None, w0)).
  { intros w0 content Hfile Hr Hin. unfold cli_init.ensureGitignore, os_ReadFile.
    rewrite Hfile. destruct (decide (cli_init.gitignorePath ∈ unreadable (fs w0)));
      [contradiction|].
    fold (ignores_archguard content). now rewrite Hin. }
  assert (Hsame : w1 = w -> err = None ->
    files (fs w) !! cli_init.gitignorePath <> None /\ ignores_archguard before = true ->
    (forall other, other <> cli_init.gitignorePath ->
       files (fs w1) !! other = files (fs w) !! other)
    /\ (exists added,
          default "" (files (fs w1) !! cli_init.gitignorePath) = before +:+ added)
    /\ (err <> None ->
        stdout w1 = stdout w
        /\ (fst (os_OpenFile_append (fs w) cli_init.gitignorePath) <> None -> w1 = w))
    /\ (err = None ->
        (exists added,
           files (fs w1) !! cli_init.gitignorePath = Some (before +:+ added)
           /\ ignores_archguard (before +:+ added) = true)
        /\ (files (fs w) !! cli_init.gitignorePath <> None ->
            ignores_archguard before = true -> w1 = w)
        /\ cli_init.ensureGitignore w1 = (None, w1))).
  { intros -> -> [Hex Hin]. split; [reflexivity|].
    split; [exists ""; now rewrite append_nil_r|].
    split; [intros Hn; now contradiction Hn|]. intros _.
    destruct (files (fs w) !! cli_init.gitignorePath) as [content|] eqn:Hfile;
      [|now contradiction Hex].
    subst before. cbn [default from_option id] in *.
    split; [exists ""; now rewrite append_nil_r|]. split; [reflexivity|].
    now apply (Hdone w content). }
  assert (Happ : forall content,
    before = content -> ignores_archguard content = false ->
    (fst (os_OpenFile_append (fs w) cli_init.gitignorePath) <> None -> w1 = w)
    /\ (err <> None -> stdout w1 = stdout w)
    /\ unreadable (fs w1) = unreadable (fs w)
    /\ ((err <> None /\ w1 = w)
        \/ exists added,
             files (fs w1)
             = (<[cli_init.gitignorePath := content +:+ added]> (files (fs w)))
             /\ (err = None -> ignores_archguard (content +:+ added) = true)) ->
    (forall other, other <> cli_init.gitignorePath ->
       files (fs w1) !! other = files (fs w) !! other)
    /\ (exists added,
          default "" (files (fs w1) !! cli_init.gitignorePath) = before +:+ added)
    /\ (err <> None ->
        stdout w1 = stdout w
        /\ (fst (os_OpenFile_append (fs w) cli_init.gitignorePath) <> None -> w1 = w))
    /\ (err = None ->
        (exists added,
           files (fs w1) !! cli_init.gitignorePath = Some (before +:+ added)
           /\ ignores_archguard (before +:+ added) = true)
        /\ (files (fs w) !! cli_init.gitignorePath <> None ->
            ignores_archguard before = true -> w1 = w)
        /\ cli_init.ensureGitignore w1 = (None, w1))).
  { intros content Hb Hno (Hopen & Hout & Hr & Hfiles). rewrite Hb.
    destruct Hfiles as [[Herr ->]|(added & Hf & Hline)].
    - split; [reflexivity|]. split; [exists ""; now rewrite append_nil_r, <- Hb|].
      split; [intros Hn; split; [now apply Hout|exact Hopen]|].
      intros Hnone. now contradiction Herr.
    - split; [intros other Ho; rewrite Hf; now apply lookup_insert_ne|].
      split; [exists added; now rewrite Hf, lookup_insert_eq|].
      split; [intros Hn; split; [now apply Hout|exact Hopen]|].
      intros Hnone. specialize (Hline Hnone).
      split; [exists added; now rewrite Hf, lookup_insert_eq|].
      split; [intros _ Hyes; congruence|].
      apply (Hdone w1 (content +:+ added)); [now rewrite Hf, lookup_insert_eq| |exact Hline].
      now rewrite Hr. }
  revert E. unfold cli_init.ensureGitignore at 1. unfold os_ReadFile.
  destruct (files (fs w) !! cli_init.gitignorePath) as [content|] eqn:Hfile.
  - destruct (decide (cli_init.gitignorePath ∈ unreadable (fs w))); [contradiction|].
    fold (ignores_archguard content).
    destruct (ignores_archguard content) eqn:Hin.
    + intros [= <- <-].
      apply Hsame; [reflexivity|reflexivity|split; [discriminate|exact Hin]].
    + intros E. apply (Happ content); [reflexivity|exact Hin|].
      apply (ensureGitignore_appends w content err w1); [now rewrite Hfile|exact E].
  - change (strings_Split "" nl) with [""]. cbn [existsb].
    change (String.eqb (strings_TrimSpace "") cli_init.archguardEntry) with false.
    cbn [orb]. intros E. apply (Happ ""); [reflexivity|reflexivity|].
    apply (ensureGitignore_appends w "" err w1); [now rewrite Hfile|exact E].
Qed.
End Gitignore.

(* ===================================================================== *)
(** * Package git: the lines of a command's output                        *)
(* ===================================================================== *)

(** The line feed. *)
Definition LF : ascii := ascii_of_nat 10.

Lemma has_char_drop (c : ascii) (k : nat) (s : string) :
  has_char c s = false -> has_char c (drop_str k s) = false.
Proof.
  revert s. induction k as [|k IH]; intros [|x s] Hc; cbn [drop_str]; try assumption.
  cbn [has_char] in Hc. apply orb_false_iff in Hc as [_ Hc]. now apply IH.
Qed.

Lemma has_char_substring (c : ascii) (k : nat) (s : string) :
  has_char c s = false -> has_char c (substring 0 k s) = false.
Proof.
  revert s. induction k as [|k IH]; intros [|x s] Hc; cbn [substring has_char];
    try reflexivity.
  cbn [has_char] in Hc. apply orb_false_iff in Hc as [-> Hc]. now apply IH.
Qed.

Lemma TrimLeft_has_char (c : ascii) (n : nat) (s : string) :
  has_char c s = false -> has_char c (TrimLeft_fuel n s) = false.
Proof.
  revert s. induction n as [|n IH]; intros s Hc; cbn [TrimLeft_fuel]; [assumption|].
  destruct (leading_space s); [|assumption]. now apply IH, has_char_drop.
Qed.

Lemma TrimRight_has_char (c : ascii) (n : nat) (s : string) :
  has_char c s = false -> has_char c (TrimRight_fuel n s) = false.
Proof.
  revert s. induction n as [|n IH]; intros s Hc; cbn [TrimRight_fuel]; [assumption|].
  destruct (trailing_space s); [|assumption]. now apply IH, has_char_substring.
Qed.

Lemma TrimSpace_has_char (c : ascii) (s : string) :
  has_char c s = false -> has_char c (strings_TrimSpace s) = false.
Proof. intros Hc. unfold strings_TrimSpace. now apply TrimRight_has_char, TrimLeft_has_char. Qed.

Lemma nonempty_lines_Forall (c : ascii) (lines : list string) :
  Forall (fun l => has_char c l = false) lines ->
  Forall (fun l => l <> "" /\ has_char c l = false) (git.nonempty_lines lines).
Proof.
  induction 1 as [|l lines Hl _ IH]; cbn [git.nonempty_lines]; [constructor|].
  destruct (String.eqb (strings_TrimSpace l) "") eqn:He; cbn [negb]; [assumption|].
  constructor; [|assumption]. split.
  - now apply String.eqb_neq.
  - now apply TrimSpace_has_char.
Qed.

(** A name that [runGitLines] hands on as it is: not empty, on one line,
    without white space at either end. *)
Definition clean_name (n : string) : Prop :=
  n <> "" /\ has_char LF n = false
  /\ leading_space n = None /\ trailing_space n = None.

Lemma TrimSpace_clean (n : string) : clean_name n -> strings_TrimSpace n = n.
Proof.
  intros (Hne & _ & Hl & Ht). unfold strings_TrimSpace.
  destruct n as [|c n]; [contradiction|]. cbn [String.length TrimLeft_fuel].
  rewrite Hl. cbn [String.length TrimRight_fuel]. now rewrite Ht.
Qed.

Lemma nonempty_lines_clean (names : list string) :
  Forall clean_name names -> git.nonempty_lines names = names.
Proof.
  induction 1 as [|n names Hn _ IH]; cbn [git.nonempty_lines]; [reflexivity|].
  rewrite (TrimSpace_clean n Hn), IH.
  destruct Hn as (Hne & _). apply String.eqb_neq in Hne. now rewrite Hne.
Qed.

(** No white-space rune but the line feed itself has the byte of the line
    feed, and none is empty. *)
Lemma rune_LF (r : string) :
  In r space_runes -> r <> "" /\ (r = nl \/ has_char LF r = false).
Proof.
  assert (Hall : forallb (fun r => negb (String.eqb r "")
                            && (String.eqb r nl || negb (has_char LF r)))
                   space_runes = true) by (vm_compute; reflexivity).
  rewrite List.forallb_forall in Hall. intros Hr. specialize (Hall r Hr).
  apply andb_true_iff in Hall as [Hne Hlf]. split.
  - apply negb_true_iff in Hne. now apply String.eqb_neq.
  - apply orb_true_iff in Hlf as [Hlf|Hlf].
    + left. now apply String.eqb_eq.
    + right. now apply negb_true_iff.
Qed.

Lemma nl_in_runes : In nl space_runes.
Proof. vm_compute. auto 10. Qed.

Lemma leading_space_none (s : string) :
  (forall r, In r space_runes -> String.prefix r s = false) -> leading_space s = None.
Proof.
  intros Hall. unfold leading_space.
  destruct (List.find _ space_runes) as [r|] eqn:Hf; [|reflexivity].
  apply List.find_some in Hf as [Hin Hp]. now rewrite (Hall r Hin) in Hp.
Qed.

Lemma trailing_space_none (s : string) :
  (forall r, In r space_runes -> strings_HasSuffix s r = false) ->
  trailing_space s = None.
Proof.
  intros Hall. unfold trailing_space.
  destruct (List.find _ space_runes) as [r|] eqn:Hf; [|reflexivity].
  apply List.find_some in Hf as [Hin Hp]. now rewrite (Hall r Hin) in Hp.
Qed.

Lemma leading_space_line (n rest : string) :
  clean_name n -> leading_space (n +:+ String LF rest) = None.
Proof.
  intros (Hne & Hlf & Hl & _). apply leading_space_none. intros r Hr.
  destruct (String.prefix r (n +:+ String LF rest)) eqn:Hp; [|reflexivity].
  exfalso. apply prefix_iff in Hp as [b Hb].
  destruct (rune_LF r Hr) as [_ [->|Hc]].
  - destruct n as [|c n]; [contradiction|]. unfold nl in Hb. step_append.
    injection Hb as -> _. cbn [has_char] in Hlf. unfold LF in Hlf.
    now rewrite Ascii.eqb_refl in Hlf.
  - destruct (prefix_split r b n rest LF (eq_sym Hb) Hc) as [b' Hn].
    unfold leading_space in Hl.
    apply (List.find_none _ _ Hl r) in Hr. 
    assert (Hp : String.prefix r n = true) by (apply prefix_iff; now exists b').
    now rewrite Hp in Hr.
Qed.

Lemma snoc_inv (a b : string) (c d : ascii) :
  a +:+ String c "" = b +:+ String d "" -> a = b /\ c = d.
Proof.
  revert b. induction a as [|x a IH]; intros [|y b] E; step_append.
  - now injection E as ->.
  - injection E as _ E. destruct b; step_append; discriminate E.
  - injection E as _ E. destruct a; step_append; discriminate E.
  - injection E as -> E. apply IH in E as [-> ->]. now split.
Qed.

Lemma string_snoc (s : string) : s <> "" -> exists s' d, s = s' +:+ String d "".
Proof.
  induction s as [|c s IH]; [contradiction|]. intros _.
  destruct s as [|c' s].
  - now exists "", c.
  - destruct IH as (s' & d & E); [discriminate|]. exists (String c s'), d.
    step_append. now rewrite E.
Qed.

Lemma has_char_last (c : ascii) (s : string) : has_char c (s +:+ String c "") = true.
Proof.
  rewrite has_char_app. cbn [has_char]. now rewrite Ascii.eqb_refl, orb_true_r.
Qed.

(** A white-space rune at the end of a text that ends in a line feed is
    the line feed. *)
Lemma suffix_of_line (x r : string) :
  In r space_runes -> strings_HasSuffix (x +:+ nl) r = true -> r = nl.
Proof.
  intros Hr Hs. destruct (rune_LF r Hr) as [Hne [->|Hc]]; [reflexivity|].
  exfalso. apply HasSuffix_iff in Hs as [a Ha].
  destruct (string_snoc r Hne) as (r' & d & ->).
  unfold nl in Ha. rewrite <- append_assoc in Ha. apply snoc_inv in Ha as [_ Hd].
  subst d. fold LF in Hc. now rewrite has_char_last in Hc.
Qed.

Lemma trailing_space_line (x : string) : trailing_space (x +:+ nl) = Some nl.
Proof.
  unfold trailing_space.
  destruct (List.find _ space_runes) as [r|] eqn:Hf.
  - apply List.find_some in Hf as [Hin Hs]. f_equal. now apply (suffix_of_line x).
  - exfalso.
    pose proof (List.find_none _ _ Hf nl nl_in_runes) as Hno. cbv beta in Hno.
    assert (Hyes : strings_HasSuffix (x +:+ nl) nl = true)
      by (apply HasSuffix_iff; now exists x).
    now rewrite Hyes in Hno.
Qed.

(** The text between two line feeds, or before the first: after [body],
    which is empty or ends in a line feed. *)
Lemma trailing_space_last (body n : string) :
  body = "" \/ (exists b, body = b +:+ nl) ->
  clean_name n -> trailing_space (body +:+ n) = None.
Proof.
  intros Hbody (Hne & Hlf & _ & Ht). apply trailing_space_none. intros r Hr.
  pose proof (List.find_none _ _ Ht r Hr) as Hno. cbv beta in Hno.
  destruct Hbody as [->|[b ->]]; [now rewrite append_nil_l|].
  destruct (strings_HasSuffix ((b +:+ nl) +:+ n) r) eqn:Hs; [|reflexivity].
  exfalso. apply HasSuffix_iff in Hs as [a Ha].
  rewrite append_assoc in Ha. unfold nl in Ha. step_append. symmetry in Ha.
  destruct (rune_LF r Hr) as [_ [->|Hc]].
  - destruct (string_snoc n Hne) as (n' & d & ->).
    unfold nl in Ha.
    change (b +:+ String (ascii_of_nat 10) (n' +:+ String d ""))
      with (b +:+ (String (ascii_of_nat 10) "" +:+ n') +:+ String d "") in Ha.
    rewrite <- !append_assoc in Ha. apply snoc_inv in Ha as [_ Hd]. subst d.
    fold LF in Hlf. now rewrite has_char_last in Hlf.
  - destruct (suffix_split a r b n LF Ha Hc) as [y' Hn].
    assert (Hyes : strings_HasSuffix n r = true)
      by (apply HasSuffix_iff; now exists y').
    now rewrite Hyes in Hno.
Qed.

(** The names, one per line. *)
Fixpoint lines_of_names (n : string) (rest : list string) : string :=
  match rest with
  | [] => n
  | m :: rest' => n +:+ String LF (lines_of_names m rest')
  end.

(** What git prints for the names: each followed by a line feed. *)
Definition printed (names : list string) : string :=
  String.concat "" (map (fun n => n +:+ nl) names).

Lemma printed_join (n : string) (rest : list string) :
  printed (n :: rest) = lines_of_names n rest +:+ nl.
Proof.
  unfold printed. revert n. induction rest as [|m rest IH]; intros n.
  - cbn [map String.concat lines_of_names]. reflexivity.
  - change (map (fun n => n +:+ nl) (n :: m :: rest))
      with ((n +:+ nl) :: map (fun n => n +:+ nl) (m :: rest)).
    rewrite concat_empty_cons, IH. cbn [lines_of_names].
    rewrite !append_assoc. reflexivity.
Qed.

Lemma join_lines_last (n : string) (rest : list string) :
  Forall clean_name (n :: rest) ->
  exists body last,
    lines_of_names n rest = body +:+ last /\ clean_name last
    /\ (body = "" \/ exists b, body = b +:+ nl).
Proof.
  revert n. induction rest as [|m rest IH]; intros n Hall.
  - exists "", n. cbn [lines_of_names]. inversion Hall; subst. auto.
  - inversion Hall as [|? ? Hn Hrest]; subst.
    destruct (IH m Hrest) as (body & last & E & Hlast & Hbody).
    exists (n +:+ nl +:+ body), last. cbn [lines_of_names]. rewrite E.
    split; [now rewrite !append_assoc|]. split; [assumption|]. right.
    destruct Hbody as [->|[b ->]].
    + exists n. now rewrite append_nil_r.
    + exists (n +:+ nl +:+ b). now rewrite !append_assoc.
Qed.

Lemma join_lines_head (n : string) (rest : list string) (tail : string) :
  exists t, lines_of_names n rest +:+ String LF tail = n +:+ String LF t.
Proof.
  destruct rest as [|m rest]; cbn [lines_of_names]; [now exists tail|].
  eexists. rewrite append_assoc. step_append. reflexivity.
Qed.

Lemma TrimSpace_printed (n : string) (rest : list string) :
  Forall clean_name (n :: rest) ->
  strings_TrimSpace (printed (n :: rest)) = lines_of_names n rest.
Proof.
  intros Hall. rewrite printed_join. unfold strings_TrimSpace.
  assert (Hn : clean_name n) by now inversion Hall.
  assert (Hlead : leading_space (lines_of_names n rest +:+ nl) = None).
  { destruct (join_lines_head n rest "") as [t Ht]. fold LF in Ht.
    unfold nl. fold LF. rewrite Ht. now apply leading_space_line. }
  assert (Hleft : forall k, TrimLeft_fuel k (lines_of_names n rest +:+ nl)
                            = lines_of_names n rest +:+ nl).
  { intros [|k]; cbn [TrimLeft_fuel]; [reflexivity|]. now rewrite Hlead. }
  rewrite Hleft. rewrite append_length. cbn [String.length nl].
  rewrite Nat.add_1_r. cbn [TrimRight_fuel]. rewrite trailing_space_line.
  rewrite append_length. cbn [String.length nl].
  replace (String.length (lines_of_names n rest) + 1 - 1)%nat
    with (String.length (lines_of_names n rest)) by lia.
  rewrite substring_append.
  destruct (join_lines_last n rest Hall) as (body & last & E & Hlast & Hbody).
  assert (Htrail : trailing_space (lines_of_names n rest) = None)
    by (rewrite E; now apply trailing_space_last).
  destruct (String.length (lines_of_names n rest)); cbn [TrimRight_fuel];
    [reflexivity|]. now rewrite Htrail.
Qed.

Lemma Split_join_lines (n : string) (rest : list string) :
  Forall clean_name (n :: rest) ->
  strings_Split (lines_of_names n rest) nl = n :: rest.
Proof.
  unfold nl. rewrite Split_byte. fold LF. revert n.
  induction rest as [|m rest IH]; intros n Hall; cbn [lines_of_names];
    inversion Hall as [|? ? (_ & Hlf & _) Hrest]; subst.
  - now rewrite split_byte_whole.
  - rewrite split_byte_app, split_byte_whole, (IH m Hrest) by assumption.
    reflexivity.
Qed.

Section GitLines.
Context `{git.git_exec}.

(** X24. [runGitLines]. A failing git command gives the error with the
    arguments. Otherwise no entry returned is empty or holds a line feed;
    and when git prints names that have no white space at either end, each
    followed by a line feed, the result is exactly those names, in order
    (none at all for an empty output). *)
Theorem runGitLines_names (args : list string) :
  (forall err, git.git_Output args = Err err ->
     git.runGitLines args
     = Err ("git command failed " +:+ fmt_v_strings args +:+ ": " +:+ err))
  /\ (forall out, git.git_Output args = Ok out ->
        exists lines,
          git.runGitLines args = Ok lines
          /\ Forall (fun l => l <> "" /\ has_char LF l = false) lines)
  /\ (forall names, Forall clean_name names ->
        git.git_Output args = Ok (printed names) ->
        git.runGitLines args = Ok names).
Proof.
  unfold git.runGitLines. repeat split.
  - now intros err ->.
  - intros out ->. eexists. split; [reflexivity|].
    apply nonempty_lines_Forall. unfold nl. rewrite Split_byte.
    now apply split_byte_pieces.
  - intros names Hall ->. f_equal. destruct names as [|n rest]; [reflexivity|].
    rewrite TrimSpace_printed, Split_join_lines by assumption.
    now apply nonempty_lines_clean.
Qed.
End GitLines.

(* ===================================================================== *)
(** * The orchestrator on the tests' doubles                              *)
(* ===================================================================== *)

Section RunMore_instances.
Import llm_types.
#[local] Existing Instance doubles.json.
#[local] Existing Instance doubles.paths.
#[local] Existing Instance doubles.fmts.
#[local] Existing Instance doubles.byte_tokens.
#[local] Existing Instance doubles.MockContentProvider_ContentProvider.
#[local] Existing Instance doubles.MockTruncationProvider_ContentProvider.
#[local] Existing Instance llm_mock.MockProvider_Provider.
#[local] Existing Instance sorting.stable.

(** X12 on the drift-detection test. *)
Lemma worker_embedding_capped_witness :
  exists n w' evs,
    analysis.worker fixtures.drift_engine context_Background "service.py" drift_world
    = Returns (n, w')
    /\ trace w' = trace drift_world ++ evs
    /\ (calls is_embed evs <= 1)%nat
    /\ forall text, In (EvCreateEmbedding text) evs ->
         len text <= 6000
         /\ exists content mode w1,
              analysis.fetchContext fixtures.drift_engine "service.py" drift_world
              = Returns (content, mode, None, w1)
              /\ text = embedding_cap
                          (embedding_source fixtures.drift_engine "service.py" content
                             (fs w1)).
Proof.
  apply (worker_embedding_capped fixtures.drift_engine context_Background
           "service.py" drift_world).
  unfold sane_ceiling. cbn. lia.
Defined.

(** The engine of the drift-detection test with a verdict cache. *)
Definition caching_engine : analysis.Engine doubles.MockContentProvider :=
  {| analysis.Config := fixtures.config_with "" 0 "";
     analysis.Store := fixtures.store_go;
     analysis.Content := fixtures.service_py;
     analysis.Debug := false; analysis.CI := false;
     analysis.Cache := Some cache_dir |}.

Definition ignored_content : string := "// content ignored by mock".

(** X13 on that engine: the violation is judged once and then read from
    the cache. *)
Lemma check_hit_cached_witness :
  exists sb1 w2,
    analysis.check_hit caching_engine context_Background "service.py" ignored_content
      ("", 0, drift_world) hit_go
    = (sb1, (if Violation go_verdict then int_add 0 1 else 0), w2)
    /\ analysis.cache_lookup caching_engine (fs w2)
         (analysis.cache_key caching_engine (index.ADRptr hit_go) ignored_content)
       = Some go_verdict
    /\ forall sb' lv', exists sb2,
         analysis.check_hit caching_engine context_Background "service.py"
           ignored_content (sb', lv', w2) hit_go
         = (sb2, (if Violation go_verdict then int_add lv' 1 else lv'), w2).
Proof.
  set (w1 := snd (llm.AnalyzeDrift context_Background
                    (index.Content (index.ADRptr hit_go)) ignored_content "service.py"
                    (analysis.effective_system_prompt caching_engine) drift_world)).
  assert (Hj : llm.AnalyzeDrift context_Background
                 (index.Content (index.ADRptr hit_go)) ignored_content "service.py"
                 (analysis.effective_system_prompt caching_engine) drift_world
               = (Ok go_verdict, w1)) by (vm_compute; reflexivity).
  assert (Hreach : reaches_judge caching_engine "service.py" ignored_content
                     (fs drift_world) hit_go) by (repeat split).
  destruct (check_hit_cached caching_engine context_Background "service.py"
              ignored_content hit_go cache_dir "" 0 drift_world w1 go_verdict
              (match json_Marshal_AnalysisResult go_verdict with
               | Ok d => d | Err _ => "" end)
              Hreach eq_refl Hj)
    as (sb1 & w2 & Hfirst & _ & _ & Hlook & Hagain).
  - apply not_elem_of_empty.
  - apply not_elem_of_empty.
  - reflexivity.
  - vm_compute. reflexivity.
  - exists sb1, w2. split; [exact Hfirst|]. split; [exact Hlook|exact Hagain].
Defined.

Definition ignoring_content : string :=
  "// archguard-ignore: 0001" +:+ nl +:+ "import python_library".

(** X14 on a file that carries the directive for the ADR of the test. *)
Lemma check_hit_suppressed_witness :
  analysis.suppressed ignoring_content (index.ADRptr hit_go) = true
  /\ exists sb',
       analysis.check_hit fixtures.drift_engine context_Background "service.py"
         ignoring_content ("", 0, drift_world) hit_go
       = (sb', 0, drift_world).
Proof.
  apply (check_hit_suppressed fixtures.drift_engine context_Background "service.py"
           ignoring_content "// " (nl +:+ "import python_library") hit_go "" 0
           drift_world).
  - reflexivity.
  - vm_compute. discriminate.
Defined.

(** An engine that excludes the vendored sources. *)
Definition vendor_config : config.Config :=
  {| config.Version := "1";
     config.LLM := config.LLM (fixtures.config_with "" 0 "");
     config.VectorStore_ := config.VectorStore_ (fixtures.config_with "" 0 "");
     config.Analysis_ := {| config.ADRPath := "./docs/arch";
                            config.AcceptedStatuses := ["Accepted"];
                            config.ExcludePatterns := ["vendor/**"];
                            config.MaxConcurrency := 0 |};
     config.IndexFile := "" |}.

Definition vendor_engine : analysis.Engine doubles.MockContentProvider :=
  fixtures.engine_of vendor_config fixtures.store_go
    {| doubles.Files := [("vendor/lib.py", "import python_library")] |} false.

(** X15 on that engine: its one file is excluded and the run is clean,
    although the provider would report a violation. *)
Lemma Run_excluded_witness :
  analysis.Run vendor_engine context_Background drift_world
  = Returns (None, drift_world).
Proof.
  destruct (Run_excluded vendor_engine context_Background drift_world
              ["vendor/lib.py"]) as [_ T]; [reflexivity|].
  apply T. repeat constructor.
Defined.

(** X5 on the same engine. *)
Lemma shouldExclude_patterns_witness :
  analysis.shouldExclude vendor_engine "vendor/lib.py" = true.
Proof.
  apply (proj1 (proj2 (shouldExclude_patterns vendor_engine "vendor/lib.py"))
           "vendor/" "lib.py").
  - now left.
  - reflexivity.
Defined.

(** A provider whose embedding service is down. *)
Definition embed_down : llm_mock.MockProvider :=
  {| llm_mock.EmbedFunc := Some (fun _ => Err "embedding service down");
     llm_mock.ChatFunc := None; llm_mock.EmbeddingDim := 0;
     llm_mock.chat_calls := 0 |}.

Definition down_world : World llm_mock.MockProvider :=
  fixtures.world_of embed_down empty_FS.

(** X16 on that provider: the file is reported and the run succeeds. *)
Lemma worker_fails_open_witness :
  exists w2,
    analysis.worker fixtures.drift_engine context_Background "service.py" down_world
    = Returns (0, w2)
    /\ trace w2 = [EvCreateEmbedding ignored_content]
    /\ stdout w2
       = "Error generating embedding for service.py: embedding service down" +:+ nl
    /\ analysis.Run fixtures.drift_engine context_Background down_world
       = Returns (None, w2).
Proof.
  pose proof (worker_fails_open fixtures.drift_engine context_Background
                "service.py" down_world) as (_ & T2 & T3).
  destruct (T2 ignored_content "full" down_world "embedding service down" embed_down)
    as (w2 & Hw & Ht & _ & _ & Hout); try reflexivity.
  exists w2. split; [exact Hw|]. split; [exact Ht|]. split; [exact Hout|].
  apply T3; [exact Hw|reflexivity|reflexivity].
Defined.

(** X18 on the store of the drift-detection test, searched with the
    embedding of its ADR. *)
Lemma Search_thresholds_witness :
  (forall h, In h [hit_go] ->
     In (index.ADRptr h) (index.ADRs fixtures.store_go)
     /\ index.Score h
        = index.cosineSimilarity (llm_mock.default_embedding 1536)
            (index.Embedding (index.ADRptr h))
     /\ F64.leb fixtures.f64_zero (index.Score h) = true
     /\ F64.is_nan (index.Score h) = false
     /\ (length (index.Embedding (index.ADRptr h))
         <> length (llm_mock.default_embedding 1536) ->
         index.Score h = F64.zero /\ F64.leb fixtures.f64_zero F64.zero = true))
  /\ (F64.is_nan fixtures.f64_zero = true -> [hit_go] = []).
Proof.
  apply (Search_thresholds fixtures.store_go (llm_mock.default_embedding 1536)
           fixtures.f64_zero 3 [hit_go]).
  vm_compute. reflexivity.
Defined.
End RunMore_instances.

Section Tokenizer_instance.
#[local] Existing Instance doubles.json.
#[local] Existing Instance doubles.paths.
#[local] Existing Instance doubles.fmts.
#[local] Existing Instance stand_ins.no_tokens.
#[local] Existing Instance doubles.MockTruncationProvider_ContentProvider.
#[local] Existing Instance llm_mock.MockProvider_Provider.
#[local] Existing Instance sorting.stable.

(** The truncation test with a ceiling of two tokens. *)
Definition tight_engine : analysis.Engine doubles.MockTruncationProvider :=
  fixtures.engine_of (fixtures.config_with "gpt-3.5-turbo" 2 "") fixtures.store_go
    {| doubles.Content := fixtures.three_lines |} false.

(** X17 on that engine, without a tokenizer: eight bytes are kept. *)
Lemma fetchContext_without_tokenizer_witness :
  exists w1,
    trace w1 = trace truncation_world /\ fs w1 = fs truncation_world
    /\ provider w1 = provider truncation_world
    /\ analysis.fetchContext tight_engine "test.go" truncation_world
       = Returns ("Line1" +:+ nl +:+ "Li", "truncated", None, w1)
    /\ len ("Line1" +:+ nl +:+ "Li") = 8.
Proof.
  destruct (fetchContext_without_tokenizer tight_engine "test.go" truncation_world
              fixtures.three_lines "unknown encoding cl100k_base")
    as (w1 & Ht & Hf & Hp & Hcut).
  - unfold sane_ceiling. cbn. lia.
  - reflexivity.
  - reflexivity.
  - exists w1. split; [exact Ht|]. split; [exact Hf|]. split; [exact Hp|].
    exact Hcut.
Defined.
End Tokenizer_instance.

(* ===================================================================== *)
(** * The index and git on the stand-ins                                  *)
(* ===================================================================== *)

Section Index_instances.
#[local] Existing Instance doubles.json_store.
#[local] Existing Instance doubles.fmts.
#[local] Existing Instance stand_ins.walking_paths.
#[local] Existing Instance stand_ins.slash_paths.
#[local] Existing Instance stand_ins.ascii_fold.
#[local] Existing Instance stand_ins.flat_yaml.
#[local] Existing Instance stand_ins.store_writer.
#[local] Existing Instance stand_ins.two_tracked.
#[local] Existing Instance llm_mock.MockProvider_Provider.

Definition use_go_frontmatter : string :=
  nl +:+ "title: Use Go" +:+ nl +:+ "status: accepted" +:+ nl.

Definition use_go_body : string :=
  nl +:+ "All services must be Go." +:+ nl +:+ "---" +:+ nl +:+ "No exceptions.".

Definition use_go_md : string := "---" +:+ use_go_frontmatter +:+ "---" +:+ use_go_body.

Definition draft_md : string :=
  "---" +:+ nl +:+ "title: Use Rust" +:+ nl +:+ "status: Proposed" +:+ nl +:+ "---"
    +:+ nl +:+ "Maybe.".

(** A directory with an accepted ADR, a proposed one and a text file. *)
Definition adr_tree : FS :=
  {| files := {[ "./docs/arch/0001-use-go.md" := use_go_md;
                 "./docs/arch/0002-use-rust.md" := draft_md;
                 "./docs/arch/notes.txt" := "not an ADR" ]};
     unreadable := ∅; unwritable := ∅; torn := ∅ |}.

(** A directory whose one ADR is only proposed. *)
Definition draft_tree : FS :=
  {| files := {[ "./docs/arch/0002-use-rust.md" := draft_md ]};
     unreadable := ∅; unwritable := ∅; torn := ∅ |}.

(** X20 on the accepted ADR: the body keeps its own [---]. *)
Lemma ParseADR_frontmatter_witness :
  exists a,
    adr.ParseADR adr_tree "./docs/arch/0001-use-go.md" "./docs/arch" = Ok a
    /\ index.Content a = use_go_body
    /\ index.Title a = "Use Go" /\ index.Status a = "accepted"
    /\ index.ID a = "0001".
Proof.
  destruct (ParseADR_frontmatter adr_tree "./docs/arch/0001-use-go.md" "./docs/arch"
              use_go_md eq_refl) as (_ & _ & T).
  destruct (T use_go_frontmatter use_go_body eq_refl eq_refl) as [_ T'].
  destruct (T' _ eq_refl) as (a & Hp & Hc & Ht & Hs & _ & _ & Hid & _).
  exists a. split; [exact Hp|]. split; [exact Hc|]. split; [exact Ht|].
  split; [exact Hs|]. apply (Hid "0001" "use-go.md"); reflexivity.
Defined.

(** X8 on that directory. *)
Lemma CalculateHash_markdown_only_witness :
  index.CalculateHash adr_tree "./docs/arch" "nomic-embed-text"
  = (hex_EncodeToString
       (sha256.Sum ("nomic-embed-text"
                    +:+ hashed_bytes adr_tree (filepath_Walk adr_tree "./docs/arch"))),
     None).
Proof.
  apply (proj1 (CalculateHash_markdown_only adr_tree "./docs/arch" "nomic-embed-text")).
  vm_compute. repeat constructor.
Defined.

Definition adr_world : World llm_mock.MockProvider :=
  fixtures.world_of fixtures.python_violation adr_tree.

(** X21 on that directory: one record, for the accepted ADR, with the
    embedding of the mock. *)
Lemma BuildIndex_result_witness :
  exists s1 w1,
    store.BuildIndex index.NewStore context_Background "./docs/arch"
      "nomic-embed-text" ["Accepted"] adr_world = (None, s1, w1)
    /\ fs w1 = fs adr_world
    /\ index.ModelName s1 = "nomic-embed-text"
    /\ index.CalculateHash adr_tree "./docs/arch" "nomic-embed-text"
       = (index.Hash s1, None)
    /\ map index.ID (index.ADRs s1) = ["0001"]
    /\ index.Dim s1 = 1536.
Proof.
  set (r := store.BuildIndex index.NewStore context_Background "./docs/arch"
              "nomic-embed-text" ["Accepted"] adr_world).
  assert (E : r = (None, snd (fst r), snd r)) by (vm_compute; reflexivity).
  destruct (BuildIndex_result index.NewStore context_Background "./docs/arch"
              "nomic-embed-text" ["Accepted"] adr_world _ _ _ E) as (Hfs & _ & T).
  destruct (T eq_refl) as (Hm & Hh & _ & _ & _).
  exists (snd (fst r)), (snd r). split; [exact E|]. split; [exact Hfs|].
  split; [exact Hm|]. split; [exact Hh|]. split; vm_compute; reflexivity.
Defined.

Definition index_cfg : config.Config := fixtures.config_with "" 0 "".

Definition draft_world : World llm_mock.MockProvider :=
  fixtures.world_of fixtures.python_violation draft_tree.

Definition empty_index : index.Store :=
  {| index.ADRs := [];
     index.Hash := fst (index.CalculateHash draft_tree "./docs/arch" "nomic-embed-text");
     index.ModelName := "nomic-embed-text"; index.Dim := 0 |}.

(** X19 on an empty tree: the index is written, the temporary file is gone
    and [Load] reads the store back. *)
Lemma Save_atomic_witness :
  exists fs1 data,
    store.Save empty_index empty_FS index_path = (None, fs1)
    /\ files fs1 !! index_path = Some data
    /\ files fs1 !! (index_path +:+ ".tmp") = None
    /\ index.Load index.NewStore fs1 index_path "nomic-embed-text" 0
         (index.Hash empty_index) = (None, empty_index).
Proof.
  set (r := store.Save empty_index empty_FS index_path).
  assert (E : r = (None, snd r)) by (vm_compute; reflexivity).
  destruct (proj2 (Save_atomic empty_index empty_FS index_path) _ E)
    as (data & Hm & Hp & Ht & _ & Hload).
  exists (snd r), data. split; [exact E|]. split; [exact Hp|]. split; [exact Ht|].
  apply (Hload index.NewStore).
  - apply not_elem_of_empty.
  - injection Hm as <-. vm_compute. reflexivity.
Defined.

(** X22 on the directory with the proposed ADR: the index has no record,
    its dimension is 0, and the check that follows accepts it for the
    configured dimension 0. *)
Lemma runIndex_then_Load_witness :
  exists w1,
    store.runIndex index_cfg index_path draft_world = (None, w1)
    /\ index.Load index.NewStore (fs w1) index_path "nomic-embed-text" 0
         (fst (index.CalculateHash (fs w1) "./docs/arch" "nomic-embed-text"))
       = (None, empty_index).
Proof.
  set (r := store.runIndex index_cfg index_path draft_world).
  assert (E : r = (None, snd r)) by (vm_compute; reflexivity).
  pose proof (runIndex_then_Load index_cfg index_path draft_world) as T.
  cbv zeta in T. destruct (T _ _ E) as [_ T'].
  destruct (T' eq_refl) as (s & w2 & data & Hb & Hm & _ & _ & Hload).
  assert (Hs : snd (fst (store.BuildIndex index.NewStore context_Background
                    (config.ADRPath (config.Analysis_ index_cfg))
                    (config.VS_Model (config.VectorStore_ index_cfg))
                    (config.AcceptedStatuses (config.Analysis_ index_cfg)) draft_world))
               = empty_index) by (vm_compute; reflexivity).
  rewrite Hb in Hs. change (s = empty_index) in Hs.
  subst s.
  assert (Hd : data = match stand_ins.MarshalIndent_Store empty_index with
                      | Ok d => d
                      | Err _ => ""
                      end).
  { change (store.json_MarshalIndent_Store empty_index)
      with (stand_ins.MarshalIndent_Store empty_index) in Hm.
    now rewrite Hm. }
  subst data.
  exists (snd r). split; [exact E|].
  assert (Hsame : index.CalculateHash (fs (snd r))
                    (config.ADRPath (config.Analysis_ index_cfg))
                    (config.VS_Model (config.VectorStore_ index_cfg))
                  = index.CalculateHash (fs draft_world)
                      (config.ADRPath (config.Analysis_ index_cfg))
                      (config.VS_Model (config.VectorStore_ index_cfg)))
    by (vm_compute; reflexivity).
  assert (Hjson : index.json_Unmarshal_Store
                    match stand_ins.MarshalIndent_Store empty_index with
                    | Ok d => d
                    | Err _ => ""
                    end index.NewStore = (empty_index, None))
    by (vm_compute; reflexivity).
  exact (Hload (not_elem_of_empty _) Hjson Hsame).
Defined.
End Index_instances.

Section Git_instances.
#[local] Existing Instance stand_ins.two_tracked.

(** X24 on a repository with two tracked files, and on a command that git
    refuses. *)
Lemma runGitLines_names_witness :
  git.GetAllTrackedFiles = Ok ["main.go"; "docs/adr/0001-use-go.md"]
  /\ git.runGitLines ["status"]
     = Err ("git command failed [status]: exit status 128").
Proof.
  destruct (runGitLines_names ["ls-files"]) as (_ & _ & T).
  destruct (runGitLines_names ["status"]) as (Terr & _ & _).
  split.
  - apply T; [|reflexivity].
    repeat constructor; try discriminate; reflexivity.
  - apply Terr. reflexivity.
Defined.

(** A work tree whose [.gitignore] does not end in a line feed. *)
Definition node_tree : FS :=
  {| files := {[ ".gitignore" := "node_modules" ]};
     unreadable := ∅; unwritable := ∅; torn := ∅ |}.

Definition node_world : World unit :=
  {| provider := tt; fs := node_tree; clock := 0; stdout := ""; trace := [] |}.

(** The same tree on a disk that takes one more byte of [.gitignore]. *)
Definition jammed_tree : FS :=
  {| files := {[ ".gitignore" := "node_modules" ]};
     unreadable := ∅;
     unwritable := {[ ".gitignore" ]};
     torn := {[ ".gitignore" := 1%nat ]} |}.

Definition jammed_world : World unit :=
  {| provider := tt; fs := jammed_tree; clock := 0; stdout := ""; trace := [] |}.

(** X23 on that tree: the entry goes on a line of its own, and the second
    call changes nothing; on the jammed disk the call fails after the line
    feed has been written, and prints nothing. *)
Lemma ensureGitignore_idempotent_witness :
  (exists w1,
    cli_init.ensureGitignore node_world = (None, w1)
    /\ files (fs w1) !! cli_init.gitignorePath
       = Some ("node_modules" +:+ nl +:+ ".archguard/" +:+ nl)
    /\ cli_init.ensureGitignore w1 = (None, w1))
  /\ (exists err w1,
        cli_init.ensureGitignore jammed_world = (Some err, w1)
        /\ files (fs w1) !! cli_init.gitignorePath = Some ("node_modules" +:+ nl)
        /\ stdout w1 = stdout jammed_world).
Proof.
  split.
  - set (r := cli_init.ensureGitignore node_world).
    assert (E : r = (None, snd r)) by (vm_compute; reflexivity).
    pose proof (ensureGitignore_idempotent node_world (not_elem_of_empty _) _ _ E)
      as T.
    cbv zeta in T. destruct T as (_ & _ & _ & T).
    destruct (T eq_refl) as (_ & _ & Hagain).
    exists (snd r). split; [exact E|]. split; [|exact Hagain].
    vm_compute. reflexivity.
  - set (r := cli_init.ensureGitignore jammed_world).
    assert (E : r = (Some "write .gitignore: no space left on device", snd r))
      by (vm_compute; reflexivity).
    pose proof (ensureGitignore_idempotent jammed_world (not_elem_of_empty _) _ _ E)
      as T.
    cbv zeta in T. destruct T as (_ & _ & T & _).
    exists "write .gitignore: no space left on device", (snd r).
    split; [exact E|]. split; [vm_compute; reflexivity|].
    apply T. discriminate.
Defined.
End Git_instances.
